(* ===== verification/_CoqProject ===== *)
-Q . S2P
Prelude.v
GoLib.v
Floats.v
GoHeap.v
Sha256.v
Api.v
Labels.v
Annotations.v
Policy.v
Unstructured.v
Render.v
Json.v
Conflict.v
Backoff.v
Inventory.v
Status.v
Telemetry.v
Drift.v
Transport.v
Engine.v
EngineSafety.v
EngineCorrect.v
EngineProgress.v
Revocations.v
EngineWorld.v
Payloads.v
Satisfiable.v
Webhook.v
Discovery.v
DeepCopy.v
ProviderStart.v
Triggers.v
Request.v
RequestWorld.v
RequestTriggers.v
EndToEnd.v
Cluster.v
SpokeRBAC.v
Credentials.v
SpokeAuth.v
Main.v
Wirer.v
Hooks.v
WirerProgress.v
Shutdown.v
Wiring.v
