(* ===== verification/Prelude.v ===== *)
(** * k8s-r8r: a verification development of the replication operator

    The operator (Go, under src/) copies Secrets and ConfigMaps of a hub cluster
    to namespaces of target clusters (spokes) as annotations on the source request
    and ReplicationPolicy objects permit. Its parts, and the files that model them:

    - The contract of the annotations, internal/annotations/annotations.go:
      Annotations. Policy evaluation, effective options and revocations,
      internal/policy/{policy,options}.go: Policy. The API types they use,
      api/v1alpha1/*_types.go, as values, with metadata, finalizer and condition
      helpers as the interface [MetaAPI]: Api. Label selectors as the interface
      [LabelsAPI]: Labels. The same types as they are in memory, with the generated
      deep copies of zz_generated.deepcopy.go, the scheme of groupversion_info.go and
      the [Clone] of a cluster record: DeepCopy, over GoHeap.
    - The replication engine, internal/engine: Unstructured (object trees and their
      JSON), Render (render.go: replica, denylist, canonical payload, hash), Json
      (that the canonical text can be read back), Conflict (conflict.go), Backoff,
      Inventory (inventory.go, Go slices with their array, so that appending in place
      is visible), Status, Drift, Transport, Engine (reconciler.go, the whole of
      [Reconcile]), Triggers (reconciler.go, the indexes, map functions and hooks of
      [SetupWithManager], drift.go's lookup). EngineSafety, EngineCorrect,
      EngineProgress, Revocations, Payloads hold its theorems, EngineWorld a concrete
      world.
    - Metrics with their descriptors, gauges, event limiter and readiness,
      internal/telemetry: Telemetry.
    - The admission webhook, internal/webhook: Satisfiable ([jointlySatisfiable]) and
      Webhook ([Handle] and the checks).
    - Discovery of the target clusters, internal/discovery and its ClusterAPI
      provider: Discovery (records, registry, informer handlers, negotiation) and
      ProviderStart (factory, options, [Subscribe] and [Start]).
    - The request controller, internal/controller/request: Request, RequestTriggers
      ([SetupWithManager], predicate, trigger channels), RequestWorld (a concrete hub).
    - Access to the spokes, internal/cluster: Cluster (Module Tracker: manager.go's
      connectivity; Module Rotator: token.go; Module Bootstrap: bootstrap.go),
      SpokeRBAC (what a bootstrap leaves on a spoke, and what RBAC makes of it),
      Credentials (credentials.go and the bootstrap attempt that composes the three)
      and SpokeAuth (the TokenRequest minter and cmd/main.go's [rotatingAuth]).
    - The command, cmd/main.go: Main (Module Kinds: the kind allowlist; Module Flags:
      the flag types), Wirer (the [spokeWirer] together with manager.go's [Manager]),
      Hooks (the manager's hooks, runtime factory and probe), WirerProgress, Shutdown
      (the end of the process) and Wiring ([main]).
    - EndToEnd composes the request controller with the engine.

    Names are the source's. Prelude holds Go's integers at their width ([int64],
    [int32] wrap), state-passing computations with their rules, sorting and shared
    automation; GoLib the functions of Go's strings, slices and strconv that the
    operator calls, on byte strings; Floats how binary64 arithmetic rounds; GoHeap a
    store of arrays with slices and pointers into it; Sha256 is crypto/sha256.

    ** How the parts interact in the model

    [ProviderStart.life_step] turns what the informer delivers into events;
    [Wirer.Handle] consumes them, and the bootstrap it starts ends in the manager's
    [Register] ([Credentials.bootstrap] is its network part, [Cluster.Bootstrap] what
    it does on the spoke, [Main.parseAllowedKinds] the scope it grants), with a
    config whose every request goes through [SpokeAuth.RoundTrip].
    [Request.Reconcile] reads the inventory, calls [Annotations.Parse] and
    [Policy.Evaluate] and writes Replications; [Engine.Reconcile] reads a Replication
    and its source, evaluates policy again, and converges every slot through
    [Transport], using Render, Conflict, Backoff, Inventory, Status, Telemetry and
    Drift. Triggers and RequestTriggers say which event runs which of the two. Engine
    and request controller run in a state monad over a class of hub operations whose
    state is arbitrary: every answer of an API server or of a spoke is possible at
    every call. Each call, event and increment is appended to a trace, and the safety
    theorems are about every act of the trace and the acts before it. Wirer is a
    labelled transition system ([step], [reaches]): the event goroutine, each
    bootstrap, the manager's start and each lifecycle and runtime take steps in any
    order, a step being what the code does under one lock or between two waits.
    Shutdown adds the context that all of them derive theirs from, and Hooks what the
    steps fire: the manager's hooks, which are Triggers' [onClusterReady] and
    [onClusterGone] on the drift detector of Drift.

    The values of Api are immutable. [DeepCopy.deep_copies_are_isolated] is why they
    may be: the copies that controller-runtime hands out by [DeepCopyObject] share
    nothing with its cache, so that a reconciler that changes its copy changes no
    other. In DeepCopy a struct of slices and pointers [reads] as its fields, nil
    apart from empty, from which [ReplicationSpec_of] and the like make the values of
    Api.

    ** What the theorems show

    - Engine, safety (EngineSafety has the invariant, EngineCorrect the theorems):
      no write or deletion of a foreign object without the consent of both keys; a
      replica is written only after its slot is in the acknowledged inventory; each
      write is licensed by a policy of the same run; inventory entries and the
      finalizer go only with evidence that nothing is left; what is sent is a
      well-formed payload of the source that was read (Payloads). Progress
      (EngineProgress): slots are isolated, converged replicas are untouched.
      Revocations: exactly the recorded replicas of denied, still requested targets are
      marked, to retain or to delete as the governing policies say, and the garbage
      collection keeps the first and plans to delete the second.
    - Data: hash and rendering, and that equal hashes mean equal contents or a
      collision (Json), garbage-collection plan, slices, status summary (in slot states,
      and in slots where none is reported twice) and stability, gauges and their labels, backoff and connectivity without overflow;
      every generated deep copy is deep, and so is [Clone] (DeepCopy).
    - Policy and contract: evaluation is the union of the policies, options are the
      ranked union, revocations are exact; the parser decides the contract and names
      every offender.
    - Webhook: a denial is sound for some requested namespace; the selector check never
      reports a false contradiction, and is exact without numeric requirements.
      Discovery: the events rebuild the fleet, version negotiation waits and
      settles rightly, also over the whole life of the provider (ProviderStart).
      Request controller: finalizer handshake, exact target resolution, settled
      requests cause no writes, names fit.
    - Triggers: source, policy, drift and cluster events wake exactly the
      Replications concerned; an inventory change is never lost; events that the
      predicate drops would change nothing, by the protocol of the finalizer. EndToEnd: the slots of the engine are
      the pairs that were requested and are permitted.
    - Access: the connectivity machine, with the time each state is entered, after any
      probes; every request to a spoke
      carries a token that is valid for another fifth of its lifetime, and the admin
      credential only mints, and only without a valid token; the kind flag gives three
      agreeing views, and on a spoke that no other hand touched the bootstrap binds the
      operator to exactly the RBAC it names, twice as once; flags round-trip; [main] starts the manager only fully wired.
    - Concurrency: under every interleaving the wirer's spokes are the ready Clusters
      with one live bootstrap each, entries of the manager are launched once, and,
      when removal does not race with registration, nothing is left running, every
      removal ends, and the drift detector holds the cache of every runtime that runs
      and only caches of registered clusters, nothing of a cluster being reported ready
      once it was reported gone (Hooks);
      once the process ends, everything ends, and [Start] returns.

    Where the code does something else than it says, an example shows it on a concrete
    input: [Status.duplicate_slot_churns], [Drift.lost_watch_reachable],
    [EngineWorld.steady_conflict_churns], [EngineWorld.revoked_slot_counted_twice],
    [Satisfiable.numeric_contradiction_missed], [SpokeRBAC.foreign_binding_kept], [Webhook.partial_request_denied],
    [Webhook.spurious_conflict_warning], [Discovery.recordsEqual_misses_a_change],
    [Cluster.Tracker.first_delay_uncapped], [Wirer.leaked_runtime],
    [Hooks.leaked_cache], [WirerProgress.removal_hangs], [RequestTriggers.controllerName_not_unique],
    [Shutdown.Start_returns_before_the_runtime].

    ** Parameters

    Code of other modules is a class with named laws, and a concrete instance shows
    that the laws hold together: label selectors ([LabelsAPI], [LabelsLaws]), metadata
    helpers ([MetaAPI], [MetaLaws]), unstructured accessors ([UnstructuredAPI],
    [UnstructuredLaws]), DNS validation, group-version parsing, the hub and spoke
    clients, the objects of a spoke ([SpokeRBAC.SpokeLaws]: one object per kind,
    namespace and name, and no other writer during a bootstrap), the hub's cache
    ([Triggers.ReaderLaws]), the TokenRequest client (a token
    is not empty and expires after its mint began), the kubeconfig parser, the
    metadata types of apimachinery with their own deep copies ([DeepCopy.MetaV1],
    [DeepCopy.MetaCopyLaws]). No law mentions the operator.

    ** Fuel

    Recursion is structural but for [GoLib.trim_front], [Sha256.blocks] and
    [Unstructured.json_chars], whose fuel is the length of the input, which every
    step shortens. Discovery's negotiation is a recursion on the list of answers the
    server gives; its theorem says what every finite list leads to. Transition systems
    have no fuel: termination is a measure that every step decreases
    ([WirerProgress.remaining], [Shutdown.left_to_do]).

    ** Not modelled

    What controller-runtime and client-go do with what they are given: watches,
    queues, caches, field indexes, informers, the webhook server, leader election; and
    the Prometheus registry. Between the arrays that one deep copy makes, the order of
    their addresses is not the code's; it does not show. test/e2e is test
    code. Log lines are left out. Locks make a step atomic; a data race inside a step
    is not expressible, and wall-clock time is an input. A reconcile of the engine asks
    discovery once per phase for all clusters ([Engine.readDiscovered]), not once per
    target; a turn of a lifecycle ([Wirer.turn]), from the probe's answer to the hooks,
    is one step; the gauges hold integers ([Telemetry.ReplicaCounts]). Of the RBAC
    objects SpokeRBAC keeps rules, references and subjects, and counts only bindings
    that name the operator's account itself, not the groups it is in. *)
From Corelib Require Export ssreflect.
From Stdlib Require Export ZArith Lia.
From stdpp Require Export base gmap sets list strings pretty sorting.

#[global] Open Scope general_if_scope.

Declare Scope r8r_scope.
Delimit Scope r8r_scope with r8r.

(** ** Go integers *)

#[local] Open Scope Z_scope.

(** [int64] is the value a Go [int64] (and [time.Duration]) holds after an
    operation whose mathematical result is [z]. *)
Definition int64 (z : Z) : Z := (z + 2 ^ 63) `mod` 2 ^ 64 - 2 ^ 63.

(** [int32] is the same for the [int32] counters of the status. *)
Definition int32 (z : Z) : Z := (z + 2 ^ 31) `mod` 2 ^ 32 - 2 ^ 31.

Definition Second : Z := 1000000000.
Definition Minute : Z := 60 * Second.
Definition Hour : Z := 60 * Minute.

#[local] Close Scope Z_scope.

(** ** State-passing computations *)

(** A computation that reads and writes a state [S] and returns an [A]. *)
Definition SM (S A : Type) : Type := S → A * S.

#[export] Instance SM_ret S : MRet (SM S) := λ A a s, (a, s).
#[export] Instance SM_bind S : MBind (SM S) :=
  λ A B f m s, let '(a, s') := m s in f a s'.

Definition sget {S} : SM S S := λ s, (s, s).
Definition sgets {S A} (f : S → A) : SM S A := λ s, (f s, s).
Definition smod {S} (f : S → S) : SM S unit := λ s, (tt, f s).

(** A Go [for _, x := range l] loop whose body returns a value per element. *)
Fixpoint forSM {S A B} (l : list A) (f : A → SM S B) : SM S (list B) :=
  match l with
  | [] => mret []
  | x :: l' => b ← f x; bs ← forSM l' f; mret (b :: bs)
  end.

(** A loop that threads an accumulator of its own. *)
Fixpoint foldSM {S A B} (f : B → A → SM S B) (b : B) (l : list A) : SM S B :=
  match l with
  | [] => mret b
  | x :: l' => b' ← f b x; foldSM f b' l'
  end.

(** [runs R m]: every run of [m] relates its initial and final states by [R]. *)
Definition runs {S A} (R : S → S → Prop) (m : SM S A) : Prop :=
  ∀ s, R s (m s).2.

(** [triple P m Q]: from a state satisfying [P], [m] ends with a result and a
    state that satisfy [Q]. *)
Definition triple {S A} (P : S → Prop) (m : SM S A) (Q : A → S → Prop) : Prop :=
  ∀ s, P s → Q (m s).1 (m s).2.

(** ** Stable insertion sort, for [slices.Sort] and [slices.SortFunc] *)

Section isort.
Context {A : Type} (le : A → A → bool).

Fixpoint isort_insert (x : A) (l : list A) : list A :=
  match l with
  | [] => [x]
  | y :: l' => if le x y then x :: y :: l' else y :: isort_insert x l'
  end.

Definition isort (l : list A) : list A := foldr isort_insert [] l.
End isort.

(** ** Lemmas on computations *)

Section sm_lemmas.
Context {S : Type}.

Lemma runs_ret {A} (R : S → S → Prop) `{!Reflexive R} (a : A) :
  runs R (mret a : SM S A).
Proof. intros s. reflexivity. Qed.

Lemma runs_bind {A B} (R : S → S → Prop) `{!Transitive R}
    (m : SM S A) (f : A → SM S B) :
  runs R m → (∀ a, runs R (f a)) → runs R (m ≫= f).
Proof.
  intros Hm Hf s. unfold mbind, SM_bind.
  specialize (Hm s). destruct (m s) as [a s'].
  etrans; [apply Hm | apply Hf].
Qed.

Lemma runs_gets {A} (R : S → S → Prop) `{!Reflexive R} (f : S → A) :
  runs R (sgets f).
Proof. intros s. reflexivity. Qed.

Lemma runs_forSM {A B} (R : S → S → Prop) `{!PreOrder R}
    (l : list A) (f : A → SM S B) :
  (∀ x, x ∈ l → runs R (f x)) → runs R (forSM l f).
Proof.
  induction l as [|x l IH]; intros H; simpl.
  - apply (runs_ret R).
  - apply (runs_bind R); [apply H; set_solver | intros b].
    apply (runs_bind R); [apply IH; intros; apply H; set_solver | intros bs].
    apply (runs_ret R).
Qed.

Lemma runs_foldSM {A B} (R : S → S → Prop) `{!PreOrder R}
    (f : B → A → SM S B) (b : B) (l : list A) :
  (∀ b x, x ∈ l → runs R (f b x)) → runs R (foldSM f b l).
Proof.
  revert b. induction l as [|x l IH]; intros b H; simpl.
  - apply (runs_ret R).
  - apply (runs_bind R); [apply H; set_solver | intros b'].
    apply IH. intros; apply H; set_solver.
Qed.

(** One turn of a loop, on a state. *)
Lemma forSM_cons {A B} (x : A) l (f : A → SM S B) s :
  forSM (x :: l) f s =
  let '(b, s1) := f x s in let '(bs, s2) := forSM l f s1 in (b :: bs, s2).
Proof. reflexivity. Qed.

Lemma triple_ret {A} (P : S → Prop) (Q : A → S → Prop) (a : A) :
  (∀ s, P s → Q a s) → triple P (mret a) Q.
Proof. intros H s Hs. by apply H. Qed.

Lemma triple_bind {A B} (P : S → Prop) (R : A → S → Prop) (Q : B → S → Prop)
    (m : SM S A) (f : A → SM S B) :
  triple P m R → (∀ a, triple (R a) (f a) Q) → triple P (m ≫= f) Q.
Proof.
  intros Hm Hf s Hs. unfold mbind, SM_bind.
  specialize (Hm s Hs). destruct (m s) as [a s']. by apply Hf.
Qed.

Lemma triple_conseq {A} (P P' : S → Prop) (Q Q' : A → S → Prop) (m : SM S A) :
  triple P' m Q' → (∀ s, P s → P' s) → (∀ a s, Q' a s → Q a s) → triple P m Q.
Proof. intros Hm HP HQ s Hs. by apply HQ, Hm, HP. Qed.

Lemma triple_forSM {A B} (I : list A → list B → S → Prop)
    (l : list A) (f : A → SM S B) :
  (∀ done x bs, triple (I done bs) (f x) (λ b, I (done ++ [x]) (bs ++ [b]))) →
  ∀ done bs, triple (I done bs) (forSM l f) (λ bs', I (done ++ l) (bs ++ bs')).
Proof.
  intros Hf. induction l as [|x l IH]; intros dn bs; simpl.
  - apply triple_ret. intros s. by rw !app_nil_r.
  - eapply triple_bind; [apply Hf | intros b].
    eapply triple_bind; [apply IH | intros bs'].
    apply triple_ret. intros s. by rw -!app_assoc.
Qed.
End sm_lemmas.

(** ** Lemmas on integers *)

#[local] Open Scope Z_scope.

Lemma int64_id z : - 2 ^ 63 ≤ z < 2 ^ 63 → int64 z = z.
Proof. intros H. unfold int64. rw Z.mod_small; lia. Qed.

Lemma int32_id z : - 2 ^ 31 ≤ z < 2 ^ 31 → int32 z = z.
Proof. intros H. unfold int32. rw Z.mod_small; lia. Qed.

Lemma int64_range z : - 2 ^ 63 ≤ int64 z < 2 ^ 63.
Proof.
  unfold int64. pose proof (Z.mod_pos_bound (z + 2 ^ 63) (2 ^ 64)). lia.
Qed.

#[local] Close Scope Z_scope.

(** ** Lemmas on lists *)

Lemma map_nil_iff {A B} (f : A → B) l : map f l = [] ↔ l = [].
Proof. by destruct l. Qed.

Lemma elem_of_map {A B} (f : A → B) l y : y ∈ map f l ↔ ∃ x, y = f x ∧ x ∈ l.
Proof. rw list_elem_of_fmap. naive_solver. Qed.

(** A list around one of its elements. *)
Lemma split_at {A} {l : list A} {i x} :
  l !! i = Some x → l = (take i l ++ x :: drop (S i) l)%list.
Proof. intros H. by rw take_drop_middle. Qed.

Lemma exists_snoc {A} (P : A → Prop) l y :
  (∃ x, x ∈ l ++ [y] ∧ P x) ↔ (∃ x, x ∈ l ∧ P x) ∨ P y.
Proof.
  setoid_rewrite elem_of_app. setoid_rewrite list_elem_of_singleton.
  split; [intros (x & [Hx| ->] & HP); eauto | intros [(x & Hx & HP)|HP]; eauto].
Qed.

Lemma forall_snoc {A} (P : A → Prop) l y :
  (∀ x, x ∈ l ++ [y] → P x) ↔ (∀ x, x ∈ l → P x) ∧ P y.
Proof.
  setoid_rewrite elem_of_app. setoid_rewrite list_elem_of_singleton.
  split; [intros H; split; eauto | intros [H1 H2] x [Hx| ->]; eauto].
Qed.

(** ** Lemmas on sorting *)

Section isort_lemmas.
Context {A : Type} (le : A → A → bool).

Lemma isort_insert_Permutation x l : isort_insert le x l ≡ₚ x :: l.
Proof.
  induction l as [|y l IH]; simpl; [done|].
  destruct (le x y); [done|]. rw IH. by constructor.
Qed.

Lemma isort_Permutation l : isort le l ≡ₚ l.
Proof.
  induction l as [|x l IH]; simpl; [done|].
  by rw isort_insert_Permutation IH.
Qed.

Lemma elem_of_isort x l : x ∈ isort le l ↔ x ∈ l.
Proof. by rw (isort_Permutation l). Qed.

Hypothesis le_total : ∀ x y, le x y = false → le y x = true.

Lemma isort_insert_Sorted x l :
  Sorted (λ a b, le a b = true) l →
  Sorted (λ a b, le a b = true) (isort_insert le x l).
Proof.
  induction 1 as [|y l Hl IH Hhd]; simpl; [by repeat constructor|].
  destruct (le x y) eqn:E; [by repeat constructor|].
  constructor; [done|]. destruct l as [|z l]; simpl; [by constructor; auto|].
  destruct (le x z); constructor; auto. by inversion Hhd.
Qed.

Lemma isort_Sorted l : Sorted (λ a b, le a b = true) (isort le l).
Proof.
  induction l as [|x l IH]; simpl; [constructor | by apply isort_insert_Sorted].
Qed.
End isort_lemmas.

(** ** Automation shared by the components *)

Create HintDb r8r.

(** [case_all] splits on every [match] or [if] of the goal, keeping equations. *)
Ltac case_all := repeat case_match; intros; simplify_eq/=.

(** [vm_refl] proves a closed equation by evaluating both sides once. *)
Ltac vm_refl := match goal with |- _ = ?b => vm_cast_no_check (eq_refl b) end.

(** [runs_tac] walks through the binds of a computation. *)
Ltac runs_step :=
  match goal with
  | |- runs _ (mret _) => apply runs_ret; apply _
  | |- runs _ (sgets _) => apply runs_gets; apply _
  | |- runs _ sget => intros ?; reflexivity
  | |- runs _ (_ ≫= _) => apply runs_bind; [apply _ | | intros ?]
  | |- runs _ (forSM _ _) => apply runs_forSM; [apply _ | intros ? ?]
  | |- runs _ (foldSM _ _ _) => apply runs_foldSM; [apply _ | intros ? ? ?]
  | |- runs _ (match ?x with _ => _ end) => destruct x eqn:?
  end.
Ltac runs_tac := repeat runs_step; eauto with r8r.
