(* ===== verification/GoLib.v ===== *)
(** The parts of the Go standard library the operator calls: strings as byte
    sequences ([strings], [slices] on strings), [strconv] quoting for the
    messages, and hexadecimal encoding. *)
From Stdlib Require Import Ascii.
From S2P Require Import Prelude.

#[local] Open Scope string_scope.

(** ** Bytes *)

Definition chr (n : nat) : ascii := ascii_of_nat n.
Definition ord (c : ascii) : nat := nat_of_ascii c.
Definition str1 (c : ascii) : string := String c "".

(** The double quote and the newline, which a string literal cannot hold. *)
Definition dq : string := str1 (chr 34).

Fixpoint string_of_list (l : list ascii) : string :=
  match l with [] => "" | c :: l' => String c (string_of_list l') end.

Fixpoint list_of_string (s : string) : list ascii :=
  match s with "" => [] | String c s' => c :: list_of_string s' end.

Definition srev (s : string) : string := string_of_list (rev (list_of_string s)).

(** ** Prefixes, suffixes *)

(** [cut_prefix p s]: what follows [p] in [s], when [s] starts with [p]. *)
Fixpoint cut_prefix (p s : string) : option string :=
  match p, s with
  | "", _ => Some s
  | String a p', String b s' => if decide (a = b) then cut_prefix p' s' else None
  | String _ _, "" => None
  end.

Definition has_prefix (s p : string) : bool :=
  match cut_prefix p s with Some _ => true | None => false end.

Definition has_suffix (s p : string) : bool := has_prefix (srev s) (srev p).

(** ** [strings.TrimSpace] *)

(** The UTF-8 encodings of the runes [unicode.IsSpace] accepts. *)
Definition space_runes : list string :=
  map (λ l, string_of_list (map chr l))
    [[9]; [10]; [11]; [12]; [13]; [32]; [194; 133]; [194; 160];
     [225; 154; 128];
     [226; 128; 128]; [226; 128; 129]; [226; 128; 130]; [226; 128; 131];
     [226; 128; 132]; [226; 128; 133]; [226; 128; 134]; [226; 128; 135];
     [226; 128; 136]; [226; 128; 137]; [226; 128; 138];
     [226; 128; 168]; [226; 128; 169]; [226; 128; 175]; [226; 129; 159];
     [227; 128; 128]].

(** The first of the encodings [es] that [s] starts with is dropped. *)
Fixpoint cut_any (es : list string) (s : string) : option string :=
  match es with
  | [] => None
  | e :: es' => match cut_prefix e s with Some s' => Some s' | None => cut_any es' s end
  end.

(** [fuel] bounds the number of runes dropped; the length of [s] is enough. *)
Fixpoint trim_front (fuel : nat) (es : list string) (s : string) : string :=
  match fuel with
  | 0 => s
  | S n => match cut_any es s with Some s' => trim_front n es s' | None => s end
  end.

Definition trim_left (s : string) : string := trim_front (String.length s) space_runes s.

Definition trim_right (s : string) : string :=
  srev (trim_front (String.length s) (map srev space_runes) (srev s)).

Definition TrimSpace (s : string) : string := trim_right (trim_left s).

(** [strings.TrimRight s cutset], for a cutset of one-byte runes. *)
Definition TrimRight (s : string) (cutset : list ascii) : string :=
  srev (trim_front (String.length s) (map str1 cutset) (srev s)).

(** ** [strings.Split], [strings.Cut], [strings.Join], [strings.ToLower] *)

Fixpoint Split (sep : ascii) (s : string) : list string :=
  match s with
  | "" => [""]
  | String c s' =>
      if decide (c = sep) then "" :: Split sep s'
      else match Split sep s' with
           | [] => [str1 c]
           | w :: ws => String c w :: ws
           end
  end.

(** [strings.Cut s sep]: before and after the first [sep], and whether there is one. *)
Fixpoint Cut (sep : ascii) (s : string) : string * string * bool :=
  match s with
  | "" => ("", "", false)
  | String c s' =>
      if decide (c = sep) then ("", s', true)
      else let '(b, a, f) := Cut sep s' in
           if f then (String c b, a, true) else (s, "", false)
  end.

Fixpoint Join (l : list string) (sep : string) : string :=
  match l with
  | [] => ""
  | [w] => w
  | w :: l' => w +:+ sep +:+ Join l' sep
  end.

(** ASCII letters are lowered; bytes above 127 are kept. Kinds and resource
    names are ASCII. *)
Definition lower (c : ascii) : ascii :=
  if ((65 <=? ord c) && (ord c <=? 90))%nat then chr (ord c + 32) else c.

Fixpoint ToLower (s : string) : string :=
  match s with "" => "" | String c s' => String (lower c) (ToLower s') end.

Definition ReplaceAll1 (old new : ascii) : string → string :=
  fix go s := match s with
              | "" => ""
              | String c s' => String (if decide (c = old) then new else c) (go s')
              end.

(** [s[:n]] *)
Fixpoint take_str (n : nat) (s : string) : string :=
  match n, s with
  | S n', String c s' => String c (take_str n' s')
  | _, _ => ""
  end.

(** ** [slices.Contains], [slices.Sort] *)

Definition contains {A} `{EqDecision A} (l : list A) (x : A) : bool :=
  bool_decide (x ∈ l).

Definition Sort (l : list string) : list string := isort String.leb l.

(** ** Formatting verbs *)

Definition hex_digit (n : nat) : ascii :=
  if (n <? 10)%nat then chr (48 + n) else chr (87 + n).

Definition hex_byte (c : ascii) : string :=
  String (hex_digit (ord c / 16)%nat) (str1 (hex_digit (ord c mod 16)%nat)).

(** [hex.EncodeToString] *)
Definition hex_encode (bs : list ascii) : string :=
  foldr (λ c acc, hex_byte c +:+ acc) "" bs.

Definition quote_byte (c : ascii) : string :=
  let n := ord c in
  let bs := str1 (chr 92) in
  if (n =? 34)%nat then bs +:+ dq
  else if (n =? 92)%nat then bs +:+ bs
  else if (n =? 7)%nat then bs +:+ "a"
  else if (n =? 8)%nat then bs +:+ "b"
  else if (n =? 12)%nat then bs +:+ "f"
  else if (n =? 10)%nat then bs +:+ "n"
  else if (n =? 13)%nat then bs +:+ "r"
  else if (n =? 9)%nat then bs +:+ "t"
  else if (n =? 11)%nat then bs +:+ "v"
  else if ((n <? 32) || (n =? 127))%nat then bs +:+ "x" +:+ hex_byte c
  else str1 c.

(** The [%q] verb. Bytes above 127 are printed as they are: the non-ASCII text
    that reaches a message is taken to be printable UTF-8. *)
Definition quote (s : string) : string :=
  dq +:+ foldr (λ c acc, quote_byte c +:+ acc) "" (list_of_string s) +:+ dq.

(** The [%d] verb. *)
Definition dec (z : Z) : string := pretty z.
Definition dec_nat (n : nat) : string := pretty (Z.of_nat n).

(** The [%v] verb on a [[]string]. *)
Definition fmt_strings (l : list string) : string := "[" +:+ Join l " " +:+ "]".

(** ** Lemmas *)

Lemma cut_prefix_Some p s r : cut_prefix p s = Some r ↔ s = p +:+ r.
Proof.
  revert s. induction p as [|a p IH]; intros s; simpl.
  - split; [by intros [= ->] | by intros ->].
  - destruct s as [|b s]; simpl; [by split|]. case_decide as Hab.
    + subst. rw IH. split; [by intros -> | by intros [= ->]].
    + split; [done|]. intros [= ??]. congruence.
Qed.

Lemma has_prefix_spec s p : has_prefix s p = true ↔ ∃ r, s = p +:+ r.
Proof.
  unfold has_prefix. destruct (cut_prefix p s) as [r|] eqn:E.
  - apply cut_prefix_Some in E. naive_solver.
  - split; [done|]. intros [r Hr]. apply cut_prefix_Some in Hr. congruence.
Qed.

Lemma has_prefix_app p r : has_prefix (p +:+ r) p = true.
Proof. apply has_prefix_spec. by exists r. Qed.

Lemma contains_true {A} `{EqDecision A} (l : list A) x : contains l x = true ↔ x ∈ l.
Proof. unfold contains. by rw bool_decide_eq_true. Qed.

Lemma contains_false {A} `{EqDecision A} (l : list A) x : contains l x = false ↔ x ∉ l.
Proof. unfold contains. by rw bool_decide_eq_false. Qed.

Lemma string_leb_total x y : String.leb x y = false → String.leb y x = true.
Proof.
  unfold String.leb. rw (String.compare_antisym y x).
  by destruct (String.compare x y).
Qed.

Lemma string_leb_cons a s b t :
  String.leb (String a s) (String b t) = true ↔
  (N_of_ascii a < N_of_ascii b)%N ∨ (a = b ∧ String.leb s t = true).
Proof.
  unfold String.leb. simpl. unfold Ascii.compare.
  destruct (N.compare_spec (N_of_ascii a) (N_of_ascii b)) as [He|Hl|Hg].
  - assert (a = b) as -> by (by rw -(ascii_N_embedding a) He ascii_N_embedding).
    split; [by right|]. intros [?|[_ ?]]; [lia|done].
  - split; [by left|done].
  - split; [done|]. intros [?|[-> _]]; lia.
Qed.

Lemma string_leb_trans x y z :
  String.leb x y = true → String.leb y z = true → String.leb x z = true.
Proof.
  revert y z. induction x as [|a x IH]; intros [|b y] [|c z]; try done.
  rw !string_leb_cons. intros [H1|[-> H1]] [H2|[-> H2]].
  - left. lia.
  - by left.
  - by left.
  - right. split; [done|]. by eapply IH.
Qed.

Lemma Sort_unique l l' : l ≡ₚ l' → Sort l = Sort l'.
Proof.
  intros Hp.
  assert (Transitive (λ a b, String.leb a b = true)) by (intros x y z; apply string_leb_trans).
  apply (Sorted_unique_strong (λ a b, String.leb a b = true)).
  - intros x y _ _. apply String.leb_antisym.
  - apply isort_Sorted, string_leb_total.
  - apply isort_Sorted, string_leb_total.
  - unfold Sort. by rw !isort_Permutation.
Qed.

Lemma Sort_Permutation l : Sort l ≡ₚ l.
Proof. apply isort_Permutation. Qed.

Lemma elem_of_Sort x l : x ∈ Sort l ↔ x ∈ l.
Proof. by rw (Sort_Permutation l). Qed.

Lemma Sort_Sorted l : Sorted (λ a b, String.leb a b = true) (Sort l).
Proof. apply isort_Sorted, string_leb_total. Qed.

Lemma string_app_assoc (a b c : string) : (a +:+ b) +:+ c = a +:+ (b +:+ c).
Proof. induction a as [|x a IH]; [done|]. exact (f_equal (String x) IH). Qed.

Lemma length_string_app s t :
  String.length (s +:+ t) = (String.length s + String.length t)%nat.
Proof. induction s as [|c s IH]; simpl; [done|]. by rw IH. Qed.

Lemma list_of_string_of_list l : list_of_string (string_of_list l) = l.
Proof. induction l as [|c l IH]; simpl; [done|]. by rw IH. Qed.

Lemma string_of_list_of_string s : string_of_list (list_of_string s) = s.
Proof. induction s as [|c s IH]; simpl; [done|]. by rw IH. Qed.

Lemma length_string_of_list l : String.length (string_of_list l) = length l.
Proof. induction l as [|c l IH]; simpl; [done|]. by rw IH. Qed.

Lemma length_list_of_string s : length (list_of_string s) = String.length s.
Proof. induction s as [|c s IH]; simpl; [done|]. by rw IH. Qed.

Lemma length_srev s : String.length (srev s) = String.length s.
Proof. unfold srev. by rw length_string_of_list length_rev length_list_of_string. Qed.

Lemma cut_any_length es s s' :
  cut_any es s = Some s' → (String.length s' ≤ String.length s)%nat.
Proof.
  induction es as [|e es IH]; simpl; [done|].
  destruct (cut_prefix e s) as [r|] eqn:E; [|done].
  intros [= <-]. apply cut_prefix_Some in E as ->. rw length_string_app. lia.
Qed.

Lemma trim_front_length n es s :
  (String.length (trim_front n es s) ≤ String.length s)%nat.
Proof.
  revert s. induction n as [|n IH]; intros s; simpl; [done|].
  destruct (cut_any es s) as [s'|] eqn:E; [|done].
  apply cut_any_length in E. specialize (IH s'). lia.
Qed.

Lemma TrimRight_length s cs : (String.length (TrimRight s cs) ≤ String.length s)%nat.
Proof.
  unfold TrimRight. rw length_srev.
  etrans; [apply trim_front_length|]. by rw length_srev.
Qed.

Lemma take_str_length n s : String.length (take_str n s) = (n `min` String.length s)%nat.
Proof.
  revert s. induction n as [|n IH]; intros [|c s]; simpl; [done..|]. by rw IH.
Qed.

Lemma string_app_nil_r (s : string) : s +:+ "" = s.
Proof. induction s as [|c s IH]; [done|]. exact (f_equal (String c) IH). Qed.

Lemma list_of_string_app s t : list_of_string (s +:+ t) = (list_of_string s ++ list_of_string t)%list.
Proof. induction s as [|c s IH]; [done|]. exact (f_equal (cons c) IH). Qed.

Lemma list_of_string_inj s t : list_of_string s = list_of_string t → s = t.
Proof. intros H. by rw -(string_of_list_of_string s) H string_of_list_of_string. Qed.

Lemma srev_app s t : srev (s +:+ t) = srev t +:+ srev s.
Proof.
  apply list_of_string_inj. unfold srev.
  by rw !list_of_string_of_list !list_of_string_app !list_of_string_of_list rev_app_distr.
Qed.

Lemma srev_srev s : srev (srev s) = s.
Proof. unfold srev. by rw list_of_string_of_list rev_involutive string_of_list_of_string. Qed.

(** A trimmed string starts with none of the encodings. *)
Definition untrimmed (es : list string) (s : string) : Prop := cut_any es s = None.

Lemma cut_any_None es s : cut_any es s = None ↔ ∀ e r, e ∈ es → s ≠ e +:+ r.
Proof.
  induction es as [|e es IH]; simpl; [set_solver|].
  destruct (cut_prefix e s) as [r|] eqn:E.
  - split; [done|]. intros H. apply cut_prefix_Some in E. destruct (H e r); [left|done].
  - rw IH. split; [|intros H e' r Hin; apply H; by right].
    intros H e' r [->|Hin]%elem_of_cons; [|by apply H].
    intros Hs. apply cut_prefix_Some in Hs. congruence.
Qed.

Lemma cut_any_Some es s s' : cut_any es s = Some s' → ∃ e, e ∈ es ∧ s = e +:+ s'.
Proof.
  induction es as [|e es IH]; simpl; [done|].
  destruct (cut_prefix e s) as [r|] eqn:E.
  - intros [= <-]. apply cut_prefix_Some in E. exists e. split; [left|done].
  - intros (e' & ? & ?)%IH. exists e'. split; [by right|done].
Qed.

Lemma trim_front_untrimmed n es s :
  (∀ e, e ∈ es → e ≠ "") → (String.length s ≤ n)%nat → untrimmed es (trim_front n es s).
Proof.
  intros Hes. unfold untrimmed. revert s. induction n as [|n IH]; intros s Hn; simpl.
  - destruct s; [|simpl in Hn; lia]. apply cut_any_None. intros e r He Hs.
    by destruct e; [destruct (Hes "")|].
  - destruct (cut_any es s) as [s'|] eqn:E; [|done]. apply IH.
    apply cut_any_Some in E as (e & He & ->). rw length_string_app in Hn.
    assert (1 ≤ String.length e)%nat; [|lia]. destruct e; [by destruct (Hes "")|simpl; lia].
Qed.

Lemma trim_front_suffix n es s : ∃ r, s = r +:+ trim_front n es s.
Proof.
  revert s. induction n as [|n IH]; intros s; simpl; [by exists ""|].
  destruct (cut_any es s) as [s'|] eqn:E; [|by exists ""].
  apply cut_any_Some in E as (e & _ & ->). destruct (IH s') as [r Hr].
  exists (e +:+ r). by rw string_app_assoc -Hr.
Qed.

(** On a trimmed string, trimming does nothing. *)
Lemma trim_front_id n es s : untrimmed es s → trim_front n es s = s.
Proof. unfold untrimmed. intros H. destruct n; simpl; [done|]. by rw H. Qed.

Lemma TrimRight_prefix s cs : ∃ r, s = TrimRight s cs +:+ r.
Proof.
  unfold TrimRight. destruct (trim_front_suffix (String.length s) (map str1 cs) (srev s)) as [r Hr].
  exists (srev r). by rw -srev_app -Hr srev_srev.
Qed.

Lemma TrimRight_end s cs p c : c ∈ cs → TrimRight s cs ≠ p +:+ str1 c.
Proof.
  intros Hc Hs. unfold TrimRight in Hs.
  assert (untrimmed (map str1 cs) (trim_front (String.length s) (map str1 cs) (srev s))) as Hu.
  { apply trim_front_untrimmed; [|by rw length_srev].
    intros e (x & -> & _)%elem_of_map. done. }
  apply cut_any_None with (e := str1 c) (r := srev p) in Hu; [|apply elem_of_map; eauto].
  apply Hu. rw -(srev_srev (trim_front _ _ _)) Hs srev_app. done.
Qed.

Lemma take_str_prefix n s : ∃ r, s = take_str n s +:+ r.
Proof.
  revert s. induction n as [|n IH]; intros s; [by exists s|].
  destruct s as [|c s]; simpl; [by exists ""|]. destruct (IH s) as [r Hr].
  exists r. exact (f_equal (String c) Hr).
Qed.

Lemma ToLower_length s : String.length (ToLower s) = String.length s.
Proof. induction s as [|c s IH]; simpl; [done|]. by rw IH. Qed.

Lemma hex_encode_length bs : String.length (hex_encode bs) = (2 * length bs)%nat.
Proof.
  induction bs as [|c bs IH]; simpl; [done|].
  rw IH. lia.
Qed.

Lemma Split_nonempty sep s : Split sep s ≠ [].
Proof.
  destruct s as [|c s]; simpl; [done|]. case_decide; [done|]. by destruct (Split sep s).
Qed.

(** Joining what [Split] returned gives the string back. *)
Lemma Split_plain sep s : sep ∉ list_of_string s → Split sep s = [s].
Proof.
  induction s as [|c s IH]; simpl; [done|]. rw not_elem_of_cons. intros [Hc Hs].
  rw decide_False // IH //.
Qed.

Lemma Split_app sep s t :
  sep ∉ list_of_string s → Split sep (s +:+ String sep t) = s :: Split sep t.
Proof.
  induction s as [|c s IH]; [intros _; simpl; by rw decide_True|].
  simpl. rw not_elem_of_cons. intros [Hc Hs]. rw decide_False //.
  change (String.append s (String sep t)) with (s +:+ String sep t). by rw IH.
Qed.

Lemma Join_Split sep s : Join (Split sep s) (str1 sep) = s.
Proof.
  induction s as [|c s IH]; [done|]. simpl. case_decide as Hc.
  - subst. pose proof (Split_nonempty sep s).
    destruct (Split sep s) as [|w ws] eqn:E; [done|].
    change (str1 sep +:+ Join (w :: ws) (str1 sep) = String sep s). by rw IH.
  - pose proof (Split_nonempty sep s).
    destruct (Split sep s) as [|w [|w' ws]] eqn:E; [done|..]; simpl in *; by rw -IH.
Qed.

(** ** Lemmas on [TrimSpace] *)

Lemma string_app_split a b e r :
  a +:+ b = e +:+ r → (∃ a', a = e +:+ a') ∨ (∃ e', e = a +:+ e' ∧ b = e' +:+ r).
Proof.
  revert e. induction a as [|c a IH]; intros e H; [right; by exists e|].
  destruct e as [|c' e]; [left; by exists (String c a)|].
  injection H as -> H. destruct (IH e H) as [[a' ->]|(e' & -> & ->)].
  - left. by exists a'.
  - right. by exists e'.
Qed.

Lemma untrimmed_prefix es s t : untrimmed es (s +:+ t) → untrimmed es s.
Proof.
  unfold untrimmed. rw !cut_any_None. intros H e r He ->. apply (H e (r +:+ t) He).
  apply string_app_assoc.
Qed.

Lemma untrimmed_empty es : (∀ e, e ∈ es → e ≠ "") → untrimmed es "".
Proof.
  intros Hes. apply cut_any_None. intros e r He Hr. by destruct e; [destruct (Hes "")|].
Qed.

(** A byte that no encoding contains stops the trimming. *)
Lemma untrimmed_stop es a c b :
  untrimmed es a → (∀ e, e ∈ es → c ∉ list_of_string e) → untrimmed es (a +:+ String c b).
Proof.
  unfold untrimmed. rw !cut_any_None. intros Ha Hes e r He Heq.
  apply string_app_split in Heq as [[a' ->]|(e' & -> & Hb)]; [by apply (Ha e a' He)|].
  destruct e' as [|c' e'].
  - apply (Ha (a +:+ "") "" He). by rw !string_app_nil_r.
  - injection Hb as <- _. apply (Hes _ He). rw list_of_string_app elem_of_app. right. left.
Qed.

Definition trimmed (s : string) : Prop :=
  untrimmed space_runes s ∧ untrimmed (map srev space_runes) (srev s).

Lemma space_runes_nonempty e : e ∈ space_runes → e ≠ "".
Proof.
  assert (forallb (λ e, negb (String.eqb e "")) space_runes = true) as H by reflexivity.
  intros He ->. by apply list_elem_of_In, (proj1 (List.forallb_forall _ _) H) in He.
Qed.

Lemma rev_runes_nonempty e : e ∈ map srev space_runes → e ≠ "".
Proof.
  intros (x & -> & Hx)%elem_of_map Hs. apply (space_runes_nonempty x Hx).
  by rw -(srev_srev x) Hs.
Qed.

Lemma TrimSpace_infix s : ∃ p q, s = p +:+ TrimSpace s +:+ q.
Proof.
  unfold TrimSpace, trim_right, trim_left.
  destruct (trim_front_suffix (String.length s) space_runes s) as [p Hp].
  set (t := trim_front (String.length s) space_runes s) in *.
  destruct (trim_front_suffix (String.length t) (map srev space_runes) (srev t)) as [q Hq].
  exists p, (srev q). by rw -srev_app -Hq srev_srev.
Qed.

Lemma TrimSpace_trimmed s : trimmed (TrimSpace s).
Proof.
  unfold TrimSpace, trim_right, trim_left.
  assert (untrimmed space_runes (trim_front (String.length s) space_runes s)) as Hu
    by (apply trim_front_untrimmed; [apply space_runes_nonempty|done]).
  set (t := trim_front (String.length s) space_runes s) in *. split.
  - destruct (trim_front_suffix (String.length t) (map srev space_runes) (srev t)) as [q Hq].
    apply (untrimmed_prefix _ _ (srev q)). by rw -srev_app -Hq srev_srev.
  - rw srev_srev. apply trim_front_untrimmed; [apply rev_runes_nonempty|by rw length_srev].
Qed.

Lemma TrimSpace_id s : trimmed s → TrimSpace s = s.
Proof.
  intros [H1 H2]. unfold TrimSpace, trim_left, trim_right.
  by rw (trim_front_id _ _ s H1) (trim_front_id _ _ (srev s) H2) srev_srev.
Qed.

Lemma TrimSpace_bytes s c : c ∈ list_of_string (TrimSpace s) → c ∈ list_of_string s.
Proof.
  destruct (TrimSpace_infix s) as (p & q & H). intros Hc. rw H !list_of_string_app.
  rw !elem_of_app. auto.
Qed.

Example TrimSpace_ex : TrimSpace "  a b	 " = "a b".
Proof. vm_compute. reflexivity. Qed.
