(* ===== verification/Floats.v ===== *)
(** Rounding of binary64 numbers, on the specification of floating point of the
    Standard Library: what a rounded result is off by. Used for the durations that
    the code computes in [float64]. *)
From Stdlib Require Import SpecFloat Zpow_facts.
From S2P Require Import Prelude.

#[local] Open Scope Z_scope.

(** ** Digits *)

Lemma digits2_pos_log2 p : Zpos (digits2_pos p) = Z.log2 (Zpos p) + 1.
Proof.
  assert (digits2_pos p = Pos.size p) as -> by (induction p; simpl; congruence).
  destruct p as [p|p|]; simpl; lia.
Qed.

Lemma digits2_pos_bounds p :
  2 ^ (Zpos (digits2_pos p) - 1) ≤ Zpos p < 2 ^ Zpos (digits2_pos p).
Proof.
  rewrite digits2_pos_log2. pose proof (Z.log2_spec (Zpos p) ltac:(lia)) as H.
  replace (Z.log2 (Zpos p) + 1 - 1) with (Z.log2 (Zpos p)) by lia.
  by rewrite Z.add_1_r.
Qed.

Lemma digits2_pos_unique p d : 2 ^ (d - 1) ≤ Zpos p < 2 ^ d → Zpos (digits2_pos p) = d.
Proof.
  intros [H1 H2]. rewrite digits2_pos_log2.
  assert (0 ≤ d - 1).
  { destruct (Z.lt_ge_cases (d - 1) 0); [|done].
    assert (2 ^ d ≤ 1); [|lia]. destruct (Z.lt_ge_cases d 0); [rewrite Z.pow_neg_r; lia|].
    replace d with 0 by lia. done. }
  assert (Z.log2 (Zpos p) = d - 1); [|lia].
  apply Z.log2_unique; [done|]. split; [done|]. by replace (Z.succ (d - 1)) with d by lia.
Qed.

Lemma digits2_pos_le p n : Zpos p < 2 ^ n → Zpos (digits2_pos p) ≤ n.
Proof.
  intros H. pose proof (digits2_pos_bounds p) as [Hl _].
  destruct (Z.le_gt_cases (Zpos (digits2_pos p)) n); [done|].
  destruct (Z.lt_ge_cases n 0) as [Hn|Hn]; [rewrite Z.pow_neg_r in H; lia|].
  assert (2 ^ n ≤ 2 ^ (Zpos (digits2_pos p) - 1)) by (apply Z.pow_le_mono_r; lia). lia.
Qed.

(** ** Shifting *)

Lemma shr_1_half mrs : 0 ≤ shr_m mrs → shr_m (shr_1 mrs) = shr_m mrs / 2.
Proof.
  destruct mrs as [m r s]. simpl. destruct m as [|[p|p|]|p]; simpl; try done; intros _.
  all: first [apply (Z.div_unique _ 2 _ 1); lia | apply (Z.div_unique _ 2 _ 0); lia].
Qed.

Lemma iter_shr q mrs :
  0 ≤ shr_m mrs → shr_m (SpecFloat.iter_pos shr_1 q mrs) = shr_m mrs / 2 ^ Zpos q.
Proof.
  assert (∀ a m n, 0 ≤ a → 0 ≤ m → 0 ≤ n → a / 2 ^ m / 2 ^ n = a / 2 ^ (m + n)) as Hdd.
  { intros a m n ???. rewrite Z.div_div; try lia. by rewrite Z.pow_add_r. }
  revert mrs. induction q as [q IH|q IH|]; intros mrs H; simpl.
  - assert (shr_m (shr_1 mrs) = shr_m mrs / 2 ^ 1) as H1 by by rewrite shr_1_half.
    assert (0 ≤ shr_m (shr_1 mrs)) by (rewrite H1; by apply Z.div_pos).
    assert (0 ≤ shr_m (SpecFloat.iter_pos shr_1 q (shr_1 mrs))) by (rewrite IH //; apply Z.div_pos; lia).
    rewrite IH // IH // H1 !Hdd; try lia. f_equal. f_equal. lia.
  - assert (0 ≤ shr_m (SpecFloat.iter_pos shr_1 q mrs)) by (rewrite IH //; apply Z.div_pos; lia).
    rewrite IH // IH // !Hdd; try lia. f_equal. f_equal. lia.
  - by rewrite shr_1_half.
Qed.

Lemma shr_spec m e n :
  0 ≤ m → 0 ≤ n →
  shr_m (shr (shr_record_of_loc m loc_Exact) e n).1 = m / 2 ^ n ∧
  (shr (shr_record_of_loc m loc_Exact) e n).2 = e + n.
Proof.
  intros Hm Hn. destruct n as [|p|p]; simpl; [|split; [|done]|lia].
  - split; [by rewrite Z.div_1_r|lia].
  - by apply (iter_shr p {| shr_m := m; shr_r := false; shr_s := false |}).
Qed.

Lemma shr_neg mrs e n : n ≤ 0 → shr mrs e n = (mrs, e).
Proof. destruct n; simpl; intros; try done; lia. Qed.

(** Rounding to nearest gives one of the two neighbours. *)
Lemma round_nearest_even_near q l : round_nearest_even q l = q ∨ round_nearest_even q l = q + 1.
Proof. destruct l as [|[]]; simpl; auto. by destruct (Z.even q); auto. Qed.

(** ** Rounding to 53 bits *)

Lemma fexp_normal d e : -1074 ≤ d + e - 53 → fexp 53 1024 (d + e) = d + e - 53.
Proof. unfold fexp, emin. lia. Qed.

(** The shift of [shr_fexp] for a mantissa of [d] digits. *)
Lemma shr_fexp_spec mx ex n :
  -1074 ≤ Zpos (digits2_pos mx) + ex - 53 →
  n = Z.max 0 (Zpos (digits2_pos mx) - 53) →
  let '(mrs, e) := shr_fexp 53 1024 (Zpos mx) ex loc_Exact in
  shr_m mrs = Zpos mx / 2 ^ n ∧ e = ex + n ∧ (n = 0 → loc_of_shr_record mrs = loc_Exact).
Proof.
  intros H ->. unfold shr_fexp, Zdigits2. rewrite fexp_normal //.
  replace (Zpos (digits2_pos mx) + ex - 53 - ex) with (Zpos (digits2_pos mx) - 53) by lia.
  destruct (Z.le_gt_cases (Zpos (digits2_pos mx)) 53).
  - rewrite shr_neg; [lia|]. rewrite Z.max_l; [lia|]. simpl shr_m. rewrite Z.div_1_r.
    split_and!; [done|lia|done].
  - rewrite Z.max_r; [lia|].
    pose proof (shr_spec (Zpos mx) ex (Zpos (digits2_pos mx) - 53)) as Hs.
    destruct (shr _ _ _) as [mrs e]. simpl in Hs. split_and!; [by apply Hs; lia..|lia].
Qed.

(** The quotient that keeps 53 digits, and its neighbour. *)
Lemma quotient_digits mx n :
  n = Z.max 0 (Zpos (digits2_pos mx) - 53) →
  0 < Zpos mx / 2 ^ n < 2 ^ 53 ∧ (0 < n → 2 ^ 52 ≤ Zpos mx / 2 ^ n) ∧
  Zpos mx / 2 ^ n * 2 ^ n ≤ Zpos mx < (Zpos mx / 2 ^ n + 1) * 2 ^ n.
Proof.
  intros ->. pose proof (digits2_pos_bounds mx) as [Hl Hu].
  destruct (Z.le_gt_cases (Zpos (digits2_pos mx)) 53).
  - rewrite Z.max_l; [lia|]. rewrite Z.div_1_r. change (2 ^ 0) with 1.
    assert (2 ^ Zpos (digits2_pos mx) ≤ 2 ^ 53) by (apply Z.pow_le_mono_r; lia). lia.
  - rewrite Z.max_r; [lia|]. set (n := Zpos (digits2_pos mx) - 53) in *.
    assert (0 < 2 ^ n) by (apply Z.pow_pos_nonneg; lia).
    replace (Zpos (digits2_pos mx) - 1) with (52 + n) in Hl by lia.
    replace (Zpos (digits2_pos mx)) with (53 + n) in Hu by lia.
    assert (2 ^ (52 + n) = 2 ^ 52 * 2 ^ n) by (apply Z.pow_add_r; lia).
    assert (2 ^ (53 + n) = 2 ^ 53 * 2 ^ n) by (apply Z.pow_add_r; lia).
    assert (2 ^ 52 ≤ Zpos mx / 2 ^ n) by (apply Z.div_le_lower_bound; lia).
    assert (Zpos mx / 2 ^ n < 2 ^ 53) by (apply Z.div_lt_upper_bound; lia).
    pose proof (Z.mul_div_le (Zpos mx) (2 ^ n)).
    pose proof (Z.mul_succ_div_gt (Zpos mx) (2 ^ n)). lia.
Qed.

(** Normalising a mantissa that is one of the neighbours loses nothing. *)
Lemma renormalise q e :
  Zpos q ≤ 2 ^ 53 → -1074 ≤ Zpos (digits2_pos q) + e - 53 →
  ∃ m k, 0 ≤ k ≤ 1 ∧ Zpos m * 2 ^ k = Zpos q ∧
    let '(mrs, e') := shr_fexp 53 1024 (Zpos q) e loc_Exact in shr_m mrs = Zpos m ∧ e' = e + k.
Proof.
  intros Hq He. destruct (decide (Zpos q = 2 ^ 53)) as [E|E].
  - assert (Zpos (digits2_pos q) = 54) as Hd by (apply digits2_pos_unique; rewrite E; lia).
    exists (2 ^ 52)%positive, 1. split_and!; [lia..|by rewrite E|].
    pose proof (shr_fexp_spec q e 1 He ltac:(lia)) as Hs.
    destruct (shr_fexp _ _ _ _ _) as [mrs e']. destruct Hs as (-> & -> & _). by rewrite E.
  - assert (Zpos (digits2_pos q) ≤ 53) as Hd by (apply digits2_pos_le; lia).
    exists q, 0. split_and!; [lia..|].
    pose proof (shr_fexp_spec q e 0 He ltac:(lia)) as Hs.
    destruct (shr_fexp _ _ _ _ _) as [mrs e']. destruct Hs as (-> & -> & _).
    by rewrite Z.div_1_r.
Qed.

(** Rounding a positive number of moderate size gives a finite number that is off
    by at most [2^-52] of it. *)
Lemma binary_round_aux_spec s mx ex :
  -1000 ≤ ex → ex + Zpos (digits2_pos mx) ≤ 900 →
  ∃ m e, binary_round_aux 53 1024 s (Zpos mx) ex loc_Exact = S754_finite s m e ∧
    ex ≤ e ≤ ex + Z.max 0 (Zpos (digits2_pos mx) - 53) + 1 ∧
    Z.abs (Zpos m * 2 ^ (e - ex) - Zpos mx) * 2 ^ 52 ≤ Zpos mx.
Proof.
  intros Hex Hd. remember (Z.max 0 (Zpos (digits2_pos mx) - 53)) as n eqn:En.
  pose proof (shr_fexp_spec mx ex n ltac:(lia) En) as Hs.
  destruct (quotient_digits mx n En) as (Hq & Hq52 & Hlo & Hhi).
  unfold binary_round_aux. destruct (shr_fexp 53 1024 (Zpos mx) ex loc_Exact) as [mrs e1].
  destruct Hs as (Hm & -> & Hexact). rewrite Hm. set (q := Zpos mx / 2 ^ n) in *.
  assert (∃ p, round_nearest_even q (loc_of_shr_record mrs) = Zpos p ∧
    (Zpos p = q ∨ Zpos p = q + 1 ∧ 0 < n)) as (p & -> & Hp).
  { exists (Z.to_pos (round_nearest_even q (loc_of_shr_record mrs))).
    destruct (decide (n = 0)) as [E0|E0].
    - rewrite Hexact //= Z2Pos.id; lia.
    - destruct (round_nearest_even_near q (loc_of_shr_record mrs)) as [-> | ->];
        rewrite Z2Pos.id; lia. }
  destruct (renormalise p (ex + n)) as (m & k & Hk & Hmk & Hs); [lia..|].
  destruct (shr_fexp 53 1024 (Zpos p) (ex + n) loc_Exact) as [mrs' e']. destruct Hs as (-> & ->).
  assert (ex + n + k <= 1024 - 53) as Hle by lia. apply Z.leb_le in Hle as ->.
  exists m, (ex + n + k). split_and!; [done|lia..|].
  replace (ex + n + k - ex) with (k + n) by lia. rewrite Z.pow_add_r ?Z.mul_assoc ?Hmk; [lia..|].
  assert (0 < 2 ^ n) by (apply Z.pow_pos_nonneg; lia).
  destruct (decide (n = 0)) as [E0|E0].
  - rewrite E0 in Hlo Hhi |- *. lia.
  - assert (2 ^ 52 * 2 ^ n ≤ q * 2 ^ n) by (apply Z.mul_le_mono_nonneg_r; lia).
    destruct Hp as [-> | [-> _]]; lia.
Qed.

(** ** Integers and products *)

Lemma iter_xO p n : Zpos (Pos.iter xO p n) = Zpos p * 2 ^ Zpos n.
Proof.
  induction n as [|n IH] using Pos.peano_ind; simpl; [lia|].
  rewrite Pos.iter_succ Pos2Z.inj_succ Z.pow_succ_r; lia.
Qed.

(** The conversion of an int64: exact up to [2^-52] of the integer. *)
Lemma binary_normalize_spec z :
  0 < z < 2 ^ 63 →
  ∃ m e, binary_normalize 53 1024 z 0 false = S754_finite false m e ∧ -52 ≤ e ≤ 64 ∧
    Z.abs (Zpos m * 2 ^ (e + 52) - z * 2 ^ 52) ≤ z.
Proof.
  intros Hz. destruct z as [|p|]; [lia| |lia]. unfold binary_normalize, binary_round.
  assert (Zpos (digits2_pos p) ≤ 63) as Hd by (apply digits2_pos_le; lia).
  assert (∃ mz ez, shl_align p 0 (fexp 53 1024 (Zpos (digits2_pos p) + 0)) = (mz, ez) ∧
    -52 ≤ ez ≤ 0 ∧ Zpos mz = Zpos p * 2 ^ (- ez)) as (mz & ez & -> & Hez & Hmz).
  { rewrite fexp_normal; [lia|]. unfold shl_align.
    replace (Zpos (digits2_pos p) + 0 - 53 - 0) with (Zpos (digits2_pos p) - 53) by lia.
    destruct (Zpos (digits2_pos p) - 53) as [|k|k] eqn:Ek;
      [exists p, 0; split_and!; lia || done..|].
    exists (Pos.iter xO p k), (Zneg k). rewrite iter_xO. split_and!; [|lia..|done].
    f_equal. lia. }
  assert (Zpos (digits2_pos mz) ≤ 115).
  { apply digits2_pos_le. assert (2 ^ (- ez) ≤ 2 ^ 52) by (apply Z.pow_le_mono_r; lia). nia. }
  destruct (binary_round_aux_spec false mz ez) as (m & e & -> & He & Ha); [lia..|].
  exists m, e. split_and!; [done|lia|lia|].
  replace (e + 52) with ((e - ez) + (ez + 52)) by lia. rewrite Z.pow_add_r; [lia..|].
  assert (2 ^ (- ez) * 2 ^ (ez + 52) = 2 ^ 52) as E
    by (rewrite -Z.pow_add_r; [lia..|]; f_equal; lia).
  assert (0 < 2 ^ (ez + 52)) as HS by (apply Z.pow_pos_nonneg; lia).
  set (S := 2 ^ (ez + 52)) in *.
  assert (Z.abs (Zpos m * (2 ^ (e - ez) * S) - Zpos p * 2 ^ 52)
          = Z.abs (Zpos m * 2 ^ (e - ez) - Zpos mz) * S) as -> by (rewrite Hmz; nia).
  assert (Zpos mz * S = Zpos p * 2 ^ 52) by (rewrite Hmz; nia). nia.
Qed.

(** The conversion back, as fixed-point numbers with 105 binary digits. *)
Definition floor_at (m : positive) (e : Z) : Z :=
  if 0 <=? e then Zpos m * 2 ^ e else Zpos m / 2 ^ (- e).

Lemma floor_at_spec m e :
  -105 ≤ e →
  floor_at m e * 2 ^ 105 ≤ Zpos m * 2 ^ (e + 105) < (floor_at m e + 1) * 2 ^ 105.
Proof.
  intros He. unfold floor_at. destruct (Z.leb_spec 0 e).
  - rewrite Z.pow_add_r; lia.
  - assert (2 ^ (e + 105) * 2 ^ (- e) = 2 ^ 105) as E
      by (rewrite -Z.pow_add_r; [lia..|]; f_equal; lia).
    assert (0 < 2 ^ (e + 105)) by (apply Z.pow_pos_nonneg; lia).
    assert (0 < 2 ^ (- e)) by (apply Z.pow_pos_nonneg; lia).
    pose proof (Z.mul_div_le (Zpos m) (2 ^ (- e))).
    pose proof (Z.mul_succ_div_gt (Zpos m) (2 ^ (- e))).
    rewrite -E. nia.
Qed.

(** An int64 times a fraction with 53 binary digits, in [float64]: off by at most
    [3 * 2^-52] of the product. *)
Lemma product_spec z c :
  0 < z < 2 ^ 63 → Zpos c < 2 ^ 53 →
  ∃ m e, SFmul 53 1024 (binary_normalize 53 1024 z 0 false) (S754_finite false c (-53))
           = S754_finite false m e ∧ -105 ≤ e ∧
    Z.abs (Zpos m * 2 ^ (e + 105) - z * Zpos c * 2 ^ 52) * 2 ^ 52 ≤ 3 * (z * Zpos c * 2 ^ 52).
Proof.
  intros Hz Hc. destruct (binary_normalize_spec z Hz) as (m1 & e1 & -> & He1 & Ha1).
  assert (0 < 2 ^ (e1 + 52)) as HS by (apply Z.pow_pos_nonneg; lia).
  assert (Zpos m1 < 2 ^ 120) as Hm1 by nia.
  assert (Zpos (digits2_pos (m1 * c)) ≤ 180) by (apply digits2_pos_le; nia).
  destruct (binary_round_aux_spec false (m1 * c) (e1 - 53)) as (m & e & Hr & He & Ha); [lia..|].
  exists m, e. split_and!; [exact Hr|lia|].
  replace (e + 105) with ((e - (e1 - 53)) + (e1 + 52)) by lia. rewrite Z.pow_add_r; [lia..|].
  set (S := 2 ^ (e1 + 52)) in *. set (V := Zpos m * 2 ^ (e - (e1 - 53))) in *.
  assert (Z.abs (V * S - Zpos m1 * Zpos c * S) * 2 ^ 52 ≤ Zpos m1 * Zpos c * S) as H2 by nia.
  assert (Z.abs (Zpos m1 * Zpos c * S - z * Zpos c * 2 ^ 52) ≤ z * Zpos c) as H1 by nia.
  rewrite Z.mul_assoc. fold V. lia.
Qed.
