(* ===== verification/GoHeap.v ===== *)
(** Go values that refer to shared memory: slices and pointers into a store of
    arrays, what they read as, what they reach, and what it takes to copy them
    deeply. A struct is built from its fields; a copy of it is deep when the copies
    of its fields are. *)
From S2P Require Import Prelude.

(** ** The store *)

(** An array of elements of a type as a cell of the store. *)
Class Elem (cell A : Type) := {
  to_cell : list A → cell;
  of_cell : cell → option (list A);
  of_to_cell l : of_cell (to_cell l) = Some l;
}.

(** A slice: its array, its first element, its length; [nil] is [None]. *)
Record slice (A : Type) := { s_arr : nat; s_off : nat; s_len : nat }.
Definition Slice (A : Type) : Type := option (slice A).

(** A pointer to an element of an array; [new] makes an array of one. *)
Record ptr (A : Type) := { p_arr : nat; p_idx : nat }.
Definition Ptr (A : Type) : Type := option (ptr A).

#[global] Arguments s_arr {A} _.
#[global] Arguments s_off {A} _.
#[global] Arguments s_len {A} _.
#[global] Arguments p_arr {A} _.
#[global] Arguments p_idx {A} _.

(** The value that a Go value of type [A] stands for in a store, and the arrays that
    can be reached from it. *)
Class GoType (cell A V : Type) := {
  reads : list cell → A → option V;
  reach : list cell → A → gset nat;
}.

(** Only arrays of the store are reached, and only they are read. *)
Class GoLaws (cell A V : Type) `{!GoType cell A V} : Prop := {
  reads_closed s a v : reads s a = Some v → ∀ l, l ∈ reach s a → l < length s;
  reads_local s s' a v : reads s a = Some v → (∀ l, l ∈ reach s a → s' !! l = s !! l) →
    reads s' a = Some v ∧ reach s' a = reach s a;
}.

Section heap.
Context {cell : Type}.

Definition alloc (c : cell) : SM (list cell) nat := λ s, (length s, s ++ [c]).

(** Values without references. *)
Definition plain (A : Type) : GoType cell A A := {| reads _ a := Some a; reach _ _ := ∅ |}.

#[export] Instance pair_type {A B V W} `{GoType cell A V, GoType cell B W} :
    GoType cell (A * B) (V * W) :=
  {| reads s x := v ← reads s x.1; w ← reads s x.2; Some (v, w);
     reach s x := reach s x.1 ∪ reach s x.2 |}.

(** A struct by its fields. *)
Definition via {A B V W} `{GoType cell B W} (f : A → B) (h : W → V) : GoType cell A V :=
  {| reads s a := h <$> reads s (f a); reach s a := reach s (f a) |}.

Section slices.
Context {A V : Type} `{Elem cell A} `{GoType cell A V}.

Definition window (s : list cell) (x : slice A) : option (list A) :=
  c ← s !! s_arr x; l ← of_cell c;
  if decide (s_off x + s_len x ≤ length l) then Some (take (s_len x) (drop (s_off x) l)) else None.

Definition deref (s : list cell) (p : ptr A) : option A :=
  c ← s !! p_arr p; l ← of_cell c; l !! p_idx p.

(** Nil and an empty slice are told apart. *)
#[export] Instance slice_type : GoType cell (Slice A) (option (list V)) :=
  {| reads s x := match x with
                  | None => Some None
                  | Some sl => l ← window s sl; Some <$> mapM (reads s) l
                  end;
     reach s x := match x with
                  | None => ∅
                  | Some sl => {[s_arr sl]} ∪ match window s sl with
                                              | Some l => ⋃ (reach s <$> l)
                                              | None => ∅
                                              end
                  end |}.

#[export] Instance ptr_type : GoType cell (Ptr A) (option V) :=
  {| reads s x := match x with None => Some None | Some p => a ← deref s p; Some <$> reads s a end;
     reach s x := match x with
                  | None => ∅
                  | Some p => {[p_arr p]} ∪ match deref s p with Some a => reach s a | None => ∅ end
                  end |}.

(** A nil slice stays nil; another gets an array of its own, with a copy of each
    element. *)
Definition copy_slice (cp : A → SM (list cell) A) (x : Slice A) : SM (list cell) (Slice A) :=
  match x with
  | None => mret None
  | Some sl =>
      s ← sget;
      match window s sl with
      | None => mret None
      | Some l =>
          l' ← forSM l cp;
          a ← alloc (to_cell l');
          mret (Some {| s_arr := a; s_off := 0; s_len := length l' |})
      end
  end.

(** [if in == nil { return nil }; out := new(T); in.DeepCopyInto(out); return out]. *)
Definition copy_ptr (cp : A → SM (list cell) A) (x : Ptr A) : SM (list cell) (Ptr A) :=
  match x with
  | None => mret None
  | Some p =>
      s ← sget;
      match deref s p with
      | None => mret None
      | Some a => a' ← cp a; l ← alloc (to_cell [a']); mret (Some {| p_arr := l; p_idx := 0 |})
      end
  end.
End slices.

Definition copy_pair {A B} (cpA : A → SM (list cell) A) (cpB : B → SM (list cell) B) (x : A * B)
    : SM (list cell) (A * B) :=
  a ← cpA x.1; b ← cpB x.2; mret (a, b).

(** ** Deep copies *)

(** A copy reads as the original did, writes nothing that was there, and reaches
    only what it allocated. *)
Definition deep {A V} `{GoType cell A V} (cp : A → SM (list cell) A) : Prop :=
  ∀ s a v, reads s a = Some v →
    s `prefix_of` (cp a s).2 ∧ reads (cp a s).2 (cp a s).1 = Some v ∧
    ∀ l, l ∈ reach (cp a s).2 (cp a s).1 → length s ≤ l.

(** Writes to the store. *)
Definition write (s : list cell) (w : nat * cell) : list cell := <[w.1 := w.2]> s.

(** What a deep copy is for: later writes through the original, or to anything else
    that is not the copy's own, do not show in the copy, writes through the copy do
    not show in anything that was there before, and the two share no memory. *)
Definition isolated {A V} `{GoType cell A V} (cp : A → SM (list cell) A) : Prop :=
  ∀ s a v, reads s a = Some v →
    let '(a', s') := cp a s in
    s `prefix_of` s' ∧ reads s' a' = Some v ∧ reach s' a ## reach s' a' ∧
    (∀ ws, Forall (λ w, w.1 ∉ reach s' a') ws → reads (foldl write s' ws) a' = Some v) ∧
    (∀ ws, Forall (λ w, w.1 ∈ reach s' a') ws → reads (foldl write s' ws) a = Some v ∧
       ∀ l, l < length s → foldl write s' ws !! l = s !! l).

Lemma reads_mono {A V} `{GoLaws cell A V} s s' a v :
  reads s a = Some v → s `prefix_of` s' → reads s' a = Some v ∧ reach s' a = reach s a.
Proof.
  intros Hr [k ->]. eapply reads_local; [done|]. intros l Hl.
  apply lookup_app_l. by eapply reads_closed.
Qed.

Lemma foldl_write_other ws s l :
  Forall (λ w : nat * cell, w.1 ≠ l) ws → foldl write s ws !! l = s !! l.
Proof.
  intros Hw. revert s. induction Hw as [|w ws Hne _ IH]; intros s; simpl; [done|].
  rewrite IH. by apply list_lookup_insert_ne.
Qed.

Lemma deep_isolated {A V} `{GoLaws cell A V} cp : deep (A := A) (V := V) cp → isolated cp.
Proof.
  intros Hd s a v Hr. destruct (Hd s a v Hr) as (Hp & Hr' & Hf).
  destruct (cp a s) as [a' s']. simpl in *.
  destruct (reads_mono s s' a v Hr Hp) as [Hr2 Hreach].
  assert (∀ l, l ∈ reach s' a → l < length s) as Hold
    by (intros l; rewrite Hreach; by eapply reads_closed).
  split_and!; [done|done| | |].
  - intros l Hl Hl'. specialize (Hold l Hl). specialize (Hf l Hl'). lia.
  - intros ws Hw. eapply reads_local; [exact Hr'|]. intros l Hl. apply foldl_write_other.
    eapply Forall_impl; [exact Hw|]. intros w Hn <-. by apply Hn.
  - intros ws Hw.
    assert (∀ l, l < length s → Forall (λ w : nat * cell, w.1 ≠ l) ws) as Hne.
    { intros l Hl. eapply Forall_impl; [exact Hw|]. intros w Hin <-. apply Hf in Hin. lia. }
    split.
    + eapply reads_local; [exact Hr2|]. intros l Hl. apply foldl_write_other. auto.
    + intros l Hl. rewrite foldl_write_other; [auto|]. destruct Hp as [k ->]. by apply lookup_app_l.
Qed.
End heap.

(** ** Building types and their copies *)

Section laws.
Context {cell : Type}.

Lemma plain_laws A : @GoLaws cell A A (plain A).
Proof. split; simpl; [set_solver|by intros ???? [= <-]]. Qed.

Lemma via_laws {A B V W} `{GoLaws cell B W} (f : A → B) (h : W → V) :
  @GoLaws cell A V (via f h).
Proof.
  split; simpl; intros s.
  - intros a v (w & Hw & ->)%fmap_Some. by eapply reads_closed.
  - intros s' a v (w & Hw & ->)%fmap_Some Hl.
    destruct (reads_local s s' (f a) w Hw Hl) as [-> ->]. done.
Qed.

#[export] Instance pair_laws {A B V W} `{GoLaws cell A V, GoLaws cell B W} :
  GoLaws cell (A * B) (V * W).
Proof.
  split; intros s; [intros [a b] vw|intros s' [a b] vw]; simpl;
    intros (v & Hv & (w & Hw & [= <-])%bind_Some)%bind_Some.
  - intros l [Hl|Hl]%elem_of_union; [by eapply (reads_closed s a v)|by eapply (reads_closed s b w)].
  - intros Hl.
    destruct (reads_local s s' a v Hv) as [-> ->]; [intros; apply Hl; set_solver|].
    destruct (reads_local s s' b w Hw) as [-> ->]; [intros; apply Hl; set_solver|]. done.
Qed.

Lemma mapM_reads {A V} `{GoLaws cell A V} s s' l vs :
  mapM (reads s) l = Some vs →
  (∀ x, x ∈ ⋃ (reach s <$> l) → s' !! x = s !! x) →
  mapM (reads s') l = Some vs ∧ ⋃ (reach s' <$> l) = ⋃ (reach s <$> l).
Proof.
  rewrite !mapM_Some. induction 1 as [|a v l vs Ha _ IH]; intros Hl; [done|].
  rewrite !fmap_cons /= in Hl |- *.
  destruct (reads_local s s' a v Ha) as [Hr ->]; [intros; apply Hl; set_solver|].
  destruct IH as [IH Hu]; [intros; apply Hl; set_solver|]. rewrite Hu. split; [by constructor|done].
Qed.

Lemma mapM_closed {A V} `{GoLaws cell A V} s l vs x :
  mapM (reads s) l = Some vs → x ∈ ⋃ (reach s <$> l) → x < length s.
Proof.
  rewrite mapM_Some. induction 1 as [|a v l vs Ha _ IH]; simpl; [set_solver|].
  intros [Hx|Hx]%elem_of_union; [by eapply reads_closed|auto].
Qed.

Section arrays.
Context {A V} `{Elem cell A} `{GoLaws cell A V}.

Lemma window_arr s s' (x : slice A) l :
  window s x = Some l → s_arr x < length s ∧ (s' !! s_arr x = s !! s_arr x → window s' x = Some l).
Proof.
  unfold window. intros (c & Hc & Hl)%bind_Some. split; [by eapply lookup_lt_Some|].
  intros ->. by rewrite Hc.
Qed.

Lemma deref_arr s s' (p : ptr A) a :
  deref s p = Some a → p_arr p < length s ∧ (s' !! p_arr p = s !! p_arr p → deref s' p = Some a).
Proof.
  unfold deref. intros (c & Hc & Hl)%bind_Some. split; [by eapply lookup_lt_Some|].
  intros ->. by rewrite Hc.
Qed.

#[export] Instance slice_laws : GoLaws cell (Slice A) (option (list V)).
Proof.
  split; intros s; [intros [sl|] vs|intros s' [sl|] vs]; simpl; try (intros _; set_solver);
    try done;
    intros (l & Hw & (ws & Hm & ->)%fmap_Some)%bind_Some; rewrite Hw.
  - intros x [->%elem_of_singleton|Hx]%elem_of_union; [by eapply window_arr|by eapply mapM_closed].
  - intros Hl. assert (window s' sl = Some l) as -> by (eapply window_arr; [done|apply Hl; set_solver]).
    simpl.
    destruct (mapM_reads s s' l ws Hm) as [-> ->]; [intros; apply Hl; set_solver|]. done.
Unshelve. all: exact s.
Qed.

#[export] Instance ptr_laws : GoLaws cell (Ptr A) (option V).
Proof.
  split; intros s; [intros [p|] v|intros s' [p|] v]; simpl; try (intros _; set_solver);
    try done;
    intros (a & Hw & (w & Hm & ->)%fmap_Some)%bind_Some; rewrite Hw.
  - intros x [->%elem_of_singleton|Hx]%elem_of_union; [by eapply deref_arr|by eapply reads_closed].
  - intros Hl. assert (deref s' p = Some a) as -> by (eapply deref_arr; [done|apply Hl; set_solver]).
    simpl.
    destruct (reads_local s s' a w Hm) as [-> ->]; [intros; apply Hl; set_solver|]. done.
Unshelve. all: exact s.
Qed.

Lemma window_fresh s (l : list A) :
  window (s ++ [to_cell l]) {| s_arr := length s; s_off := 0; s_len := length l |} = Some l.
Proof.
  unfold window. simpl. rewrite list_lookup_middle //= of_to_cell /= decide_True //.
  by rewrite firstn_all.
Qed.

Lemma deref_fresh s (a : A) :
  deref (s ++ [to_cell [a]]) {| p_arr := length s; p_idx := 0 |} = Some a.
Proof. unfold deref. simpl. by rewrite list_lookup_middle //= of_to_cell. Qed.

(** The loop over the elements. *)
Lemma deep_forSM cp s l vs :
  deep (A := A) (V := V) cp → mapM (reads s) l = Some vs →
  s `prefix_of` (forSM l cp s).2 ∧ mapM (reads (forSM l cp s).2) (forSM l cp s).1 = Some vs ∧
  ∀ x, x ∈ ⋃ (reach (forSM l cp s).2 <$> (forSM l cp s).1) → length s ≤ x.
Proof.
  intros Hd. revert s vs. induction l as [|a l IH]; intros s vs; rewrite mapM_Some.
  - intros ->%Forall2_nil_inv_l. split_and!; [done|done|]. simpl. set_solver.
  - intros (v & vs' & Ha & Hl & ->)%Forall2_cons_inv_l. apply mapM_Some in Hl.
    rewrite forSM_cons. destruct (Hd s a v Ha) as (Hp & Hr & Hf).
    destruct (cp a s) as [a' s1]. simpl in *.
    assert (mapM (reads s1) l = Some vs') as Hl1.
    { destruct Hp as [k ->]. eapply mapM_reads; [exact Hl|]. intros x Hx. apply lookup_app_l.
      by eapply mapM_closed. }
    destruct (IH s1 vs' Hl1) as (Hp2 & Hr2 & Hf2). destruct (forSM l cp s1) as [l' s2]. simpl in *.
    destruct (reads_mono s1 s2 a' v Hr Hp2) as [Hr' Hre].
    split_and!; [by etrans| |].
    + by rewrite Hr' /= Hr2.
    + intros x [Hx|Hx]%elem_of_union; [rewrite Hre in Hx; auto|].
      apply Hf2 in Hx. apply prefix_length in Hp. lia.
Qed.

Lemma deep_slice cp : deep (A := A) (V := V) cp → deep (A := Slice A) (V := option (list V)) (copy_slice cp).
Proof.
  intros Hd s [sl|] vs; simpl; [|intros [= <-]; split_and!; [done|done|set_solver]].
  intros (l & Hw & (ws & Hm & ->)%fmap_Some)%bind_Some. unfold mbind, SM_bind, sget, alloc. rewrite Hw.
  destruct (deep_forSM cp s l ws Hd Hm) as (Hp & Hr & Hf).
  destruct (forSM l cp s) as [l' s']. simpl in *. rewrite window_fresh. simpl.
  assert (mapM (reads (s' ++ [to_cell l'])) l' = Some ws ∧
          ⋃ (reach (s' ++ [to_cell l']) <$> l') = ⋃ (reach s' <$> l')) as [-> ->].
  { apply mapM_reads; [done|]. intros x Hx. apply lookup_app_l. by eapply mapM_closed. }
  split_and!; [by apply prefix_app_r|done|]. apply prefix_length in Hp.
  intros x [->%elem_of_singleton|Hx]%elem_of_union; [done|auto].
Qed.

Lemma deep_ptr cp : deep (A := A) (V := V) cp → deep (A := Ptr A) (V := option V) (copy_ptr cp).
Proof.
  intros Hd s [p|] v; simpl; [|intros [= <-]; split_and!; [done|done|set_solver]].
  intros (a & Hw & (w & Hm & ->)%fmap_Some)%bind_Some. unfold mbind, SM_bind, sget, alloc. rewrite Hw.
  destruct (Hd s a w Hm) as (Hp & Hr & Hf). destruct (cp a s) as [a' s']. simpl in *.
  rewrite deref_fresh. simpl.
  destruct (reads_mono s' (s' ++ [to_cell [a']]) a' w Hr) as [-> ->]; [by apply prefix_app_r|].
  split_and!; [by apply prefix_app_r|done|]. apply prefix_length in Hp.
  intros x [->%elem_of_singleton|Hx]%elem_of_union; [done|auto].
Qed.
End arrays.

Lemma deep_plain A : @deep cell A A (plain A) mret.
Proof. intros s a v [= <-]. split_and!; [done|done|]. simpl. set_solver. Qed.

Lemma deep_pair {A B V W} `{GoLaws cell A V, GoLaws cell B W} cpA cpB :
  deep (A := A) (V := V) cpA → deep (A := B) (V := W) cpB →
  deep (A := A * B) (V := V * W) (copy_pair cpA cpB).
Proof.
  intros HA HB s [a b] vw. simpl. intros (v & Hv & (w & Hw & [= <-])%bind_Some)%bind_Some.
  unfold copy_pair, mbind, SM_bind. simpl.
  destruct (HA s a v Hv) as (Hp1 & Hr1 & Hf1). destruct (cpA a s) as [a' s1]. simpl in *.
  destruct (reads_mono s s1 b w Hw Hp1) as [Hw1 _].
  destruct (HB s1 b w Hw1) as (Hp2 & Hr2 & Hf2). destruct (cpB b s1) as [b' s2]. simpl in *.
  destruct (reads_mono s1 s2 a' v Hr1 Hp2) as [-> ->]. rewrite Hr2.
  split_and!; [by etrans|done|].
  intros x [Hx|Hx]%elem_of_union; [auto|]. apply Hf2 in Hx. apply prefix_length in Hp1. lia.
Qed.

Lemma deep_via {A B V W} `{GoType cell B W} (f : A → B) (g : B → A) (h : W → V) cpB cp :
  (∀ b, f (g b) = b) → (∀ a s, cp a s = (g (cpB (f a) s).1, (cpB (f a) s).2)) →
  deep (A := B) (V := W) cpB → @deep cell A V (via f h) cp.
Proof.
  intros Hfg Hcp Hd s a v. simpl. intros (w & Hw & ->)%fmap_Some.
  rewrite Hcp. simpl. rewrite Hfg. destruct (Hd s (f a) w Hw) as (Hp & -> & Hf). done.
Qed.
End laws.
