(* ===== verification/Sha256.v ===== *)
(** [crypto/sha256]: FIPS 180-4 on byte strings, with 32-bit words as [Z]. The
    operator uses it for [engine.SourceHash], [request.ReplicationName] and
    [request.labelSafeValue]. *)
From Stdlib Require Import Ascii.
From S2P Require Import Prelude GoLib.

#[local] Open Scope Z_scope.

Definition mask32 (z : Z) : Z := Z.land z 4294967295.

Definition rotr (x n : Z) : Z :=
  Z.lor (Z.shiftr x n) (mask32 (Z.shiftl x (32 - n))).

Definition ch (x y z : Z) : Z := Z.lxor (Z.land x y) (Z.land (4294967295 - x) z).
Definition maj (x y z : Z) : Z :=
  Z.lxor (Z.land x y) (Z.lxor (Z.land x z) (Z.land y z)).
Definition bsig0 (x : Z) : Z := Z.lxor (rotr x 2) (Z.lxor (rotr x 13) (rotr x 22)).
Definition bsig1 (x : Z) : Z := Z.lxor (rotr x 6) (Z.lxor (rotr x 11) (rotr x 25)).
Definition ssig0 (x : Z) : Z := Z.lxor (rotr x 7) (Z.lxor (rotr x 18) (Z.shiftr x 3)).
Definition ssig1 (x : Z) : Z := Z.lxor (rotr x 17) (Z.lxor (rotr x 19) (Z.shiftr x 10)).

Definition round_constants : list Z :=
  [1116352408; 1899447441; 3049323471; 3921009573; 961987163; 1508970993;
   2453635748; 2870763221; 3624381080; 310598401; 607225278; 1426881987;
   1925078388; 2162078206; 2614888103; 3248222580; 3835390401; 4022224774;
   264347078; 604807628; 770255983; 1249150122; 1555081692; 1996064986;
   2554220882; 2821834349; 2952996808; 3210313671; 3336571891; 3584528711;
   113926993; 338241895; 666307205; 773529912; 1294757372; 1396182291;
   1695183700; 1986661051; 2177026350; 2456956037; 2730485921; 2820302411;
   3259730800; 3345764771; 3516065817; 3600352804; 4094571909; 275423344;
   430227734; 506948616; 659060556; 883997877; 958139571; 1322822218;
   1537002063; 1747873779; 1955562222; 2024104815; 2227730452; 2361852424;
   2428436474; 2756734187; 3204031479; 3329325298].

Definition initial_hash : list Z :=
  [1779033703; 3144134277; 1013904242; 2773480762;
   1359893119; 2600822924; 528734635; 1541459225].

(** The message schedule, most recent word first: [n] more words. *)
Fixpoint schedule (n : nat) (w : list Z) : list Z :=
  match n with
  | 0%nat => w
  | S n' =>
      let at_ i := nth i w 0 in
      schedule n'
        (mask32 (ssig1 (at_ 1%nat) + at_ 6%nat + ssig0 (at_ 14%nat) + at_ 15%nat) :: w)
  end.

Definition sha_round (st : list Z) (kw : Z * Z) : list Z :=
  match st with
  | [a; b; c; d; e; f; g; h] =>
      let t1 := h + bsig1 e + ch e f g + kw.1 + kw.2 in
      let t2 := bsig0 a + maj a b c in
      [mask32 (t1 + t2); a; b; c; mask32 (d + t1); e; f; g]
  | _ => st
  end.

Definition compress (h block : list Z) : list Z :=
  let w := rev (schedule 48 (rev block)) in
  zip_with (λ x y, mask32 (x + y)) h (foldl sha_round h (zip round_constants w)).

Definition be32 (a b c d : Z) : Z := ((a * 256 + b) * 256 + c) * 256 + d.

(** A block of 64 bytes as 16 words. *)
Fixpoint words (bs : list Z) : list Z :=
  match bs with a :: b :: c :: d :: bs' => be32 a b c d :: words bs' | _ => [] end.

(** The big-endian bytes of [z], [n] of them. *)
Fixpoint be_bytes (n : nat) (z : Z) : list Z :=
  match n with
  | 0%nat => []
  | S n' => Z.land (Z.shiftr z (8 * Z.of_nat n')) 255 :: be_bytes n' z
  end.

Definition pad (bs : list Z) : list Z :=
  let len := Z.of_nat (length bs) in
  bs ++ 128 :: replicate (Z.to_nat ((55 - len) mod 64)) 0 ++ be_bytes 8 (8 * len).

(** [fuel] bounds the number of blocks; the number of bytes is enough. *)
Fixpoint blocks (fuel : nat) (h bs : list Z) : list Z :=
  match fuel, bs with
  | S n, _ :: _ => blocks n (compress h (words (take 64 bs))) (drop 64 bs)
  | _, _ => h
  end.

Definition Sum256 (s : string) : list ascii :=
  let bs := map (λ c, Z.of_nat (ord c)) (list_of_string s) in
  let p := pad bs in
  map (λ z, chr (Z.to_nat z)) (mjoin (map (be_bytes 4) (blocks (length p) initial_hash p))).

(** [hex.EncodeToString(sum[:])] *)
Definition sha256_hex (s : string) : string := hex_encode (Sum256 s).

(** ** Lemmas *)

Lemma length_compress h block :
  length h = 8%nat → length (compress h block) = 8%nat.
Proof.
  intros Hh. unfold compress. rw length_zip_with.
  assert (∀ l, length (foldl sha_round h l) = 8%nat) as ->; [|by rw Hh].
  intros l. revert h Hh. induction l as [|kw l IH]; intros h Hh; simpl; [done|].
  apply IH. unfold sha_round. by do 9 (destruct h as [|? h]; try done).
Qed.

Lemma length_blocks n h bs : length h = 8%nat → length (blocks n h bs) = 8%nat.
Proof.
  revert h bs. induction n as [|n IH]; intros h [|b bs] Hh; simpl; [done..|].
  apply IH, length_compress, Hh.
Qed.

Lemma length_Sum256 s : length (Sum256 s) = 32%nat.
Proof.
  unfold Sum256. rw length_map.
  set (hs := blocks _ _ _).
  assert (length hs = 8%nat) as H by by apply length_blocks.
  clearbody hs. do 9 (destruct hs as [|? hs]; try done).
Qed.

Lemma length_sha256_hex s : String.length (sha256_hex s) = 64%nat.
Proof. unfold sha256_hex. by rw hex_encode_length length_Sum256. Qed.

Example sha256_abc :
  sha256_hex "abc" = "ba7816bf8f01cfea414140de5dae2223b00361a396177a9cb410ff61f20015ad".
Proof. vm_compute. reflexivity. Qed.

Example sha256_empty :
  sha256_hex "" = "e3b0c44298fc1c149afbf4c8996fb92427ae41e4649b934ca495991b7852b855".
Proof. vm_compute. reflexivity. Qed.

Example sha256_two_blocks :
  sha256_hex "abcdbcdecdefdefgefghfghighijhijkijkljklmklmnlmnomnopnopq"
  = "248d6a61d20638b8e5c026930c3e6039a33ce45964ff2167f6ecedd419db06c1".
Proof. vm_compute. reflexivity. Qed.
