(* ===== verification/Api.v ===== *)
(** The API types of [api/v1alpha1] and the apimachinery helpers that work on
    them (status conditions, finalizers, owner references). The helpers are not
    part of the repository: [MetaAPI] is their interface, [MetaLaws] what their
    documentation promises, and [MetaModel] one implementation of both. *)
From S2P Require Import Prelude GoLib.

#[local] Open Scope string_scope.

(** ** replicationpolicy_types.go *)

(** [type ConflictPolicy string]: the enum is enforced by the CRD schema, not by
    the type, so any string can occur. *)
Definition ConflictPolicyFail : string := "Fail".
Definition ConflictPolicyOverwrite : string := "Overwrite".
Definition ConflictPolicyAdopt : string := "Adopt".

Definition RevocationPolicyRetain : string := "Retain".
Definition RevocationPolicyDelete : string := "Delete".

(** [metav1.LabelSelector]. *)
Record LabelSelectorRequirement := {
  lsr_Key : string;
  lsr_Operator : string;
  lsr_Values : list string;
}.

Record LabelSelector := {
  ls_MatchLabels : gmap string string;
  ls_MatchExpressions : list LabelSelectorRequirement;
}.

Record PolicySources := {
  src_Namespaces : list string;
  src_NamespaceSelector : option LabelSelector;
  src_Kinds : list string;
}.

Record PolicyTargets := {
  tgt_ClusterSelector : LabelSelector;
  tgt_Namespaces : list string;
}.

Record PolicyOptions := {
  AllowNamespaceCreation : bool;
  AllowedConflictPolicies : list string;
  opt_RevocationPolicy : string;
}.

Record ReplicationPolicySpec := {
  spec_Sources : PolicySources;
  spec_Targets : PolicyTargets;
  spec_Options : PolicyOptions;
}.

Record ReplicationPolicy := {
  pol_Name : string;
  pol_Spec : ReplicationPolicySpec;
}.

(** ** replication_types.go *)

Definition ReplicationOriginAnnotation : string := "Annotation".

Definition ReplicationConditionReady : string := "Ready".
Definition ReplicationConditionTargetsResolved : string := "TargetsResolved".

Definition ReasonPolicyDenied : string := "PolicyDenied".
Definition ReasonPolicyRevoked : string := "PolicyRevoked".
Definition ReasonNotAuthoritative : string := "NotAuthoritative".
Definition ReasonConflict : string := "Conflict".
Definition ReasonNoTargets : string := "NoTargets".
Definition ReasonTargetsResolved : string := "TargetsResolved".

Record SourceReference := {
  sr_Kind : string;
  sr_Namespace : string;
  sr_Name : string;
  sr_UID : string;
}.

Record ResolvedTarget := {
  rt_ClusterName : string;
  rt_Namespaces : list string;
  rt_TargetName : string;
}.

Record ReplicationSpec := {
  SourceRef : SourceReference;
  Origin : string;
  ResolvedTargets : list ResolvedTarget;
}.

Record TargetSummary := {
  DesiredTargets : Z;
  ReadyTargets : Z;
  FailedTargets : Z;
}.

Record NonReadyTarget := {
  nr_ClusterName : string;
  nr_Namespace : string;
  nr_Name : string;
  nr_Reason : string;
  nr_Message : string;
  nr_LastTransitionTime : Z;
}.

Record InventoryEntry := {
  ie_ClusterName : string;
  ie_Namespace : string;
  ie_Name : string;
  ie_Group : string;
  ie_Kind : string;
  LastAppliedHash : string;
}.

(** [metav1.Condition]; the time is [metav1.Time]. *)
Record Condition := {
  c_Type : string;
  c_Status : string;
  c_ObservedGeneration : Z;
  c_LastTransitionTime : Z;
  c_Reason : string;
  c_Message : string;
}.

Definition ConditionTrue : string := "True".
Definition ConditionFalse : string := "False".

Record ReplicationStatus := {
  Summary : TargetSummary;
  SourceHash_ : string;
  Conditions : list Condition;
  NonReadyTargets : list NonReadyTarget;
  NonReadyOverflow : Z;
  Inventory_ : list InventoryEntry;
}.

(** The zero value of the status. *)
Definition empty_status : ReplicationStatus :=
  {| Summary := {| DesiredTargets := 0; ReadyTargets := 0; FailedTargets := 0 |};
     SourceHash_ := ""; Conditions := []; NonReadyTargets := []; NonReadyOverflow := 0;
     Inventory_ := [] |}.

(** [metav1.OwnerReference]; [Controller] is a [*bool]. *)
Record OwnerReference := {
  or_APIVersion : string;
  or_Kind : string;
  or_Name : string;
  or_UID : string;
  or_Controller : option bool;
}.

(** The object metadata the operator reads or writes, the spec and the status. *)
Record Replication := {
  rep_Namespace : string;
  rep_Name : string;
  rep_UID : string;
  rep_Generation : Z;
  rep_DeletionTimestamp : option Z;
  rep_Finalizers : list string;
  rep_Labels : gmap string string;
  rep_OwnerReferences : list OwnerReference;
  rep_Spec : ReplicationSpec;
  rep_Status : ReplicationStatus;
}.

(** [schema.GroupVersionKind] and [types.NamespacedName]. *)
Record GroupVersionKind := { gvk_Group : string; gvk_Version : string; gvk_Kind : string }.
Record NamespacedName := { nn_Namespace : string; nn_Name : string }.

(** [NamespacedName.String] *)
Definition nn_String (n : NamespacedName) : string := nn_Namespace n +:+ "/" +:+ nn_Name n.

(** ** Decidable equality *)

#[export] Instance LabelSelectorRequirement_eq : EqDecision LabelSelectorRequirement.
Proof. solve_decision. Defined.
#[export] Instance LabelSelector_eq : EqDecision LabelSelector.
Proof. solve_decision. Defined.
#[export] Instance SourceReference_eq : EqDecision SourceReference.
Proof. solve_decision. Defined.
#[export] Instance ResolvedTarget_eq : EqDecision ResolvedTarget.
Proof. solve_decision. Defined.
#[export] Instance ReplicationSpec_eq : EqDecision ReplicationSpec.
Proof. solve_decision. Defined.
#[export] Instance TargetSummary_eq : EqDecision TargetSummary.
Proof. solve_decision. Defined.
#[export] Instance NonReadyTarget_eq : EqDecision NonReadyTarget.
Proof. solve_decision. Defined.
#[export] Instance InventoryEntry_eq : EqDecision InventoryEntry.
Proof. solve_decision. Defined.
#[export] Instance Condition_eq : EqDecision Condition.
Proof. solve_decision. Defined.
#[export] Instance ReplicationStatus_eq : EqDecision ReplicationStatus.
Proof. solve_decision. Defined.
#[export] Instance OwnerReference_eq : EqDecision OwnerReference.
Proof. solve_decision. Defined.
#[export] Instance GroupVersionKind_eq : EqDecision GroupVersionKind.
Proof. solve_decision. Defined.
#[export] Instance NamespacedName_eq : EqDecision NamespacedName.
Proof. solve_decision. Defined.
#[export] Instance GroupVersionKind_countable : Countable GroupVersionKind.
Proof.
  apply (inj_countable' (λ g, (gvk_Group g, gvk_Version g, gvk_Kind g))
           (λ '(a, b, c), Build_GroupVersionKind a b c)). by intros [].
Defined.
#[export] Instance NamespacedName_countable : Countable NamespacedName.
Proof.
  apply (inj_countable' (λ n, (nn_Namespace n, nn_Name n))
           (λ '(a, b), Build_NamespacedName a b)). by intros [].
Defined.

(** ** The apimachinery helpers *)

Class MetaAPI := {
  (** [meta.FindStatusCondition conditions type] *)
  FindStatusCondition : list Condition → string → option Condition;
  (** [meta.SetStatusCondition]: the new list and whether it changed. The first
      argument is the wall clock, which stamps a transition. *)
  SetStatusCondition : Z → list Condition → Condition → list Condition * bool;
  (** [meta.RemoveStatusCondition] *)
  RemoveStatusCondition : list Condition → string → list Condition * bool;
  (** [controllerutil.ContainsFinalizer], [AddFinalizer], [RemoveFinalizer] *)
  ContainsFinalizer : list string → string → bool;
  AddFinalizer : list string → string → list string;
  RemoveFinalizer : list string → string → list string;
  (** [metav1.GetControllerOf] *)
  GetControllerOf : list OwnerReference → option OwnerReference;
  (** [schema.ParseGroupVersion]: group and version, [None] for an error. *)
  ParseGroupVersion : string → option (string * string);
}.

(** Two conditions that [SetStatusCondition] does not tell apart: everything but
    the transition time. *)
Definition same_condition (a b : Condition) : Prop :=
  c_Type a = c_Type b ∧ c_Status a = c_Status b ∧
  c_ObservedGeneration a = c_ObservedGeneration b ∧
  c_Reason a = c_Reason b ∧ c_Message a = c_Message b.

Class MetaLaws `{MetaAPI} : Prop := {
  (** "all fields of the existing condition are updated to newCondition" *)
  find_set_same now cs c :
    ∃ c', FindStatusCondition (SetStatusCondition now cs c).1 (c_Type c) = Some c' ∧
          same_condition c' c;
  find_set_other now cs c t : t ≠ c_Type c →
    FindStatusCondition (SetStatusCondition now cs c).1 t = FindStatusCondition cs t;
  (** "returns true if the conditions are changed by this call" *)
  set_same_noop now cs c c0 :
    FindStatusCondition cs (c_Type c) = Some c0 → same_condition c0 c →
    SetStatusCondition now cs c = (cs, false);
  find_remove_same cs t : FindStatusCondition (RemoveStatusCondition cs t).1 t = None;
  find_remove_other cs t t' : t' ≠ t →
    FindStatusCondition (RemoveStatusCondition cs t).1 t' = FindStatusCondition cs t';
  remove_absent_noop cs t :
    FindStatusCondition cs t = None → RemoveStatusCondition cs t = (cs, false);
  contains_add fs f : ContainsFinalizer (AddFinalizer fs f) f = true;
  contains_add_other fs f g : g ≠ f →
    ContainsFinalizer (AddFinalizer fs f) g = ContainsFinalizer fs g;
  contains_remove fs f : ContainsFinalizer (RemoveFinalizer fs f) f = false;
  contains_remove_other fs f g : g ≠ f →
    ContainsFinalizer (RemoveFinalizer fs f) g = ContainsFinalizer fs g;
  (** "GetControllerOf returns a pointer to a copy of the controllerRef if
      controllee has a controller" *)
  controller_is_ref refs r :
    GetControllerOf refs = Some r → r ∈ refs ∧ or_Controller r = Some true;
  no_controller refs :
    GetControllerOf refs = None → Forall (λ r, or_Controller r ≠ Some true) refs;
}.

(** ** One implementation, for the witnesses and the examples *)

Module MetaModel.
Definition find (cs : list Condition) (t : string) : option Condition :=
  snd <$> list_find (λ c, c_Type c = t) cs.

Definition same_fields (a b : Condition) : bool :=
  bool_decide (c_Status a = c_Status b) &&
  bool_decide (c_ObservedGeneration a = c_ObservedGeneration b) &&
  bool_decide (c_Reason a = c_Reason b) && bool_decide (c_Message a = c_Message b).

Definition stamp (now : Z) (old new : Condition) : Condition :=
  {| c_Type := c_Type new; c_Status := c_Status new;
     c_ObservedGeneration := c_ObservedGeneration new;
     c_LastTransitionTime :=
       if decide (c_Status old = c_Status new) then c_LastTransitionTime old else now;
     c_Reason := c_Reason new; c_Message := c_Message new |}.

Fixpoint set (now : Z) (cs : list Condition) (c : Condition) : list Condition * bool :=
  match cs with
  | [] => ([{| c_Type := c_Type c; c_Status := c_Status c;
               c_ObservedGeneration := c_ObservedGeneration c;
               c_LastTransitionTime := now;
               c_Reason := c_Reason c; c_Message := c_Message c |}], true)
  | c0 :: cs' =>
      if decide (c_Type c0 = c_Type c) then
        if same_fields c0 c then (cs, false) else (stamp now c0 c :: cs', true)
      else let '(r, b) := set now cs' c in (c0 :: r, b)
  end.

Definition remove (cs : list Condition) (t : string) : list Condition * bool :=
  let r := filter (λ c, c_Type c ≠ t) cs in
  (r, negb (length r =? length cs)%nat).

Definition cut_group (s : string) : option (string * string) :=
  match Split (chr 47) s with
  | [v] => Some ("", v)
  | [g; v] => Some (g, v)
  | _ => None
  end.

#[export] Instance api : MetaAPI := {|
  FindStatusCondition := find;
  SetStatusCondition := set;
  RemoveStatusCondition := remove;
  ContainsFinalizer fs f := contains fs f;
  AddFinalizer fs f := if decide (f ∈ fs) then fs else (fs ++ [f])%list;
  RemoveFinalizer fs f := filter (λ g, g ≠ f) fs;
  GetControllerOf refs :=
    snd <$> list_find (λ r, or_Controller r = Some true) refs;
  ParseGroupVersion := cut_group;
|}.

Lemma find_cons c cs t :
  find (c :: cs) t = if decide (c_Type c = t) then Some c else find cs t.
Proof.
  unfold find. simpl. case_decide; [done|].
  by destruct (list_find _ cs) as [[]|].
Qed.

Lemma same_fields_true a b :
  c_Type a = c_Type b → same_fields a b = true ↔ same_condition a b.
Proof.
  intros Ht. unfold same_fields, same_condition.
  rw !andb_true_iff !bool_decide_eq_true. tauto.
Qed.

Lemma set_find_same now cs c :
  ∃ c', find (set now cs c).1 (c_Type c) = Some c' ∧ same_condition c' c.
Proof.
  induction cs as [|c0 cs [c' [H1 H2]]]; simpl.
  - rw find_cons. rw decide_True //. eexists; split; [done|]. done.
  - case_decide as Ht.
    + destruct (same_fields c0 c) eqn:E; simpl; rw find_cons.
      * rw decide_True //. eexists; split; [done|]. by apply same_fields_true.
      * rw decide_True //. eexists; split; [done|]. done.
    + destruct (set now cs c) as [r b]; simpl in *.
      rw find_cons decide_False //. eauto.
Qed.

Lemma set_find_other now cs c t :
  t ≠ c_Type c → find (set now cs c).1 t = find cs t.
Proof.
  intros Ht. induction cs as [|c0 cs IH]; simpl.
  - rw find_cons decide_False //. 
  - case_decide as H0.
    + destruct (same_fields c0 c); simpl; [done|].
      rw !find_cons !decide_False //; congruence.
    + destruct (set now cs c); simpl in *. rw !find_cons. case_decide; done.
Qed.

Lemma set_noop now cs c c0 :
  find cs (c_Type c) = Some c0 → same_condition c0 c → set now cs c = (cs, false).
Proof.
  induction cs as [|c1 cs IH]; [done|]. rw find_cons. simpl.
  case_decide as Ht.
  - intros [= ->] Hs. by apply (same_fields_true c0 c Ht) in Hs as ->.
  - intros Hf Hs. by rw (IH Hf Hs).
Qed.

Lemma remove_find cs t t' :
  find (remove cs t).1 t' = if decide (t' = t) then None else find cs t'.
Proof.
  induction cs as [|c cs IH]; simpl; [by case_decide|].
  simpl in IH. rw find_cons filter_cons.
  destruct (decide (c_Type c ≠ t)) as [Hc|Hc%dec_stable]; rw ?find_cons ?IH;
    repeat case_decide; try done; congruence.
Qed.

#[export] Instance laws : MetaLaws.
Proof.
  split; simpl.
  - apply set_find_same.
  - apply set_find_other.
  - apply set_noop.
  - intros cs t. pose proof (remove_find cs t t) as H. rw decide_True // in H.
  - intros cs t t' Hne. pose proof (remove_find cs t t') as H. by rw decide_False // in H.
  - intros cs t Hf. unfold remove.
    assert (filter (λ c, c_Type c ≠ t) cs = cs) as ->; [|by rw Nat.eqb_refl].
    induction cs as [|c cs IH]; [done|]. rw find_cons in Hf.
    case_decide; [done|]. rw filter_cons decide_True //. by rw IH.
  - intros fs f. apply contains_true. case_decide; set_solver.
  - intros fs f g Hne. unfold contains. apply bool_decide_ext. case_decide; set_solver.
  - intros fs f. apply contains_false. intros Hin%list_elem_of_filter. naive_solver.
  - intros fs f g Hne. unfold contains. apply bool_decide_ext.
    rw list_elem_of_filter. naive_solver.
  - intros refs r. destruct (list_find _ refs) as [[i r']|] eqn:E; [|done].
    intros [= <-]. apply list_find_Some in E as (Hl & Hp & _).
    split; [by eapply list_elem_of_lookup_2 | done].
  - intros refs. destruct (list_find _ refs) as [[i r']|] eqn:E; [done|].
    intros _. by apply list_find_None in E.
Qed.
End MetaModel.
