(* ===== verification/Labels.v ===== *)
(** The label-selector packages of apimachinery ([labels], [selection],
    [metav1.LabelSelectorAsSelector]) and its name validation. None of this is
    code of the repository: [LabelsAPI] is the interface the operator uses,
    [LabelsLaws] the documented meaning of a requirement and of a selector as
    the conjunction of its requirements, and [LabelsModel] an implementation
    that satisfies the laws. *)
From S2P Require Import Prelude GoLib Api.

#[local] Open Scope string_scope.

(** [selection.Operator] *)
Inductive Operator :=
  | Equals | DoubleEquals | In_ | NotEquals | NotIn | Exists_ | DoesNotExist
  | GreaterThan | LessThan.

(** A [labels.Requirement]: [Key()], [Operator()] and [Values().List()]. *)
Record Requirement := {
  req_Key : string;
  req_Operator : Operator;
  req_Values : list string;
}.

#[export] Instance Operator_eq : EqDecision Operator.
Proof. solve_decision. Defined.

Class LabelsAPI := {
  Selector : Type;
  (** [labels.Nothing()] *)
  Nothing : Selector;
  (** [labels.Parse]: a selector or an error text. *)
  LabelsParse : string → string + Selector;
  (** [metav1.LabelSelectorAsSelector] of a non-nil selector; [None] is an error. *)
  LabelSelectorAsSelector : LabelSelector → option Selector;
  (** [selector.Matches] *)
  Matches : Selector → gmap string string → bool;
  (** [selector.Requirements()] *)
  Requirements : Selector → list Requirement * bool;
  (** [validation.IsDNS1123Label], [IsDNS1123Subdomain]: the error messages. *)
  IsDNS1123Label : string → list string;
  IsDNS1123Subdomain : string → list string;
}.

(** [strconv.ParseInt(s, 10, 64)]: an optional sign, then digits, within int64. *)
Fixpoint parse_digits (acc : Z) (l : list Ascii.ascii) : option Z :=
  match l with
  | [] => Some acc
  | c :: l' =>
      if ((48 <=? ord c) && (ord c <=? 57))%nat
      then parse_digits (acc * 10 + (Z.of_nat (ord c) - 48))%Z l' else None
  end.

Definition ParseInt (s : string) : option Z :=
  let '(neg, l) :=
    match list_of_string s with
    | c :: l => if decide (ord c = 43%nat) then (false, l)
                else if decide (ord c = 45%nat) then (true, l) else (false, c :: l)
    | [] => (false, [])
    end in
  match l with
  | [] => None
  | _ => n ← parse_digits 0 l;
         let z := if neg : bool then (- n)%Z else n in
         if decide (- 2 ^ 63 ≤ z < 2 ^ 63)%Z then Some z else None
  end.

(** The value and the one operand of a numeric requirement are integers that [lt]
    relates, the operand first. *)
Definition numeric_holds (lt : Z → Z → Prop) (values : list string) (v : string) : Prop :=
  ∃ x m n, values = [x] ∧ ParseInt x = Some m ∧ ParseInt v = Some n ∧ lt m n.

(** [Requirement.Matches], as its documentation gives it. *)
Definition req_matches (r : Requirement) (ls : gmap string string) : Prop :=
  match req_Operator r with
  | In_ | Equals | DoubleEquals =>
      ∃ v, ls !! req_Key r = Some v ∧ v ∈ req_Values r
  | NotIn | NotEquals =>
      ∀ v, ls !! req_Key r = Some v → v ∉ req_Values r
  | Exists_ => is_Some (ls !! req_Key r)
  | DoesNotExist => ls !! req_Key r = None
  | GreaterThan => ∃ v, ls !! req_Key r = Some v ∧ numeric_holds Z.lt (req_Values r) v
  | LessThan => ∃ v, ls !! req_Key r = Some v ∧ numeric_holds Z.gt (req_Values r) v
  end.

Class LabelsLaws `{LabelsAPI} : Prop := {
  (** "Nothing returns a selector that matches no labels" *)
  nothing_matches ls : Matches Nothing ls = false;
  (** A selector matches when it is selectable and all its requirements match. *)
  matches_requirements s ls :
    Matches s ls = true ↔ (Requirements s).2 = true ∧
    Forall (λ r, req_matches r ls) (Requirements s).1;
  (** "An empty label selector matches all objects." *)
  empty_selector_all :
    ∃ s, LabelSelectorAsSelector (Build_LabelSelector ∅ []) = Some s ∧
         ∀ ls, Matches s ls = true;
}.

(** ** One implementation, for the witnesses *)

Module LabelsModel.
(** [None] is [labels.Nothing()]. *)
Definition sel : Type := option (list Requirement).

Definition numericb (lt : Z → Z → bool) (values : list string) (v : string) : bool :=
  match values with
  | [x] => match ParseInt x, ParseInt v with Some m, Some n => lt m n | _, _ => false end
  | _ => false
  end.

Definition matches1 (r : Requirement) (ls : gmap string string) : bool :=
  match req_Operator r, ls !! req_Key r with
  | (In_ | Equals | DoubleEquals), Some v => contains (req_Values r) v
  | (In_ | Equals | DoubleEquals), None => false
  | (NotIn | NotEquals), Some v => negb (contains (req_Values r) v)
  | (NotIn | NotEquals), None => true
  | Exists_, o => bool_decide (is_Some o)
  | DoesNotExist, o => bool_decide (o = None)
  | GreaterThan, Some v => numericb Z.ltb (req_Values r) v
  | LessThan, Some v => numericb Z.gtb (req_Values r) v
  | (GreaterThan | LessThan), None => false
  end.

Definition matches (s : sel) (ls : gmap string string) : bool :=
  match s with None => false | Some rs => forallb (λ r, matches1 r ls) rs end.

(** "k", "!k", "k=v", comma-separated. *)
Definition parse1 (w : string) : Requirement :=
  match Cut (chr 61) (TrimSpace w) with
  | (k, v, true) => Build_Requirement k Equals [v]
  | _ => match cut_prefix "!" (TrimSpace w) with
         | Some k => Build_Requirement k DoesNotExist []
         | None => Build_Requirement (TrimSpace w) Exists_ []
         end
  end.

Definition parse (s : string) : string + sel :=
  if contains (list_of_string s) (chr 40) then inl "unable to parse requirement"
  else inr (Some (map parse1 (Split (chr 44) s))).

Definition op_of (s : string) : option Operator :=
  if decide (s = "In") then Some In_
  else if decide (s = "NotIn") then Some NotIn
  else if decide (s = "Exists") then Some Exists_
  else if decide (s = "DoesNotExist") then Some DoesNotExist
  else None.

Definition req_of (e : LabelSelectorRequirement) : option Requirement :=
  op ← op_of (lsr_Operator e); Some (Build_Requirement (lsr_Key e) op (lsr_Values e)).

Definition as_selector (l : LabelSelector) : option sel :=
  es ← mapM req_of (ls_MatchExpressions l);
  Some (Some (map (λ '(k, v), Build_Requirement k In_ [v]) (map_to_list (ls_MatchLabels l)) ++ es)%list).

(** Lowercase letters, digits and dashes. *)
Definition label_char (c : Ascii.ascii) : bool :=
  let n := ord c in
  (((97 <=? n) && (n <=? 122)) || ((48 <=? n) && (n <=? 57)) || (n =? 45))%nat.

Definition valid_label (s : string) : list string :=
  if forallb label_char (list_of_string s) && (String.length s <=? 63)%nat then []
  else ["a lowercase RFC 1123 label must consist of lower case alphanumeric characters or '-'"].

#[export] Instance api : LabelsAPI := {|
  Selector := sel;
  Nothing := None;
  LabelsParse := parse;
  LabelSelectorAsSelector := as_selector;
  Matches := matches;
  Requirements s := match s with None => ([], false) | Some rs => (rs, true) end;
  IsDNS1123Label := valid_label;
  IsDNS1123Subdomain := valid_label;
|}.

Lemma numericb_holds ltb (lt : Z → Z → Prop) values v :
  (∀ m n, ltb m n = true ↔ lt m n) → numericb ltb values v = true ↔ numeric_holds lt values v.
Proof.
  intros Hlt. unfold numericb, numeric_holds. destruct values as [|x [|y values]].
  - naive_solver.
  - destruct (ParseInt x) as [m|] eqn:Ex, (ParseInt v) as [n|] eqn:Ev; try rw Hlt; naive_solver.
  - naive_solver.
Qed.

Lemma matches1_spec r ls : matches1 r ls = true ↔ req_matches r ls.
Proof.
  unfold matches1, req_matches.
  destruct (req_Operator r), (ls !! req_Key r) as [v|] eqn:E;
    try rw negb_true_iff; try rw contains_true; try rw contains_false;
    try rw bool_decide_eq_true;
    try (rw (numericb_holds _ Z.lt); [by intros; apply Z.ltb_lt|]);
    try (rw (numericb_holds _ Z.gt); [intros; rewrite Z.gtb_lt; lia|]); naive_solver.
Qed.

#[export] Instance laws : LabelsLaws.
Proof.
  split; simpl.
  - done.
  - intros [rs|] ls; simpl; [|by split; [|intros [? _]]]. rw List.forallb_forall Forall_forall.
    setoid_rewrite matches1_spec. setoid_rewrite list_elem_of_In. naive_solver.
  - eexists. split; [done|]. done.
Qed.

Example numeric_ex :
  let r := Build_Requirement "shard" GreaterThan ["5"] in
  map (λ v, matches1 r {[ "shard" := v ]}) ["7"; "-7"; "5"; "x"; "99999999999999999999"]
  = [true; false; false; false; false].
Proof. vm_compute. reflexivity. Qed.
End LabelsModel.
