(* ===== verification/Annotations.v ===== *)
(** The [r8r.io/*] request contract, [internal/annotations/annotations.go]:
    the closed set of keys, [Parse] and its per-key parsers, and the lenient
    readers the controllers use. A Go map has no iteration order, so [Parse]
    takes the order of its one [range] loop as an argument. *)
From S2P Require Import Prelude GoLib Api Labels.

#[local] Open Scope string_scope.

Definition Prefix : string := "r8r.io/".
Definition KeyReplicate : string := "r8r.io/replicate".
Definition KeyTargetClusters : string := "r8r.io/target-clusters".
Definition KeyTargetNamespaces : string := "r8r.io/target-namespaces".
Definition KeyTargetName : string := "r8r.io/target-name".
Definition KeyConflictPolicy : string := "r8r.io/conflict-policy".
Definition KeySourceHash : string := "r8r.io/source-hash".

Definition ValueTrue : string := "true".
Definition ValueFalse : string := "false".

Definition DefaultConflictPolicy : string := ConflictPolicyFail.

Definition conflictPolicyValues : list string :=
  [ConflictPolicyFail; ConflictPolicyAdopt; ConflictPolicyOverwrite].

Definition ignoredKeys : gset string := {[KeySourceHash]}.

Definition requestKeys : gset string :=
  {[KeyReplicate; KeyTargetClusters; KeyTargetNamespaces; KeyTargetName;
    KeyConflictPolicy]}.

Definition RequestKeys : list string := Sort (elements requestKeys).

(** A Go string map read: the zero value when the key is absent. *)
Definition mget (m : gmap string string) (k : string) : string := default "" (m !! k).

Definition keys (m : gmap string string) : list string := elements (dom m).

Definition HasRequest (ann : gmap string string) : bool :=
  existsb (λ k, bool_decide (k ∈ requestKeys)) (keys ann).

Definition Replicates (ann : gmap string string) : bool :=
  bool_decide (mget ann KeyReplicate = ValueTrue).

(** [annotation "k": ...] *)
Definition ann_error (k msg : string) : string := "annotation " +:+ quote k +:+ ": " +:+ msg.

Definition parseConflictPolicy (raw : string) : string + string :=
  let trimmed := TrimSpace raw in
  if decide (trimmed = "") then inr DefaultConflictPolicy
  else if contains conflictPolicyValues trimmed then inr trimmed
  else inl (ann_error KeyConflictPolicy
              ("expected one of " +:+ Join conflictPolicyValues ", " +:+ ", got " +:+ quote trimmed)).

Definition RequestedConflictPolicy (ann : gmap string string) : string :=
  match parseConflictPolicy (mget ann KeyConflictPolicy) with
  | inl _ => DefaultConflictPolicy
  | inr cp => cp
  end.

Section annotations.
Context `{LabelsAPI}.

Record Request := {
  ClusterSelector : Selector;
  ClusterSelectorString : string;
  TargetNamespaces : list string;
  TargetName : string;
  ConflictPolicy : string;
}.

Definition EffectiveNamespaces (r : Request) (sourceNamespace : string) : list string :=
  match TargetNamespaces r with [] => [sourceNamespace] | l => l end.

Definition parseClusterSelector (raw : string) : string + Selector :=
  let trimmed := TrimSpace raw in
  if decide (trimmed = "") then inr Nothing
  else if decide (trimmed = "*") then
    inl (ann_error KeyTargetClusters
           ("wildcard " +:+ dq +:+ "*" +:+ dq +:+
            " is not supported; select clusters with an explicit label selector"))
  else match LabelsParse trimmed with
       | inl err =>
           inl (ann_error KeyTargetClusters
                  ("invalid label selector " +:+ quote trimmed +:+ ": " +:+ err))
       | inr sel => inr sel
       end.

(** The loop of [parseTargetNamespaces]; [seen] is its [map[string]bool]. *)
Fixpoint parse_parts (raw : string) (seen : gset string) (out parts : list string)
    : string + list string :=
  match parts with
  | [] => inr out
  | p :: parts' =>
      let ns := TrimSpace p in
      if decide (ns = "") then
        inl (ann_error KeyTargetNamespaces ("empty namespace entry in " +:+ quote raw))
      else match IsDNS1123Label ns with
           | m :: ms =>
               inl (ann_error KeyTargetNamespaces
                      ("invalid namespace " +:+ quote ns +:+ ": " +:+ Join (m :: ms) "; "))
           | [] =>
               if decide (ns ∈ seen) then
                 inl (ann_error KeyTargetNamespaces ("duplicate namespace " +:+ quote ns))
               else parse_parts raw ({[ns]} ∪ seen) (out ++ [ns])%list parts'
           end
  end.

Definition parseTargetNamespaces (raw : string) : string + list string :=
  if decide (TrimSpace raw = "") then inr []
  else parse_parts raw ∅ [] (Split (chr 44) raw).

Definition parseTargetName (raw : string) : string + string :=
  let name := TrimSpace raw in
  if decide (name = "") then inr ""
  else match IsDNS1123Subdomain name with
       | [] => inr name
       | msgs => inl (ann_error KeyTargetName
                        ("invalid name " +:+ quote name +:+ ": " +:+ Join msgs "; "))
       end.

(** [range ann] in the order [it]. *)
Definition unknown_errors (it : list string) : list string :=
  map (λ k, ann_error k ("unknown r8r.io annotation (valid keys: " +:+ (Join RequestKeys ", " +:+ ")")))
    (filter (λ k, has_prefix k Prefix = true ∧ (k ∉ requestKeys) ∧ (k ∉ ignoredKeys)) it).

Definition replicate_error (raw : string) : string :=
  ann_error KeyReplicate
    ("expected " +:+ dq +:+ "true" +:+ dq +:+ " or " +:+ dq +:+ "false" +:+ dq +:+
     ", got " +:+ quote raw).

Definition emptyRequest : Request :=
  {| ClusterSelector := Nothing; ClusterSelectorString := ""; TargetNamespaces := [];
     TargetName := ""; ConflictPolicy := DefaultConflictPolicy |}.

Definition set_clusters (sel : Selector) (raw : string) (r : Request) : Request :=
  {| ClusterSelector := sel; ClusterSelectorString := TrimSpace raw;
     TargetNamespaces := TargetNamespaces r; TargetName := TargetName r;
     ConflictPolicy := ConflictPolicy r |}.
Definition set_namespaces (nss : list string) (r : Request) : Request :=
  {| ClusterSelector := ClusterSelector r; ClusterSelectorString := ClusterSelectorString r;
     TargetNamespaces := nss; TargetName := TargetName r; ConflictPolicy := ConflictPolicy r |}.
Definition set_name (n : string) (r : Request) : Request :=
  {| ClusterSelector := ClusterSelector r; ClusterSelectorString := ClusterSelectorString r;
     TargetNamespaces := TargetNamespaces r; TargetName := n; ConflictPolicy := ConflictPolicy r |}.
Definition set_policy (cp : string) (r : Request) : Request :=
  {| ClusterSelector := ClusterSelector r; ClusterSelectorString := ClusterSelectorString r;
     TargetNamespaces := TargetNamespaces r; TargetName := TargetName r; ConflictPolicy := cp |}.

(** One [if raw, ok := ann[key]; ok] block: an error is appended, a value is
    stored in the request. *)
Definition step {A} (o : option string) (parse : string → string + A)
    (store : A → string → Request → Request) (acc : list string * Request)
    : list string * Request :=
  match o with
  | None => acc
  | Some raw =>
      match parse raw with
      | inl e => ((acc.1 ++ [e])%list, acc.2)
      | inr a => (acc.1, store a raw acc.2)
      end
  end.

(** [Parse]: [inl errs] is the aggregated error, [inr None] is [(nil, nil)]. *)
Definition Parse (it : list string) (ann : gmap string string)
    : list string + option Request :=
  let errs0 := unknown_errors it in
  let '(optIn, errs1) :=
    match ann !! KeyReplicate with
    | None => (false, errs0)
    | Some raw =>
        if decide (raw = ValueTrue) then (true, errs0)
        else if decide (raw = ValueFalse) then (false, errs0)
        else (false, errs0 ++ [replicate_error raw])%list
    end in
  let acc := step (ann !! KeyTargetClusters) parseClusterSelector
               (λ sel raw, set_clusters sel raw) (errs1, emptyRequest) in
  let acc := step (ann !! KeyTargetNamespaces) parseTargetNamespaces
               (λ nss _, set_namespaces nss) acc in
  let acc := step (ann !! KeyTargetName) parseTargetName
               (λ n _ r, if decide (n = "") then r else set_name n r) acc in
  let '(errs, req) := step (ann !! KeyConflictPolicy) parseConflictPolicy
               (λ cp _, set_policy cp) acc in
  match errs with
  | _ :: _ => inl errs
  | [] => if optIn then inr (Some req) else inr None
  end.

(** ** What a well-formed set of annotations is *)

(** The value of [k], when there is one, is accepted by [parse]. *)
Definition accepted {A} (parse : string → string + A) (o : option string) : Prop :=
  match o with None => True | Some raw => ∃ a, parse raw = inr a end.

Record valid_contract (ann : gmap string string) : Prop := {
  vc_known : ∀ k, k ∈ dom ann → has_prefix k Prefix = true →
             k ∈ requestKeys ∨ k ∈ ignoredKeys;
  vc_replicate : ∀ v, ann !! KeyReplicate = Some v → v = ValueTrue ∨ v = ValueFalse;
  vc_clusters : accepted parseClusterSelector (ann !! KeyTargetClusters);
  vc_namespaces : accepted parseTargetNamespaces (ann !! KeyTargetNamespaces);
  vc_name : accepted parseTargetName (ann !! KeyTargetName);
  vc_policy : accepted parseConflictPolicy (ann !! KeyConflictPolicy);
}.

(** The value [parse] gives for [o], [d] when it gives none. *)
Definition parsed {A} (parse : string → string + A) (d : A) (o : option string) : A :=
  match o with
  | None => d
  | Some raw => match parse raw with inl _ => d | inr a => a end
  end.

(** Key [k] of [ann] breaks the contract. *)
Definition offending (ann : gmap string string) (k : string) : Prop :=
  (k ∈ dom ann ∧ has_prefix k Prefix = true ∧ (k ∉ requestKeys) ∧ (k ∉ ignoredKeys)) ∨
  (k = KeyReplicate ∧ ∃ v, ann !! k = Some v ∧ v ≠ ValueTrue ∧ v ≠ ValueFalse) ∨
  (k = KeyTargetClusters ∧ ¬ accepted parseClusterSelector (ann !! k)) ∨
  (k = KeyTargetNamespaces ∧ ¬ accepted parseTargetNamespaces (ann !! k)) ∨
  (k = KeyTargetName ∧ ¬ accepted parseTargetName (ann !! k)) ∨
  (k = KeyConflictPolicy ∧ ¬ accepted parseConflictPolicy (ann !! k)).

(** The error [parse] reports for [o], if any. *)
Definition errs_of {A} (parse : string → string + A) (o : option string) : list string :=
  match o with
  | None => []
  | Some raw => match parse raw with inl e => [e] | inr _ => [] end
  end.

(** The request a well-formed, opted-in set of annotations stands for. *)
Definition spec_request (ann : gmap string string) : Request :=
  {| ClusterSelector := parsed parseClusterSelector Nothing (ann !! KeyTargetClusters);
     ClusterSelectorString := TrimSpace (mget ann KeyTargetClusters);
     TargetNamespaces := parsed parseTargetNamespaces [] (ann !! KeyTargetNamespaces);
     TargetName := parsed parseTargetName "" (ann !! KeyTargetName);
     ConflictPolicy := parsed parseConflictPolicy DefaultConflictPolicy (ann !! KeyConflictPolicy) |}.

(** ** Lemmas *)

Lemma elem_of_keys k m : k ∈ keys m ↔ k ∈ dom m.
Proof. unfold keys. by rw elem_of_elements. Qed.

Lemma ann_error_prefix k msg :
  has_prefix (ann_error k msg) ("annotation " +:+ quote k +:+ ": ") = true.
Proof.
  apply has_prefix_spec. exists msg. unfold ann_error.
  by rw !string_app_assoc.
Qed.

Lemma step_eq {A} o (parse : string → string + A) store es r :
  step o parse store (es, r) =
  ((es ++ errs_of parse o)%list,
   match o with
   | None => r
   | Some raw => match parse raw with inl _ => r | inr a => store a raw r end
   end).
Proof.
  unfold step, errs_of. destruct o as [raw|]; simpl; [|by rw app_nil_r].
  destruct (parse raw); simpl; by rw ?app_nil_r.
Qed.

Lemma errs_of_nil {A} (parse : string → string + A) o :
  errs_of parse o = [] ↔ accepted parse o.
Proof.
  unfold errs_of, accepted. destruct o as [raw|]; [|done].
  destruct (parse raw) as [e|a]; split; try done; [by intros [? ?] | by eexists].
Qed.

Definition replicate_errs (o : option string) : list string :=
  match o with
  | None => []
  | Some raw => if decide (raw = ValueTrue ∨ raw = ValueFalse) then [] else [replicate_error raw]
  end.

Definition all_errors (it : list string) (ann : gmap string string) : list string :=
  (unknown_errors it ++ replicate_errs (ann !! KeyReplicate) ++
   errs_of parseClusterSelector (ann !! KeyTargetClusters) ++
   errs_of parseTargetNamespaces (ann !! KeyTargetNamespaces) ++
   errs_of parseTargetName (ann !! KeyTargetName) ++
   errs_of parseConflictPolicy (ann !! KeyConflictPolicy))%list.

Lemma replicate_block ann errs0 :
  match ann !! KeyReplicate with
  | None => (false, errs0)
  | Some raw =>
      if decide (raw = ValueTrue) then (true, errs0)
      else if decide (raw = ValueFalse) then (false, errs0)
      else (false, errs0 ++ [replicate_error raw])%list
  end = (Replicates ann, errs0 ++ replicate_errs (ann !! KeyReplicate))%list.
Proof.
  unfold Replicates, mget, replicate_errs. destruct (ann !! KeyReplicate) as [raw|]; simpl.
  - repeat case_decide; rw ?app_nil_r; subst; try done; try tauto;
      f_equal; rw ?bool_decide_eq_false_2 //.
  - by rw app_nil_r.
Qed.

Lemma Parse_errors it ann e es :
  all_errors it ann = e :: es → Parse it ann = inl (e :: es).
Proof.
  intros He. unfold Parse. rw replicate_block !step_eq /= -!app_assoc.
  unfold all_errors in He. by rw He.
Qed.

Lemma Parse_no_errors it ann :
  all_errors it ann = [] →
  Parse it ann = inr (if Replicates ann then Some (spec_request ann) else None).
Proof.
  intros He. unfold Parse. rw replicate_block !step_eq /= -!app_assoc.
  unfold all_errors in He. rw He.
  destruct (Replicates ann); [|done]. do 2 f_equal.
  apply app_eq_nil in He as [_ [_ [Hc [Hn [Hm Hp]%app_eq_nil]%app_eq_nil]%app_eq_nil]%app_eq_nil].
  unfold spec_request, parsed, mget.
  unfold errs_of in Hc, Hn, Hm, Hp.
  destruct (ann !! KeyTargetClusters) as [c|], (ann !! KeyTargetNamespaces) as [n|],
    (ann !! KeyTargetName) as [m|], (ann !! KeyConflictPolicy) as [p|]; simpl;
    repeat match goal with
    | |- context [match ?x with inl _ => _ | inr _ => _ end] => destruct x; try done
    | |- context [decide (?x = "")] => destruct (decide (x = "")); subst
    end; done.
Qed.

Lemma all_errors_nil it ann :
  it ≡ₚ keys ann → all_errors it ann = [] ↔ valid_contract ann.
Proof.
  intros Hit. unfold all_errors. rw !app_nil !errs_of_nil.
  unfold unknown_errors. rw map_nil_iff.
  split.
  - intros (Hu & Hr & ? & ? & ? & ?). split; try done.
    + intros k Hk Hp.
      destruct (decide (k ∈ requestKeys)); [by left|].
      destruct (decide (k ∈ ignoredKeys)); [by right|].
      assert (k ∈ filter (λ k, has_prefix k Prefix = true ∧ (k ∉ requestKeys) ∧ (k ∉ ignoredKeys)) it)
        as Hin.
      { apply list_elem_of_filter. split; [done|]. rw Hit. by apply elem_of_keys. }
      rw Hu in Hin. by apply not_elem_of_nil in Hin.
    + intros v Hv. unfold replicate_errs in Hr. rw Hv in Hr. by case_decide.
  - intros [Hk Hr ? ? ? ?]. split_and!; try done.
    + destruct (filter _ it) as [|k l] eqn:E; [done|]. exfalso.
      assert (k ∈ filter (λ k, has_prefix k Prefix = true ∧ (k ∉ requestKeys) ∧ (k ∉ ignoredKeys)) it)
        as Hin by (rw E; apply list_elem_of_here).
      apply list_elem_of_filter in Hin as [(Hp & H1 & H2) Hin].
      rw Hit in Hin. apply elem_of_keys in Hin. destruct (Hk k Hin Hp); done.
    + unfold replicate_errs. destruct (ann !! KeyReplicate) as [v|]; [|done].
      by rw decide_True; [apply Hr|].
Qed.

Lemma unknown_errors_Permutation it it' :
  it ≡ₚ it' → unknown_errors it ≡ₚ unknown_errors it'.
Proof. intros Hit. unfold unknown_errors. by rw Hit. Qed.

Lemma ann_error_in_errs_of {A} (parse : string → string + A) k o :
  (∀ raw e, parse raw = inl e → ∃ msg, e = ann_error k msg) →
  ¬ accepted parse o → ∃ msg, ann_error k msg ∈ errs_of parse o.
Proof.
  intros Hp Hn. unfold errs_of, accepted in *. destruct o as [raw|]; [|done].
  destruct (parse raw) as [e|a] eqn:E; [|naive_solver].
  destruct (Hp raw e E) as [msg ->]. exists msg. set_solver.
Qed.

Lemma parseClusterSelector_error raw e :
  parseClusterSelector raw = inl e → ∃ msg, e = ann_error KeyTargetClusters msg.
Proof. unfold parseClusterSelector. case_all; eauto. Qed.

Lemma parse_parts_error raw seen out parts e :
  parse_parts raw seen out parts = inl e → ∃ msg, e = ann_error KeyTargetNamespaces msg.
Proof.
  revert seen out. induction parts as [|p parts IH]; intros seen out; simpl; [done|].
  case_decide; [intros [= <-]; eauto|].
  destruct (IsDNS1123Label _); [|intros [= <-]; eauto].
  case_decide; [intros [= <-]; eauto | apply IH].
Qed.

Lemma parseTargetNamespaces_error raw e :
  parseTargetNamespaces raw = inl e → ∃ msg, e = ann_error KeyTargetNamespaces msg.
Proof. unfold parseTargetNamespaces. case_decide; [done | apply parse_parts_error]. Qed.

Lemma parseTargetName_error raw e :
  parseTargetName raw = inl e → ∃ msg, e = ann_error KeyTargetName msg.
Proof. unfold parseTargetName. case_all; eauto. Qed.

Lemma parseConflictPolicy_error raw e :
  parseConflictPolicy raw = inl e → ∃ msg, e = ann_error KeyConflictPolicy msg.
Proof. unfold parseConflictPolicy. case_all; eauto. Qed.

Lemma parseConflictPolicy_closed raw cp :
  parseConflictPolicy raw = inr cp → cp ∈ conflictPolicyValues.
Proof.
  unfold parseConflictPolicy. case_decide.
  - intros [= <-]. set_solver.
  - destruct (contains _ _) eqn:E; [|done]. intros [= <-]. by apply contains_true.
Qed.

Lemma offending_in_all_errors it ann k :
  it ≡ₚ keys ann → offending ann k → ∃ msg, ann_error k msg ∈ all_errors it ann.
Proof.
  intros Hit Hk. unfold all_errors.
  destruct Hk as [(Hd & Hp & H1 & H2)|[(-> & v & Hv & Ht & Hf)|Hk]].
  - eexists. rw elem_of_app. left. unfold unknown_errors. apply elem_of_map.
    exists k. split; [reflexivity|]. apply list_elem_of_filter. split; [done|].
    rw Hit. by apply elem_of_keys.
  - eexists. rw !elem_of_app. right. left. unfold replicate_errs. rw Hv.
    rw decide_False; [naive_solver|]. apply list_elem_of_singleton. reflexivity.
  - destruct Hk as [[-> Ha]|[[-> Ha]|[[-> Ha]|[-> Ha]]]];
      (eapply ann_error_in_errs_of in Ha as [msg Hm];
        [ exists msg; rw !elem_of_app; eauto 7
        | eauto using parseClusterSelector_error, parseTargetNamespaces_error,
            parseTargetName_error, parseConflictPolicy_error ]).
Qed.

Lemma parse_parts_ok raw seen out parts r :
  parse_parts raw seen out parts = inr r →
  (∀ x, x ∈ out → x ∈ seen) → NoDup out →
  r = (out ++ map TrimSpace parts)%list ∧ NoDup r ∧
  Forall (λ ns, ns ≠ "" ∧ IsDNS1123Label ns = []) (map TrimSpace parts).
Proof.
  revert seen out. induction parts as [|p parts IH]; intros seen out; simpl.
  - intros [= <-] _ ?. by rw app_nil_r.
  - case_decide; [done|]. destruct (IsDNS1123Label _) eqn:E; [|done].
    case_decide; [done|]. intros Hr Hs Hn.
    apply IH in Hr as (-> & Hn' & Hf).
    + rw -app_assoc. rw -app_assoc in Hn'. split_and!; [done..|]. by constructor.
    + set_solver.
    + apply NoDup_app. split_and!; [done| |apply NoDup_singleton].
      intros x Hx ->%list_elem_of_singleton. naive_solver.
Qed.

Section laws.
Context `{!LabelsLaws}.
Lemma parse_cluster_empty ann :
  TrimSpace (mget ann KeyTargetClusters) = "" →
  ClusterSelector (spec_request ann) = Nothing.
Proof.
  unfold mget. simpl. destruct (ann !! KeyTargetClusters) as [raw|]; simpl; [|done].
  intros Ht. unfold parseClusterSelector. by rw Ht.
Qed.
End laws.

(** ** Properties *)

(** C12. [Parse] decides the annotation contract: on well-formed annotations it
    returns exactly the request they stand for when the object opts in and
    [(nil, nil)] otherwise, and on any other annotations it returns an error. *)
Theorem Parse_correct it ann (Hit : it ≡ₚ keys ann) :
  (valid_contract ann →
   Parse it ann = inr (if Replicates ann then Some (spec_request ann) else None)) ∧
  (¬ valid_contract ann → ∃ e es, Parse it ann = inl (e :: es)).
Proof.
  rw -(all_errors_nil it ann Hit). split.
  - apply Parse_no_errors.
  - destruct (all_errors it ann) as [|e es] eqn:E; [done|].
    intros _. exists e, es. by apply Parse_errors.
Qed.

(** C31. When [Parse] fails, its error names every offending annotation key:
    for each key that breaks the contract one of the collected messages starts
    with [annotation "<key>": ]. *)
Theorem Parse_names_every_offender it ann errs k
    (Hit : it ≡ₚ keys ann) (Hp : Parse it ann = inl errs) (Hk : offending ann k) :
  ∃ e, e ∈ errs ∧ has_prefix e ("annotation " +:+ quote k +:+ ": ") = true.
Proof.
  destruct (offending_in_all_errors it ann k Hit Hk) as [msg Hm].
  exists (ann_error k msg). split; [|apply ann_error_prefix].
  destruct (all_errors it ann) as [|e es] eqn:E; [by apply not_elem_of_nil in Hm|].
  rw (Parse_errors _ _ _ _ E) in Hp. congruence.
Qed.

(** The verdict of [Parse] does not depend on the order in which Go
    iterates over the annotation map: the request is the same, and the errors
    are the same up to their order. *)
Theorem Parse_order_independent it it' ann (Hit : it ≡ₚ it') :
  match Parse it ann, Parse it' ann with
  | inr r, inr r' => r = r'
  | inl es, inl es' => es ≡ₚ es'
  | _, _ => False
  end.
Proof.
  assert (all_errors it ann ≡ₚ all_errors it' ann) as Hp.
  { unfold all_errors. by rw (unknown_errors_Permutation it it' Hit). }
  destruct (all_errors it ann) as [|e es] eqn:E.
  - apply Permutation_nil_l in Hp. rw !Parse_no_errors //.
  - destruct (all_errors it' ann) as [|e' es'] eqn:E'.
    + by apply Permutation_nil_r in Hp.
    + by rw (Parse_errors _ _ _ _ E) (Parse_errors _ _ _ _ E').
Qed.

(** Replication always needs an explicit cluster selection: a request whose
    [r8r.io/target-clusters] is absent, empty or only white space selects no
    cluster, whatever its labels. *)
Theorem Parse_empty_selector_selects_nothing `{!LabelsLaws} it ann r
    (Hp : Parse it ann = inr (Some r))
    (He : TrimSpace (mget ann KeyTargetClusters) = "") ls :
  Matches (ClusterSelector r) ls = false.
Proof.
  destruct (all_errors it ann) as [|e es] eqn:E.
  - rw (Parse_no_errors _ _ E) in Hp. destruct (Replicates ann); [|done].
    injection Hp as <-. rw (parse_cluster_empty ann He). apply nothing_matches.
  - by rw (Parse_errors _ _ _ _ E) in Hp.
Qed.

(** The conflict consent of a parsed request is one of the three enum
    values, is [Fail] when the annotation is absent, and is what the engine's
    own lenient reader [RequestedConflictPolicy] sees on the same object. *)
Theorem Parse_conflict_policy it ann r (Hp : Parse it ann = inr (Some r)) :
  ConflictPolicy r ∈ conflictPolicyValues ∧
  (ann !! KeyConflictPolicy = None → ConflictPolicy r = ConflictPolicyFail) ∧
  ConflictPolicy r = RequestedConflictPolicy ann.
Proof.
  destruct (all_errors it ann) as [|e es] eqn:E; [|by rw (Parse_errors _ _ _ _ E) in Hp].
  rw (Parse_no_errors _ _ E) in Hp. destruct (Replicates ann); [|done].
  injection Hp as <-. unfold RequestedConflictPolicy, mget. simpl.
  destruct (ann !! KeyConflictPolicy) as [raw|]; simpl.
  - destruct (parseConflictPolicy raw) as [e|cp] eqn:Ec; simpl.
    + split_and!; [set_solver | done | done].
    + split_and!; [by eapply parseConflictPolicy_closed | done | done].
  - split_and!; [set_solver | done | done].
Qed.

(** A namespace list that parses is the comma-separated entries with white
    space trimmed, in order, each a valid DNS-1123 label and none repeated; an
    empty value gives the empty list, which [EffectiveNamespaces] replaces by
    the namespace of the source. *)
Theorem parseTargetNamespaces_correct raw nss (Hp : parseTargetNamespaces raw = inr nss) :
  NoDup nss ∧ Forall (λ ns, ns ≠ "" ∧ IsDNS1123Label ns = []) nss ∧
  nss = (if decide (TrimSpace raw = "") then [] else map TrimSpace (Split (chr 44) raw)).
Proof.
  unfold parseTargetNamespaces in Hp. case_decide as Ht.
  - injection Hp as <-. by repeat constructor.
  - apply parse_parts_ok in Hp as (-> & Hn & Hf); [done | set_solver | constructor].
Qed.
End annotations.

(** ** Concrete inputs *)

Definition ann_ok : gmap string string :=
  {[ KeyReplicate := "true"; KeyTargetClusters := "env=dev"; KeyTargetNamespaces := "a, b";
     KeyConflictPolicy := "Adopt" ]}.

Definition ann_bad : gmap string string :=
  {[ KeyReplicate := "yes"; "r8r.io/target-cluster" := "env=dev" ]}.

Definition ann_none : gmap string string := {[ KeyReplicate := "true" ]}.

#[local] Existing Instance LabelsModel.api.
#[local] Existing Instance LabelsModel.laws.

Lemma Parse_correct_witness :
  ∃ e es, Parse (keys ann_bad) ann_bad = inl (e :: es).
Proof.
  apply (proj2 (Parse_correct (keys ann_bad) ann_bad ltac:(reflexivity))).
  intros Hv. destruct (vc_replicate _ Hv "yes"); [reflexivity | done | done].
Defined.

Lemma Parse_names_every_offender_witness :
  ∃ errs e, Parse (keys ann_bad) ann_bad = inl errs ∧ e ∈ errs ∧
    has_prefix e ("annotation " +:+ quote "r8r.io/target-cluster" +:+ ": ") = true.
Proof.
  eexists. destruct (Parse_names_every_offender (keys ann_bad) ann_bad
    (unknown_errors (keys ann_bad) ++ [replicate_error "yes"]) "r8r.io/target-cluster")
    as (e & He & Hpre).
  - reflexivity.
  - vm_refl.
  - left. split_and!; [by vm_compute | by vm_compute | |]; by apply (bool_decide_unpack _); vm_compute.
  - exists e. split; [|split; [exact He | exact Hpre]]. vm_refl.
Defined.

Lemma Parse_order_independent_witness :
  keys ann_bad ≡ₚ rev (keys ann_bad) ∧
  match Parse (keys ann_bad) ann_bad, Parse (rev (keys ann_bad)) ann_bad with
  | inr r, inr r' => r = r'
  | inl es, inl es' => es ≡ₚ es'
  | _, _ => False
  end.
Proof.
  assert (keys ann_bad ≡ₚ rev (keys ann_bad)) as Hp by apply Permutation_rev.
  split; [exact Hp | apply (Parse_order_independent _ _ ann_bad Hp)].
Defined.

Lemma Parse_empty_selector_witness :
  Matches (ClusterSelector (spec_request ann_none)) {[ "env" := "dev" ]} = false.
Proof.
  refine (Parse_empty_selector_selects_nothing (keys ann_none) ann_none _ _ _ _);
    vm_refl.
Defined.

Lemma Parse_conflict_policy_witness :
  ConflictPolicy (spec_request ann_ok) = RequestedConflictPolicy ann_ok.
Proof.
  refine (proj2 (proj2 (Parse_conflict_policy (keys ann_ok) ann_ok _ _))).
  vm_refl.
Defined.

Lemma parseTargetNamespaces_witness :
  parseTargetNamespaces "a, b" = inr ["a"; "b"] ∧ NoDup ["a"; "b"].
Proof.
  split; [vm_refl|].
  apply (parseTargetNamespaces_correct "a, b"). vm_refl.
Defined.
