(* ===== verification/Policy.v ===== *)
(** The policy core, [internal/policy]: [policy.go] decides each target of a
    request against the allowlist policies, [options.go] combines the options of
    the policies that permit a target and compares two evaluations. All of it is
    pure; label selectors come from the [LabelsAPI] interface. *)
From S2P Require Import Prelude GoLib Api Labels.

#[local] Open Scope string_scope.

Definition DimensionSourceNamespace : string := "sourceNamespace".
Definition DimensionSourceKind : string := "sourceKind".
Definition DimensionTargetCluster : string := "targetCluster".
Definition DimensionTargetNamespace : string := "targetNamespace".
Definition DimensionNoPolicies : string := "noPolicies".

Definition dimensionRanks : gmap string nat :=
  {[ DimensionNoPolicies := 0; DimensionSourceNamespace := 1; DimensionSourceKind := 2;
     DimensionTargetCluster := 3; DimensionTargetNamespace := 4 ]}%nat.

(** A Go map read: the zero value for an absent key. *)
Definition dimensionRank (d : string) : nat := default 0%nat (dimensionRanks !! d).

(** ** policy.go *)

Record Source := {
  s_Kind : string;
  s_Namespace : string;
  s_NamespaceLabels : gmap string string;
}.

Record Target := {
  t_ClusterName : string;
  t_ClusterLabels : gmap string string;
  t_Namespace : string;
}.

Record PolicyRequest := { q_Source : Source; q_Targets : list Target }.

Record Decision := {
  d_Target : Target;
  Allowed : bool;
  MatchedPolicies : list string;
  DeniedDimension : string;
  Reason : string;
}.

Record Result := { Decisions : list Decision }.

#[export] Instance Target_eq : EqDecision Target.
Proof. solve_decision. Defined.
#[export] Instance Decision_eq : EqDecision Decision.
Proof. solve_decision. Defined.

(** [Result.filter], [Result.Allowed], [Result.Denied] *)
Definition result_filter (r : Result) (allowed : bool) : list Decision :=
  filter (λ d, Allowed d = allowed) (Decisions r).
Definition result_Allowed (r : Result) : list Decision := result_filter r true.
Definition result_Denied (r : Result) : list Decision := result_filter r false.

Definition policyList (names : list string) : string :=
  match names with
  | [n] => "policy " +:+ quote n
  | _ => "policies " +:+ fmt_strings names
  end.

Definition denialReason (dim closest : string) (src : Source) (tgt : Target) : string :=
  if decide (dim = DimensionSourceNamespace) then
    "denied: no ReplicationPolicy allowlists source namespace " +:+ quote (s_Namespace src)
      +:+ " (sourceNamespace)"
  else if decide (dim = DimensionSourceKind) then
    "denied: no ReplicationPolicy matching source namespace " +:+ quote (s_Namespace src)
      +:+ " allowlists kind " +:+ quote (s_Kind src) +:+ " (sourceKind, closest policy "
      +:+ quote closest +:+ ")"
  else if decide (dim = DimensionTargetCluster) then
    "denied: no single ReplicationPolicy matching the source permits target cluster "
      +:+ quote (t_ClusterName tgt) +:+ " (targetCluster, closest policy " +:+ quote closest +:+ ")"
  else if decide (dim = DimensionTargetNamespace) then
    "denied: no single ReplicationPolicy matching source and cluster allowlists target namespace "
      +:+ quote (t_Namespace tgt) +:+ " on cluster " +:+ quote (t_ClusterName tgt)
      +:+ " (targetNamespace, closest policy " +:+ quote closest +:+ ")"
  else "denied by default: no ReplicationPolicy permits this target".

Section policy.
Context `{LabelsAPI}.

Definition selectorMatches (sel : LabelSelector) (lbls : gmap string string) : bool :=
  match LabelSelectorAsSelector sel with
  | None => false
  | Some s => Matches s lbls
  end.

Definition matchClusterSelector (sel : LabelSelector) (clusterLabels : gmap string string) : bool :=
  selectorMatches sel clusterLabels.

Definition matchSourceNamespace (s : PolicySources) (src : Source) : bool :=
  if contains (src_Namespaces s) (s_Namespace src) then true
  else match src_NamespaceSelector s with
       | None => false
       | Some sel => selectorMatches sel (s_NamespaceLabels src)
       end.

(** [inl dim] is [(dim, false)], [inr tt] is [("", true)]. *)
Definition matchPolicy (p : ReplicationPolicy) (src : Source) (tgt : Target) : string + unit :=
  if negb (matchSourceNamespace (spec_Sources (pol_Spec p)) src) then inl DimensionSourceNamespace
  else if negb (contains (src_Kinds (spec_Sources (pol_Spec p))) (s_Kind src)) then
    inl DimensionSourceKind
  else if negb (matchClusterSelector (tgt_ClusterSelector (spec_Targets (pol_Spec p)))
                  (t_ClusterLabels tgt)) then inl DimensionTargetCluster
  else if negb (contains (tgt_Namespaces (spec_Targets (pol_Spec p))) (t_Namespace tgt)) then
    inl DimensionTargetNamespace
  else inr tt.

(** The loop variables of [decide]. *)
Record DecideState := { matched : list string; bestDim : string; bestPolicy : string }.

Definition decide_step (src : Source) (tgt : Target) (st : DecideState) (p : ReplicationPolicy)
    : DecideState :=
  match matchPolicy p src tgt with
  | inr _ => {| matched := matched st ++ [pol_Name p]; bestDim := bestDim st;
                bestPolicy := bestPolicy st |}
  | inl failedDim =>
      if (dimensionRank (bestDim st) <=? dimensionRank failedDim)%nat then
        {| matched := matched st; bestDim := failedDim; bestPolicy := pol_Name p |}
      else st
  end.

Definition decide_loop (src : Source) (tgt : Target) (policies : list ReplicationPolicy)
    : DecideState :=
  foldl (decide_step src tgt)
    {| matched := []; bestDim := DimensionSourceNamespace; bestPolicy := "" |} policies.

Definition decide_target (src : Source) (tgt : Target) (policies : list ReplicationPolicy)
    : Decision :=
  match policies with
  | [] =>
      {| d_Target := tgt; Allowed := false; MatchedPolicies := [];
         DeniedDimension := DimensionNoPolicies;
         Reason := "denied by default: no ReplicationPolicy objects exist" |}
  | _ =>
      let st := decide_loop src tgt policies in
      match matched st with
      | _ :: _ =>
          let m := Sort (matched st) in
          {| d_Target := tgt; Allowed := true; MatchedPolicies := m; DeniedDimension := "";
             Reason := "allowed by " +:+ policyList m |}
      | [] =>
          {| d_Target := tgt; Allowed := false; MatchedPolicies := [];
             DeniedDimension := bestDim st;
             Reason := denialReason (bestDim st) (bestPolicy st) src tgt |}
      end
  end.

Definition Evaluate (req : PolicyRequest) (policies : list ReplicationPolicy) : Result :=
  {| Decisions := map (λ tgt, decide_target (q_Source req) tgt policies) (q_Targets req) |}.

(** ** options.go *)

Record EffectiveOptions := {
  eff_AllowNamespaceCreation : bool;
  eff_AllowedConflictPolicies : list string;
  eff_RevocationPolicy : string;
}.

Definition conflictPolicyRank (cp : string) : nat :=
  default 0%nat
    (({[ ConflictPolicyFail := 0; ConflictPolicyAdopt := 1; ConflictPolicyOverwrite := 2 ]}%nat
      : gmap string nat) !! cp).

(** The inner loop over one policy's conflict policies; the accumulator is the
    [seen] map and the list being built. *)
Definition add_conflict_policy (acc : gset string * list string) (cp : string)
    : gset string * list string :=
  if decide (cp ∈ acc.1) then acc else ({[cp]} ∪ acc.1, (acc.2 ++ [cp])%list).

Definition resolve_step (acc : gset string * EffectiveOptions) (p : ReplicationPolicy)
    : gset string * EffectiveOptions :=
  let opts := spec_Options (pol_Spec p) in
  let eff := acc.2 in
  let '(seen, cps) :=
    foldl add_conflict_policy (acc.1, eff_AllowedConflictPolicies eff)
      (AllowedConflictPolicies opts) in
  (seen,
   {| eff_AllowNamespaceCreation :=
        if AllowNamespaceCreation opts then true else eff_AllowNamespaceCreation eff;
      eff_AllowedConflictPolicies := cps;
      eff_RevocationPolicy :=
        if decide (opt_RevocationPolicy opts = RevocationPolicyRetain)
        then RevocationPolicyRetain else eff_RevocationPolicy eff |}).

Definition ResolveOptions (ps : list ReplicationPolicy) : EffectiveOptions :=
  let eff0 := {| eff_AllowNamespaceCreation := false;
                 eff_AllowedConflictPolicies := [ConflictPolicyFail];
                 eff_RevocationPolicy := RevocationPolicyDelete |} in
  let eff := (foldl resolve_step ({[ConflictPolicyFail]}, eff0) ps).2 in
  {| eff_AllowNamespaceCreation := eff_AllowNamespaceCreation eff;
     eff_AllowedConflictPolicies :=
       isort (λ a b, conflictPolicyRank a <=? conflictPolicyRank b)%nat
         (eff_AllowedConflictPolicies eff);
     eff_RevocationPolicy := eff_RevocationPolicy eff |}.

Record Revocation := {
  rev_Target : Target;
  rev_Previous : Decision;
  rev_Current : option Decision;
}.

(** [type key struct{ cluster, namespace string }] *)
Definition target_key (t : Target) : string * string := (t_ClusterName t, t_Namespace t).

(** A later decision on the same key overwrites an earlier one. *)
Definition currentByKey (current : Result) : gmap (string * string) Decision :=
  foldl (λ m d, <[target_key (d_Target d) := d]> m) ∅ (Decisions current).

Definition revocation_of (cur : gmap (string * string) Decision) (prev : Decision)
    : option Revocation :=
  if negb (Allowed prev) then None
  else match cur !! target_key (d_Target prev) with
       | Some c =>
           if Allowed c then None
           else Some {| rev_Target := d_Target prev; rev_Previous := prev; rev_Current := Some c |}
       | None => Some {| rev_Target := d_Target prev; rev_Previous := prev; rev_Current := None |}
       end.

Definition DetectRevocations (previous current : Result) : list Revocation :=
  omap (revocation_of (currentByKey current)) (Decisions previous).

(** ** Specification: what it means for one policy to permit a target *)

Record permits (p : ReplicationPolicy) (src : Source) (tgt : Target) : Prop := {
  permits_namespace :
    s_Namespace src ∈ src_Namespaces (spec_Sources (pol_Spec p)) ∨
    ∃ sel, src_NamespaceSelector (spec_Sources (pol_Spec p)) = Some sel ∧
           selectorMatches sel (s_NamespaceLabels src) = true;
  permits_kind : s_Kind src ∈ src_Kinds (spec_Sources (pol_Spec p));
  permits_cluster :
    selectorMatches (tgt_ClusterSelector (spec_Targets (pol_Spec p))) (t_ClusterLabels tgt) = true;
  permits_target_namespace : t_Namespace tgt ∈ tgt_Namespaces (spec_Targets (pol_Spec p));
}.

(** The dimension a policy fails on: [None] when it permits the target. *)
Definition failed (p : ReplicationPolicy) (src : Source) (tgt : Target) : option string :=
  match matchPolicy p src tgt with inl d => Some d | inr _ => None end.

(** ** Lemmas *)

Lemma matchSourceNamespace_true s src :
  matchSourceNamespace s src = true ↔
  s_Namespace src ∈ src_Namespaces s ∨
  ∃ sel, src_NamespaceSelector s = Some sel ∧
         selectorMatches sel (s_NamespaceLabels src) = true.
Proof.
  unfold matchSourceNamespace. destruct (contains _ _) eqn:E.
  - apply contains_true in E. tauto.
  - apply contains_false in E. destruct (src_NamespaceSelector s); naive_solver.
Qed.

Lemma matchPolicy_permits p src tgt : matchPolicy p src tgt = inr tt ↔ permits p src tgt.
Proof.
  unfold matchPolicy, matchClusterSelector.
  destruct (matchSourceNamespace _ _) eqn:E1; simpl.
  2: { split; [done|]. intros [Hn _ _ _]. apply matchSourceNamespace_true in Hn. congruence. }
  destruct (contains (src_Kinds _) _) eqn:E2; simpl.
  2: { split; [done|]. intros [_ Hk _ _]. by apply contains_false in E2. }
  destruct (selectorMatches _ _) eqn:E3; simpl.
  2: { split; [done|]. intros []. congruence. }
  destruct (contains (tgt_Namespaces _) _) eqn:E4; simpl.
  2: { split; [done|]. intros [_ _ _ Ht]. by apply contains_false in E4. }
  apply contains_true in E2, E4. apply matchSourceNamespace_true in E1. by split.
Qed.

Lemma matchPolicy_dim p src tgt d :
  matchPolicy p src tgt = inl d →
  d ∈ [DimensionSourceNamespace; DimensionSourceKind; DimensionTargetCluster;
       DimensionTargetNamespace].
Proof. unfold matchPolicy. case_all; set_solver. Qed.

(** The names [decide_loop] collects, in input order. *)
Lemma decide_loop_matched src tgt ps st :
  matched (foldl (decide_step src tgt) st ps) =
  (matched st ++ map pol_Name (filter (λ p, matchPolicy p src tgt = inr tt) ps))%list.
Proof.
  revert st. induction ps as [|p ps IH]; intros st; simpl; [by rw app_nil_r|].
  rw IH filter_cons. unfold decide_step.
  case_decide as Hd; destruct (matchPolicy p src tgt) as [d|[]]; simplify_eq/=.
  - by rw -app_assoc.
  - by case_match.
Qed.

Lemma decide_loop_best src tgt ps st :
  let st' := foldl (decide_step src tgt) st ps in
  (dimensionRank (bestDim st) ≤ dimensionRank (bestDim st'))%nat ∧
  (∀ p d, p ∈ ps → matchPolicy p src tgt = inl d →
          (dimensionRank d ≤ dimensionRank (bestDim st'))%nat) ∧
  ((bestDim st' = bestDim st ∧ bestPolicy st' = bestPolicy st) ∨
   ∃ p, p ∈ ps ∧ matchPolicy p src tgt = inl (bestDim st') ∧ pol_Name p = bestPolicy st').
Proof.
  revert st. induction ps as [|p ps IH]; intros st; simpl.
  - split_and!; [done | set_solver | by left].
  - specialize (IH (decide_step src tgt st p)) as (Hr & Hall & Hsrc).
    assert (dimensionRank (bestDim st) ≤ dimensionRank (bestDim (decide_step src tgt st p)))%nat
      as Hst.
    { unfold decide_step. destruct (matchPolicy p src tgt); [|done].
      destruct (Nat.leb_spec (dimensionRank (bestDim st)) (dimensionRank s)); done. }
    split_and!; [lia| |].
    + intros q d Hq Hd. apply elem_of_cons in Hq as [->|Hq]; [|by eapply Hall].
      etrans; [|exact Hr]. unfold decide_step. rw Hd.
      destruct (Nat.leb_spec (dimensionRank (bestDim st)) (dimensionRank d)); simpl; lia.
    + destruct Hsrc as [[H1 H2]|(q & Hq & Hm & Hn)]; [|right; exists q; set_solver].
      rw H1 H2. unfold decide_step. destruct (matchPolicy p src tgt) as [d|] eqn:E; [|by left].
      destruct (_ <=? _)%nat; [|by left]. right. exists p. simpl. set_solver.
Qed.

Lemma decide_target_allowed src tgt ps :
  Allowed (decide_target src tgt ps) = true ↔ ∃ p, p ∈ ps ∧ permits p src tgt.
Proof.
  unfold decide_target. destruct ps as [|p0 ps0] eqn:Eps.
  { simpl. split; [done|]. set_solver. }
  rewrite <- Eps. unfold decide_loop. rw decide_loop_matched /=.
  destruct (map _ _) as [|n ns] eqn:E; simpl.
  - apply map_nil_iff in E. split; [done|]. intros (p & Hp & Hm).
    apply matchPolicy_permits in Hm.
    assert (p ∈ filter (λ p, matchPolicy p src tgt = inr tt) ps) as Hin
      by by apply list_elem_of_filter.
    rw E in Hin. set_solver.
  - split; [intros _|done].
    assert (n ∈ map pol_Name (filter (λ p, matchPolicy p src tgt = inr tt) ps)) as Hn
      by (rw E; apply list_elem_of_here).
    apply elem_of_map in Hn as (p & _ & Hp). apply list_elem_of_filter in Hp as [Hm Hp].
    exists p. by rw -matchPolicy_permits.
Qed.

Lemma decide_target_target src tgt ps : d_Target (decide_target src tgt ps) = tgt.
Proof. unfold decide_target. by repeat case_match. Qed.

Lemma decide_target_matched src tgt ps :
  MatchedPolicies (decide_target src tgt ps) =
  Sort (map pol_Name (filter (λ p, matchPolicy p src tgt = inr tt) ps)).
Proof.
  unfold decide_target. destruct ps as [|p0 ps0] eqn:Eps; [done|].
  rewrite <- Eps. unfold decide_loop. rw decide_loop_matched /=.
  by destruct (map _ _).
Qed.

Lemma decide_target_denied src tgt ps :
  ps ≠ [] → Allowed (decide_target src tgt ps) = false →
  DeniedDimension (decide_target src tgt ps) = bestDim (decide_loop src tgt ps) ∧
  ∀ p, p ∈ ps → ∃ d, matchPolicy p src tgt = inl d.
Proof.
  intros Hps Ha. split.
  - unfold decide_target in *. destruct ps as [|p0 ps0]; [done|].
    by destruct (matched _).
  - intros p Hp. destruct (matchPolicy p src tgt) as [d|[]] eqn:E; [by eauto|].
    apply matchPolicy_permits in E.
    assert (Allowed (decide_target src tgt ps) = true) by (apply decide_target_allowed; eauto).
    congruence.
Qed.

Lemma dimensionRank_pos p src tgt d :
  matchPolicy p src tgt = inl d →
  (1 ≤ dimensionRank d)%nat ∧ (dimensionRank d = 1%nat → d = DimensionSourceNamespace).
Proof.
  intros Hd%matchPolicy_dim. rw !elem_of_cons in Hd.
  destruct Hd as [->|[->|[->|[->|Hd]]]]; [split; [by vm_compute; lia | by vm_compute]..|].
  by apply not_elem_of_nil in Hd.
Qed.

(** *** Option resolution *)

Lemma foldl_add_conflict seen l cps :
  (∀ x, x ∈ seen ↔ x ∈ l) → NoDup l →
  let acc := foldl add_conflict_policy (seen, l) cps in
  (∀ x, x ∈ acc.1 ↔ x ∈ acc.2) ∧ NoDup acc.2 ∧ (∀ x, x ∈ acc.2 ↔ x ∈ l ∨ x ∈ cps).
Proof.
  revert seen l. induction cps as [|c cps IH]; intros seen l Hs Hn; simpl.
  - split_and!; set_solver.
  - unfold add_conflict_policy at 2 4 6 8. simpl. case_decide as Hc.
    + destruct (IH seen l Hs Hn) as (H1 & H2 & H3). split_and!; [done..|].
      intros x. rw H3. set_solver.
    + destruct (IH ({[c]} ∪ seen) (l ++ [c])%list) as (H1 & H2 & H3).
      * set_solver.
      * apply NoDup_app. split_and!; [done| |apply NoDup_singleton]. set_solver.
      * split_and!; [done..|]. intros x. rw H3. set_solver.
Qed.

Definition resolve_inv (seen : gset string) (eff : EffectiveOptions) (ps : list ReplicationPolicy)
    : Prop :=
  (∀ x, x ∈ seen ↔ x ∈ eff_AllowedConflictPolicies eff) ∧
  NoDup (eff_AllowedConflictPolicies eff) ∧
  (∀ x, x ∈ eff_AllowedConflictPolicies eff ↔
        x = ConflictPolicyFail ∨
        ∃ p, p ∈ ps ∧ x ∈ AllowedConflictPolicies (spec_Options (pol_Spec p))) ∧
  (eff_AllowNamespaceCreation eff = true ↔
   ∃ p, p ∈ ps ∧ AllowNamespaceCreation (spec_Options (pol_Spec p)) = true) ∧
  (eff_RevocationPolicy eff = RevocationPolicyRetain ∧
     (∃ p, p ∈ ps ∧ opt_RevocationPolicy (spec_Options (pol_Spec p)) = RevocationPolicyRetain) ∨
   eff_RevocationPolicy eff = RevocationPolicyDelete ∧
     (∀ p, p ∈ ps → opt_RevocationPolicy (spec_Options (pol_Spec p)) ≠ RevocationPolicyRetain)).

Lemma resolve_step_inv seen eff ps p :
  resolve_inv seen eff ps →
  resolve_inv (resolve_step (seen, eff) p).1 (resolve_step (seen, eff) p).2 (ps ++ [p]).
Proof.
  intros (Hs & Hn & Hu & Ha & Hr). unfold resolve_step. simpl.
  pose proof (foldl_add_conflict seen (eff_AllowedConflictPolicies eff)
    (AllowedConflictPolicies (spec_Options (pol_Spec p))) Hs Hn) as Hf.
  destruct (foldl _ _ _) as [seen' cps]. simpl in *.
  destruct Hf as (H1 & H2 & H3). split_and!; simpl; [done|done|..].
  - intros x. rw H3 Hu exists_snoc. tauto.
  - rw exists_snoc. destruct (AllowNamespaceCreation _) eqn:E; [tauto|]. rw Ha.
    split; [tauto | by intros [?|?]].
  - rw exists_snoc forall_snoc. case_decide as Hd; [tauto|].
    destruct Hr as [[-> Hp]|[-> Hp]]; tauto.
Qed.

Lemma resolve_inv_all ps :
  let acc := foldl resolve_step
    ({[ConflictPolicyFail]},
     {| eff_AllowNamespaceCreation := false; eff_AllowedConflictPolicies := [ConflictPolicyFail];
        eff_RevocationPolicy := RevocationPolicyDelete |}) ps in
  resolve_inv acc.1 acc.2 ps.
Proof.
  induction ps as [|p ps IH] using rev_ind.
  - simpl. split_and!; simpl; [set_solver | apply NoDup_singleton | set_solver | |].
    + split; [done|]. by intros (p & Hp%not_elem_of_nil & _).
    + right. split; [done|]. by intros p Hp%not_elem_of_nil.
  - rw foldl_app /=. destruct (foldl _ _ ps) as [seen eff]. by apply resolve_step_inv.
Qed.

Lemma ResolveOptions_creation ps :
  eff_AllowNamespaceCreation (ResolveOptions ps) = true ↔
  ∃ p, p ∈ ps ∧ AllowNamespaceCreation (spec_Options (pol_Spec p)) = true.
Proof. unfold ResolveOptions. simpl. by destruct (resolve_inv_all ps) as (_ & _ & _ & ? & _). Qed.

Lemma ResolveOptions_conflict ps x :
  x ∈ eff_AllowedConflictPolicies (ResolveOptions ps) ↔
  x = ConflictPolicyFail ∨
  ∃ p, p ∈ ps ∧ x ∈ AllowedConflictPolicies (spec_Options (pol_Spec p)).
Proof.
  unfold ResolveOptions. simpl. rw elem_of_isort.
  by destruct (resolve_inv_all ps) as (_ & _ & ? & _).
Qed.

Lemma ResolveOptions_revocation ps :
  eff_RevocationPolicy (ResolveOptions ps) = RevocationPolicyRetain ∨
  eff_RevocationPolicy (ResolveOptions ps) = RevocationPolicyDelete.
Proof. unfold ResolveOptions. simpl. destruct (resolve_inv_all ps) as (_ & _ & _ & _ & H0). tauto. Qed.

Lemma conflict_rank_total a b :
  (conflictPolicyRank a <=? conflictPolicyRank b)%nat = false →
  (conflictPolicyRank b <=? conflictPolicyRank a)%nat = true.
Proof. rw Nat.leb_gt Nat.leb_le. lia. Qed.

Lemma conflict_rank_inj a b :
  a ∈ [ConflictPolicyFail; ConflictPolicyAdopt; ConflictPolicyOverwrite] →
  b ∈ [ConflictPolicyFail; ConflictPolicyAdopt; ConflictPolicyOverwrite] →
  conflictPolicyRank a = conflictPolicyRank b → a = b.
Proof.
  rw !elem_of_cons. intros [->|[->|[->|H1]]] [->|[->|[->|H2]]] H3;
    try done; set_solver.
Qed.

(** *** Revocations *)

Lemma currentByKey_lookup cur k :
  currentByKey cur !! k = last (filter (λ d, target_key (d_Target d) = k) (Decisions cur)).
Proof.
  unfold currentByKey. induction (Decisions cur) as [|d ds IH] using rev_ind; [done|].
  rw foldl_app filter_app /= filter_cons filter_nil. case_decide as Hk.
  - rw -Hk lookup_insert_eq last_snoc. done.
  - by rw lookup_insert_ne // IH app_nil_r.
Qed.

Definition still_allowed (cur : Result) (d : Decision) : bool :=
  match last (filter (λ c, target_key (d_Target c) = target_key (d_Target d)) (Decisions cur)) with
  | Some c => Allowed c
  | None => false
  end.

Lemma revocation_of_Some cur prev r :
  revocation_of (currentByKey cur) prev = Some r ↔
  Allowed prev = true ∧ still_allowed cur prev = false ∧
  r = {| rev_Target := d_Target prev; rev_Previous := prev;
         rev_Current := currentByKey cur !! target_key (d_Target prev) |}.
Proof.
  unfold revocation_of, still_allowed. rw -currentByKey_lookup.
  destruct (Allowed prev); simpl; [|naive_solver].
  destruct (currentByKey cur !! _) as [c|]; [destruct (Allowed c) eqn:Ea|]; naive_solver.
Qed.

(** ** Properties *)

(** C6. Union of single-policy allowlists: a target is allowed exactly when one
    policy alone permits it on all four dimensions, and the decision then names
    exactly the policies that do, sorted. Dimensions of different policies are
    never combined. *)
Theorem Evaluate_union ps req i t (Ht : q_Targets req !! i = Some t) :
  ∃ d, Decisions (Evaluate req ps) !! i = Some d ∧ d_Target d = t ∧
    (Allowed d = true ↔ ∃ p, p ∈ ps ∧ permits p (q_Source req) t) ∧
    (∀ n, n ∈ MatchedPolicies d ↔ ∃ p, p ∈ ps ∧ pol_Name p = n ∧ permits p (q_Source req) t) ∧
    Sorted (λ a b, String.leb a b = true) (MatchedPolicies d).
Proof.
  exists (decide_target (q_Source req) t ps). simpl. rw list_lookup_fmap Ht /=.
  rw decide_target_target decide_target_allowed decide_target_matched.
  split_and!; [done..| |apply Sort_Sorted].
  intros n. rw elem_of_Sort elem_of_map. setoid_rewrite list_elem_of_filter.
  setoid_rewrite matchPolicy_permits. naive_solver.
Qed.

(** Default deny: with no policies every target is denied on the
    [noPolicies] dimension. *)
Theorem Evaluate_default_deny req d (Hd : d ∈ Decisions (Evaluate req [])) :
  Allowed d = false ∧ DeniedDimension d = DimensionNoPolicies ∧ MatchedPolicies d = [].
Proof.
  apply elem_of_map in Hd as (t & -> & _). done.
Qed.

(** A denial names the furthest dimension any single policy reached: some
    policy fails there and every policy fails there or on an earlier one. *)
Theorem denied_dimension_is_furthest src tgt ps
    (Hps : ps ≠ []) (Hd : Allowed (decide_target src tgt ps) = false) :
  let dim := DeniedDimension (decide_target src tgt ps) in
  (∃ p, p ∈ ps ∧ failed p src tgt = Some dim) ∧
  (∀ p, p ∈ ps → ∃ d, failed p src tgt = Some d ∧ (dimensionRank d ≤ dimensionRank dim)%nat).
Proof.
  destruct (decide_target_denied src tgt ps Hps Hd) as [-> Hall].
  pose proof (decide_loop_best src tgt ps
    {| matched := []; bestDim := DimensionSourceNamespace; bestPolicy := "" |}) as (_ & Hle & Hsrc).
  fold (decide_loop src tgt ps) in Hle, Hsrc. unfold failed. simpl. split.
  - destruct Hsrc as [[Hb _]|(p & Hp & Hm & _)]; [|exists p; by rw Hm].
    destruct ps as [|p ps]; [done|]. exists p. split; [set_solver|].
    destruct (Hall p) as [d Hm]; [set_solver|].
    specialize (Hle p d ltac:(set_solver) Hm). rw Hb in Hle. simpl in Hle.
    apply dimensionRank_pos in Hm as Hr. destruct Hr as [Hr1 Hr2].
    assert (dimensionRank DimensionSourceNamespace = 1)%nat as H1 by by vm_compute.
    rw Hm Hb /= Hr2 //. lia.
  - intros p Hp. destruct (Hall p Hp) as [d Hm]. exists d. rw Hm. eauto.
Qed.

(** Policies only widen: adding policies never withdraws an allowed target,
    and neither the verdict nor the list of matched policies depends on the
    order in which the API server lists the policies. *)
Theorem decide_monotone src tgt ps ps' :
  (ps ⊆ ps' → Allowed (decide_target src tgt ps) = true →
   Allowed (decide_target src tgt ps') = true) ∧
  (ps ≡ₚ ps' →
   Allowed (decide_target src tgt ps) = Allowed (decide_target src tgt ps') ∧
   MatchedPolicies (decide_target src tgt ps) = MatchedPolicies (decide_target src tgt ps')).
Proof.
  split.
  - intros Hs. rw !decide_target_allowed. set_solver.
  - intros Hp. split.
    + apply eq_true_iff_eq. rw !decide_target_allowed. by setoid_rewrite Hp.
    + rw !decide_target_matched. apply Sort_unique. by rw Hp.
Qed.

(** [ResolveOptions] is what its contract says: namespace creation is the
    disjunction, the conflict policies are the union with [Fail], without
    repetition and in rank order, and [Retain] beats [Delete]. *)
Theorem ResolveOptions_correct ps :
  let eff := ResolveOptions ps in
  (eff_AllowNamespaceCreation eff = true ↔
   ∃ p, p ∈ ps ∧ AllowNamespaceCreation (spec_Options (pol_Spec p)) = true) ∧
  (∀ x, x ∈ eff_AllowedConflictPolicies eff ↔
        x = ConflictPolicyFail ∨
        ∃ p, p ∈ ps ∧ x ∈ AllowedConflictPolicies (spec_Options (pol_Spec p))) ∧
  NoDup (eff_AllowedConflictPolicies eff) ∧
  Sorted (λ a b, (conflictPolicyRank a <=? conflictPolicyRank b)%nat = true)
    (eff_AllowedConflictPolicies eff) ∧
  eff_RevocationPolicy eff =
    (if decide (Exists (λ p, opt_RevocationPolicy (spec_Options (pol_Spec p))
                              = RevocationPolicyRetain) ps)
     then RevocationPolicyRetain else RevocationPolicyDelete).
Proof.
  unfold ResolveOptions. simpl.
  destruct (resolve_inv_all ps) as (_ & Hn & Hu & Ha & Hr).
  destruct (foldl _ _ ps) as [seen eff]. simpl in *. split_and!.
  - done.
  - intros x. by rw elem_of_isort.
  - by rw isort_Permutation.
  - apply isort_Sorted, conflict_rank_total.
  - case_decide as Hd; rw Exists_exists in Hd.
    + destruct Hr as [[? ?]|[_ Hr]]; [done|]. destruct Hd as (p & Hp & He). by destruct (Hr p Hp).
    + destruct Hr as [[_ Hr]|[? ?]]; [by destruct Hd|done].
Qed.

(** The effective options do not depend on the policy order, for the
    conflict policies the CRD schema admits. *)
Theorem ResolveOptions_order_independent ps ps' (Hp : ps ≡ₚ ps')
    (Hk : Forall (λ p, Forall (λ c, c ∈ [ConflictPolicyFail; ConflictPolicyAdopt;
            ConflictPolicyOverwrite]) (AllowedConflictPolicies (spec_Options (pol_Spec p)))) ps) :
  ResolveOptions ps = ResolveOptions ps'.
Proof.
  unfold ResolveOptions. simpl.
  destruct (resolve_inv_all ps) as (_ & Hn & Hu & Ha & Hr).
  destruct (resolve_inv_all ps') as (_ & Hn' & Hu' & Ha' & Hr').
  destruct (foldl _ _ ps) as [seen eff], (foldl _ _ ps') as [seen' eff']. simpl in *.
  assert (∀ x, x ∈ eff_AllowedConflictPolicies eff ↔ x ∈ eff_AllowedConflictPolicies eff') as Heq.
  { intros x. rw Hu Hu'. by setoid_rewrite Hp. }
  assert (∀ x, x ∈ eff_AllowedConflictPolicies eff →
    x ∈ [ConflictPolicyFail; ConflictPolicyAdopt; ConflictPolicyOverwrite]) as Hknown.
  { intros x [->|(p & Hin & Hx)]%Hu; [set_solver|].
    rw Forall_forall in Hk. specialize (Hk p Hin). rw Forall_forall in Hk. by apply Hk. }
  f_equal.
  - apply eq_true_iff_eq. rw Ha Ha'. by setoid_rewrite Hp.
  - assert (Transitive (λ a b, (conflictPolicyRank a <=? conflictPolicyRank b)%nat = true))
      by (intros a b c; rw !Nat.leb_le; lia).
    apply (Sorted_unique_strong (λ a b, (conflictPolicyRank a <=? conflictPolicyRank b)%nat = true)).
    + intros a b H1%elem_of_isort H2%elem_of_isort. rw !Nat.leb_le. intros.
      apply conflict_rank_inj; [by apply Hknown | apply Hknown; by apply Heq | lia].
    + apply isort_Sorted, conflict_rank_total.
    + apply isort_Sorted, conflict_rank_total.
    + rw !isort_Permutation. by apply NoDup_Permutation.
  - setoid_rewrite <- Hp in Hr'.
    destruct Hr as [[-> H1]|[-> H1]], Hr' as [[-> H2]|[-> H2]]; try done; naive_solver.
Qed.

(** [DetectRevocations] returns, in the order of the previous evaluation,
    exactly the targets that were allowed and are not any more; each entry
    carries the (last) current decision on that cluster and namespace, or none
    when the target is no longer evaluated. *)
Theorem DetectRevocations_correct prev cur :
  map rev_Previous (DetectRevocations prev cur) =
    filter (λ d, Allowed d = true ∧ still_allowed cur d = false) (Decisions prev) ∧
  (∀ r, r ∈ DetectRevocations prev cur →
    rev_Target r = d_Target (rev_Previous r) ∧
    rev_Current r = last (filter (λ c, target_key (d_Target c) = target_key (rev_Target r))
                                 (Decisions cur))).
Proof.
  unfold DetectRevocations. split.
  - induction (Decisions prev) as [|d ds IH]; [done|]. simpl. rw filter_cons.
    destruct (revocation_of _ d) as [r|] eqn:E; case_decide as Hd.
    + simpl. rw IH. apply revocation_of_Some in E as (_ & _ & ->). done.
    + apply revocation_of_Some in E. naive_solver.
    + assert (is_Some (revocation_of (currentByKey cur) d)) as [r Hr].
      { eexists. apply revocation_of_Some. destruct Hd. by split_and!. }
      congruence.
    + apply IH.
  - intros r (d & _ & (_ & _ & ->)%revocation_of_Some)%list_elem_of_omap. simpl.
    by rw currentByKey_lookup.
Qed.
End policy.

(** ** Concrete inputs *)

#[local] Existing Instance LabelsModel.api.
#[local] Existing Instance LabelsModel.laws.

Definition mk_policy (name : string) (nss kinds : list string) (cluster : gmap string string)
    (tns cps : list string) (revocation : string) : ReplicationPolicy :=
  {| pol_Name := name;
     pol_Spec :=
       {| spec_Sources := {| src_Namespaces := nss; src_NamespaceSelector := None;
                             src_Kinds := kinds |};
          spec_Targets := {| tgt_ClusterSelector := Build_LabelSelector cluster [];
                             tgt_Namespaces := tns |};
          spec_Options := {| AllowNamespaceCreation := false; AllowedConflictPolicies := cps;
                             opt_RevocationPolicy := revocation |} |} |}.

Definition pol_dev : ReplicationPolicy :=
  mk_policy "dev" ["platform"] ["Secret"] {[ "env" := "dev" ]} ["apps"]
    [ConflictPolicyOverwrite; ConflictPolicyAdopt] RevocationPolicyRetain.
Definition pol_all : ReplicationPolicy :=
  mk_policy "all" ["platform"] ["Secret"; "ConfigMap"] ∅ ["other"] [ConflictPolicyFail]
    RevocationPolicyDelete.

Definition src_secret : Source :=
  {| s_Kind := "Secret"; s_Namespace := "platform"; s_NamespaceLabels := ∅ |}.
Definition tgt_dev : Target :=
  {| t_ClusterName := "c1"; t_ClusterLabels := {[ "env" := "dev" ]}; t_Namespace := "apps" |}.
Definition tgt_prod : Target :=
  {| t_ClusterName := "c2"; t_ClusterLabels := {[ "env" := "prod" ]}; t_Namespace := "apps" |}.

Definition req_example : PolicyRequest :=
  {| q_Source := src_secret; q_Targets := [tgt_dev; tgt_prod] |}.

Lemma Evaluate_union_witness :
  MatchedPolicies (decide_target src_secret tgt_dev [pol_dev; pol_all]) = ["dev"] ∧
  ∃ d, Decisions (Evaluate req_example [pol_dev; pol_all]) !! 0%nat = Some d ∧
       d_Target d = tgt_dev ∧
       (Allowed d = true ↔ ∃ p, p ∈ [pol_dev; pol_all] ∧ permits p src_secret tgt_dev).
Proof.
  split; [vm_refl|].
  destruct (Evaluate_union [pol_dev; pol_all] req_example 0 tgt_dev eq_refl)
    as (d & Hd & Ht & Ha & _).
  exists d. exact (conj Hd (conj Ht Ha)).
Defined.

Lemma Evaluate_default_deny_witness :
  Allowed (decide_target src_secret tgt_dev []) = false.
Proof.
  apply (Evaluate_default_deny req_example). simpl. apply list_elem_of_here.
Defined.

Lemma denied_dimension_witness :
  DeniedDimension (decide_target src_secret tgt_prod [pol_dev; pol_all]) =
    DimensionTargetNamespace ∧
  ∃ p, p ∈ [pol_dev; pol_all] ∧ failed p src_secret tgt_prod = Some DimensionTargetNamespace.
Proof.
  split; [vm_refl|].
  refine (proj1 (denied_dimension_is_furthest src_secret tgt_prod [pol_dev; pol_all] _ _));
    [discriminate | vm_refl].
Defined.

Lemma decide_monotone_witness :
  Allowed (decide_target src_secret tgt_dev [pol_dev; pol_all]) = true.
Proof.
  refine (proj1 (decide_monotone src_secret tgt_dev [pol_dev] [pol_dev; pol_all]) _ _);
    [|vm_refl].
  intros p ->%list_elem_of_singleton. apply list_elem_of_here.
Defined.

Lemma ResolveOptions_order_witness :
  ResolveOptions [pol_dev; pol_all] = ResolveOptions [pol_all; pol_dev] ∧
  eff_RevocationPolicy (ResolveOptions [pol_dev; pol_all]) = RevocationPolicyRetain.
Proof.
  split; [|vm_refl].
  apply ResolveOptions_order_independent; [apply Permutation_swap|].
  repeat constructor; apply (bool_decide_unpack _); vm_compute; exact I.
Defined.
