(* ===== verification/Unstructured.v ===== *)
(** JSON-shaped object trees, their [encoding/json] encoding, and the accessors
    of apimachinery's [unstructured.Unstructured]. The accessors are library
    code: [UnstructuredAPI] is their interface, [UnstructuredLaws] says which
    field of the tree each reads or writes, [UnstructuredModel] implements it. *)
From Stdlib Require Import Ascii.
From S2P Require Import Prelude GoLib Api.

#[local] Open Scope string_scope.

(** A Go [any] holding decoded JSON. A float is kept as the text
    [encoding/json] prints for it. *)
Inductive value :=
  | VNull
  | VBool (b : bool)
  | VInt (z : Z)
  | VFloat (text : string)
  | VStr (s : string)
  | VArr (l : list value)
  | VObj (m : gmap string value).

(** [obj.Object]. *)
Abbreviation Obj := (gmap string value).

(** ** [json.Marshal] *)

Definition is_cont (c : ascii) : bool := ((128 <=? ord c) && (ord c <=? 191))%nat.
Definition between (lo hi : nat) (c : ascii) : bool := ((lo <=? ord c) && (ord c <=? hi))%nat.

(** [\u] escapes for one byte below 128 that is not HTML-safe. *)
Definition json_ascii (c : ascii) : string :=
  let bs := str1 (chr 92) in
  let n := ord c in
  if (n =? 34)%nat then bs +:+ dq
  else if (n =? 92)%nat then bs +:+ bs
  else if (n =? 8)%nat then bs +:+ "b"
  else if (n =? 12)%nat then bs +:+ "f"
  else if (n =? 10)%nat then bs +:+ "n"
  else if (n =? 13)%nat then bs +:+ "r"
  else if (n =? 9)%nat then bs +:+ "t"
  else if ((n <? 32) || (n =? 60) || (n =? 62) || (n =? 38))%nat then bs +:+ "u00" +:+ hex_byte c
  else str1 c.

(** The length of the UTF-8 sequence at the head of the list; 1 for a byte below
    128, 0 when the bytes there are not valid UTF-8. *)
Definition utf8_len (l : list ascii) : nat :=
  match l with
  | [] => 0
  | c0 :: l0 =>
      let n := ord c0 in
      if (n <? 128)%nat then 1
      else match l0 with
      | [] => 0
      | c1 :: l1 =>
          if between 194 223 c0 && is_cont c1 then 2
          else match l1 with
          | [] => 0
          | c2 :: l2 =>
              if is_cont c2 &&
                 (((n =? 224)%nat && between 160 191 c1) ||
                  (between 225 236 c0 && is_cont c1) ||
                  ((n =? 237)%nat && between 128 159 c1) ||
                  (between 238 239 c0 && is_cont c1)) then 3
              else match l2 with
              | [] => 0
              | c3 :: _ =>
                  if is_cont c2 && is_cont c3 &&
                     (((n =? 240)%nat && between 144 191 c1) ||
                      (between 241 243 c0 && is_cont c1) ||
                      ((n =? 244)%nat && between 128 143 c1)) then 4
                  else 0
              end
          end
      end
  end.

(** U+2028 and U+2029 are escaped too. *)
Definition line_sep (l : list ascii) : option string :=
  if decide (l = map chr [226; 128; 168]%nat) then Some (str1 (chr 92) +:+ "u2028")
  else if decide (l = map chr [226; 128; 169]%nat) then Some (str1 (chr 92) +:+ "u2029")
  else None.

(** [fuel] bounds the number of runes; the number of bytes is enough. *)
Fixpoint json_chars (fuel : nat) (l : list ascii) : string :=
  match fuel, l with
  | S n, c :: l' =>
      if (ord c <? 128)%nat then json_ascii c +:+ json_chars n l'
      else match utf8_len l with
           | 0%nat => str1 (chr 92) +:+ "ufffd" +:+ json_chars n l'
           | k => let w := take k l in
                  default (string_of_list w) (line_sep w) +:+ json_chars n (drop k l)
           end
  | _, _ => ""
  end.

Definition json_string (s : string) : string :=
  dq +:+ json_chars (String.length s) (list_of_string s) +:+ dq.

(** Object members in the order of their keys. *)
Definition json_members (l : list (string * string)) : string :=
  Join (map (λ kv, json_string kv.1 +:+ ":" +:+ kv.2)
         (isort (λ a b, String.leb a.1 b.1) l)) ",".

Fixpoint json (v : value) : string :=
  match v with
  | VNull => "null"
  | VBool b => if b then "true" else "false"
  | VInt z => dec z
  | VFloat t => t
  | VStr s => json_string s
  | VArr l => "[" +:+ Join (map json l) "," +:+ "]"
  | VObj m => "{" +:+ json_members (map_fold (λ k w acc, (k, json w) :: acc) [] m) +:+ "}"
  end.

(** ** The accessors *)

Class UnstructuredAPI := {
  GetLabels : Obj → gmap string string;
  GetAnnotations : Obj → gmap string string;
  GetName : Obj → string;
  GetNamespace : Obj → string;
  GetUID : Obj → string;
  GetKind : Obj → string;
  SetLabels : gmap string string → Obj → Obj;
  SetAnnotations : gmap string string → Obj → Obj;
  SetName : string → Obj → Obj;
  SetNamespace : string → Obj → Obj;
  SetGroupVersionKind : GroupVersionKind → Obj → Obj;
}.

(** The [metadata] map, empty when absent; [None] when it is not a map. *)
Definition metadata (o : Obj) : option Obj :=
  match o !! "metadata" with
  | None => Some ∅
  | Some (VObj md) => Some md
  | Some _ => None
  end.

Definition is_str (v : value) : option string :=
  match v with VStr s => Some s | _ => None end.

(** [NestedStringMap]: the map when every value is a string, nothing otherwise. *)
Definition string_map (v : option value) : gmap string string :=
  match v with
  | Some (VObj m) =>
      if decide (map_Forall (λ _ w, is_Some (is_str w)) m) then omap is_str m else ∅
  | _ => ∅
  end.

Definition string_field (v : option value) : string :=
  match v with Some (VStr s) => s | _ => "" end.

Definition with_meta (f : Obj → Obj) (o : Obj) (md : Obj) : Obj :=
  <["metadata" := VObj (f md)]> o.

Class UnstructuredLaws `{UnstructuredAPI} : Prop := {
  get_labels o md : metadata o = Some md → GetLabels o = string_map (md !! "labels");
  get_annotations o md : metadata o = Some md → GetAnnotations o = string_map (md !! "annotations");
  get_name o md : metadata o = Some md → GetName o = string_field (md !! "name");
  get_namespace o md : metadata o = Some md → GetNamespace o = string_field (md !! "namespace");
  get_uid o md : metadata o = Some md → GetUID o = string_field (md !! "uid");
  get_kind o : GetKind o = string_field (o !! "kind");
  set_labels o md ls : metadata o = Some md →
    SetLabels ls o = with_meta (<["labels" := VObj (VStr <$> ls)]>) o md;
  set_annotations o md a : metadata o = Some md →
    SetAnnotations a o = with_meta (<["annotations" := VObj (VStr <$> a)]>) o md;
  (** "An empty name removes the field." *)
  set_name o md n : metadata o = Some md →
    SetName n o = if decide (n = "")
                  then (if decide (o !! "metadata" = None) then o
                        else with_meta (delete "name") o md)
                  else with_meta (<["name" := VStr n]>) o md;
  set_namespace o md n : metadata o = Some md →
    SetNamespace n o = if decide (n = "")
                       then (if decide (o !! "metadata" = None) then o
                             else with_meta (delete "namespace") o md)
                       else with_meta (<["namespace" := VStr n]>) o md;
  set_gvk_metadata g o : SetGroupVersionKind g o !! "metadata" = o !! "metadata";
  set_gvk_kind g o : GetKind (SetGroupVersionKind g o) = gvk_Kind g;
}.

(** ** One implementation, for the witnesses *)

Module UnstructuredModel.
Definition md_of (o : Obj) : Obj := default ∅ (metadata o).

Definition upd (f : Obj → Obj) (o : Obj) : Obj :=
  match metadata o with Some md => with_meta f o md | None => o end.

Definition set_or_remove (k n : string) (o : Obj) : Obj :=
  if decide (n = "") then
    (if decide (o !! "metadata" = None) then o else upd (delete k) o)
  else upd (<[k := VStr n]>) o.

Definition api_version (g : GroupVersionKind) : string :=
  if decide (gvk_Group g = "") then gvk_Version g else gvk_Group g +:+ "/" +:+ gvk_Version g.

#[export] Instance api : UnstructuredAPI := {|
  GetLabels o := string_map (md_of o !! "labels");
  GetAnnotations o := string_map (md_of o !! "annotations");
  GetName o := string_field (md_of o !! "name");
  GetNamespace o := string_field (md_of o !! "namespace");
  GetUID o := string_field (md_of o !! "uid");
  GetKind o := string_field (o !! "kind");
  SetLabels ls := upd (<["labels" := VObj (VStr <$> ls)]>);
  SetAnnotations a := upd (<["annotations" := VObj (VStr <$> a)]>);
  SetName := set_or_remove "name";
  SetNamespace := set_or_remove "namespace";
  SetGroupVersionKind g o :=
    <["apiVersion" := VStr (api_version g)]> (<["kind" := VStr (gvk_Kind g)]> o);
|}.

#[export] Instance laws : UnstructuredLaws.
Proof.
  split; simpl; intros; unfold md_of, set_or_remove, upd;
    repeat match goal with H : metadata _ = _ |- _ => rw H; clear H end; try done.
  - by rw !lookup_insert_ne.
  - by rw lookup_insert_ne // lookup_insert_eq.
Qed.
End UnstructuredModel.

(** ** Lemmas *)

Lemma string_map_VStr (m : gmap string string) : string_map (Some (VObj (VStr <$> m))) = m.
Proof.
  simpl. rw decide_True.
  - apply map_Forall_fmap. intros k v _. by eexists.
  - apply map_eq. intros k. rw lookup_omap lookup_fmap. by destruct (m !! k).
Qed.

Lemma metadata_with_meta f o md : metadata (with_meta f o md) = Some (f md).
Proof. unfold metadata, with_meta. by rw lookup_insert_eq. Qed.

Lemma with_meta_twice f g o md md' :
  with_meta f (with_meta g o md) md' = with_meta f o md'.
Proof. unfold with_meta. by rw insert_insert_eq. Qed.

Example json_ex :
  json (VObj {[ "b" := VArr [VInt 1; VBool true]; "a" := VStr "x<y" ]}) =
  "{" +:+ dq +:+ "a" +:+ dq +:+ ":" +:+ dq +:+ "x" +:+ str1 (chr 92) +:+ "u003cy" +:+ dq +:+ ","
  +:+ dq +:+ "b" +:+ dq +:+ ":[1,true]}".
Proof. vm_refl. Qed.
