(* ===== verification/Render.v ===== *)
(** [internal/engine/render.go]: the replica payload written to a target, the
    canonical content hash, and the denylist of label and annotation keys both
    of them go through. The process-wide additions to the denylist
    ([extraStrippedKeys], [extraStrippedPrefixes]) are the value of type
    [StripConfig] that the functions take. *)
From S2P Require Import Prelude GoLib Sha256 Api Unstructured.

#[local] Open Scope string_scope.

Definition LabelManagedBy : string := "app.kubernetes.io/managed-by".
Definition ManagedByValue : string := "k8s-r8r".
Definition LabelSourceCluster : string := "r8r.io/source-cluster".
Definition LabelSourceNamespace : string := "r8r.io/source-namespace".
Definition LabelSourceName : string := "r8r.io/source-name".
Definition LabelSourceKind : string := "r8r.io/source-kind".
Definition LabelSourceUID : string := "r8r.io/source-uid".
Definition AnnotationSourceHash : string := "r8r.io/source-hash".
Definition FinalizerName : string := "r8r.io/engine-finalizer".
Definition annotationLastApplied : string := "kubectl.kubernetes.io/last-applied-configuration".
Definition r8rKeyPrefix : string := "r8r.io/".

Definition foreignOwnershipKeyPrefixes : list string :=
  ["argocd.argoproj.io/"; "replicator.v1.mittwald.de/"; "reflector.v1.k8s.emberstack.com/";
   "meta.helm.sh/"; "kustomize.toolkit.fluxcd.io/"].

Definition foreignOwnershipKeys : list string := ["app.kubernetes.io/instance"].

Record StripConfig := {
  extraStrippedKeys : list string;
  extraStrippedPrefixes : list string;
}.

(** One iteration of the loop of [SetExtraStrippedKeys]. *)
Definition strip_entry (cfg : StripConfig) (k0 : string) : StripConfig :=
  let k := TrimSpace k0 in
  if bool_decide (k = "") || bool_decide (k = "/") then cfg
  else if has_suffix k "/" then
    {| extraStrippedKeys := extraStrippedKeys cfg;
       extraStrippedPrefixes := extraStrippedPrefixes cfg ++ [k] |}
  else
    {| extraStrippedKeys := extraStrippedKeys cfg ++ [k];
       extraStrippedPrefixes := extraStrippedPrefixes cfg |}.

Definition SetExtraStrippedKeys (ks : list string) : StripConfig :=
  foldl strip_entry {| extraStrippedKeys := []; extraStrippedPrefixes := [] |} ks.

Definition serverManagedMetadataFields : list string :=
  ["resourceVersion"; "uid"; "generation"; "creationTimestamp"; "deletionTimestamp";
   "deletionGracePeriodSeconds"; "managedFields"; "ownerReferences"; "selfLink"; "finalizers"].

Definition isStrippedKey (cfg : StripConfig) (k : string) : bool :=
  if has_prefix k r8rKeyPrefix || bool_decide (k = LabelManagedBy)
     || bool_decide (k = annotationLastApplied) then true
  else if contains foreignOwnershipKeys k || contains (extraStrippedKeys cfg) k then true
  else if existsb (has_prefix k) foreignOwnershipKeyPrefixes then true
  else existsb (has_prefix k) (extraStrippedPrefixes cfg).

Definition cleanStrippedKeys (cfg : StripConfig) (m : gmap string string) : gmap string string :=
  filter (λ kv, isStrippedKey cfg kv.1 = false) m.

(** [cleanRawKeys]: a value that is not a map gives the nil map. *)
Definition cleanRawKeys (cfg : StripConfig) (raw : option value) : Obj :=
  match raw with
  | Some (VObj m) => filter (λ kv, isStrippedKey cfg kv.1 = false) m
  | _ => ∅
  end.

(** [if l := cleanRawKeys(md[field]); len(l) > 0 { reduced[field] = l }] *)
Definition reduce_field (cfg : StripConfig) (md : Obj) (field : string) (reduced : Obj) : Obj :=
  let l := cleanRawKeys cfg (md !! field) in
  if decide (l = ∅) then reduced else <[field := VObj l]> reduced.

Definition canonicalPayload (cfg : StripConfig) (obj : Obj) : Obj :=
  let content := delete "status" obj in
  let reduced :=
    match content !! "metadata" with
    | Some (VObj md) => reduce_field cfg md "annotations" (reduce_field cfg md "labels" ∅)
    | _ => ∅
    end in
  if decide (reduced = ∅) then delete "metadata" content
  else <["metadata" := VObj reduced]> content.

(** [json.Marshal] cannot fail on a [value], so the poisoned value of the source
    is not reachable here. *)
Definition SourceHash (cfg : StripConfig) (obj : Obj) : string :=
  "sha256:" +:+ sha256_hex (json (VObj (canonicalPayload cfg obj))).

Definition stripServerManaged (obj : Obj) : Obj :=
  let obj := delete "status" obj in
  match obj !! "metadata" with
  | Some (VObj md) =>
      <["metadata" := VObj (foldl (λ m f, delete f m) md serverManagedMetadataFields)]> obj
  | _ => obj
  end.

Definition namespaceGVK : GroupVersionKind :=
  {| gvk_Group := ""; gvk_Version := "v1"; gvk_Kind := "Namespace" |}.

Definition IsManagedReplica (labels : gmap string string) (sourceUID : string) : bool :=
  bool_decide (default "" (labels !! LabelManagedBy) = ManagedByValue) &&
  bool_decide (default "" (labels !! LabelSourceUID) = sourceUID).

Definition replicaRef (cluster namespace name : string) : string :=
  cluster +:+ "/" +:+ namespace +:+ "/" +:+ name.

(** [type Renderer struct{ HubName string }] *)
Record Renderer := { HubName : string }.

Definition hubName (r : Renderer) : string :=
  if decide (HubName r = "") then "hub" else HubName r.

Section render.
Context `{UnstructuredAPI} (cfg : StripConfig).

(** The six identity labels [Render] and [AdoptPatch] write. *)
Definition identityLabels (r : Renderer) (src : Obj) : gmap string string :=
  {[ LabelManagedBy := ManagedByValue; LabelSourceCluster := hubName r;
     LabelSourceNamespace := GetNamespace src; LabelSourceName := GetName src;
     LabelSourceKind := GetKind src; LabelSourceUID := GetUID src ]}.

Definition Render (r : Renderer) (src : Obj) (targetNamespace targetName : string)
    : Obj * string :=
  let hash := SourceHash cfg src in
  let rep := stripServerManaged src in
  let rep := SetNamespace targetNamespace rep in
  let targetName := if decide (targetName = "") then GetName src else targetName in
  let rep := SetName targetName rep in
  let labels := identityLabels r src ∪ cleanStrippedKeys cfg (GetLabels rep) in
  let rep := SetLabels labels rep in
  let ann := <[AnnotationSourceHash := hash]> (cleanStrippedKeys cfg (GetAnnotations rep)) in
  let rep := SetAnnotations ann rep in
  (rep, hash).

Definition AdoptPatch (r : Renderer) (src : Obj) (gvk : GroupVersionKind)
    (namespace name hash : string) : Obj :=
  let patch := SetGroupVersionKind gvk ∅ in
  let patch := SetNamespace namespace patch in
  let patch := SetName name patch in
  let patch := SetLabels (identityLabels r src) patch in
  SetAnnotations {[ AnnotationSourceHash := hash ]} patch.

Definition namespacePayload (name : string) : Obj :=
  SetLabels {[ LabelManagedBy := ManagedByValue ]}
    (SetName name (SetGroupVersionKind namespaceGVK ∅)).
End render.

(** ** Objects as the API server returns them *)

(** A string map field is absent or an object whose values are strings. *)
Definition wf_string_map (v : option value) : Prop :=
  v = None ∨ ∃ m : gmap string string, v = Some (VObj (VStr <$> m)).

Record wf_obj (o : Obj) (md : Obj) : Prop := {
  wf_metadata : o !! "metadata" = Some (VObj md);
  wf_labels : wf_string_map (md !! "labels");
  wf_annotations : wf_string_map (md !! "annotations");
}.

(** ** Lemmas *)

Lemma isStrippedKey_prefix cfg k : has_prefix k r8rKeyPrefix = true → isStrippedKey cfg k = true.
Proof. intros Hk. unfold isStrippedKey. by rw Hk. Qed.

Lemma isStrippedKey_managed_by cfg : isStrippedKey cfg LabelManagedBy = true.
Proof. unfold isStrippedKey. rw (bool_decide_eq_true_2 (LabelManagedBy = LabelManagedBy)) //. Qed.

Lemma identity_stripped cfg `{UnstructuredAPI} r src k :
  is_Some (identityLabels r src !! k) → isStrippedKey cfg k = true.
Proof.
  intros [v Hv]. unfold identityLabels in Hv.
  rewrite ?lookup_insert ?lookup_singleton ?lookup_empty in Hv. repeat case_decide; subst;
    first [ done | apply isStrippedKey_managed_by | by apply isStrippedKey_prefix; vm_compute ].
Qed.

Lemma clean_lookup cfg m k :
  cleanStrippedKeys cfg m !! k = if isStrippedKey cfg k then None else m !! k.
Proof.
  unfold cleanStrippedKeys. destruct (isStrippedKey cfg k) eqn:E.
  - apply map_lookup_filter_None. right. simpl. congruence.
  - destruct (m !! k) eqn:Em.
    + by apply map_lookup_filter_Some.
    + apply map_lookup_filter_None. by left.
Qed.

Lemma cleanRaw_lookup cfg m k :
  cleanRawKeys cfg (Some (VObj m)) !! k = if isStrippedKey cfg k then None else m !! k.
Proof.
  simpl. destruct (isStrippedKey cfg k) eqn:E.
  - apply map_lookup_filter_None. right. simpl. congruence.
  - destruct (m !! k) eqn:Em.
    + by apply map_lookup_filter_Some.
    + apply map_lookup_filter_None. by left.
Qed.

(** Whatever stripped keys are written over a cleaned map, cleaning the raw form
    of the result gives the cleaned source map. *)
Lemma cleanRaw_own_over_clean cfg (own : gmap string string) v :
  (∀ k, is_Some (own !! k) → isStrippedKey cfg k = true) →
  wf_string_map v →
  cleanRawKeys cfg (Some (VObj (VStr <$> (own ∪ cleanStrippedKeys cfg (string_map v))))) =
  cleanRawKeys cfg v.
Proof.
  intros Hown Hv. apply map_eq. intros k. rw cleanRaw_lookup lookup_fmap.
  destruct Hv as [->|[m ->]].
  - simpl. rw lookup_empty. destruct (isStrippedKey cfg k) eqn:E; [done|].
    rw lookup_union_r; [|by rw clean_lookup lookup_empty E].
    destruct (own !! k) eqn:Ek; [|done]. rw (Hown k) in E; [by eexists|done].
  - rw string_map_VStr cleanRaw_lookup lookup_fmap. destruct (isStrippedKey cfg k) eqn:E; [done|].
    rw lookup_union_r; [|by rw clean_lookup E].
    destruct (own !! k) eqn:Ek; [|done]. rw (Hown k) in E; [by eexists|done].
Qed.

Lemma strip_fields_other f (md : Obj) :
  f ∉ serverManagedMetadataFields →
  (foldl (λ (m : Obj) g, delete g m) md serverManagedMetadataFields : Obj) !! f = md !! f.
Proof.
  generalize serverManagedMetadataFields as fs. intros fs. revert md.
  induction fs as [|g fs IH]; intros md Hf; [done|]. simpl.
  rw IH; [set_solver|]. apply lookup_delete_ne. set_solver.
Qed.

(** The metadata of the rendered replica, field by field. *)
Section rendered.
Context `{UL : UnstructuredLaws} (cfg : StripConfig).

Definition stripped_md (md : Obj) : Obj :=
  foldl (λ m f, delete f m) md serverManagedMetadataFields.

Lemma stripped_md_other f md :
  f ∉ serverManagedMetadataFields → stripped_md md !! f = md !! f.
Proof. apply strip_fields_other. Qed.

Definition placed_md (tns tn : string) (md : Obj) : Obj :=
  (if decide (tn = "") then delete "name" else <["name" := VStr tn]>)
    ((if decide (tns = "") then delete "namespace" else <["namespace" := VStr tns]>)
       (stripped_md md)).

Lemma placed_md_other tns tn md f :
  f ∉ "name" :: "namespace" :: serverManagedMetadataFields →
  placed_md tns tn md !! f = md !! f.
Proof.
  intros [H1 [H2 H3]%not_elem_of_cons]%not_elem_of_cons.
  unfold placed_md. rw -(stripped_md_other f md H3).
  case_decide; [rw lookup_delete_ne //|rw lookup_insert_ne //];
    (case_decide; [rw lookup_delete_ne //|rw lookup_insert_ne //]).
Qed.

Lemma Render_eq r src md tns tn :
  wf_obj src md →
  let name := if decide (tn = "") then GetName src else tn in
  (Render cfg r src tns tn).1 =
  <["metadata" := VObj
      (<["annotations" := VObj (VStr <$> <[AnnotationSourceHash := SourceHash cfg src]>
           (cleanStrippedKeys cfg (string_map (md !! "annotations"))))]>
       (<["labels" := VObj (VStr <$> (identityLabels r src ∪
           cleanStrippedKeys cfg (string_map (md !! "labels"))))]>
        (placed_md tns name md)))]> (delete "status" src).
Proof.
  intros [Hmd Hl Ha] name. unfold Render. cbn [fst]. fold name.
  unfold stripServerManaged. rw lookup_delete_ne // Hmd. fold (stripped_md md).
  set (o0 := <["metadata" := _]> (delete "status" src)).
  assert (metadata o0 = Some (stripped_md md)) as H0 by (unfold metadata, o0; by rw lookup_insert_eq).
  assert (o0 !! "metadata" ≠ None) as Hne by (unfold o0; by rw lookup_insert_eq).
  rw (set_namespace _ _ _ H0). rw (decide_False (P := o0 !! "metadata" = None)) //.
  set (o1 := if decide (tns = "") then _ else _).
  set (md1 := (if decide (tns = "") then delete "namespace" else <["namespace" := VStr tns]>)
                (stripped_md md)).
  assert (o1 = with_meta (λ _, md1) o0 ∅) as H1 by (unfold o1, md1; by case_decide).
  assert (metadata o1 = Some md1) as Hm1 by (rw H1; exact (metadata_with_meta (λ _, md1) o0 ∅)).
  rw (set_name _ _ _ Hm1).
  rw (decide_False (P := o1 !! "metadata" = None)); [rw H1; unfold with_meta; by rw lookup_insert_eq|].
  set (o2 := if decide (name = "") then _ else _).
  assert (o2 = with_meta (λ _, placed_md tns name md) o1 ∅) as H2.
  { unfold o2, placed_md, with_meta. by destruct (decide (name = "")). }
  assert (metadata o2 = Some (placed_md tns name md)) as Hm2 by (rw H2; exact (metadata_with_meta (λ _, placed_md tns name md) o1 ∅)).
  rw (get_labels _ _ Hm2) placed_md_other; [by apply (bool_decide_unpack _); vm_compute|].
  rw (set_labels _ _ _ Hm2).
  set (o3 := with_meta _ o2 _).
  assert (metadata o3 = Some (<["labels" := VObj (VStr <$> (identityLabels r src ∪
           cleanStrippedKeys cfg (string_map (md !! "labels"))))]> (placed_md tns name md))) as Hm3
    by apply metadata_with_meta.
  rw (get_annotations _ _ Hm3) lookup_insert_ne // placed_md_other; [by apply (bool_decide_unpack _); vm_compute|].
  rw (set_annotations _ _ _ Hm3). unfold o3, with_meta. rw H2 H1. unfold with_meta, o0.
  by rw !insert_insert_eq.
Qed.

Lemma stripped_md_server f md : f ∈ serverManagedMetadataFields → stripped_md md !! f = None.
Proof.
  unfold stripped_md. generalize serverManagedMetadataFields as fs. intros fs. revert md.
  induction fs as [|g fs IH]; intros md Hf; [by apply not_elem_of_nil in Hf|].
  simpl. destruct (decide (f ∈ fs)) as [Hin|Hout]; [by apply IH|].
  apply elem_of_cons in Hf as [->|]; [|done].
  assert (delete g md !! g = None) as Hg by apply lookup_delete_eq.
  clear IH Hout. revert Hg. generalize (delete g md). induction fs as [|h fs IH]; intros m Hm; [done|].
  simpl. apply IH. rw lookup_delete. by case_decide.
Qed.

Lemma placed_md_server tns tn md f :
  f ∈ serverManagedMetadataFields → placed_md tns tn md !! f = None.
Proof.
  intros Hf. assert (f ≠ "name" ∧ f ≠ "namespace") as [H1 H2]
    by (split; intros ->; revert Hf; apply (bool_decide_unpack _); vm_compute; exact I).
  unfold placed_md. rw -(stripped_md_server f md Hf).
  case_decide; [rw lookup_delete_ne //|rw lookup_insert_ne //];
    (case_decide; [rw lookup_delete_ne //|rw lookup_insert_ne //]).
Qed.

(** The labels and the annotations of the replica. *)
Lemma Render_labels r src md tns tn :
  wf_obj src md →
  GetLabels (Render cfg r src tns tn).1 =
    identityLabels r src ∪ cleanStrippedKeys cfg (GetLabels src).
Proof.
  intros Hwf. rw (Render_eq _ _ _ _ _ Hwf).
  erewrite get_labels by (unfold metadata; by rewrite lookup_insert_eq).
  rw lookup_insert_ne // lookup_insert_eq string_map_VStr. do 2 f_equal.
  symmetry. apply get_labels. unfold metadata. by rw (wf_metadata _ _ Hwf).
Qed.

Lemma Render_annotations r src md tns tn :
  wf_obj src md →
  GetAnnotations (Render cfg r src tns tn).1 =
    <[AnnotationSourceHash := SourceHash cfg src]> (cleanStrippedKeys cfg (GetAnnotations src)).
Proof.
  intros Hwf. rw (Render_eq _ _ _ _ _ Hwf).
  erewrite get_annotations by (unfold metadata; by rewrite lookup_insert_eq).
  rw lookup_insert_eq string_map_VStr. do 2 f_equal.
  symmetry. apply get_annotations. unfold metadata. by rw (wf_metadata _ _ Hwf).
Qed.

(** The canonical payload depends on the metadata through the two cleaned maps only. *)
Lemma canonicalPayload_ext o1 o2 md1 md2 :
  delete "metadata" (delete "status" o1) = delete "metadata" (delete "status" o2) →
  o1 !! "metadata" = Some (VObj md1) → o2 !! "metadata" = Some (VObj md2) →
  cleanRawKeys cfg (md1 !! "labels") = cleanRawKeys cfg (md2 !! "labels") →
  cleanRawKeys cfg (md1 !! "annotations") = cleanRawKeys cfg (md2 !! "annotations") →
  canonicalPayload cfg o1 = canonicalPayload cfg o2.
Proof.
  intros Hrest H1 H2 Hl Ha. unfold canonicalPayload.
  rw !lookup_delete_ne // H1 H2. unfold reduce_field. rw Hl Ha.
  set (red := if decide (_ = ∅) then _ else <["annotations" := _]> _).
  case_decide; [done|].
  rw -(insert_delete_eq (delete "status" o1)) -(insert_delete_eq (delete "status" o2)).
  by rw Hrest.
Qed.
End rendered.

(** ** Correctness *)

Section correctness.
Context `{UL : UnstructuredLaws}.

Lemma SourceHash_Render_eq cfg r src md tns tn :
  wf_obj src md → SourceHash cfg (Render cfg r src tns tn).1 = SourceHash cfg src.
Proof.
  intros Hwf. rw (Render_eq _ _ _ _ _ _ Hwf).
  unfold SourceHash. do 4 f_equal. eapply canonicalPayload_ext.
  - rw delete_insert_ne // delete_insert_eq. by rw delete_delete_eq.
  - by rw lookup_insert_eq.
  - apply (wf_metadata _ _ Hwf).
  - rw lookup_insert_ne // lookup_insert_eq.
    apply cleanRaw_own_over_clean; [apply identity_stripped|apply (wf_labels _ _ Hwf)].
  - rw lookup_insert_eq insert_union_singleton_l.
    apply cleanRaw_own_over_clean; [|apply (wf_annotations _ _ Hwf)].
    intros k [v [<- _]%lookup_singleton_Some]. by apply isStrippedKey_prefix.
Qed.

(** C32. The content hash is blind to what replication itself writes: a freshly
    rendered replica, at any target coordinate, hashes to the source's own
    hash, so hash equality means equal content. *)
Theorem SourceHash_Render cfg r src md tns tn :
  wf_obj src md →
  SourceHash cfg (Render cfg r src tns tn).1 = SourceHash cfg src ∧
  (Render cfg r src tns tn).2 = SourceHash cfg src.
Proof. intros Hwf. split; [by eapply SourceHash_Render_eq|done]. Qed.

(** Every key on the replica is either one of the six identity labels (or
    the hash annotation) or a source key off the denylist, and every source key
    off the denylist arrives with its value; server-managed metadata and status
    stay behind, every other field is copied, and the replica is recognised as
    managed for this source. *)
Theorem Render_replica cfg r src md tns tn :
  wf_obj src md →
  let rep := (Render cfg r src tns tn).1 in
  IsManagedReplica (GetLabels rep) (GetUID src) = true ∧
  (∀ k, GetLabels rep !! k =
    if isStrippedKey cfg k then identityLabels r src !! k else GetLabels src !! k) ∧
  (∀ k, GetAnnotations rep !! k =
    if isStrippedKey cfg k
    then (if decide (k = AnnotationSourceHash) then Some (SourceHash cfg src) else None)
    else GetAnnotations src !! k) ∧
  rep !! "status" = None ∧
  (∀ f, f ≠ "metadata" → f ≠ "status" → rep !! f = src !! f) ∧
  (∀ f md', metadata rep = Some md' → f ∈ serverManagedMetadataFields → md' !! f = None) ∧
  GetNamespace rep = tns ∧
  GetName rep = (if decide (tn = "") then GetName src else tn).
Proof.
  intros Hwf rep. set (name := if decide (tn = "") then _ else _).
  assert (GetLabels rep = identityLabels r src ∪ cleanStrippedKeys cfg (GetLabels src))
    as HL by apply (Render_labels _ _ _ _ _ _ Hwf).
  pose proof (Render_annotations cfg r _ _ tns tn Hwf) as HA. fold rep in HA.
  pose proof (Render_eq cfg r _ _ tns tn Hwf) as Heq. fold rep in Heq. cbn zeta in Heq. fold name in Heq. clearbody name.
  assert (∀ k, is_Some (identityLabels r src !! k) → isStrippedKey cfg k = true) as Hid
    by (intros k; apply identity_stripped).
  split_and!.
  - rw HL. unfold IsManagedReplica. apply andb_true_iff; split; apply bool_decide_eq_true_2;
      by erewrite lookup_union_Some_l by reflexivity.
  - intros k. rw HL lookup_union clean_lookup. destruct (isStrippedKey cfg k) eqn:E.
    + by rw right_id_L.
    + destruct (identityLabels r src !! k) eqn:Ek; [rw Hid in E; [by eexists|done]|].
      by rw left_id_L.
  - intros k. rw HA. destruct (decide (k = AnnotationSourceHash)) as [->|Hk].
    + by rw isStrippedKey_prefix // lookup_insert_eq.
    + rw lookup_insert_ne; [congruence|]. rw clean_lookup. done.
  - by rw Heq lookup_insert_ne // lookup_delete_eq.
  - intros f H1 H2. rw Heq lookup_insert_ne; [congruence|]. by rw lookup_delete_ne.
  - intros f md' Hmd' Hf. unfold metadata in Hmd'. rw Heq lookup_insert_eq in Hmd'.
    simplify_eq. assert (f ≠ "annotations" ∧ f ≠ "labels") as [? ?]
      by (split; intros ->; revert Hf; apply (bool_decide_unpack _); vm_compute; exact I).
    rw lookup_insert_ne // lookup_insert_ne //. by apply placed_md_server.
  - rw Heq. erewrite get_namespace by (unfold metadata; by rewrite lookup_insert_eq).
    rw !lookup_insert_ne //. unfold placed_md.
    case_decide as H2; [rw lookup_delete_ne //|rw lookup_insert_ne //];
    (case_decide as H3; [by rw lookup_delete_eq|by rw lookup_insert_eq]).
  - rw Heq. erewrite get_name by (unfold metadata; by rewrite lookup_insert_eq).
    rw !lookup_insert_ne //. unfold placed_md.
    case_decide as H2; [by rw lookup_delete_eq|by rw lookup_insert_eq].
Qed.

(** The configured additions to the denylist strip exactly the keys equal to
    a trimmed entry, or below a trimmed entry ending in a slash; empty entries
    and a bare slash strip nothing, and the built-in denylist always holds. *)
Theorem SetExtraStrippedKeys_correct ks k :
  isStrippedKey (SetExtraStrippedKeys ks) k =
  isStrippedKey (SetExtraStrippedKeys []) k
  || existsb (λ e0, let e := TrimSpace e0 in
       if bool_decide (e = "") || bool_decide (e = "/") then false
       else if has_suffix e "/" then has_prefix k e else bool_decide (e = k)) ks.
Proof.
  assert (∀ cfg, isStrippedKey cfg k = isStrippedKey (SetExtraStrippedKeys []) k
    || (contains (extraStrippedKeys cfg) k || existsb (has_prefix k) (extraStrippedPrefixes cfg)))
    as Hsplit.
  { intros cfg. unfold isStrippedKey. simpl.
    repeat case_match; simpl; rewrite ?orb_true_r; try done.
    all: repeat match goal with H : _ || _ = _ |- _ => first
      [ apply orb_false_iff in H as [? ?] | apply orb_true_iff in H as [?|?] ] end; try congruence.
    all: repeat match goal with H : _ = true |- _ => rw H | H : _ = false |- _ => rw H end; done. }
  rw (Hsplit (SetExtraStrippedKeys ks)). f_equal. unfold SetExtraStrippedKeys.
  assert (∀ cfg, contains (extraStrippedKeys (foldl strip_entry cfg ks)) k
      || existsb (has_prefix k) (extraStrippedPrefixes (foldl strip_entry cfg ks)) =
    (contains (extraStrippedKeys cfg) k || existsb (has_prefix k) (extraStrippedPrefixes cfg))
    || existsb (λ e0, let e := TrimSpace e0 in
       if bool_decide (e = "") || bool_decide (e = "/") then false
       else if has_suffix e "/" then has_prefix k e else bool_decide (e = k)) ks) as Hfold;
    [|by rw Hfold].
  induction ks as [|e ks IH]; intros cfg; simpl; [by rw orb_false_r|].
  rw IH. rw orb_assoc. f_equal. unfold strip_entry.
  set (e1 := TrimSpace e). case_match; simpl; [by rw orb_false_r|].
  case_match; simpl.
  - rw existsb_app /= orb_false_r. by rw orb_assoc.
  - replace (contains (extraStrippedKeys cfg ++ [e1])%list k)
      with (contains (extraStrippedKeys cfg) k || bool_decide (e1 = k)).
    + by destruct (contains _ k), (bool_decide (e1 = k)), (existsb _ (extraStrippedPrefixes cfg)).
    + unfold contains. apply eq_true_iff_eq. rw orb_true_iff !bool_decide_eq_true elem_of_app.
      rw list_elem_of_singleton. naive_solver.
Qed.
End correctness.

(** ** Witnesses *)

#[local] Existing Instance UnstructuredModel.api.
#[local] Existing Instance UnstructuredModel.laws.

(** A Secret managed by an Argo CD application. *)
Definition ex_metadata : Obj :=
  {[ "name" := VStr "pull-secret"; "namespace" := VStr "infra"; "uid" := VStr "u-1";
     "resourceVersion" := VStr "17";
     "labels" := VObj (VStr <$> ({[ "app" := "registry"; "app.kubernetes.io/instance" := "argo" ]}
                                 : gmap string string)) ]}.
Definition ex_source : Obj :=
  {[ "apiVersion" := VStr "v1"; "kind" := VStr "Secret"; "metadata" := VObj ex_metadata;
     "data" := VObj {[ "token" := VStr "czNjcjN0" ]} ]}.
Definition no_strip : StripConfig := SetExtraStrippedKeys [].

Lemma ex_source_wf : wf_obj ex_source ex_metadata.
Proof.
  split; [vm_refl|right|left; vm_refl].
  exists {[ "app" := "registry"; "app.kubernetes.io/instance" := "argo" ]}. vm_refl.
Qed.

Lemma SourceHash_Render_witness :
  wf_obj ex_source ex_metadata ∧
  (SourceHash no_strip (Render no_strip {| HubName := "" |} ex_source "team-a" "").1
     = SourceHash no_strip ex_source ∧
   (Render no_strip {| HubName := "" |} ex_source "team-a" "").2 = SourceHash no_strip ex_source).
Proof.
  split; [exact ex_source_wf|].
  exact (SourceHash_Render no_strip _ _ _ "team-a" "" ex_source_wf).
Defined.

Lemma Render_replica_witness :
  wf_obj ex_source ex_metadata ∧
  IsManagedReplica (GetLabels (Render no_strip {| HubName := "" |} ex_source "team-a" "").1)
    (GetUID ex_source) = true.
Proof.
  split; [exact ex_source_wf|].
  exact (proj1 (Render_replica no_strip _ _ _ "team-a" "" ex_source_wf)).
Defined.

Example Render_ex :
  GetLabels (Render no_strip {| HubName := "" |} ex_source "team-a" "").1 =
  {[ "app" := "registry"; "app.kubernetes.io/managed-by" := "k8s-r8r";
     "r8r.io/source-cluster" := "hub"; "r8r.io/source-namespace" := "infra";
     "r8r.io/source-name" := "pull-secret"; "r8r.io/source-kind" := "Secret";
     "r8r.io/source-uid" := "u-1" ]}.
Proof. vm_refl. Qed.
