(* ===== verification/Json.v ===== *)
(** The JSON encoding is unambiguous: two well-formed object trees have the same
    [json] text only when they are equal. A value is read back from the front of
    any text that continues with a delimiter, so the proof goes by the depth of
    the tree. What it is for is the content hash: equal hashes mean equal content
    unless the two texts are a collision of SHA-256. *)
From Stdlib Require Import Ascii.
From S2P Require Import Prelude GoLib Sha256 Api Unstructured Render.

#[local] Open Scope string_scope.
#[local] Open Scope list_scope.

(** ** UTF-8 *)

(** One encoded rune. *)
Definition rune (w : list ascii) : Prop := w ≠ [] ∧ utf8_len w = length w.

Inductive runes : list ascii → Prop :=
  | runes_nil : runes []
  | runes_cons w l : rune w → runes l → runes (w ++ l).

Fixpoint valid_runes (fuel : nat) (l : list ascii) : bool :=
  match l, fuel with
  | [], _ => true
  | _, 0 => false
  | _, S n => match utf8_len l with 0 => false | k => valid_runes n (drop k l) end
  end.

(** [utf8.ValidString] *)
Definition utf8 (s : string) : bool := valid_runes (String.length s) (list_of_string s).

Ltac len_cases := repeat (case_match; simplify_eq/=; try done; try lia).

Lemma utf8_len_le l : (utf8_len l ≤ length l)%nat.
Proof. unfold utf8_len. len_cases. Qed.

Lemma utf8_len_take l : utf8_len l ≠ 0%nat → utf8_len (take (utf8_len l) l) = utf8_len l.
Proof.
  unfold utf8_len at 1 3 4. destruct l as [|c0 l]; [done|]. destruct (ord c0 <? 128)%nat eqn:E0.
  { simpl. by rewrite E0. }
  destruct l as [|c1 l]; [done|]. destruct (between 194 223 c0 && is_cont c1) eqn:E1.
  { simpl. by rewrite E0 E1. }
  destruct l as [|c2 l]; [done|]. case_match eqn:E2.
  { simpl. by rewrite E0 E1 E2. }
  destruct l as [|c3 l]; [done|]. case_match eqn:E3; [|done]. simpl. by rewrite E0 E1 E2 E3.
Qed.

Lemma utf8_len_app w r : rune w → utf8_len (w ++ r) = length w.
Proof.
  intros [Hne Hw]. unfold utf8_len in *. destruct w as [|c0 w]; [done|].
  simpl in *. destruct (ord c0 <? 128)%nat; [done|].
  destruct w as [|c1 w]; [done|]. simpl in *. destruct (between 194 223 c0 && is_cont c1); [done|].
  destruct w as [|c2 w]; [done|]. simpl in *. case_match; [done|].
  destruct w as [|c3 w]; [done|]. simpl in *. case_match; [|done]. done.
Qed.

Lemma valid_runes_sound n l : valid_runes n l = true → runes l.
Proof.
  revert l. induction n as [|n IH]; intros [|c l]; try done; try (by constructor).
  cbn [valid_runes]. destruct (utf8_len (c :: l)) as [|k] eqn:E; [done|]. intros H.
  rewrite -(take_drop (S k) (c :: l)). constructor; [|by apply IH].
  pose proof (utf8_len_le (c :: l)). split; [done|].
  rewrite -E utf8_len_take; [by rewrite E|]. rewrite length_take. lia.
Qed.

(** ** Strings *)

(** What [json_chars] writes for one rune. *)
Definition enc_rune (w : list ascii) : string :=
  match w with
  | [c] => json_ascii c
  | _ => default (string_of_list w) (line_sep w)
  end.

Lemma rune_head w : rune w → ∃ c w', w = c :: w' ∧ ((ord c < 128)%nat ↔ w' = []).
Proof.
  intros [Hne Hw]. destruct w as [|c w']; [done|]. exists c, w'. split; [done|].
  unfold utf8_len in Hw. destruct (Nat.ltb_spec (ord c) 128).
  - split; [|done]. intros _. by destruct w'.
  - split; [lia|]. intros ->. done.
Qed.

Lemma rune_pos w : rune w → (0 < length w)%nat.
Proof. intros [? _]. destruct w; [done|simpl; lia]. Qed.

Lemma json_chars_rune n w l :
  rune w → json_chars (S n) (w ++ l) = enc_rune w +:+ json_chars n l.
Proof.
  intros Hw. destruct (rune_head w Hw) as (c & w' & -> & Hc). cbn [app json_chars].
  destruct (Nat.ltb_spec (ord c) 128).
  - destruct w'; [done|]. by apply Hc in H.
  - change (c :: w' ++ l) with ((c :: w') ++ l). rewrite (utf8_len_app _ _ Hw). cbn [length].
    rewrite take_app_length' // drop_app_length' //.
    destruct w'; [|done]. destruct Hc as [_ Hc]. specialize (Hc eq_refl). lia.
Qed.

(** The rune at the front of an encoded text, and what follows. *)
Definition unhex (c : ascii) : nat := if (ord c <=? 57)%nat then ord c - 48 else ord c - 87.

Definition read_escape (l : list ascii) : option (list ascii * list ascii) :=
  match l with
  | c :: r =>
      let n := ord c in
      if (n =? 117)%nat then
        match r with
        | a :: _ :: h :: d :: r' =>
            if (ord a =? 48)%nat then Some ([chr (16 * unhex h + unhex d)], r')
            else Some (map chr [226; 128; 160 + unhex d], r')
        | _ => None
        end
      else if (n =? 98)%nat then Some ([chr 8], r)
      else if (n =? 102)%nat then Some ([chr 12], r)
      else if (n =? 110)%nat then Some ([chr 10], r)
      else if (n =? 114)%nat then Some ([chr 13], r)
      else if (n =? 116)%nat then Some ([chr 9], r)
      else Some ([c], r)
  | [] => None
  end.

Definition read_rune (l : list ascii) : option (list ascii * list ascii) :=
  match l with
  | [] => None
  | c :: r =>
      if (ord c =? 34)%nat then None
      else if (ord c =? 92)%nat then read_escape r
      else if (ord c <? 128)%nat then Some ([c], r)
      else Some (take (utf8_len l) l, drop (utf8_len l) l)
  end.

Lemma read_ascii c r :
  (ord c < 128)%nat → read_rune (list_of_string (json_ascii c) ++ r) = Some ([c], r).
Proof.
  intros H. assert (∀ b, Ascii.eqb c b = true → c = b) as _ by (intros b; apply Ascii.eqb_eq).
  destruct c as [[] [] [] [] [] [] [] []]; first [reflexivity | exfalso; revert H; vm_compute; lia].
Qed.

Lemma read_enc w r : rune w → read_rune (list_of_string (enc_rune w) ++ r) = Some (w, r).
Proof.
  intros Hw. destruct (rune_head w Hw) as (c & w' & -> & Hc).
  destruct w' as [|c1 w'].
  { apply read_ascii. by apply Hc. }
  assert (¬ (ord c < 128)%nat) as Hbig by (intros H; by apply Hc in H).
  unfold enc_rune. destruct (line_sep (c :: c1 :: w')) as [s|] eqn:E; unfold default, from_option, id.
  - unfold line_sep in E. repeat case_decide; simplify_eq;
      match goal with H : _ = map chr _ |- _ => rewrite H end; reflexivity.
  - rewrite list_of_string_of_list. cbn [app read_rune].
    rewrite (proj2 (Nat.eqb_neq (ord c) 34)); [lia|].
    rewrite (proj2 (Nat.eqb_neq (ord c) 92)); [lia|].
    rewrite (proj2 (Nat.ltb_ge (ord c) 128)); [lia|].
    change (c :: c1 :: w' ++ r) with ((c :: c1 :: w') ++ r). rewrite (utf8_len_app _ _ Hw).
    by rewrite take_app_length' // drop_app_length'.
Qed.

Lemma read_quote r : read_rune (list_of_string (dq) ++ r) = None.
Proof. reflexivity. Qed.

(** Two encoded texts up to the closing quote. *)
Lemma json_chars_inj l l' n n' r r' :
  runes l → runes l' → (length l ≤ n)%nat → (length l' ≤ n')%nat →
  list_of_string (json_chars n l) ++ list_of_string dq ++ r =
  list_of_string (json_chars n' l') ++ list_of_string dq ++ r' →
  l = l' ∧ r = r'.
Proof.
  intros Hl Hl'. revert l' Hl' n n' r r'. induction Hl as [|w l Hw Hl IH]; intros l' Hl' n n' r r' Hn Hn' Heq.
  - assert (json_chars n [] = "") as E by (by destruct n). rewrite E in Heq. clear E.
    destruct Hl' as [|w' l' Hw' Hl'].
    + assert (json_chars n' [] = "") as E by (by destruct n'). rewrite E in Heq. by injection Heq as ->.
    + exfalso. destruct n' as [|n']; [apply rune_pos in Hw'; rewrite length_app in Hn'; lia|].
      rewrite json_chars_rune // list_of_string_app -app_assoc in Heq.
      apply (f_equal read_rune) in Heq. rewrite read_enc // in Heq.
  - destruct n as [|n]; [apply rune_pos in Hw; rewrite length_app in Hn; lia|].
    rewrite json_chars_rune // list_of_string_app -app_assoc in Heq.
    destruct Hl' as [|w' l' Hw' Hl'].
    + exfalso. assert (json_chars n' [] = "") as E by (by destruct n'). rewrite E in Heq.
      apply (f_equal read_rune) in Heq. rewrite read_enc // in Heq.
    + destruct n' as [|n']; [apply rune_pos in Hw'; rewrite length_app in Hn'; lia|].
      rewrite json_chars_rune // list_of_string_app -app_assoc in Heq.
      pose proof (f_equal read_rune Heq) as Hr. rewrite !read_enc // in Hr.
      injection Hr as -> Hr. rewrite !length_app in Hn, Hn'.
      apply rune_pos in Hw'.
      destruct (IH l' Hl' n n' r r') as [-> ->]; [lia|lia|exact Hr|done].
Qed.

Lemma json_string_inj s s' r r' :
  utf8 s = true → utf8 s' = true → json_string s +:+ r = json_string s' +:+ r' → s = s' ∧ r = r'.
Proof.
  intros Hs%valid_runes_sound Hs'%valid_runes_sound Heq.
  apply (f_equal list_of_string) in Heq. unfold json_string in Heq.
  rewrite !list_of_string_app -!app_assoc in Heq. apply (inj (app (list_of_string dq))) in Heq.
  apply json_chars_inj in Heq as [H1 H2]; [|done..|by rewrite length_list_of_string|by rewrite length_list_of_string].
  split; by apply list_of_string_inj.
Qed.

(** ** Well-formed trees *)

Definition is_digit (c : ascii) : bool := between 48 57 c.
Definition number_char (c : ascii) : bool :=
  is_digit c || contains [chr 43; chr 45; chr 46; chr 69; chr 101] c.
Definition fraction_char (c : ascii) : bool := contains [chr 46; chr 69; chr 101] c.

(** The text of a float that is not the text of an integer. *)
Definition float_text (t : string) : bool :=
  match list_of_string t with
  | [] => false
  | l => forallb number_char l && existsb fraction_char l
  end.

(** Strings are valid UTF-8 (what a decoder delivers), and floats are not
    integral: encoding/json prints 1.0 as it prints the integer 1. *)
Fixpoint wfb (v : value) : bool :=
  match v with
  | VNull | VBool _ | VInt _ => true
  | VFloat t => float_text t
  | VStr s => utf8 s
  | VArr l => forallb wfb l
  | VObj m => map_fold (λ k w acc, utf8 k && wfb w && acc) true m
  end.

Fixpoint depth (v : value) : nat :=
  match v with
  | VArr l => S (foldr (λ w acc, depth w `max` acc) 0%nat l)
  | VObj m => S (map_fold (λ _ w acc, depth w `max` acc) 0%nat m)
  | _ => 0%nat
  end.

Lemma depth_arr l w : w ∈ l → (depth w < depth (VArr l))%nat.
Proof.
  simpl. induction l as [|x l IH]; [by intros ?%not_elem_of_nil|].
  intros [->|Hw]%elem_of_cons; simpl; [lia|]. apply IH in Hw. lia.
Qed.

Lemma depth_obj m k w : m !! k = Some w → (depth w < depth (VObj m))%nat.
Proof.
  simpl. revert k w.
  apply (map_fold_weak_ind (λ r (m : gmap string value), ∀ k w, m !! k = Some w → (depth w < S r)%nat)).
  - intros k w. by rewrite lookup_empty.
  - intros i x m' r _ IH k w [[<- <-]|[_ Hk]]%lookup_insert_Some; [lia|]. apply IH in Hk. lia.
Qed.

Lemma wfb_obj m :
  wfb (VObj m) = true ↔ ∀ k w, m !! k = Some w → utf8 k = true ∧ wfb w = true.
Proof.
  simpl. apply (map_fold_weak_ind (λ r (m : gmap string value),
    r = true ↔ ∀ k w, m !! k = Some w → utf8 k = true ∧ wfb w = true)).
  - split; [|done]. intros _ k w. by rewrite lookup_empty.
  - intros i x m' r Hi IH. rewrite !andb_true_iff IH. split.
    + intros [[Hi' Hx] H] k w [[<- <-]|[_ Hk]]%lookup_insert_Some; [done|by apply H].
    + intros H. split; [by apply (H i x); rewrite lookup_insert_eq|].
      intros k w Hk. apply H. rewrite lookup_insert_ne //. congruence.
Qed.

(** ** Numbers *)

(** A text ends where a delimiter or nothing follows. *)
Definition stop (r : string) : Prop :=
  match r with "" => True | String c _ => number_char c = false end.

Lemma span_unique a b r r' :
  (∀ c, c ∈ list_of_string a → number_char c = true) →
  (∀ c, c ∈ list_of_string b → number_char c = true) →
  stop r → stop r' → a +:+ r = b +:+ r' → a = b ∧ r = r'.
Proof.
  revert b. induction a as [|c a IH]; intros b Ha Hb Hr Hr' Heq.
  - destruct b as [|c b]; [by split|]. exfalso.
    assert (number_char c = true) as Hc by (apply Hb; left).
    change ("" +:+ r) with r in Heq. rewrite Heq in Hr. unfold stop in Hr. simpl in Hr. congruence.
  - destruct b as [|c' b].
    + exfalso. assert (number_char c = true) as Hc by (apply Ha; left).
      change ("" +:+ r') with r' in Heq. rewrite -Heq in Hr'. unfold stop in Hr'. simpl in Hr'. congruence.
    + injection Heq as -> Heq. destruct (IH b) as [-> ->]; try done.
      * intros d Hd. apply Ha. by right.
      * intros d Hd. apply Hb. by right.
Qed.

Lemma digits_of_N x s c :
  c ∈ list_of_string (pretty_N_go x s) → is_digit c = true ∨ c ∈ list_of_string s.
Proof.
  revert s. induction (N.lt_wf_0 x) as [x _ IH]; intros s.
  destruct (decide (x = 0)%N) as [->|Hx]; [rewrite pretty_N_go_0; by right|].
  rewrite pretty_N_go_step; [lia|]. intros Hc. apply IH in Hc as [Hc|Hc]; [by left| |apply N.div_lt; lia].
  simpl in Hc. apply elem_of_cons in Hc as [->|Hc]; [left|by right].
  assert (x `mod` 10 < 10)%N as Hm by (apply N.mod_lt; lia).
  generalize dependent (x `mod` 10)%N. intros d _ Hd.
  assert (d = 0 ∨ d = 1 ∨ d = 2 ∨ d = 3 ∨ d = 4 ∨ d = 5 ∨ d = 6 ∨ d = 7 ∨ d = 8 ∨ d = 9)%N as Hcases by lia.
  by repeat destruct Hcases as [-> | Hcases]; try subst d.
Qed.

Lemma pretty_N_go_nonempty x s : (0 < x)%N ∨ s ≠ "" → pretty_N_go x s ≠ "".
Proof.
  revert s. induction (N.lt_wf_0 x) as [x _ IH]; intros s H.
  destruct (decide (x = 0)%N) as [->|Hx]; [rewrite pretty_N_go_0; destruct H; [lia|done]|].
  rewrite pretty_N_go_step; [lia|]. apply IH; [apply N.div_lt; lia|by right].
Qed.

(** A decimal is a minus sign or nothing, then digits. *)
Lemma dec_shape z : ∃ c s, dec z = String c s ∧ (is_digit c = true ∨ c = chr 45) ∧
  ∀ d, d ∈ list_of_string s → is_digit d = true.
Proof.
  assert (∀ p, ∃ c s, pretty (Npos p) = String c s ∧ is_digit c = true ∧
            ∀ d, d ∈ list_of_string s → is_digit d = true) as Hp.
  { intros p. change (pretty (N.pos p)) with (pretty_N_go (N.pos p) "").
    destruct (pretty_N_go (N.pos p) "") as [|c s] eqn:E.
    { exfalso. revert E. apply pretty_N_go_nonempty. left. lia. }
    exists c, s. split; [done|]. split.
    - destruct (digits_of_N (N.pos p) "" c) as [?|?%not_elem_of_nil]; [rewrite E; left|done|done].
    - intros d Hd. destruct (digits_of_N (N.pos p) "" d) as [?|?%not_elem_of_nil]; [rewrite E; by right|done|done]. }
  unfold dec. destruct z as [|p|p].
  - exists (chr 48), "". split_and!; [done|by left|by intros d ?%not_elem_of_nil].
  - destruct (Hp p) as (c & s & Hs & Hc & Hd). exists c, s. split_and!; [done|by left|done].
  - destruct (Hp p) as (c & s & Hs & Hc & Hd). exists (chr 45), (String c s).
    split_and!; [|by right|].
    + change (pretty (Z.neg p)) with ("-" +:+ pretty (N.pos p)). by rewrite Hs.
    + intros d [->|?]%elem_of_cons; auto.
Qed.

Lemma digit_number c : is_digit c = true → number_char c = true.
Proof. unfold number_char. by intros ->. Qed.

Lemma digit_fraction c : is_digit c = true → fraction_char c = false.
Proof. destruct c as [[] [] [] [] [] [] [] []]; intros H; first [discriminate H | reflexivity]. Qed.

Lemma dec_chars z c : c ∈ list_of_string (dec z) → number_char c = true ∧ fraction_char c = false.
Proof.
  destruct (dec_shape z) as (c0 & s & -> & H0 & Hs). intros [->|Hc]%elem_of_cons.
  - destruct H0 as [H0| ->]; [|done]. split; [by apply digit_number|by apply digit_fraction].
  - apply Hs in Hc. split; [by apply digit_number|by apply digit_fraction].
Qed.

Lemma float_chars t :
  float_text t = true →
  (∀ c, c ∈ list_of_string t → number_char c = true) ∧
  (∃ c, c ∈ list_of_string t ∧ fraction_char c = true) ∧ ∃ c s, t = String c s.
Proof.
  unfold float_text. destruct (list_of_string t) as [|c0 l] eqn:E; [done|].
  rewrite andb_true_iff List.forallb_forall List.existsb_exists. intros [H1 (c & Hc & Hf)].
  split_and!.
  - intros d Hd. apply H1. by apply list_elem_of_In.
  - exists c. split; [by apply list_elem_of_In|done].
  - destruct t as [|c' s]; [done|eauto].
Qed.

(** ** Sequences *)

Lemma Join_cons x l sep : Join (x :: l) sep = x +:+ foldr (λ y acc, sep +:+ y +:+ acc) "" l.
Proof.
  revert x. induction l as [|y l IH]; intros x; [by rewrite string_app_nil_r|].
  change (Join (x :: y :: l) sep) with (x +:+ sep +:+ Join (y :: l) sep). by rewrite IH.
Qed.

Section sequence.
Context {A : Type} (enc : A → string) (good : A → Prop) (close : ascii).

(** Elements read back up to a delimiter, and never start with the closing one. *)
Definition reads (x : A) : Prop :=
  ∀ y r r', good y → stop r → stop r' → enc x +:+ r = enc y +:+ r' → x = y ∧ r = r'.

Hypothesis close_stop : number_char close = false.
Hypothesis close_comma : close ≠ chr 44.
Hypothesis enc_head : ∀ x, good x → ∃ c s, enc x = String c s ∧ c ≠ close.

Let tail (l : list A) (r : string) : string :=
  foldr (λ y acc, "," +:+ y +:+ acc) "" (map enc l) +:+ String close r.

Lemma stop_tail l r : stop (tail l r).
Proof using close_stop. destruct l; [exact close_stop|done]. Qed.

Lemma tail_inj l l' r r' :
  (∀ x, x ∈ l → good x ∧ reads x) → (∀ x, x ∈ l' → good x) → tail l r = tail l' r' → l = l' ∧ r = r'.
Proof using close_stop close_comma.
  revert l'. induction l as [|x l IH]; intros [|y l'] Hl Hl' Heq.
  - by injection Heq as ->.
  - injection Heq as Hc _. by destruct close_comma.
  - injection Heq as Hc _. by destruct close_comma.
  - change (String "," (enc x +:+ foldr (λ y acc, "," +:+ y +:+ acc) "" (map enc l)) +:+ String close r
            = String "," (enc y +:+ foldr (λ y acc, "," +:+ y +:+ acc) "" (map enc l')) +:+ String close r')
      in Heq.
    injection Heq as Heq. rewrite !string_app_assoc in Heq.
    destruct (Hl x) as [_ Hx]; [left|].
    apply Hx in Heq as [-> Heq]; [|apply Hl'; left|apply stop_tail|apply stop_tail].
    destruct (IH l') as [-> ->]; [intros z ?; apply Hl; by right|intros z ?; apply Hl'; by right|done|done].
Qed.

Lemma sequence_inj l l' r r' :
  (∀ x, x ∈ l → good x ∧ reads x) → (∀ x, x ∈ l' → good x) →
  Join (map enc l) "," +:+ String close r = Join (map enc l') "," +:+ String close r' →
  l = l' ∧ r = r'.
Proof using close_stop close_comma enc_head.
  intros Hl Hl' Heq. destruct l as [|x l], l' as [|y l'].
  - by injection Heq as ->.
  - exfalso. destruct (enc_head y) as (c & s & Hy & Hc); [apply Hl'; left|].
    cbn [map] in Heq. rewrite Join_cons Hy in Heq. by injection Heq as ->.
  - exfalso. destruct (enc_head x) as (c & s & Hx & Hc); [apply Hl; left|].
    cbn [map] in Heq. rewrite Join_cons Hx in Heq. by injection Heq as ->.
  - cbn [map] in Heq. rewrite !Join_cons !string_app_assoc in Heq.
    destruct (Hl x) as [_ Hx]; [left|].
    apply Hx in Heq as [-> Heq]; [|apply Hl'; left|apply stop_tail|apply stop_tail].
    apply tail_inj in Heq as [-> ->]; [done|intros z ?; apply Hl; by right|intros z ?; apply Hl'; by right].
Qed.
End sequence.

(** ** Values *)

Definition good (v : value) : Prop := wfb v = true.

(** Which kind of value a text of [json] starts. *)
Definition tag (v : value) : nat :=
  match v with
  | VNull => 0 | VBool true => 1 | VBool false => 2 | VStr _ => 3 | VArr _ => 4 | VObj _ => 5
  | VInt _ | VFloat _ => 6
  end.

Definition tag_of (c : ascii) : nat :=
  if number_char c then 6
  else match ord c with
       | 110 => 0 | 116 => 1 | 102 => 2 | 34 => 3 | 91 => 4 | 123 => 5 | _ => 7
       end.

Definition member (kv : string * value) : string := json_string kv.1 +:+ ":" +:+ json kv.2.

Definition by_key {A} (a b : string * A) : bool := String.leb a.1 b.1.

Lemma isort_insert_map {A B} (g : A → B) (x : string * A) l :
  isort_insert by_key (x.1, g x.2) (map (λ kv, (kv.1, g kv.2)) l) =
  map (λ kv, (kv.1, g kv.2)) (isort_insert by_key x l).
Proof.
  induction l as [|y l IH]; [done|]. simpl. unfold by_key at 1 3. simpl.
  destruct (String.leb x.1 y.1); [done|]. simpl. by rewrite IH.
Qed.

Lemma isort_map {A B} (g : A → B) (l : list (string * A)) :
  isort by_key (map (λ kv, (kv.1, g kv.2)) l) = map (λ kv, (kv.1, g kv.2)) (isort by_key l).
Proof. induction l as [|x l IH]; [done|]. simpl. by rewrite IH isort_insert_map. Qed.

Definition members (m : gmap string value) : list (string * value) := isort by_key (map_to_list m).

Lemma json_obj m : json (VObj m) = "{" +:+ Join (map member (members m)) "," +:+ "}".
Proof.
  cbn [json]. unfold json_members. do 2 f_equal. rewrite map_fold_foldr.
  assert (foldr (λ '(k, w) acc, (k, json w) :: acc) [] (map_to_list m) =
          map (λ kv, (kv.1, json kv.2)) (map_to_list m)) as E.
  { induction (map_to_list m) as [|[k w] l IH]; [done|]. simpl. by rewrite IH. }
  transitivity (Join (map (λ kv : string * string, json_string kv.1 +:+ ":" +:+ kv.2)
    (isort by_key (map (λ kv, (kv.1, json kv.2)) (map_to_list m)))) ","); [by rewrite -E|].
  rewrite isort_map List.map_map. done.
Qed.

Lemma elem_of_members m k w : (k, w) ∈ members m ↔ m !! k = Some w.
Proof. unfold members. by rewrite elem_of_isort elem_of_map_to_list. Qed.

Lemma members_inj m m' : members m = members m' → m = m'.
Proof.
  intros H. apply map_to_list_inj. unfold members in H.
  by rewrite -(isort_Permutation by_key (map_to_list m)) H isort_Permutation.
Qed.

Lemma number_head c : number_char c = true → tag_of c = 6%nat.
Proof. unfold tag_of. by intros ->. Qed.

Lemma json_head v : good v → ∃ c s, json v = String c s ∧ tag_of c = tag v.
Proof.
  unfold good. destruct v as [|[]|z|t|s|l|m]; intros Hv.
  - by eexists _, _.
  - by eexists _, _.
  - by eexists _, _.
  - destruct (dec_shape z) as (c & s & E & Hc & _). exists c, s. split; [done|]. apply number_head.
    apply (dec_chars z). rewrite E. left.
  - destruct (float_chars t Hv) as (H1 & _ & c & s & ->). exists c, s. split; [done|].
    apply number_head, H1. left.
  - by eexists _, _.
  - by eexists _, _.
  - rewrite json_obj. by eexists _, _.
Qed.

(** A value is read back from the front of a text. *)
Lemma number_reads a b r r' :
  (∀ c, c ∈ list_of_string (json a) → number_char c = true) →
  (∀ c, c ∈ list_of_string (json b) → number_char c = true) →
  stop r → stop r' → json a +:+ r = json b +:+ r' → json a = json b ∧ r = r'.
Proof. apply span_unique. Qed.

Lemma member_app k w r : member (k, w) +:+ r = json_string k +:+ String ":" (json w +:+ r).
Proof. unfold member. cbn [fst snd]. generalize (json_string k) (json w). intros a b. by rewrite !string_app_assoc. Qed.

Lemma member_reads m k w :
  wfb (VObj m) = true → m !! k = Some w → reads json good w →
  reads member (λ kv, utf8 kv.1 = true ∧ good kv.2) (k, w).
Proof.
  intros Hm Hk Hw [k' w'] r r' [Hk' Hw'] Hr Hr' Heq.
  apply wfb_obj with (k := k) (w := w) in Hm as [Huk _]; [|done].
  rewrite !member_app in Heq.
  apply json_string_inj in Heq as [-> Heq]; [|done..]. injection Heq as Heq.
  by apply Hw in Heq as [-> ->].
Qed.

Lemma value_reads v : good v → reads json good v.
Proof.
  remember (depth v) as n eqn:Hn. revert v Hn.
  induction (lt_wf n) as [n _ IH]. intros v -> Hv y r r' Hy Hr Hr' Heq.
  assert (tag v = tag y) as Htag.
  { destruct (json_head v Hv) as (c & s & Ev & <-), (json_head y Hy) as (c' & s' & Ey & <-).
    rewrite Ev Ey in Heq. by injection Heq as ->. }
  destruct v as [|[]|z|t|s|l|m], y as [|[]|z'|t'|s'|l'|m']; try discriminate Htag; clear Htag.
  - by apply (inj (String.append "null")) in Heq as ->.
  - by apply (inj (String.append "true")) in Heq as ->.
  - by apply (inj (String.append "false")) in Heq as ->.
  - apply number_reads in Heq as [Heq ->]; [|intros c Hc; by apply (dec_chars z)|
      intros c Hc; by apply (dec_chars z')|done..].
    split; [|done]. f_equal. by apply (inj pretty).
  - apply number_reads in Heq as [Heq _]; [|intros c Hc; by apply (dec_chars z)|
      intros c Hc; by apply (float_chars t' Hy)|done..].
    destruct (float_chars t' Hy) as (_ & (c & Hc & Hf) & _). exfalso.
    simpl in Heq. rewrite -Heq in Hc. apply dec_chars in Hc as [_ Hc]. congruence.
  - apply number_reads in Heq as [Heq _]; [|intros c Hc; by apply (float_chars t Hv)|
      intros c Hc; by apply (dec_chars z')|done..].
    destruct (float_chars t Hv) as (_ & (c & Hc & Hf) & _). exfalso.
    simpl in Heq. rewrite Heq in Hc. apply dec_chars in Hc as [_ Hc]. congruence.
  - apply number_reads in Heq as [Heq ->]; [|intros c Hc; by apply (float_chars t Hv)|
      intros c Hc; by apply (float_chars t' Hy)|done..].
    split; [|done]. by f_equal.
  - by apply json_string_inj in Heq as [-> ->].
  - cbn [json] in Heq. rewrite !string_app_assoc in Heq. apply (inj (String.append "[")) in Heq.
    unfold good in Hv, Hy. cbn [wfb] in Hv, Hy. rewrite List.forallb_forall in Hv. rewrite List.forallb_forall in Hy.
    apply (sequence_inj json good (chr 93)) in Heq as [-> ->]; try done.
    + intros x Hx. destruct (json_head x Hx) as (c & s & E & Ht). exists c, s. split; [done|].
      intros ->. by destruct x as [|[]| | | | |].
    + intros x Hx. pose proof (Hv x ltac:(by apply list_elem_of_In)) as Hg. split; [done|].
      by apply (IH (depth x) (depth_arr l x Hx)).
    + intros x Hx. by apply Hy, list_elem_of_In.
  - rewrite !json_obj !string_app_assoc in Heq. apply (inj (String.append "{")) in Heq.
    unfold good in Hv, Hy.
    apply (sequence_inj member (λ kv, utf8 kv.1 = true ∧ good kv.2) (chr 125)) in Heq as [Heq ->]; try done.
    + split; [|done]. f_equal. by apply members_inj.
    + intros [k w] _. by eexists _, _.
    + intros [k w] Hk%elem_of_members. split; [by apply (proj1 (wfb_obj m) Hv)|].
      apply (member_reads m); [done|done|]. apply (IH (depth w) (depth_obj m k w Hk)); [done|].
      by apply (proj1 (wfb_obj m) Hv) in Hk as [_ ?].
    + intros [k w] Hk%elem_of_members. by apply (proj1 (wfb_obj m') Hy).
Qed.

Lemma json_inj v v' : good v → good v' → json v = json v' → v = v'.
Proof.
  intros Hv Hv' Heq. apply (value_reads v Hv v' "" ""); try done. by rewrite Heq.
Qed.

(** ** The content hash *)

Lemma hex_byte_inj : Inj (=) (=) hex_byte.
Proof.
  set (back := λ s, match s with String a (String b _) => chr (16 * unhex a + unhex b) | _ => chr 0 end).
  assert (∀ c, back (hex_byte c) = c) as Hb.
  { intros c. by destruct c as [[] [] [] [] [] [] [] []]. }
  intros c d Heq. by rewrite -(Hb c) -(Hb d) Heq.
Qed.

Lemma hex_encode_inj : Inj (=) (=) hex_encode.
Proof.
  intros l. induction l as [|c l IH]; intros [|d l'] Heq; try done.
  assert (∀ x, ∃ a b, hex_byte x = String a (String b "")) as Hx by (intros x; by eexists _, _).
  destruct (Hx c) as (a & b & Hc), (Hx d) as (a' & b' & Hd).
  change (hex_byte c +:+ hex_encode l = hex_byte d +:+ hex_encode l') in Heq.
  assert (hex_byte c = hex_byte d ∧ hex_encode l = hex_encode l') as [->%hex_byte_inj ->%IH]; [|done].
  rewrite Hc Hd in Heq |- *. injection Heq as -> -> Heq. by split.
Qed.

(** What the canonical payload keeps of a metadata map. *)
Definition clean_field (cfg : StripConfig) (o : Obj) (field : string) : Obj :=
  match o !! "metadata" with
  | Some (VObj md) => cleanRawKeys cfg (md !! field)
  | _ => ∅
  end.

(** Two objects with the same content: equal outside status and metadata, with
    the same labels and annotations left after stripping. *)
Definition same_content (cfg : StripConfig) (a b : Obj) : Prop :=
  (∀ k, k ≠ "status" → k ≠ "metadata" → a !! k = b !! k) ∧
  clean_field cfg a "labels" = clean_field cfg b "labels" ∧
  clean_field cfg a "annotations" = clean_field cfg b "annotations".

Definition reduced (cfg : StripConfig) (o : Obj) : Obj :=
  match o !! "metadata" with
  | Some (VObj md) => reduce_field cfg md "annotations" (reduce_field cfg md "labels" ∅)
  | _ => ∅
  end.

Lemma canonical_lookup cfg o k :
  canonicalPayload cfg o !! k =
    if decide (k = "status") then None
    else if decide (k = "metadata") then
      (if decide (reduced cfg o = ∅) then None else Some (VObj (reduced cfg o)))
    else o !! k.
Proof.
  unfold canonicalPayload, reduced. rewrite lookup_delete_ne //.
  set (red := match o !! "metadata" with Some (VObj _) => _ | _ => _ end). clearbody red.
  destruct (decide (k = "status")) as [->|Hs]; [|destruct (decide (k = "metadata")) as [->|Hm]].
  - case_decide; [rewrite (lookup_delete_ne _ "metadata") //|rewrite lookup_insert_ne //];
      apply lookup_delete_eq.
  - case_decide; [apply lookup_delete_eq|apply lookup_insert_eq].
  - case_decide; [rewrite (lookup_delete_ne _ "metadata"); [congruence|]|
      rewrite lookup_insert_ne; [congruence|]]; by apply lookup_delete_ne.
Qed.

Lemma reduce_field_lookup cfg md g red f :
  reduce_field cfg md g red !! f =
    if decide (f = g ∧ cleanRawKeys cfg (md !! g) ≠ ∅) then Some (VObj (cleanRawKeys cfg (md !! g)))
    else red !! f.
Proof.
  unfold reduce_field. case_decide as He; case_decide as Hf; try done.
  - by destruct Hf.
  - destruct Hf as [-> _]. apply lookup_insert_eq.
  - apply lookup_insert_ne. intros ->. by apply Hf.
Qed.

Lemma reduced_lookup cfg o f :
  reduced cfg o !! f =
    if decide ((f = "labels" ∨ f = "annotations") ∧ clean_field cfg o f ≠ ∅)
    then Some (VObj (clean_field cfg o f)) else None.
Proof.
  unfold reduced, clean_field. destruct (o !! "metadata") as [[]|].
  7: { rewrite !reduce_field_lookup lookup_empty. repeat case_decide; naive_solver. }
  all: case_decide as H; [by destruct H|apply lookup_empty].
Qed.

Lemma reduced_eq cfg a b :
  reduced cfg a = reduced cfg b ↔
  clean_field cfg a "labels" = clean_field cfg b "labels" ∧
  clean_field cfg a "annotations" = clean_field cfg b "annotations".
Proof.
  split.
  - intros Heq. assert (∀ f, f = "labels" ∨ f = "annotations" → clean_field cfg a f = clean_field cfg b f)
      as H; [|split; apply H; tauto].
    intros f Hf. pose proof (reduced_lookup cfg a f) as H. rewrite Heq reduced_lookup in H.
    destruct (decide (clean_field cfg a f = ∅)) as [Ea|Ea], (decide (clean_field cfg b f = ∅)) as [Eb|Eb];
      repeat case_decide; try congruence; tauto.
  - intros [Hl Ha]. apply map_eq. intros f. rewrite !reduced_lookup.
    repeat case_decide; naive_solver congruence.
Qed.

Lemma canonical_eq_iff cfg a b :
  canonicalPayload cfg a = canonicalPayload cfg b ↔ same_content cfg a b.
Proof.
  unfold same_content. rewrite -reduced_eq. split.
  - intros Heq. split.
    + intros k Hs Hm. pose proof (canonical_lookup cfg a k) as H.
      rewrite Heq canonical_lookup !(decide_False (P := k = "status")) // in H.
      by rewrite !decide_False in H.
    + pose proof (canonical_lookup cfg a "metadata") as H.
      rewrite Heq canonical_lookup in H. simpl in H. repeat case_decide; congruence.
  - intros [Hk Hr]. apply map_eq. intros k. rewrite !canonical_lookup Hr.
    repeat case_decide; auto.
Qed.

Lemma wfb_filter (P : string * value → Prop) `{∀ x, Decision (P x)} m :
  wfb (VObj m) = true → wfb (VObj (filter P m)) = true.
Proof.
  intros Hm. apply wfb_obj. intros k w [Hk _]%map_lookup_filter_Some. by apply (proj1 (wfb_obj m)).
Qed.

Lemma wfb_clean cfg o f : wfb (VObj o) = true → wfb (VObj (clean_field cfg o f)) = true.
Proof.
  intros Ho. unfold clean_field.
  destruct (o !! "metadata") as [w|] eqn:Em; [|done]. destruct w as [| | | | | |md]; try done.
  apply (proj1 (wfb_obj o)) in Em as [_ Hmd]; [|done]. unfold cleanRawKeys.
  destruct (md !! f) as [w|] eqn:Ef; [|done]. destruct w as [| | | | | |l]; try done.
  apply (proj1 (wfb_obj md)) in Ef as [_ Hl]; [|done]. by apply wfb_filter.
Qed.

Lemma wfb_canonical cfg o : wfb (VObj o) = true → wfb (VObj (canonicalPayload cfg o)) = true.
Proof.
  intros Ho. apply wfb_obj. intros k w. rewrite canonical_lookup.
  case_decide; [done|]. case_decide; [subst k|by apply wfb_obj].
  case_decide; [done|]. intros [= <-]. split; [done|].
  apply wfb_obj. intros f w. rewrite reduced_lookup. case_decide as Hf; [|done].
  intros [= <-]. split; [by destruct Hf as [[->| ->] _]|by apply wfb_clean].
Qed.

(** Two texts with one SHA-256 digest. *)
Definition collision (s t : string) : Prop := s ≠ t ∧ Sum256 s = Sum256 t.

(** C16. The content hash tells contents apart: two source objects get the same
    [SourceHash] exactly when they agree outside status and metadata and on the
    labels and annotations left after stripping, or when their canonical JSON
    texts are a collision of SHA-256. So nothing the engine strips changes the
    hash, and no kept field can change without changing it ([wfb] leaves out
    strings that are not UTF-8 and floats that print as integers). *)
Theorem SourceHash_tells_contents cfg (a b : Obj) :
  wfb (VObj a) = true → wfb (VObj b) = true →
  SourceHash cfg a = SourceHash cfg b ↔
  same_content cfg a b ∨
  collision (json (VObj (canonicalPayload cfg a))) (json (VObj (canonicalPayload cfg b))).
Proof.
  intros Ha Hb. rewrite -canonical_eq_iff.
  pose proof (json_inj _ _ (wfb_canonical cfg a Ha) (wfb_canonical cfg b Hb)) as Hinj.
  unfold SourceHash, collision, sha256_hex. split.
  - intros Heq%(inj (String.append "sha256:"))%hex_encode_inj.
    destruct (decide (json (VObj (canonicalPayload cfg a)) = json (VObj (canonicalPayload cfg b))))
      as [He|Hne]; [|by right].
    left. apply Hinj in He. by injection He.
  - by intros [->|[_ ->]].
Qed.

(** ** Witness *)

(** The source after the API server updated its bookkeeping and an operator
    annotated it for replication. *)
Definition ex_updated : Obj :=
  <["status" := VObj {[ "ready" := VBool true ]}]>
  (<["metadata" := VObj (<["resourceVersion" := VStr "18"]>
     (<["annotations" := VObj {[ "r8r.io/replicate" := VStr "true" ]}]> ex_metadata))]> ex_source).

Lemma SourceHash_tells_contents_witness :
  wfb (VObj ex_source) = true ∧ wfb (VObj ex_updated) = true ∧ ex_source ≠ ex_updated ∧
  SourceHash no_strip ex_source = SourceHash no_strip ex_updated.
Proof.
  split; [vm_refl|]. split; [vm_refl|]. split.
  { intros H. apply (f_equal (lookup "status")) in H. discriminate H. }
  apply (SourceHash_tells_contents no_strip ex_source ex_updated); [vm_refl|vm_refl|].
  left. apply canonical_eq_iff. vm_refl.
Defined.

(** A float prints as an integer does when it is integral; [wfb] leaves those out. *)
Example integral_float_text : json (VFloat "1") = json (VInt 1) ∧ wfb (VFloat "1") = false.
Proof. by split. Qed.
