(* ===== verification/Conflict.v ===== *)
(** [internal/engine/conflict.go]: what the engine does about an object it finds
    at a replica's name. *)
From S2P Require Import Prelude GoLib Sha256 Api Annotations Unstructured Render.

#[local] Open Scope string_scope.

(** [type ConflictAction string] *)
Inductive ConflictAction := ActionApply | ActionFail | ActionAdopt | ActionOverwrite.

#[export] Instance ConflictAction_eq : EqDecision ConflictAction.
Proof. solve_decision. Defined.

Record ConflictDecision := { Action : ConflictAction; cd_Message : string }.

Definition conflictPolicyStrength (p : string) : Z :=
  if decide (p = ConflictPolicyOverwrite) then 2%Z
  else if decide (p = ConflictPolicyAdopt) then 1%Z
  else 0%Z.

Definition normalizeConflictPolicy (p : string) : string :=
  if bool_decide (p = ConflictPolicyOverwrite) || bool_decide (p = ConflictPolicyAdopt)
  then p else ConflictPolicyFail.

(** The loop that [EffectiveConflictPolicy] and [explainConflictKeys] share. *)
Definition grant_of (allowed : list string) : string :=
  foldl (λ grant p,
    if (conflictPolicyStrength grant <? conflictPolicyStrength p)%Z then p else grant)
    ConflictPolicyFail allowed.

Definition EffectiveConflictPolicy (requested : string) (allowed : list string) : string :=
  let grant := grant_of allowed in
  if (conflictPolicyStrength requested <? conflictPolicyStrength grant)%Z
  then normalizeConflictPolicy requested
  else grant.

Definition explainConflictKeys (requested : string) (allowed : list string) : string :=
  let grant := grant_of allowed in
  let requestedAsked := (0 <? conflictPolicyStrength requested)%Z in
  let granted := (0 <? conflictPolicyStrength grant)%Z in
  if negb requestedAsked && negb granted then
    "the request does not set " +:+ KeyConflictPolicy
      +:+ " and no matching ReplicationPolicy permits more than " +:+ ConflictPolicyFail
  else if negb requestedAsked then
    "policy permits up to " +:+ grant +:+ ", but the request does not set " +:+ KeyConflictPolicy
      +:+ " (absent means " +:+ DefaultConflictPolicy +:+ ")"
  else if negb granted then
    "the request asks for " +:+ requested
      +:+ ", but no matching ReplicationPolicy permits more than " +:+ ConflictPolicyFail
  else "the request asks for " +:+ requested +:+ " and policy permits up to " +:+ grant.

Definition DecideConflict `{UnstructuredAPI} (cfg : StripConfig)
    (existing src : Obj) (sourceHash : string) (allowed : list string) : ConflictDecision :=
  let labels := GetLabels existing in
  if IsManagedReplica labels (GetUID src) then {| Action := ActionApply; cd_Message := "" |}
  else if decide (default "" (labels !! LabelManagedBy) = ManagedByValue) then
    {| Action := ActionFail;
       cd_Message :=
         "existing object is managed by k8s-r8r for a different source (source-uid "
         +:+ quote (default "" (labels !! LabelSourceUID)) +:+ "); refusing to take it over" |}
  else
    let requested := RequestedConflictPolicy (GetAnnotations src) in
    let eff := EffectiveConflictPolicy requested allowed in
    if decide (eff = ConflictPolicyOverwrite) then
      {| Action := ActionOverwrite;
         cd_Message := "taking over unmanaged object (conflict policy Overwrite)" |}
    else if decide (eff = ConflictPolicyAdopt) then
      let existingHash := SourceHash cfg existing in
      if decide (existingHash = sourceHash) then
        {| Action := ActionAdopt;
           cd_Message := "adopting unmanaged object with identical content hash" |}
      else
        {| Action := ActionFail;
           cd_Message :=
             "unmanaged object exists and its content hash " +:+ existingHash
             +:+ " does not equal the source hash " +:+ sourceHash
             +:+ " (Adopt requires identical content)" |}
    else
      {| Action := ActionFail;
         cd_Message :=
           "unmanaged object already exists at the replica's name (effective conflict policy Fail): "
           +:+ explainConflictKeys requested allowed |}.

(** ** Lemmas *)

Definition known_policies : list string :=
  [ConflictPolicyFail; ConflictPolicyAdopt; ConflictPolicyOverwrite].

Lemma strength_cases p :
  (p = ConflictPolicyOverwrite ∧ conflictPolicyStrength p = 2%Z) ∨
  (p = ConflictPolicyAdopt ∧ conflictPolicyStrength p = 1%Z) ∨
  (p ≠ ConflictPolicyOverwrite ∧ p ≠ ConflictPolicyAdopt ∧ conflictPolicyStrength p = 0%Z).
Proof. unfold conflictPolicyStrength. repeat case_decide; tauto. Qed.

(** The strongest strength in a list, the reference for [grant_of]. *)
Definition max_strength (l : list string) : Z := foldr Z.max 0%Z (map conflictPolicyStrength l).

Lemma max_strength_nonneg l : (0 ≤ max_strength l)%Z.
Proof. induction l; unfold max_strength in *; simpl; lia. Qed.

Lemma grant_of_spec l :
  conflictPolicyStrength (grant_of l) = max_strength l ∧ grant_of l ∈ known_policies.
Proof.
  unfold grant_of. assert (∀ g, g ∈ known_policies →
    let r := foldl (λ grant p, if (conflictPolicyStrength grant <? conflictPolicyStrength p)%Z
                               then p else grant) g l in
    conflictPolicyStrength r = Z.max (conflictPolicyStrength g) (max_strength l) ∧
    r ∈ known_policies) as H.
  { induction l as [|p l IH]; intros g Hg; simpl.
    - unfold max_strength. simpl. destruct (strength_cases g) as [[_ ->]|[[_ ->]|(_ & _ & ->)]]; split; done || lia.
    - destruct (Z.ltb_spec (conflictPolicyStrength g) (conflictPolicyStrength p)).
      + destruct (IH p) as [-> Hin];
          [|split; [unfold max_strength; simpl; lia|done]].
        unfold known_policies. destruct (strength_cases p) as [[-> _]|[[-> _]|(_ & _ & E)]];
          [set_solver..|]. destruct (strength_cases g) as [[_ ?]|[[_ ?]|(_ & _ & ?)]]; lia.
      + destruct (IH g Hg) as [-> Hin]. split; [unfold max_strength; simpl; lia|done]. }
  destruct (H ConflictPolicyFail) as [-> ?]; [by left|]. split; [|done].
  pose proof (max_strength_nonneg l). change (conflictPolicyStrength ConflictPolicyFail) with 0%Z. lia.
Qed.

Lemma strength_inj p q :
  p ∈ known_policies → q ∈ known_policies →
  conflictPolicyStrength p = conflictPolicyStrength q → p = q.
Proof.
  unfold known_policies. rw !elem_of_cons.
  intros [->|[->|[->|[]%elem_of_nil]]] [->|[->|[->|[]%elem_of_nil]]]; vm_compute; congruence.
Qed.

Lemma max_strength_attained l z :
  (0 < z)%Z → (z ≤ max_strength l)%Z ↔ ∃ p, p ∈ l ∧ (z ≤ conflictPolicyStrength p)%Z.
Proof.
  intros Hz. induction l as [|p l IH]; unfold max_strength in *; simpl.
  - split; [lia|intros (p & []%elem_of_nil & _)].
  - setoid_rewrite elem_of_cons. rw Z.max_le_iff IH.
    split; [intros [?|(q & ? & ?)]; eauto | intros (q & [->|?] & ?); eauto].
Qed.

Lemma Effective_spec requested allowed :
  let eff := EffectiveConflictPolicy requested allowed in
  eff ∈ known_policies ∧
  conflictPolicyStrength eff =
    Z.min (conflictPolicyStrength requested) (max_strength allowed).
Proof.
  intros eff. unfold eff, EffectiveConflictPolicy.
  destruct (grant_of_spec allowed) as [Hg Hk].
  destruct (Z.ltb_spec (conflictPolicyStrength requested)
              (conflictPolicyStrength (grant_of allowed))) as [Hlt|Hge]; [|split; [done|lia]].
  rw -Hg. unfold normalizeConflictPolicy, known_policies.
  destruct (strength_cases requested) as [[-> E]|[[-> E]|(N1 & N2 & E)]];
    [split; [set_solver|simpl; lia]..|].
  rw !bool_decide_eq_false_2 //=. split; [set_solver|].
  change (conflictPolicyStrength ConflictPolicyFail) with 0%Z. lia.
Qed.

Lemma Effective_strength requested allowed p :
  p ∈ known_policies →
  EffectiveConflictPolicy requested allowed = p ↔
  Z.min (conflictPolicyStrength requested) (max_strength allowed) = conflictPolicyStrength p.
Proof.
  intros Hp. destruct (Effective_spec requested allowed) as [H1 <-].
  split; [by intros ->|]. by apply strength_inj.
Qed.

Lemma strength_overwrite p : (2 ≤ conflictPolicyStrength p)%Z ↔ p = ConflictPolicyOverwrite.
Proof.
  destruct (strength_cases p) as [[-> E]|[[-> E]|(N1 & N2 & E)]]; rw E; split; (done || lia).
Qed.

Lemma Effective_overwrite requested allowed :
  EffectiveConflictPolicy requested allowed = ConflictPolicyOverwrite ↔
  requested = ConflictPolicyOverwrite ∧ ConflictPolicyOverwrite ∈ allowed.
Proof.
  rw Effective_strength; [unfold known_policies; set_solver|].
  change (conflictPolicyStrength ConflictPolicyOverwrite) with 2%Z.
  pose proof (max_strength_attained allowed 2 ltac:(lia)) as Hm.
  setoid_rewrite strength_overwrite in Hm. rw -(strength_overwrite requested).
  assert (conflictPolicyStrength requested ≤ 2)%Z
    by (destruct (strength_cases requested) as [[_ E]|[[_ E]|(_ & _ & E)]]; lia).
  split.
  - intros E. split; [lia|]. destruct Hm as [(p & ? & ->) _]; [lia|done].
  - intros [? ?]. assert (2 ≤ max_strength allowed)%Z by (apply Hm; eauto). lia.
Qed.

Lemma DecideConflict_spec `{UnstructuredAPI} cfg existing src h allowed :
  let d := Action (DecideConflict cfg existing src h allowed) in
  let managed := default "" (GetLabels existing !! LabelManagedBy) = ManagedByValue in
  let requested := RequestedConflictPolicy (GetAnnotations src) in
  (d = ActionApply ↔ IsManagedReplica (GetLabels existing) (GetUID src) = true) ∧
  (d = ActionOverwrite ↔ ¬ managed ∧ requested = ConflictPolicyOverwrite ∧
     ConflictPolicyOverwrite ∈ allowed) ∧
  (d = ActionAdopt ↔ ¬ managed ∧ SourceHash cfg existing = h ∧
     Z.min (conflictPolicyStrength requested) (max_strength allowed) = 1%Z).
Proof.
  intros d managed requested. unfold d, DecideConflict.
  pose proof (Effective_overwrite requested allowed) as Ho.
  pose proof (Effective_strength requested allowed ConflictPolicyAdopt
                ltac:(unfold known_policies; set_solver)) as Ha.
  change (conflictPolicyStrength ConflictPolicyAdopt) with 1%Z in Ha.
  destruct (IsManagedReplica (GetLabels existing) (GetUID src)) eqn:Em.
  { apply andb_true_iff in Em as [Hm%bool_decide_eq_true _]. simpl. naive_solver. }
  fold managed. fold requested. destruct (decide managed); [simpl; naive_solver|].
  rw -Ho -Ha. clear Ho Ha.
  generalize (EffectiveConflictPolicy requested allowed) as eff. intros eff.
  destruct (decide (eff = ConflictPolicyOverwrite)) as [->|]; simpl;
    [split_and!; [done|tauto|split; [done|by intros (_ & _ & ?)]]|].
  destruct (decide (eff = ConflictPolicyAdopt)) as [->|]; simpl;
    [|split_and!; [done|split; [done|tauto]|split; [done|tauto]]].
  case_decide; simpl; (split_and!; [done|split; [done|by intros [_ ?]]|first [tauto|split; [done|tauto]]]).
Qed.

(** The two-key turn: the effective conflict policy is always one of Fail,
    Adopt and Overwrite, and its strength is the weaker of what the request asks
    for and the strongest member of what policy permits (unknown values count as
    Fail on both sides); Overwrite in particular needs both keys. *)
Theorem EffectiveConflictPolicy_two_keys requested allowed :
  let eff := EffectiveConflictPolicy requested allowed in
  eff ∈ known_policies ∧
  conflictPolicyStrength eff =
    Z.min (conflictPolicyStrength requested) (max_strength allowed) ∧
  (eff = ConflictPolicyOverwrite ↔
     requested = ConflictPolicyOverwrite ∧ ConflictPolicyOverwrite ∈ allowed).
Proof.
  intros eff. destruct (Effective_spec requested allowed) as [H1 H2].
  split_and!; [done..|]. apply Effective_overwrite.
Qed.

(** An object the engine does not own is rewritten only under consent: it
    is applied over only if it already carries this source's marks, overwritten
    only if it is unmanaged, the request asks for Overwrite and policy permits
    it, adopted only if it is unmanaged, its content hash is the source's and
    both keys stand at Adopt; in particular an object managed for another source
    is left alone whatever the policies say. *)
Theorem DecideConflict_consent `{UnstructuredAPI} cfg existing src h allowed :
  let d := Action (DecideConflict cfg existing src h allowed) in
  let managed := default "" (GetLabels existing !! LabelManagedBy) = ManagedByValue in
  let requested := RequestedConflictPolicy (GetAnnotations src) in
  (d = ActionApply ↔ IsManagedReplica (GetLabels existing) (GetUID src) = true) ∧
  (d = ActionOverwrite ↔ ¬ managed ∧ requested = ConflictPolicyOverwrite ∧
     ConflictPolicyOverwrite ∈ allowed) ∧
  (d = ActionAdopt ↔ ¬ managed ∧ SourceHash cfg existing = h ∧
     Z.min (conflictPolicyStrength requested) (max_strength allowed) = 1%Z).
Proof. apply DecideConflict_spec. Qed.
