(* ===== verification/Backoff.v ===== *)
(** [internal/engine/backoff.go]: consecutive failures per (replication, target
    cluster) and the growing retry delay they give. *)
From S2P Require Import Prelude Api.

#[local] Open Scope Z_scope.

Record backoffKey := { bk_replication : NamespacedName; bk_cluster : string }.

#[export] Instance backoffKey_eq : EqDecision backoffKey.
Proof. solve_decision. Defined.
#[export] Instance backoffKey_countable : Countable backoffKey.
Proof.
  apply (inj_countable' (λ k, (bk_replication k, bk_cluster k))
           (λ '(a, b), Build_backoffKey a b)). by intros [].
Defined.

(** [backoffTracker]; the delays and the counters are Go [int64]s. *)
Record backoffTracker := {
  base : Z;
  max : Z;
  failures : gmap backoffKey Z;
}.

Definition newBackoffTracker (base max : Z) : backoffTracker :=
  {| base := base; max := max; failures := ∅ |}.

(** The loop of [delayLocked], [n] iterations left. *)
Fixpoint delay_loop (m : Z) (n : nat) (d : Z) : Z :=
  match n with
  | O => if m <? d then m else d
  | S n' => let d := int64 (d * 2) in if m <=? d then m else delay_loop m n' d
  end.

(** [for i := 1; i < n; i++] runs [n - 1] times. *)
Definition delayLocked (t : backoffTracker) (n : Z) : Z :=
  delay_loop (max t) (Z.to_nat (n - 1)) (base t).

Definition streak (t : backoffTracker) (k : backoffKey) : Z := default 0 (failures t !! k).

Definition Failure (replication : NamespacedName) (cluster : string)
    (t : backoffTracker) : Z * backoffTracker :=
  let k := {| bk_replication := replication; bk_cluster := cluster |} in
  let n := int64 (streak t k + 1) in
  let t' := {| base := base t; max := max t; failures := <[k := n]> (failures t) |} in
  (delayLocked t' n, t').

Definition Success (replication : NamespacedName) (cluster : string)
    (t : backoffTracker) : backoffTracker :=
  {| base := base t; max := max t;
     failures := delete {| bk_replication := replication; bk_cluster := cluster |} (failures t) |}.

Definition Forget (replication : NamespacedName) (t : backoffTracker) : backoffTracker :=
  {| base := base t; max := max t;
     failures := filter (λ kv, bk_replication kv.1 ≠ replication) (failures t) |}.

(** The tracker's calls, in the order the reconciler makes them. *)
Inductive backoff_op :=
  | OpFailure (replication : NamespacedName) (cluster : string)
  | OpSuccess (replication : NamespacedName) (cluster : string)
  | OpForget (replication : NamespacedName).

Definition step (t : backoffTracker) (op : backoff_op) : backoffTracker :=
  match op with
  | OpFailure r c => (Failure r c t).2
  | OpSuccess r c => Success r c t
  | OpForget r => Forget r t
  end.

(** The failures of [k] since its last success, or since its replication was
    last forgotten: what the map is meant to hold. *)
Fixpoint failures_since (k : backoffKey) (ops : list backoff_op) (n : Z) : Z :=
  match ops with
  | [] => n
  | OpFailure r c :: ops' =>
      failures_since k ops' (if decide (k = Build_backoffKey r c) then n + 1 else n)
  | OpSuccess r c :: ops' =>
      failures_since k ops' (if decide (k = Build_backoffKey r c) then 0 else n)
  | OpForget r :: ops' =>
      failures_since k ops' (if decide (bk_replication k = r) then 0 else n)
  end.

(** ** Lemmas *)

Lemma delay_loop_eq m n d :
  0 < d < 2 ^ 62 → m ≤ 2 ^ 62 → delay_loop m n d = Z.min m (d * 2 ^ Z.of_nat n).
Proof.
  revert d. induction n as [|n IH]; intros d Hd Hm.
  - simpl. rw Z.mul_1_r. destruct (Z.ltb_spec m d); lia.
  - cbn [delay_loop]. rw int64_id; [lia|].
    rw Nat2Z.inj_succ Z.pow_succ_r; [lia|].
    assert (0 < 2 ^ Z.of_nat n) by lia.
    destruct (Z.leb_spec m (d * 2)); [nia|].
    rw IH; [lia|done|]. f_equal. lia.
Qed.

Lemma step_streak t op k :
  (∀ j, 0 ≤ streak t j < 2 ^ 62) →
  streak (step t op) k = failures_since k [op] (streak t k).
Proof.
  intros Hb. unfold streak. destruct op as [r c|r c|r]; simpl.
  - destruct (decide (k = Build_backoffKey r c)) as [->|].
    + rw lookup_insert_eq. simpl. rw int64_id //. specialize (Hb (Build_backoffKey r c)). lia.
    + by rw lookup_insert_ne.
  - destruct (decide (k = Build_backoffKey r c)) as [->|].
    + by rw lookup_delete_eq.
    + by rw lookup_delete_ne.
  - case_decide.
    + rw map_lookup_filter_None_2 //. right. intros x _. simpl. tauto.
    + destruct (failures t !! k) as [x|] eqn:E.
      * by rw (map_lookup_filter_Some_2 _ _ _ _ E).
      * rw map_lookup_filter_None_2 //. by left.
Qed.

Lemma failures_since_bounds k ops n :
  0 ≤ n → 0 ≤ failures_since k ops n ≤ n + Z.of_nat (length ops).
Proof.
  revert n. induction ops as [|op ops IH]; intros n Hn; [simpl; lia|].
  destruct op; cbn [failures_since length]; case_decide;
    match goal with |- context [failures_since k ops ?m] => pose proof (IH m ltac:(lia)) end; lia.
Qed.

Lemma failures_since_app k ops ops' n :
  failures_since k (ops ++ ops') n = failures_since k ops' (failures_since k ops n).
Proof. revert n. induction ops as [|[] ops IH]; intros n; simpl; [done|..]; apply IH. Qed.

Lemma streak_run base max ops k :
  Z.of_nat (length ops) < 2 ^ 62 →
  streak (foldl step (newBackoffTracker base max) ops) k = failures_since k ops 0.
Proof.
  revert k. induction ops as [|op ops IH] using rev_ind; intros k; [done|].
  rw length_app foldl_app failures_since_app. simpl. intros Hlen.
  rw step_streak; [|by rw IH; [lia|]].
  intros j. rw IH; [lia|]. pose proof (failures_since_bounds j ops 0). lia.
Qed.

Lemma run_base_max base0 max0 ops :
  base (foldl step (newBackoffTracker base0 max0) ops) = base0 ∧
  max (foldl step (newBackoffTracker base0 max0) ops) = max0.
Proof.
  induction ops as [|op ops IH] using rev_ind; [done|].
  rw foldl_app. simpl. by destruct op.
Qed.

(** However failures, successes and deletions interleave, the delay a failure
    earns depends only on that (replication, cluster) pair's own consecutive
    failures: it is the base doubled once per earlier failure since the last
    success, capped at the maximum, with no overflow on the way. *)
Theorem Failure_delay base max ops r c :
  0 < base < 2 ^ 62 → 0 < max ≤ 2 ^ 62 → Z.of_nat (length ops) < 2 ^ 61 →
  (Failure r c (foldl step (newBackoffTracker base max) ops)).1 =
  Z.min max (base * 2 ^ failures_since (Build_backoffKey r c) ops 0).
Proof.
  intros Hb Hm Hlen. unfold Failure. cbn [fst]. unfold delayLocked. simpl.
  destruct (run_base_max base max ops) as [-> ->].
  pose proof (failures_since_bounds (Build_backoffKey r c) ops 0 ltac:(lia)).
  rw streak_run; [lia|]. rw int64_id; [lia|].
  rw delay_loop_eq; [lia..|]. do 3 f_equal. lia.
Qed.

Definition ex_nn : NamespacedName := {| nn_Namespace := "infra"; nn_Name := "secret-a" |}.

Lemma Failure_delay_witness :
  (0 < 5 * Second < 2 ^ 62 ∧ 0 < 5 * Minute ≤ 2 ^ 62) ∧
  (Failure ex_nn "eu-1"
     (foldl step (newBackoffTracker (5 * Second) (5 * Minute))
        [OpFailure ex_nn "eu-1"; OpFailure ex_nn "us-1"; OpFailure ex_nn "eu-1"])).1
  = Z.min (5 * Minute) (5 * Second * 2 ^ 2).
Proof.
  split; [vm_compute; intuition congruence|].
  apply (Failure_delay (5 * Second) (5 * Minute)); vm_compute; intuition congruence.
Defined.
