(* ===== verification/Inventory.v ===== *)
(** [internal/engine/inventory.go]: replica slots, the garbage-collection plan,
    and the in-place operations on the inventory slice. A Go slice is its backing
    array and its length ([Slice]), because [rep.Status.Inventory] and the slice
    the reconciler edits share an array after the planned entries are persisted. *)
From S2P Require Import Prelude Api.


Record SlotKey := {
  sk_Cluster : string;
  sk_Namespace : string;
  sk_Name : string;
  sk_Group : string;
  sk_Kind : string;
}.

#[export] Instance SlotKey_eq : EqDecision SlotKey.
Proof. solve_decision. Defined.
#[export] Instance SlotKey_countable : Countable SlotKey.
Proof.
  apply (inj_countable' (λ k, (sk_Cluster k, sk_Namespace k, sk_Name k, sk_Group k, sk_Kind k))
           (λ '(a, b, c, d, e), Build_SlotKey a b c d e)). by intros [].
Defined.

Definition KeyForEntry (e : InventoryEntry) : SlotKey :=
  {| sk_Cluster := ie_ClusterName e; sk_Namespace := ie_Namespace e; sk_Name := ie_Name e;
     sk_Group := ie_Group e; sk_Kind := ie_Kind e |}.

Record GCPlan := { Delete : list InventoryEntry; Release : list InventoryEntry }.

(** One iteration of the loop of [PlanGC]. *)
Definition plan_step (keep : gset SlotKey) (clusterGone : string → bool)
    (plan : GCPlan) (e : InventoryEntry) : GCPlan :=
  if decide (KeyForEntry e ∈ keep) then plan
  else if clusterGone (ie_ClusterName e) then
    {| Delete := Delete plan; Release := Release plan ++ [e] |}
  else
    {| Delete := Delete plan ++ [e]; Release := Release plan |}.

Definition PlanGC (inventory : list InventoryEntry) (keep : gset SlotKey)
    (clusterGone : string → bool) : GCPlan :=
  foldl (plan_step keep clusterGone) {| Delete := []; Release := [] |} inventory.

(** ** Slices *)

Record Slice := { arr : list InventoryEntry; len : nat }.

Definition view (s : Slice) : list InventoryEntry := take (len s) (arr s).

Definition wf_slice (s : Slice) : Prop := (len s ≤ length (arr s))%nat.

(** A fresh slice with its own array: [append([]T(nil), l...)]. *)
Definition fresh (l : list InventoryEntry) : Slice := {| arr := l; len := length l |}.

(** [append]: into the array when it has an element past the length. *)
Definition append (s : Slice) (e : InventoryEntry) : Slice :=
  {| arr := take (len s) (arr s) ++ e :: drop (S (len s)) (arr s); len := S (len s) |}.

Definition with_hash (e : InventoryEntry) (h : string) : InventoryEntry :=
  {| ie_ClusterName := ie_ClusterName e; ie_Namespace := ie_Namespace e; ie_Name := ie_Name e;
     ie_Group := ie_Group e; ie_Kind := ie_Kind e; LastAppliedHash := h |}.

(** [for i := range inv]: the first index with the key. *)
Definition index_of (l : list InventoryEntry) (key : SlotKey) : option nat :=
  fst <$> list_find (λ e, KeyForEntry e = key) l.

Definition upsertEntry (inv : Slice) (entry : InventoryEntry) : Slice :=
  match index_of (view inv) (KeyForEntry entry) with
  | Some i =>
      {| arr := alter (λ e, with_hash e (LastAppliedHash entry)) i (arr inv); len := len inv |}
  | None => append inv entry
  end.

(** [out := inv[:0]] and the loop that appends the survivors to it: each append
    writes into the array of [inv], at or before the index being read. *)
Definition removeEntry (inv : Slice) (key : SlotKey) : Slice :=
  foldl (λ out i,
      match arr out !! i with
      | Some e => if decide (KeyForEntry e = key) then out else append out e
      | None => out
      end)
    {| arr := arr inv; len := 0 |} (seq 0 (len inv)).

Definition entriesInNamespace (inv : list InventoryEntry) (cluster namespace : string)
    : list InventoryEntry :=
  filter (λ e, ie_ClusterName e = cluster ∧ ie_Namespace e = namespace) inv.

Definition hasEntry (inv : list InventoryEntry) (key : SlotKey) : bool :=
  existsb (λ e, bool_decide (KeyForEntry e = key)) inv.

(** ** Lemmas *)

Lemma view_fresh l : view (fresh l) = l.
Proof. apply firstn_all. Qed.

Lemma wf_fresh l : wf_slice (fresh l).
Proof. unfold wf_slice. simpl. lia. Qed.

Lemma view_append s e : wf_slice s → view (append s e) = view s ++ [e].
Proof.
  unfold wf_slice, view. intros H. simpl.
  rw take_app_ge; [rewrite length_take; lia|]. rw length_take.
  rw Nat.min_l //. by replace (S (len s) - len s)%nat with 1%nat by lia.
Qed.

Lemma wf_append s e : wf_slice s → wf_slice (append s e).
Proof. unfold wf_slice. intros H. simpl. rw length_app length_take /= length_drop. lia. Qed.

Lemma with_hash_key e h : KeyForEntry (with_hash e h) = KeyForEntry e.
Proof. done. Qed.

Lemma hasEntry_true l k : hasEntry l k = true ↔ ∃ e, e ∈ l ∧ KeyForEntry e = k.
Proof.
  unfold hasEntry. rw existsb_exists. setoid_rewrite list_elem_of_In.
  by setoid_rewrite bool_decide_eq_true.
Qed.

Lemma index_of_Some l k i :
  index_of l k = Some i → ∃ e, l !! i = Some e ∧ KeyForEntry e = k.
Proof.
  unfold index_of. destruct (list_find _ l) as [[j e]|] eqn:E; [|done].
  intros [= <-]. apply list_find_Some in E as (? & ? & _). eauto.
Qed.

Lemma index_of_None l k : index_of l k = None ↔ hasEntry l k = false.
Proof.
  unfold index_of. rw -not_true_iff_false hasEntry_true fmap_None list_find_None Forall_forall.
  naive_solver.
Qed.

(** What [upsertEntry] does to the entries of the slice. *)
Definition upsert (l : list InventoryEntry) (entry : InventoryEntry) : list InventoryEntry :=
  match index_of l (KeyForEntry entry) with
  | Some i => alter (λ e, with_hash e (LastAppliedHash entry)) i l
  | None => l ++ [entry]
  end.

Lemma view_upsertEntry s e : wf_slice s → view (upsertEntry s e) = upsert (view s) e.
Proof.
  intros H. unfold upsertEntry, upsert. destruct (index_of _ _) as [i|] eqn:E.
  - apply index_of_Some in E as (e0 & Hi & _). unfold view. simpl.
    apply list_eq. intros j. destruct (decide (j < len s)%nat) as [Hj|Hj].
    + rw lookup_take. rw decide_True //. destruct (decide (i = j)) as [->|].
      * rw !list_lookup_alter lookup_take. by rw (decide_True (P := (j < len s)%nat)).
      * rw !list_lookup_alter_ne // lookup_take. by rw (decide_True (P := (j < len s)%nat)).
    + rw !lookup_ge_None_2 //; rewrite ?length_alter length_take; lia.
  - by apply view_append.
Qed.

Lemma wf_upsertEntry s e : wf_slice s → wf_slice (upsertEntry s e).
Proof.
  intros H. unfold upsertEntry. case_match; [|by apply wf_append].
  unfold wf_slice in *. simpl. by rw length_alter.
Qed.

Section remove.
Context (key : SlotKey).

Definition keep_entry (e : InventoryEntry) : Prop := KeyForEntry e ≠ key.

Definition remove_body (out : Slice) (i : nat) : Slice :=
  match arr out !! i with
  | Some e => if decide (KeyForEntry e = key) then out else append out e
  | None => out
  end.

(** The loop after [i] iterations over the array [a]. *)
Lemma remove_loop a i :
  (i ≤ length a)%nat →
  let out := foldl remove_body {| arr := a; len := 0 |} (seq 0 i) in
  view out = filter keep_entry (take i a) ∧ (len out ≤ i)%nat ∧
  length (arr out) = length a ∧ drop i (arr out) = drop i a.
Proof.
  induction i as [|i IH]; intros Hi; [by rw /= take_0|].
  rw seq_S foldl_app. simpl. destruct IH as (Hv & Hl & Hlen & Hd); [lia|].
  set (out := foldl _ _ _) in *. unfold remove_body.
  destruct (lookup_lt_is_Some_2 a i) as [e He]; [lia|].
  assert (arr out !! i = Some e) as He'.
  { rw -He -(Nat.add_0_r i) -!lookup_drop. by rw Hd. }
  rw He' (take_S_r _ _ _ He) filter_app. 
  assert (filter keep_entry [e] = if decide (KeyForEntry e = key) then [] else [e]) as ->.
  { unfold keep_entry. rw filter_cons filter_nil. repeat case_decide; tauto. }
  assert (∀ l : list InventoryEntry, drop (S i) l = drop 1 (drop i l)) as Hds
    by (intros l; rw drop_drop; f_equal; lia).
  case_decide.
  - rw app_nil_r. split_and!; [done|lia|done|]. by rw !Hds Hd.
  - split_and!.
    + rw view_append ?Hv //. unfold wf_slice. lia.
    + simpl. lia.
    + simpl. rw length_app length_take /= length_drop. lia.
    + simpl. rw drop_app_ge; [rewrite length_take; lia|]. rw length_take.
      replace (S i - len out `min` length (arr out))%nat with (S (i - len out)) by lia.
      simpl. rw drop_drop. replace (S (len out) + (i - len out))%nat with (S i) by lia.
      by rw !Hds Hd.
Qed.
End remove.

Lemma view_removeEntry s k :
  wf_slice s → view (removeEntry s k) = filter (keep_entry k) (view s).
Proof. intros H. by destruct (remove_loop k (arr s) (len s) H) as (? & _). Qed.

Lemma wf_removeEntry s k : wf_slice s → wf_slice (removeEntry s k).
Proof.
  intros H. destruct (remove_loop k (arr s) (len s) H) as (_ & Hl & Ha & _).
  unfold wf_slice in *. change (removeEntry s k) with (foldl (remove_body k) {| arr := arr s; len := 0 |} (seq 0 (len s))).
  lia.
Qed.

Lemma elem_of_remove (l : list InventoryEntry) k e :
  e ∈ filter (keep_entry k) l ↔ e ∈ l ∧ KeyForEntry e ≠ k.
Proof. rw list_elem_of_filter. unfold keep_entry. tauto. Qed.

Lemma PlanGC_filter inv keep gone :
  Delete (PlanGC inv keep gone) =
    filter (λ e, KeyForEntry e ∉ keep ∧ gone (ie_ClusterName e) = false) inv ∧
  Release (PlanGC inv keep gone) =
    filter (λ e, KeyForEntry e ∉ keep ∧ gone (ie_ClusterName e) = true) inv.
Proof.
  unfold PlanGC. induction inv as [|e inv [IH1 IH2]] using rev_ind; [done|].
  rw foldl_app !filter_app. simpl. set (p := foldl _ _ inv) in *.
  unfold plan_step. rw -IH1 -IH2 !filter_cons !filter_nil.
  destruct (decide (KeyForEntry e ∈ keep)); [|destruct (gone (ie_ClusterName e)) eqn:Eg];
    simpl; repeat case_decide; rw ?app_nil_r; try done; naive_solver.
Qed.

(** The keys of the slots an inventory tracks. *)
Definition tracked (inv : list InventoryEntry) : gset SlotKey := list_to_set (map KeyForEntry inv).

Lemma elem_of_tracked inv k : k ∈ tracked inv ↔ hasEntry inv k = true.
Proof.
  unfold tracked. rw elem_of_list_to_set elem_of_map hasEntry_true. naive_solver.
Qed.

Lemma upsert_keys l e :
  map KeyForEntry (upsert l e) =
  if hasEntry l (KeyForEntry e) then map KeyForEntry l else map KeyForEntry l ++ [KeyForEntry e].
Proof.
  unfold upsert. destruct (index_of l (KeyForEntry e)) as [i|] eqn:E.
  - assert (hasEntry l (KeyForEntry e) = true) as ->.
    { apply not_false_iff_true. intros Hf%index_of_None. congruence. }
    clear E. revert i. induction l as [|e0 l IH]; intros [|i]; simpl; try done.
    f_equal. apply IH.
  - apply index_of_None in E as ->. by rw map_app.
Qed.

Lemma tracked_upsert l e : tracked (upsert l e) = tracked l ∪ {[ KeyForEntry e ]}.
Proof.
  apply set_eq. intros k. rw elem_of_union elem_of_singleton. unfold tracked.
  rw !elem_of_list_to_set upsert_keys. destruct (hasEntry l (KeyForEntry e)) eqn:E.
  - split; [tauto|]. intros [?| ->]; [done|].
    apply elem_of_map. apply hasEntry_true in E. destruct E as (e0 & ? & ?); by exists e0.
  - rw elem_of_app list_elem_of_singleton. tauto.
Qed.

Lemma tracked_remove (l : list InventoryEntry) k : tracked (filter (keep_entry k) l) = tracked l ∖ {[ k ]}.
Proof.
  apply set_eq. intros j. rw elem_of_difference elem_of_singleton !elem_of_tracked !hasEntry_true.
  setoid_rewrite elem_of_remove. naive_solver.
Qed.

(** ** Correctness *)

(** The garbage-collection plan loses nothing: the plan together with the
    kept entries is a permutation of the inventory; an entry is deleted exactly
    when it is not kept and its cluster is still discovered, and released exactly
    when it is not kept and its cluster is gone. *)
Theorem PlanGC_partition inv keep gone :
  let plan := PlanGC inv keep gone in
  inv ≡ₚ filter (λ e, KeyForEntry e ∈ keep) inv ++ Delete plan ++ Release plan ∧
  (∀ e, e ∈ Delete plan ↔ e ∈ inv ∧ (KeyForEntry e ∉ keep) ∧ gone (ie_ClusterName e) = false) ∧
  (∀ e, e ∈ Release plan ↔ e ∈ inv ∧ (KeyForEntry e ∉ keep) ∧ gone (ie_ClusterName e) = true).
Proof.
  intros plan. unfold plan. destruct (PlanGC_filter inv keep gone) as [-> ->].
  split_and!; [|intros e; rw list_elem_of_filter; tauto..].
  induction inv as [|e inv IH]; [done|].
  destruct (decide (KeyForEntry e ∈ keep)) as [Hk|Hk].
  { rw filter_cons_True // !filter_cons_False; [tauto..|]. simpl. by apply perm_skip. }
  rw filter_cons_False //. destruct (gone (ie_ClusterName e)) eqn:Eg.
  - rw filter_cons_False; [intros [_ ?]; congruence|]. rw filter_cons_True //.
    rw {1}IH. by solve_Permutation.
  - rw filter_cons_True // filter_cons_False; [intros [_ ?]; congruence|].
    rw {1}IH. by solve_Permutation.
Qed.

(** C33. The in-place slice operations implement the list operations they stand
    for, whatever else shares the array: removing drops exactly the entries with
    the key and keeps the others in order, upserting refreshes the hash of the
    first entry with the key or adds the entry at the end, and the set of tracked
    slots loses or gains exactly that key. *)
Theorem slice_operations s k e :
  wf_slice s →
  (wf_slice (removeEntry s k) ∧ view (removeEntry s k) = filter (keep_entry k) (view s) ∧
   tracked (view (removeEntry s k)) = tracked (view s) ∖ {[ k ]}) ∧
  (wf_slice (upsertEntry s e) ∧ view (upsertEntry s e) = upsert (view s) e ∧
   tracked (view (upsertEntry s e)) = tracked (view s) ∪ {[ KeyForEntry e ]}).
Proof.
  intros H. rw view_removeEntry // view_upsertEntry // tracked_remove tracked_upsert.
  split_and!; by [apply wf_removeEntry|apply wf_upsertEntry|].
Qed.

Definition ex_entry (c h : string) : InventoryEntry :=
  {| ie_ClusterName := c; ie_Namespace := "team-a"; ie_Name := "pull-secret"; ie_Group := "";
     ie_Kind := "Secret"; LastAppliedHash := h |}.

Lemma slice_operations_witness :
  wf_slice (fresh [ex_entry "eu-1" "h1"; ex_entry "us-1" "h1"]) ∧
  view (removeEntry (fresh [ex_entry "eu-1" "h1"; ex_entry "us-1" "h1"])
          (KeyForEntry (ex_entry "eu-1" ""))) =
  filter (keep_entry (KeyForEntry (ex_entry "eu-1" "")))
    (view (fresh [ex_entry "eu-1" "h1"; ex_entry "us-1" "h1"])).
Proof.
  split; [apply (bool_decide_unpack _); vm_compute; exact I|].
  apply (slice_operations (fresh [ex_entry "eu-1" "h1"; ex_entry "us-1" "h1"])
           (KeyForEntry (ex_entry "eu-1" "")) (ex_entry "eu-1" "h2")).
  apply (bool_decide_unpack _); vm_compute; exact I.
Defined.

(** The alias of the old slice header sees the survivors shifted down over it. *)
Example removeEntry_alias :
  arr (removeEntry (fresh [ex_entry "eu-1" "h1"; ex_entry "us-1" "h1"])
         (KeyForEntry (ex_entry "eu-1" ""))) =
  [ex_entry "us-1" "h1"; ex_entry "us-1" "h1"].
Proof. vm_refl. Qed.
