(* ===== verification/Status.v ===== *)
(** [internal/engine/status.go]: the status a reconcile writes, from the state of
    each replica slot. *)
From S2P Require Import Prelude GoLib Api Inventory.

#[local] Open Scope string_scope.

Definition ReasonNamespaceMissing : string := "NamespaceMissing".
Definition ReasonClusterUnreachable : string := "ClusterUnreachable".
Definition ReasonApplyFailed : string := "ApplyFailed".
Definition ReasonSourceMissing : string := "SourceMissing".
Definition ReasonAllTargetsReady : string := "AllTargetsReady".
Definition ConditionPolicyRevoked : string := "PolicyRevoked".
Definition maxNonReadyTargets : nat := 20.
Arguments maxNonReadyTargets : simpl never.

Record targetState := {
  ts_Cluster : string;
  ts_Namespace : string;
  ts_Name : string;
  ts_Ready : bool;
  ts_Desired : bool;
  ts_Reason : string;
  ts_Message : string;
}.

Definition reasonPriority : list string :=
  [ReasonConflict; ReasonPolicyRevoked; ReasonPolicyDenied; ReasonNamespaceMissing;
   ReasonClusterUnreachable; ReasonApplyFailed; ReasonSourceMissing].

(** [present[r]] for some not-ready state. *)
Definition reason_present (states : list targetState) (r : string) : bool :=
  existsb (λ s, negb (ts_Ready s) && bool_decide (ts_Reason s = r)) states.

Definition dominantReason (states : list targetState) (fallback : string) : string :=
  match List.find (reason_present states) reasonPriority with
  | Some r => r
  | None => if decide (fallback = "") then ReasonApplyFailed else fallback
  end.

(** [SlotKey{Cluster, Namespace, Name}]: group and kind left empty. *)
Definition state_key (c ns n : string) : SlotKey :=
  {| sk_Cluster := c; sk_Namespace := ns; sk_Name := n; sk_Group := ""; sk_Kind := "" |}.

(** The zero [metav1.Time]. *)
Definition ZeroTime : Z := (-62135596800)%Z.

(** [prevReasons] and [prevTransitions]: filled in order, later entries win. *)
Definition prev_targets (l : list NonReadyTarget) : gmap SlotKey (string * Z) :=
  foldl (λ m t, <[state_key (nr_ClusterName t) (nr_Namespace t) (nr_Name t) :=
                   (nr_Reason t, nr_LastTransitionTime t)]> m) ∅ l.

(** The loop variables of [buildStatus]. *)
Record tally := {
  t_desired : Z;
  t_ready : Z;
  t_failed : Z;
  t_nonReady : list NonReadyTarget;
  t_overflow : Z;
  t_firstReason : string;
}.

Definition status_entry (prev : gmap SlotKey (string * Z)) (now : Z) (s : targetState)
    : NonReadyTarget :=
  let p := prev !! state_key (ts_Cluster s) (ts_Namespace s) (ts_Name s) in
  {| nr_ClusterName := ts_Cluster s; nr_Namespace := ts_Namespace s; nr_Name := ts_Name s;
     nr_Reason := ts_Reason s; nr_Message := ts_Message s;
     nr_LastTransitionTime :=
       if decide (default "" (fst <$> p) = ts_Reason s)
       then default ZeroTime (snd <$> p) else now |}.

Definition tally_step (prev : gmap SlotKey (string * Z)) (now : Z) (t : tally) (s : targetState)
    : tally :=
  let desired := if ts_Desired s then int32 (t_desired t + 1) else t_desired t in
  if ts_Ready s then
    {| t_desired := desired; t_ready := int32 (t_ready t + 1); t_failed := t_failed t;
       t_nonReady := t_nonReady t; t_overflow := t_overflow t;
       t_firstReason := t_firstReason t |}
  else
    let room := (length (t_nonReady t) <? maxNonReadyTargets)%nat in
    {| t_desired := desired; t_ready := t_ready t; t_failed := int32 (t_failed t + 1);
       t_nonReady := if room then (t_nonReady t ++ [status_entry prev now s])%list
                     else t_nonReady t;
       t_overflow := if room then t_overflow t else int32 (t_overflow t + 1);
       t_firstReason := if decide (t_firstReason t = "") then ts_Reason s
                        else t_firstReason t |}.

Definition tally0 : tally :=
  {| t_desired := 0; t_ready := 0; t_failed := 0; t_nonReady := []; t_overflow := 0;
     t_firstReason := "" |}.

Definition tally_states (prev : list NonReadyTarget) (now : Z) (states : list targetState) : tally :=
  foldl (tally_step (prev_targets prev) now) tally0 states.

(** The Ready condition; [SetStatusCondition] stamps the time. *)
Definition ready_condition (rep : Replication) (states : list targetState) (t : tally) : Condition :=
  let cond status reason message :=
    {| c_Type := ReplicationConditionReady; c_Status := status;
       c_ObservedGeneration := rep_Generation rep; c_LastTransitionTime := ZeroTime;
       c_Reason := reason; c_Message := message |} in
  if bool_decide (t_failed t = 0%Z) && bool_decide (t_desired t = 0%Z)
     && bool_decide (rep_DeletionTimestamp rep = None) then
    cond ConditionFalse ReasonNoTargets "no targets resolved; nothing is being replicated"
  else if bool_decide (t_failed t = 0%Z) then
    cond ConditionTrue ReasonAllTargetsReady
      (dec (t_ready t) +:+ "/" +:+ dec (t_desired t) +:+ " targets ready")
  else
    cond ConditionFalse (dominantReason states (t_firstReason t))
      (dec (t_ready t) +:+ "/" +:+ dec (t_desired t) +:+ " targets ready, "
       +:+ dec (t_failed t) +:+ " not ready").

Definition revoked_condition (rep : Replication) : Condition :=
  {| c_Type := ConditionPolicyRevoked; c_Status := ConditionTrue;
     c_ObservedGeneration := rep_Generation rep; c_LastTransitionTime := ZeroTime;
     c_Reason := ReasonPolicyRevoked;
     c_Message := "policy no longer permits one or more targets; existing replicas are retained but no longer updated" |}.

Definition buildStatus `{MetaAPI} (rep : Replication) (sourceHash : string)
    (states : list targetState) (inventory : list InventoryEntry) (revokedRetained : bool)
    (now : Z) : ReplicationStatus :=
  let prev := rep_Status rep in
  let t := tally_states (NonReadyTargets prev) now states in
  let cs := (SetStatusCondition now (Conditions prev) (ready_condition rep states t)).1 in
  let cs := if revokedRetained
            then (SetStatusCondition now cs (revoked_condition rep)).1
            else (RemoveStatusCondition cs ConditionPolicyRevoked).1 in
  {| Summary := {| DesiredTargets := t_desired t; ReadyTargets := t_ready t;
                   FailedTargets := t_failed t |};
     SourceHash_ := sourceHash;
     Conditions := cs;
     NonReadyTargets := t_nonReady t;
     NonReadyOverflow := t_overflow t;
     Inventory_ := inventory |}.

(** ** Lemmas *)

Definition not_ready (s : targetState) : bool := negb (ts_Ready s).

Definition count (f : targetState → bool) (l : list targetState) : Z :=
  Z.of_nat (length (List.filter f l)).

Lemma count_snoc f l s :
  count f (l ++ [s])%list = (count f l + if f s then 1 else 0)%Z.
Proof. unfold count. rw List.filter_app length_app /=. destruct (f s); simpl; lia. Qed.

Lemma count_le f l : (0 ≤ count f l ≤ Z.of_nat (length l))%Z.
Proof. unfold count. pose proof (List.filter_length_le f l). lia. Qed.

Lemma ready_count l : (count ts_Ready l + count not_ready l = Z.of_nat (length l))%Z.
Proof.
  unfold count, not_ready. pose proof (List.filter_length ts_Ready l). lia.
Qed.

Lemma count_exists f l : count f l ≠ 0%Z ↔ ∃ s, s ∈ l ∧ f s = true.
Proof.
  induction l as [|s l IH] using rev_ind; [unfold count; set_solver|].
  rw count_snoc exists_snoc -IH. pose proof (count_le f l). destruct (f s); naive_solver lia.
Qed.

Lemma take_snoc {A} n (l : list A) x :
  take n (l ++ [x])%list = (if (length l <? n)%nat then l ++ [x] else take n l)%list.
Proof.
  case_match eqn:E; [apply Nat.ltb_lt in E|apply Nat.ltb_ge in E].
  - apply take_ge. rw length_app /=. lia.
  - by apply take_app_le.
Qed.

Lemma tally_spec prev now states :
  (Z.of_nat (length states) < 2 ^ 31)%Z →
  let t := tally_states prev now states in
  t_desired t = count ts_Desired states ∧
  t_ready t = count ts_Ready states ∧
  t_failed t = count not_ready states ∧
  t_nonReady t = map (status_entry (prev_targets prev) now)
                   (take maxNonReadyTargets (List.filter not_ready states)) ∧
  t_overflow t = Z.max 0 (count not_ready states - Z.of_nat maxNonReadyTargets).
Proof.
  induction states as [|s l IH] using rev_ind; [done|]. rw length_app. simpl. intros Hlen.
  destruct IH as (Hd & Hr & Hf & Hn & Ho); [lia|].
  pose proof (count_le ts_Desired l). pose proof (count_le ts_Ready l).
  pose proof (count_le not_ready l).
  unfold tally_states in *. rw foldl_app. cbn [foldl]. set (t := foldl _ _ l) in *.
  rw !count_snoc List.filter_app. cbn [List.filter].
  assert (not_ready s = negb (ts_Ready s)) as -> by done. unfold tally_step.
  destruct (ts_Ready s); cbn [negb].
  { rw app_nil_r. destruct (ts_Desired s); split_and!; cbn -[Z.max Z.mul]; rw ?int32_id; (lia || done). }
  assert (length (t_nonReady t) <? maxNonReadyTargets =
          (length (List.filter not_ready l) <? maxNonReadyTargets))%nat as ->.
  { rw Hn length_map length_take. apply eq_true_iff_eq. rw !Nat.ltb_lt. lia. }
  rw take_snoc. unfold count in *.
  destruct (Nat.ltb_spec (length (List.filter not_ready l)) maxNonReadyTargets).
  - rw take_ge in Hn; [lia|]. rw map_app -Hn.
    destruct (ts_Desired s); split_and!; cbn -[Z.max Z.mul]; rw ?int32_id; (lia || done).
  - destruct (ts_Desired s); split_and!; cbn -[Z.max Z.mul]; rw ?int32_id; (lia || done).
Qed.

Definition nr_key (t : NonReadyTarget) : SlotKey :=
  state_key (nr_ClusterName t) (nr_Namespace t) (nr_Name t).

Lemma prev_targets_lookup l t :
  NoDup (map nr_key l) → t ∈ l →
  prev_targets l !! nr_key t = Some (nr_Reason t, nr_LastTransitionTime t).
Proof.
  unfold prev_targets. induction l as [|u l IH] using rev_ind; [set_solver|].
  rw map_app foldl_app. cbn [foldl map]. intros [Hnd [Hu _]]%NoDup_app Hin.
  apply elem_of_app in Hin as [Hin| ->%list_elem_of_singleton].
  - rw lookup_insert_ne; [|by apply IH].
    intros E. apply (Hu (nr_key t)); [apply elem_of_map; by exists t|].
    apply list_elem_of_singleton. by rw -E.
  - by rw lookup_insert_eq.
Qed.

Lemma dominantReason_spec states fb :
  (∃ s, s ∈ states ∧ ts_Ready s = false ∧ ts_Reason s ∈ reasonPriority) →
  ∃ i s, reasonPriority !! i = Some (dominantReason states fb) ∧
    s ∈ states ∧ ts_Ready s = false ∧ ts_Reason s = dominantReason states fb ∧
    ∀ j r s', (j < i)%nat → reasonPriority !! j = Some r →
      s' ∈ states → ts_Ready s' = false → ts_Reason s' ≠ r.
Proof.
  assert (∀ r, reason_present states r = true ↔
    ∃ s, s ∈ states ∧ ts_Ready s = false ∧ ts_Reason s = r) as Hp.
  { intros r. unfold reason_present. rw existsb_exists. setoid_rewrite list_elem_of_In.
    setoid_rewrite andb_true_iff. setoid_rewrite negb_true_iff.
    by setoid_rewrite bool_decide_eq_true. }
  intros (s & Hs & Hr & Hin). unfold dominantReason.
  assert (is_Some (List.find (reason_present states) reasonPriority)) as [r Er].
  { destruct (List.find _ _) eqn:E; [by eexists|].
    eapply List.find_none in E; [|by apply list_elem_of_In]. exfalso.
    rw (_ : reason_present states (ts_Reason s) = true) // in E. apply Hp. by exists s. }
  rw Er. clear Hin Hs Hr s. revert Er. generalize reasonPriority as rs.
  intros rs. induction rs as [|r0 rs IH]; [done|]. simpl.
  destruct (reason_present states r0) eqn:E0.
  - intros [= ->]. apply Hp in E0 as (s & ? & ? & ?). exists 0%nat, s. split_and!; try done. lia.
  - intros Er. destruct (IH Er) as (i & s & Hi & Hs & Hrd & Hrr & Hmin).
    exists (S i), s. split_and!; [done..|]. intros [|j] r1 s' Hj Hjr Hs' Hrd' Heq.
    + simpl in Hjr. simplify_eq. rw (_ : reason_present states (ts_Reason s') = true) // in E0.
      apply Hp. by exists s'.
    + eapply (Hmin j); [lia|done..].
Qed.

Lemma ready_type rep states t : c_Type (ready_condition rep states t) = ReplicationConditionReady.
Proof. unfold ready_condition. by repeat case_match. Qed.

(** ** Correctness *)

Section correctness.
Context `{ML : MetaLaws}.

(** The slot states the status reports in detail. *)
Definition reported (states : list targetState) : list targetState :=
  take maxNonReadyTargets (List.filter not_ready states).

(** The distinct slots among the states that [f] selects. *)
Definition slot_of (s : targetState) : SlotKey := state_key (ts_Cluster s) (ts_Namespace s) (ts_Name s).

Definition slots_with (f : targetState → bool) (states : list targetState) : gset SlotKey :=
  list_to_set (map slot_of (List.filter f states)).

Lemma size_le_length `{Countable K} (l : list K) :
  (size (list_to_set l : gset K) ≤ length l)%nat ∧
  (size (list_to_set l : gset K) = length l ↔ NoDup l).
Proof.
  induction l as [|k l [IH1 IH2]]; [by rw NoDup_nil|]. simpl.
  destruct (decide (k ∈ l)) as [Hk|Hk].
  - rw subseteq_union_1_L; [by apply singleton_subseteq_l, elem_of_list_to_set|].
    rw NoDup_cons. split; [lia|]. split; [lia|by intros []].
  - rw size_union; [by apply disjoint_singleton_l; rw elem_of_list_to_set|].
    rw size_singleton NoDup_cons -IH2. split; [lia|]. split; [split; [done|lia]|intros []; lia].
Qed.

Lemma count_slots f states :
  (Z.of_nat (size (slots_with f states)) ≤ count f states)%Z ∧
  (count f states = Z.of_nat (size (slots_with f states)) ↔
   NoDup (map slot_of (List.filter f states))).
Proof.
  unfold count, slots_with.
  destruct (size_le_length (map slot_of (List.filter f states))) as [H1 H2].
  rw length_map in H1 H2. rw -H2. lia.
Qed.

(** C34. What the status shows of the slot states it is built from. The summary
    counts the states: the desired, the ready and the failed ones, each state either
    ready or failed; a count is at least the number of distinct slots with such a
    state, and is that number exactly when no slot has two. The detail list is the
    first twenty failed states in order, and what it leaves out is the overflow: no
    failed state is hidden. *)
Theorem buildStatus_summary rep h states inv rr now :
  (Z.of_nat (length states) < 2 ^ 31)%Z →
  let st := buildStatus rep h states inv rr now in
  DesiredTargets (Summary st) = count ts_Desired states ∧
  ReadyTargets (Summary st) = count ts_Ready states ∧
  FailedTargets (Summary st) = count not_ready states ∧
  (ReadyTargets (Summary st) + FailedTargets (Summary st) = Z.of_nat (length states))%Z ∧
  (∀ n f, (n, f) ∈ [(DesiredTargets (Summary st), ts_Desired); (ReadyTargets (Summary st), ts_Ready);
                    (FailedTargets (Summary st), not_ready)] →
     (Z.of_nat (size (slots_with f states)) ≤ n)%Z ∧
     (n = Z.of_nat (size (slots_with f states)) ↔ NoDup (map slot_of (List.filter f states)))) ∧
  map (λ t, (nr_ClusterName t, nr_Namespace t, nr_Name t, nr_Reason t, nr_Message t))
    (NonReadyTargets st) =
  map (λ s, (ts_Cluster s, ts_Namespace s, ts_Name s, ts_Reason s, ts_Message s))
    (reported states) ∧
  (Z.of_nat (length (NonReadyTargets st)) + NonReadyOverflow st = FailedTargets (Summary st))%Z ∧
  Inventory_ st = inv ∧ SourceHash_ st = h.
Proof.
  intros Hlen st.
  destruct (tally_spec (NonReadyTargets (rep_Status rep)) now states Hlen)
    as (Hd & Hr & Hf & Hn & Ho).
  unfold st, buildStatus. simpl. rw Hd Hr Hf Hn Ho. split_and!; try done.
  - apply ready_count.
  - intros n f Hin. assert (n = count f states) as ->; [|apply count_slots].
    repeat (apply elem_of_cons in Hin as [[= -> ->]|Hin]; [done|]). by apply elem_of_nil in Hin.
  - by rw map_map.
  - rw length_map length_take. unfold count. lia.
Qed.

(** The Ready verdict: after [buildStatus] the Ready condition is True exactly
    when no slot failed and either some slot is desired or the object is being
    deleted; with no failure and nothing desired the reason is NoTargets; the
    PolicyRevoked condition is present exactly when replicas are retained; and
    every condition of another type is the one that was there before. *)
Theorem buildStatus_conditions rep h states inv rr now :
  (Z.of_nat (length states) < 2 ^ 31)%Z →
  let st := buildStatus rep h states inv rr now in
  let some_failed := ∃ s, s ∈ states ∧ ts_Ready s = false in
  let some_desired := ∃ s, s ∈ states ∧ ts_Desired s = true in
  (∃ c, FindStatusCondition (Conditions st) ReplicationConditionReady = Some c ∧
    c_ObservedGeneration c = rep_Generation rep ∧
    (c_Status c = ConditionTrue ↔
       ¬ some_failed ∧ (some_desired ∨ rep_DeletionTimestamp rep ≠ None)) ∧
    (¬ some_failed → c_Status c ≠ ConditionTrue → c_Reason c = ReasonNoTargets) ∧
    (some_failed → c_Status c = ConditionFalse ∧
       c_Reason c = dominantReason states (t_firstReason
         (tally_states (NonReadyTargets (rep_Status rep)) now states)))) ∧
  (is_Some (FindStatusCondition (Conditions st) ConditionPolicyRevoked) ↔ rr = true) ∧
  (∀ t, t ≠ ReplicationConditionReady → t ≠ ConditionPolicyRevoked →
    FindStatusCondition (Conditions st) t =
    FindStatusCondition (Conditions (rep_Status rep)) t).
Proof.
  intros Hlen st some_failed some_desired.
  destruct (tally_spec (NonReadyTargets (rep_Status rep)) now states Hlen) as (Hd & _ & Hf & _).
  set (t := tally_states _ now states) in *. set (rc := ready_condition rep states t).
  set (cs := (SetStatusCondition now (Conditions (rep_Status rep)) rc).1).
  assert (∀ ty, ty ≠ ConditionPolicyRevoked →
    FindStatusCondition (Conditions st) ty = FindStatusCondition cs ty) as Hother.
  { intros ty Hty. unfold st, buildStatus. cbn [Conditions]. fold t rc cs.
    destruct rr; [by rw find_set_other|by rw find_remove_other]. }
  split_and!.
  - destruct (find_set_same now (Conditions (rep_Status rep)) rc)
      as (c & Hc & _ & Es & Eg & Er & _).
    rw (ready_type rep states t) in Hc. exists c. rw Hother //. split; [exact Hc|]. rw Es Eg Er.
    assert (some_failed ↔ t_failed t ≠ 0%Z) as ->
      by (rw Hf count_exists; by setoid_rewrite negb_true_iff).
    assert (some_desired ↔ t_desired t ≠ 0%Z) as -> by rw Hd count_exists //.
    unfold rc, ready_condition. clear. repeat case_bool_decide; simpl; naive_solver.
  - unfold st, buildStatus. cbn [Conditions]. fold t rc cs. destruct rr.
    + destruct (find_set_same now cs (revoked_condition rep)) as (c & Hc & _).
      change (c_Type (revoked_condition rep)) with ConditionPolicyRevoked in Hc. rw Hc. by eauto.
    + rw find_remove_same. split; [by intros []|done].
  - intros ty H1 H2. rw Hother //. apply find_set_other. by rw ready_type.
Qed.

(** The entries of the previous run keep their transition times. *)
Lemma tally_entries_stable prev now now' states :
  NoDup (map (λ s, state_key (ts_Cluster s) (ts_Namespace s) (ts_Name s)) (reported states)) →
  let es := map (status_entry (prev_targets prev) now) (reported states) in
  map (status_entry (prev_targets es) now') (reported states) = es.
Proof.
  intros Hnd es. unfold es at 2. apply map_ext_in. intros s Hs%list_elem_of_In.
  set (e := status_entry (prev_targets prev) now s).
  assert (prev_targets es !! nr_key e = Some (nr_Reason e, nr_LastTransitionTime e)) as Hl.
  { apply prev_targets_lookup; unfold es; [by rw map_map|]. apply elem_of_map. by exists s. }
  unfold status_entry at 1. change (state_key (ts_Cluster s) _ _) with (nr_key e). rw Hl. simpl.
  by rw decide_True.
Qed.

Lemma tally_firstReason p p' now now' states :
  t_firstReason (tally_states p' now' states) = t_firstReason (tally_states p now states).
Proof.
  unfold tally_states. generalize (prev_targets p') as q'. generalize (prev_targets p) as q. intros q q'.
  induction states as [|s l IH] using rev_ind; [done|]. rw !foldl_app. simpl.
  unfold tally_step at 1 3. by destruct (ts_Ready s); simpl; rw IH.
Qed.

(** No status churn: when the reported slots are pairwise different, building
    the status again from the same outcomes, at any later time, over an object
    that carries the first status gives that status back. *)
Theorem buildStatus_stable rep h states inv rr now rep' now' :
  (Z.of_nat (length states) < 2 ^ 31)%Z →
  NoDup (map (λ s, state_key (ts_Cluster s) (ts_Namespace s) (ts_Name s)) (reported states)) →
  rep_Status rep' = buildStatus rep h states inv rr now →
  rep_Generation rep' = rep_Generation rep →
  rep_DeletionTimestamp rep' = rep_DeletionTimestamp rep →
  buildStatus rep' h states inv rr now' = rep_Status rep'.
Proof.
  intros Hlen Hnd Hst Hgen Hdel.
  set (st := rep_Status rep') in *.
  destruct (tally_spec (NonReadyTargets (rep_Status rep)) now states Hlen)
    as (Hd & Hr & Hf & Hn & Ho).
  destruct (tally_spec (NonReadyTargets st) now' states Hlen) as (Hd' & Hr' & Hf' & Hn' & Ho').
  set (t := tally_states _ now states) in *. set (t' := tally_states _ now' states) in *.
  assert (NonReadyTargets st = t_nonReady t) as Est by (by rw Hst).
  assert (t_nonReady t' = t_nonReady t) as Enr.
  { rw Hn' Est Hn. by apply tally_entries_stable. }
  assert (t_firstReason t' = t_firstReason t) as Ef by apply tally_firstReason.
  assert (ready_condition rep' states t' = ready_condition rep states t) as Erc.
  { unfold ready_condition. by rw Hgen Hdel Ef Hd' Hr' Hf' -Hd -Hr -Hf. }
  assert (revoked_condition rep' = revoked_condition rep) as Erv
    by (unfold revoked_condition; by rw Hgen).
  set (rc := ready_condition rep states t) in *. set (rv := revoked_condition rep) in *.
  set (cs0 := (SetStatusCondition now (Conditions (rep_Status rep)) rc).1).
  assert (Conditions st = if rr then (SetStatusCondition now cs0 rv).1
                          else (RemoveStatusCondition cs0 ConditionPolicyRevoked).1) as Ec
    by (by rw Hst).
  destruct (find_set_same now (Conditions (rep_Status rep)) rc) as (c & Hc & Hsame).
  fold cs0 in Hc.
  assert (c_Type rc = ReplicationConditionReady) as Ety by apply ready_type.
  assert (SetStatusCondition now' (Conditions st) rc = (Conditions st, false)) as Hset.
  { eapply set_same_noop; [|exact Hsame]. rw Ec -Hc. fold rc. rw Ety.
    destruct rr; [by rw find_set_other|by rw find_remove_other]. }
  unfold buildStatus. fold st t'. rw Enr Erc Erv Hset Hd' Hr' Hf' Ho' -Ho -Hd -Hr -Hf. simpl.
  assert ((if rr then (SetStatusCondition now' (Conditions st) rv).1
           else (RemoveStatusCondition (Conditions st) ConditionPolicyRevoked).1) = Conditions st) as ->.
  { destruct rr.
    - destruct (find_set_same now cs0 rv) as (c' & Hc' & Hs'). rw -Ec in Hc'.
      by rw (set_same_noop _ _ _ _ Hc' Hs').
    - rw remove_absent_noop //. rw Ec. apply find_remove_same. }
  by rw Hst.
Qed.
End correctness.

(** ** Witnesses *)

#[local] Existing Instance MetaModel.api.
#[local] Existing Instance MetaModel.laws.

Definition ex_rep (st : ReplicationStatus) : Replication :=
  {| rep_Namespace := "infra"; rep_Name := "secret-a"; rep_UID := "r-1"; rep_Generation := 3;
     rep_DeletionTimestamp := None; rep_Finalizers := []; rep_Labels := ∅;
     rep_OwnerReferences := [];
     rep_Spec := {| SourceRef := {| sr_Kind := "Secret"; sr_Namespace := "infra"; sr_Name := "a";
                                    sr_UID := "u-1" |};
                    Origin := ReplicationOriginAnnotation; ResolvedTargets := [] |};
     rep_Status := st |}.

Definition ex_state (cluster reason : string) (ready : bool) : targetState :=
  {| ts_Cluster := cluster; ts_Namespace := "team-a"; ts_Name := "a"; ts_Ready := ready;
     ts_Desired := true; ts_Reason := reason; ts_Message := reason |}.

Definition ex_states : list targetState :=
  [ex_state "eu-1" "" true; ex_state "us-1" ReasonClusterUnreachable false].

Lemma buildStatus_summary_witness :
  (Z.of_nat (length ex_states) < 2 ^ 31)%Z ∧
  FailedTargets (Summary (buildStatus (ex_rep empty_status) "h" ex_states [] false 10))
    = Z.of_nat (size (slots_with not_ready ex_states)).
Proof.
  split; [done|].
  destruct (buildStatus_summary (ex_rep empty_status) "h" ex_states [] false 10) as (_ & _ & _ & _ & Hs & _);
    [done|].
  apply Hs; [do 2 right; left|]. apply NoDup_singleton.
Defined.

Lemma buildStatus_conditions_witness :
  (Z.of_nat (length ex_states) < 2 ^ 31)%Z ∧
  (is_Some (FindStatusCondition
     (Conditions (buildStatus (ex_rep empty_status) "h" ex_states [] false 10))
     ConditionPolicyRevoked) ↔ false = true).
Proof.
  split; [done|].
  apply (buildStatus_conditions (ex_rep empty_status) "h" ex_states [] false 10). done.
Defined.

Lemma buildStatus_stable_witness :
  NoDup (map (λ s, state_key (ts_Cluster s) (ts_Namespace s) (ts_Name s)) (reported ex_states)) ∧
  buildStatus (ex_rep (buildStatus (ex_rep empty_status) "h" ex_states [] false 10))
    "h" ex_states [] false 99 =
  rep_Status (ex_rep (buildStatus (ex_rep empty_status) "h" ex_states [] false 10)).
Proof.
  assert (NoDup (map (λ s, state_key (ts_Cluster s) (ts_Namespace s) (ts_Name s))
                   (reported ex_states))) as Hnd
    by (apply (bool_decide_unpack _); vm_compute; exact I).
  split; [exact Hnd|].
  apply (buildStatus_stable (ex_rep empty_status) "h" ex_states [] false 10
           (ex_rep (buildStatus (ex_rep empty_status) "h" ex_states [] false 10)) 99);
    [done|exact Hnd|done..].
Defined.

(** Two states for one slot, which a revoked replica that cannot be deleted
    gives: every later build stamps a new transition time. *)
Definition duplicate_slot : list targetState :=
  [ex_state "eu-1" ReasonPolicyRevoked false; ex_state "eu-1" ReasonClusterUnreachable false].

Lemma duplicate_slot_churns :
  buildStatus (ex_rep (buildStatus (ex_rep empty_status) "h" duplicate_slot [] false 10))
    "h" duplicate_slot [] false 99 ≠
  buildStatus (ex_rep empty_status) "h" duplicate_slot [] false 10.
Proof.
  intros E%(f_equal (λ s, map nr_LastTransitionTime (NonReadyTargets s))). vm_compute in E. done.
Qed.
