(* ===== verification/Telemetry.v ===== *)
(** [internal/telemetry]: the metric increments the other components make, the
    per-cluster replica tallies, the event limiter and the readiness gate. *)
From S2P Require Import Prelude Api.

#[local] Open Scope string_scope.

(** ** metrics.go *)

(** One increment of a counter vector: which counter, and its label values. *)
Inductive Metric :=
  | policyDenials (dimension : string)
  | webhookDenials (dimension : string)
  | conflicts (policy : string)
  | revocations (action : string)
  | driftEvents (cluster : string)
  | driftCorrections (cluster : string)
  | replicaOwnershipLost (cluster action : string)
  | spokeBootstraps (result : string)
  | tokenRotations (result : string).

(** A [prometheus.Desc]: its name and its variable labels. *)
Record Desc := { d_Name : string; d_Labels : list string }.

#[export] Instance Desc_eq : EqDecision Desc.
Proof. solve_decision. Defined.

Definition labelCluster : string := "cluster".
Definition labelDimension : string := "dimension".
Definition labelPolicy : string := "policy".
Definition labelAction : string := "action".
Definition labelResult : string := "result".
Definition labelProvider : string := "provider".

(** The counter vectors. *)
Definition policyDenials_vec : Desc :=
  {| d_Name := "k8s_r8r_policy_denials_total"; d_Labels := [labelDimension] |}.
Definition webhookDenials_vec : Desc :=
  {| d_Name := "k8s_r8r_webhook_denials_total"; d_Labels := [labelDimension] |}.
Definition conflicts_vec : Desc :=
  {| d_Name := "k8s_r8r_conflicts_total"; d_Labels := [labelPolicy] |}.
Definition revocations_vec : Desc :=
  {| d_Name := "k8s_r8r_revocations_total"; d_Labels := [labelAction] |}.
Definition driftEvents_vec : Desc :=
  {| d_Name := "k8s_r8r_drift_events_total"; d_Labels := [labelCluster] |}.
Definition driftCorrections_vec : Desc :=
  {| d_Name := "k8s_r8r_drift_corrections_total"; d_Labels := [labelCluster] |}.
Definition replicaOwnershipLost_vec : Desc :=
  {| d_Name := "k8s_r8r_replica_ownership_lost_total"; d_Labels := [labelCluster; labelAction] |}.
Definition spokeBootstraps_vec : Desc :=
  {| d_Name := "k8s_r8r_spoke_bootstraps_total"; d_Labels := [labelResult] |}.
Definition tokenRotations_vec : Desc :=
  {| d_Name := "k8s_r8r_token_rotations_total"; d_Labels := [labelResult] |}.

(** [vec.WithLabelValues(values...)] of an increment: the vector and the values. *)
Definition with_label_values (m : Metric) : Desc * list string :=
  match m with
  | policyDenials dimension => (policyDenials_vec, [dimension])
  | webhookDenials dimension => (webhookDenials_vec, [dimension])
  | conflicts policy => (conflicts_vec, [policy])
  | revocations action => (revocations_vec, [action])
  | driftEvents cluster => (driftEvents_vec, [cluster])
  | driftCorrections cluster => (driftCorrections_vec, [cluster])
  | replicaOwnershipLost cluster action => (replicaOwnershipLost_vec, [cluster; action])
  | spokeBootstraps result => (spokeBootstraps_vec, [result])
  | tokenRotations result => (tokenRotations_vec, [result])
  end.

Definition OwnershipRepaired : string := "repaired".
Definition OwnershipDeleted : string := "deleted".
Definition OwnershipOrphaned : string := "orphaned".

Definition resultLabel (success : bool) : string := if success then "success" else "failure".

(** [ReplicaCounts]: the floats only ever hold counts. *)
Record ReplicaCounts := { Desired : Z; Ready : Z; Failed : Z }.

#[export] Instance ReplicaCounts_eq : EqDecision ReplicaCounts.
Proof. solve_decision. Defined.

Definition no_counts : ReplicaCounts := {| Desired := 0; Ready := 0; Failed := 0 |}.

Definition add_counts (a b : ReplicaCounts) : ReplicaCounts :=
  {| Desired := Desired a + Desired b; Ready := Ready a + Ready b; Failed := Failed a + Failed b |}.

(** [replicaAggregator.byOwner]. *)
Abbreviation Aggregator := (gmap string (gmap string ReplicaCounts)).

Definition ObserveReplicas (owner : string) (perCluster : gmap string ReplicaCounts)
    (a : Aggregator) : Aggregator :=
  if decide (perCluster = ∅) then delete owner a else <[owner := perCluster]> a.

Definition ForgetReplicas (owner : string) (a : Aggregator) : Aggregator := delete owner a.

(** The sums [Collect] renders as gauges. *)
Definition Collect (a : Aggregator) : gmap string ReplicaCounts :=
  map_fold (λ _ perCluster sums,
    map_fold (λ cluster c sums,
        <[cluster := add_counts (default no_counts (sums !! cluster)) c]> sums)
      sums perCluster) ∅ a.

(** One constant metric of a scrape: the descriptor's name, the label values and
    the gauge value. *)
Record Gauge := { g_Name : string; g_Labels : list string; g_Value : Z }.

#[export] Instance Gauge_eq : EqDecision Gauge.
Proof. solve_decision. Defined.

Definition gauge (name : string) (labels : list string) (v : Z) : Gauge :=
  {| g_Name := name; g_Labels := labels; g_Value := v |}.

Definition desiredDesc : string := "k8s_r8r_replicas_desired".
Definition readyDesc : string := "k8s_r8r_replicas_ready".
Definition failedDesc : string := "k8s_r8r_replicas_failed".
Definition connDesc : string := "k8s_r8r_cluster_connectivity".
Definition countDesc : string := "k8s_r8r_clusters".
Definition upDesc : string := "k8s_r8r_discovery_up".
Definition clustersDesc : string := "k8s_r8r_discovery_clusters".

Definition desc (name : string) (labels : list string) : Desc :=
  {| d_Name := name; d_Labels := labels |}.

(** The descriptors that the constructors make and [Describe] sends. *)
Definition newReplicaAggregator : list Desc :=
  [desc desiredDesc [labelCluster]; desc readyDesc [labelCluster]; desc failedDesc [labelCluster]].
Definition newClusterCollector : list Desc :=
  [desc connDesc [labelCluster]; desc countDesc []].
Definition newDiscoveryCollector : list Desc :=
  [desc upDesc [labelProvider]; desc clustersDesc [labelProvider]].

(** The collectors of [init], each with its descriptors. *)
Definition registered : list (list Desc) :=
  [[policyDenials_vec]; [webhookDenials_vec]; [conflicts_vec]; [revocations_vec]; [driftEvents_vec];
   [driftCorrections_vec]; [replicaOwnershipLost_vec]; [spokeBootstraps_vec]; [tokenRotations_vec];
   newReplicaAggregator; newClusterCollector; newDiscoveryCollector].

(** The cardinality rule of the package comment. *)
Definition bounded_labels : list string :=
  [labelCluster; "namespace"; "kind"; labelDimension; labelPolicy; labelAction; labelResult;
   labelProvider].

(** What [replicaAggregator.Collect] sends, in one order of the map iteration. *)
Definition replica_gauges (a : Aggregator) : list Gauge :=
  '(cluster, s) ← map_to_list (Collect a);
  [gauge desiredDesc [cluster] (Desired s); gauge readyDesc [cluster] (Ready s);
   gauge failedDesc [cluster] (Failed s)].

(** [clusterCollector.Collect], given what [clusterSource.fn] returns when it is set. *)
Definition cluster_gauges (snapshot : option (gmap string Z)) : list Gauge :=
  match snapshot with
  | None => []
  | Some snap =>
      gauge countDesc [] (Z.of_nat (size snap)) ::
      map (λ '(cluster, v), gauge connDesc [cluster] v) (map_to_list snap)
  end.

Record DiscoveryState := { ds_Provider : string; ds_Up : bool; ds_Clusters : Z }.

(** [discoveryCollector.Collect] *)
Definition discovery_gauges (state : option DiscoveryState) : list Gauge :=
  match state with
  | None => []
  | Some s => [gauge upDesc [ds_Provider s] (if ds_Up s then 1 else 0)%Z;
               gauge clustersDesc [ds_Provider s] (ds_Clusters s)]
  end.

Definition ConnectivityValue (state : string) : Z :=
  if decide (state = "Reachable") then 2%Z
  else if decide (state = "Degraded") then 1%Z
  else 0%Z.

(** ** events.go *)

Definition DefaultEventCooldown : Z := 5 * Minute.

Record eventKey := { ek_object : string; ek_reason : string }.

#[export] Instance eventKey_eq : EqDecision eventKey.
Proof. solve_decision. Defined.
#[export] Instance eventKey_countable : Countable eventKey.
Proof.
  apply (inj_countable' (λ k, (ek_object k, ek_reason k)) (λ '(a, b), Build_eventKey a b)).
  by intros [].
Defined.

Record eventEntry := { ee_message : string; ee_at : Z }.

Record EventLimiter := { cooldown : Z; last : gmap eventKey eventEntry }.

Definition NewEventLimiter (c : Z) : EventLimiter :=
  {| cooldown := if (c <=? 0)%Z then DefaultEventCooldown else c; last := ∅ |}.

(** [time.Time.Sub] saturates at the ends of [time.Duration]. *)
Definition time_Sub (a b : Z) : Z := Z.max (- 2 ^ 63) (Z.min (2 ^ 63 - 1) (a - b)).

(** [now] is the clock reading the call takes under the lock. *)
Definition Allow (now : Z) (object reason message : string) (l : EventLimiter)
    : bool * EventLimiter :=
  let k := {| ek_object := object; ek_reason := reason |} in
  let pass := (true, {| cooldown := cooldown l;
                        last := <[k := {| ee_message := message; ee_at := now |}]> (last l) |}) in
  match last l !! k with
  | Some e =>
      if bool_decide (ee_message e = message) && (time_Sub now (ee_at e) <? cooldown l)%Z
      then (false, l) else pass
  | None => pass
  end.

Definition Forget (object : string) (l : EventLimiter) : EventLimiter :=
  {| cooldown := cooldown l; last := filter (λ kv, ek_object kv.1 ≠ object) (last l) |}.

(** ** ready.go *)

(** [InformerSync]: whether [synced] is closed. *)
Record InformerSync := { synced : bool }.

Definition NewInformerSync : InformerSync := {| synced := false |}.

(** [Start], given the answer of the hub cache's [WaitForCacheSync]. *)
Definition Start (cacheSynced : bool) (s : InformerSync) : InformerSync :=
  {| synced := synced s || cacheSynced |}.

(** [Check]: no error. *)
Definition Check_ok (s : InformerSync) : bool := synced s.

(** ** Correctness *)

(** *** The gauges *)

(** The sum of a list of tallies. *)
Definition sum_counts (l : list ReplicaCounts) : ReplicaCounts := foldr add_counts no_counts l.

Lemma sum_counts_perm l l' : l ≡ₚ l' → sum_counts l = sum_counts l'.
Proof.
  unfold sum_counts, add_counts. induction 1 as [|x l l' _ IH|x y l|l1 l2 l3 _ -> _ ->]; simpl;
    [done|by rw IH|f_equal; lia|done].
Qed.

Lemma add_no_counts c : add_counts c no_counts = c.
Proof. destruct c. unfold add_counts, no_counts. simpl. f_equal; lia. Qed.

Lemma add_counts_comm a b : add_counts a b = add_counts b a.
Proof. unfold add_counts. f_equal; lia. Qed.

(** The tally of an owner on a cluster. *)
Definition on_cluster (c : string) (per : gmap string ReplicaCounts) : ReplicaCounts :=
  default no_counts (per !! c).

Lemma add_cluster_lookup (per sums : gmap string ReplicaCounts) c :
  map_fold (λ cluster v sums, <[cluster := add_counts (on_cluster cluster sums) v]> sums) sums per !! c =
  match per !! c with None => sums !! c | Some v => Some (add_counts (on_cluster c sums) v) end.
Proof.
  apply (map_fold_weak_ind (λ (r per : gmap string ReplicaCounts), ∀ c, r !! c =
    match per !! c with None => sums !! c | Some v => Some (add_counts (on_cluster c sums) v) end)).
  - intros c'. by rw lookup_empty.
  - intros cl v m r Hm IH c'. destruct (decide (cl = c')) as [<-|Hne].
    + rw !lookup_insert_eq. unfold on_cluster. by rw IH Hm.
    + rw !lookup_insert_ne //.
Qed.

Lemma Collect_spec a c :
  (is_Some (Collect a !! c) ↔ ∃ o per, a !! o = Some per ∧ is_Some (per !! c)) ∧
  on_cluster c (Collect a) = sum_counts (map (λ op, on_cluster c op.2) (map_to_list a)).
Proof.
  unfold Collect. rw map_fold_foldr.
  assert (∀ o per, a !! o = Some per ↔ (o, per) ∈ map_to_list a) as Ha
    by (intros; by rw elem_of_map_to_list).
  setoid_rewrite Ha. clear Ha. induction (map_to_list a) as [|[o per] l IH]; simpl.
  - split; [|by unfold on_cluster; rw lookup_empty]. rw lookup_empty.
    split; [by intros []|]. by intros (o & per & ?%not_elem_of_nil & _).
  - destruct IH as [IH1 IH2]. set (sums := foldr _ ∅ l) in *.
    pose proof (add_cluster_lookup per sums c) as E. unfold on_cluster at 1 in E.
    set (all := map_fold _ sums per) in *. split.
    + rw E. setoid_rewrite elem_of_cons. destruct (per !! c) as [v|] eqn:Ev.
      * split; [|by eauto]. intros _. exists o, per. split; [by left|by rw Ev].
      * rw IH1. split; [by intros (o' & per' & ? & ?); eauto|].
        intros (o' & per' & [[= -> ->]|?] & Hs); [by rw Ev in Hs; destruct Hs|by eauto].
    + rw -IH2. unfold on_cluster at 1 2. rw E. destruct (per !! c) as [v|]; simpl.
      * apply add_counts_comm.
      * rw add_counts_comm add_no_counts. done.
Qed.

Inductive tally_op :=
  | OpObserve (owner : string) (perCluster : gmap string ReplicaCounts)
  | OpForget (owner : string).

Definition tally_step (a : Aggregator) (op : tally_op) : Aggregator :=
  match op with
  | OpObserve owner per => ObserveReplicas owner per a
  | OpForget owner => ForgetReplicas owner a
  end.

Definition tally_owner (op : tally_op) : string :=
  match op with OpObserve owner _ | OpForget owner => owner end.

(** The last tally an owner reported, nothing after it was forgotten. *)
Definition last_tally (ops : list tally_op) (owner : string) : gmap string ReplicaCounts :=
  foldl (λ acc op,
    if decide (tally_owner op = owner)
    then match op with OpObserve _ per => per | OpForget _ => ∅ end else acc) ∅ ops.

Lemma tally_lookup ops o :
  foldl tally_step ∅ ops !! o = if decide (last_tally ops o = ∅) then None else Some (last_tally ops o).
Proof.
  induction ops as [|op ops IH] using rev_ind; [by rw lookup_empty|].
  unfold last_tally. rw !foldl_app /=. fold (last_tally ops o).
  destruct op as [o' per|o']; simpl; unfold ObserveReplicas, ForgetReplicas.
  - destruct (decide (o' = o)) as [->|Hne].
    + destruct (decide (per = ∅)); [by rw lookup_delete_eq|by rw lookup_insert_eq].
    + destruct (decide (per = ∅)); [by rw lookup_delete_ne|by rw lookup_insert_ne].
  - destruct (decide (o' = o)) as [->|Hne]; [by rw lookup_delete_eq|by rw lookup_delete_ne].
Qed.

Lemma last_tally_owner ops o : last_tally ops o ≠ ∅ → o ∈ map tally_owner ops.
Proof.
  induction ops as [|op ops IH] using rev_ind; [done|]. unfold last_tally.
  rw foldl_app /=. fold (last_tally ops o). rw map_app elem_of_app. simpl.
  destruct (decide (tally_owner op = o)) as [<-|Ho]; intros Hne; [right; left|left; by apply IH].
Qed.

(** The tallies that are kept, as a list over the owners. *)
Lemma tally_list ops :
  map_to_list (foldl tally_step ∅ ops) ≡ₚ
  map (λ o, (o, last_tally ops o))
    (filter (λ o, last_tally ops o ≠ ∅) (remove_dups (map tally_owner ops))).
Proof.
  apply NoDup_Permutation.
  - apply NoDup_map_to_list.
  - apply NoDup_fmap_2; [by intros ? ? [= ->]|]. apply NoDup_filter, NoDup_remove_dups.
  - intros [o per]. rw elem_of_map_to_list tally_lookup elem_of_map.
    setoid_rewrite list_elem_of_filter. setoid_rewrite elem_of_remove_dups. split.
    + case_decide; [done|]. intros [= <-]. exists o. split; [done|]. split; [done|]. by apply last_tally_owner.
    + intros (o' & [= -> ->] & Hne & _). by rewrite decide_False.
Qed.

Lemma sum_filter_empty (f : string → gmap string ReplicaCounts) c l :
  sum_counts (map (λ o, on_cluster c (f o)) (filter (λ o, f o ≠ ∅) l)) =
  sum_counts (map (λ o, on_cluster c (f o)) l).
Proof.
  induction l as [|o l IH]; [done|]. destruct (decide (f o = ∅)) as [He|He].
  - rewrite filter_cons_False; [by intros []|]. rewrite IH. simpl. rewrite He. unfold on_cluster at 2.
    rewrite lookup_empty. by rewrite /= add_counts_comm add_no_counts.
  - rewrite filter_cons_True //. simpl. by rewrite IH.
Qed.
Definition series (g : Gauge) : string * list string := (g_Name g, g_Labels g).

Lemma elem_of_replica_gauges a g :
  g ∈ replica_gauges a ↔ ∃ c s, Collect a !! c = Some s ∧
    (g = gauge desiredDesc [c] (Desired s) ∨ g = gauge readyDesc [c] (Ready s) ∨
     g = gauge failedDesc [c] (Failed s)).
Proof.
  unfold replica_gauges. rw list_elem_of_bind. setoid_rewrite <- elem_of_map_to_list. split.
  - intros ([c s] & Hg & Hc). exists c, s. split; [done|].
    rewrite !elem_of_cons in Hg. by destruct Hg as [->|[->|[->|[]%not_elem_of_nil]]]; auto.
  - intros (c & s & Hc & Hg). exists (c, s). split; [|done]. rewrite !elem_of_cons. tauto.
Qed.

Lemma replica_series_distinct a : NoDup (map series (replica_gauges a)).
Proof.
  unfold replica_gauges. pose proof (NoDup_fst_map_to_list (Collect a)) as Hnd.
  induction (map_to_list (Collect a)) as [|[c s] l IH]; [constructor|].
  apply NoDup_cons in Hnd as [Hc Hnd]. specialize (IH Hnd).
  assert (∀ n v, series (gauge n [c] v) ∉ map series (l ≫= λ '(cluster, s),
    [gauge desiredDesc [cluster] (Desired s); gauge readyDesc [cluster] (Ready s);
     gauge failedDesc [cluster] (Failed s)])) as Hout.
  { intros n v (g & Heq & ([c' s'] & Hg & Hin)%list_elem_of_bind)%elem_of_map.
    apply Hc. apply elem_of_map. exists (c', s'). split; [|done].
    rewrite !elem_of_cons in Hg. unfold series in Heq. simpl.
    by destruct Hg as [->|[->|[->|[]%not_elem_of_nil]]]; injection Heq. }
  simpl. repeat (apply NoDup_cons; split; [|]); [..|done];
    rewrite ?elem_of_cons; intros H; decompose [or] H; try discriminate; by eapply Hout.
Qed.

Lemma other_series_distinct snap state :
  NoDup (map series (cluster_gauges snap ++ discovery_gauges state)).
Proof.
  rewrite map_app. apply NoDup_app. split_and!.
  - destruct snap as [m|]; [|constructor]. simpl. apply NoDup_cons. split.
    + intros (g & Heq & ([c v] & -> & _)%elem_of_map)%elem_of_map. discriminate Heq.
    + rewrite List.map_map. rewrite (map_ext _ (λ kv, (connDesc, [kv.1]))); [by intros []|].
      rewrite -(List.map_map fst (λ k, (connDesc, [k]))). apply NoDup_fmap_2; [by intros ? ? [= ->]|].
      apply NoDup_fst_map_to_list.
  - intros x (g & -> & Hg)%elem_of_map (g' & Heq & Hg')%elem_of_map.
    destruct snap as [m|]; [|by apply not_elem_of_nil in Hg].
    destruct state as [st|]; [|by apply not_elem_of_nil in Hg'].
    rewrite !elem_of_cons in Hg'. apply elem_of_cons in Hg as [->|([c v] & -> & _)%elem_of_map];
      decompose [or] Hg'; subst; try discriminate; by eapply not_elem_of_nil.
  - destruct state; simpl; [|constructor]. repeat constructor; rewrite ?list_elem_of_singleton; [done|].
    apply not_elem_of_nil.
Qed.

(** The replica gauges of a scrape are the sums of the last tallies. *)
Definition total (ops : list tally_op) (c : string) : ReplicaCounts :=
  sum_counts (map (λ o, on_cluster c (last_tally ops o)) (remove_dups (map tally_owner ops))).

Lemma replica_gauges_current ops g :
  g ∈ replica_gauges (foldl tally_step ∅ ops) ↔ ∃ c, (∃ o, is_Some (last_tally ops o !! c)) ∧
    (g = gauge desiredDesc [c] (Desired (total ops c)) ∨ g = gauge readyDesc [c] (Ready (total ops c)) ∨
     g = gauge failedDesc [c] (Failed (total ops c))).
Proof.
  set (a := foldl tally_step ∅ ops).
  assert (∀ c, on_cluster c (Collect a) = total ops c) as Htot.
  { intros c. rw (proj2 (Collect_spec a c)). unfold a, total.
    rewrite (sum_counts_perm _ _ (Permutation_map _ (tally_list ops))) List.map_map.
    apply (sum_filter_empty (last_tally ops)). }
  assert (∀ c, is_Some (Collect a !! c) ↔ ∃ o, is_Some (last_tally ops o !! c)) as Hex.
  { intros c. rw (proj1 (Collect_spec a c)). apply exist_proper. intros o. unfold a.
    rw tally_lookup. case_decide as He; [rw He lookup_empty|]; naive_solver. }
  rw elem_of_replica_gauges. split.
  - intros (c & s & Hs & Hg). exists c. rw -Hex -Htot. unfold on_cluster. rw Hs. by split.
  - intros (c & Hc & Hg). apply Hex in Hc as [s Hs]. exists c, s. split; [done|].
    rewrite -Htot in Hg. unfold on_cluster in Hg. by rewrite Hs in Hg.
Qed.

(** Everything a scrape collects from the three collectors. *)
Definition scrape (a : Aggregator) (snap : option (gmap string Z)) (state : option DiscoveryState)
    : list Gauge :=
  replica_gauges a ++ cluster_gauges snap ++ discovery_gauges state.

Lemma scrape_series_distinct a snap state : NoDup (map series (scrape a snap state)).
Proof.
  unfold scrape. rewrite map_app. apply NoDup_app.
  split_and!; [apply replica_series_distinct| |apply other_series_distinct].
  intros x (g & -> & (c & s & _ & Hg)%elem_of_replica_gauges)%elem_of_map (g' & Heq & Hg')%elem_of_map.
  assert (g_Name g' = g_Name g) as Hn by by injection Heq.
  apply elem_of_app in Hg' as [Hg'|Hg'].
  - destruct snap as [m|]; [|by apply not_elem_of_nil in Hg'].
    apply elem_of_cons in Hg' as [->|([c' v] & -> & _)%elem_of_map];
      decompose [or] Hg; subst; discriminate Hn.
  - destruct state as [st|]; [|by apply not_elem_of_nil in Hg'].
    rewrite !elem_of_cons in Hg'. decompose [or] Hg'; decompose [or] Hg; subst; try discriminate Hn;
      by eapply not_elem_of_nil.
Qed.

(** A label value for each label of a registered descriptor, as
    [MustNewConstMetric] and [WithLabelValues] demand. *)
Definition fits (name : string) (values : list string) : Prop :=
  ∃ d, d ∈ mjoin registered ∧ d_Name d = name ∧ length values = length (d_Labels d).

Lemma gauge_fits a snap state g : g ∈ scrape a snap state → fits (g_Name g) (g_Labels g).
Proof.
  assert (∀ d vs, bool_decide (d ∈ mjoin registered) = true → length vs = length (d_Labels d) →
    fits (d_Name d) vs) as Hfit by (intros d vs Hd%bool_decide_eq_true Hl; by exists d).
  unfold scrape. rewrite !elem_of_app.
  intros [(c & s & _ & [->|[->| ->]])%elem_of_replica_gauges|[Hg|Hg]].
  - by apply (Hfit (desc desiredDesc [labelCluster])).
  - by apply (Hfit (desc readyDesc [labelCluster])).
  - by apply (Hfit (desc failedDesc [labelCluster])).
  - destruct snap as [m|]; [|by apply not_elem_of_nil in Hg].
    apply elem_of_cons in Hg as [->|([c' v] & -> & _)%elem_of_map].
    + by apply (Hfit (desc countDesc [])).
    + by apply (Hfit (desc connDesc [labelCluster])).
  - destruct state as [st|]; [|by apply not_elem_of_nil in Hg].
    rewrite !elem_of_cons in Hg. destruct Hg as [->|[->|[]%not_elem_of_nil]].
    + by apply (Hfit (desc upDesc [labelProvider])).
    + by apply (Hfit (desc clustersDesc [labelProvider])).
Qed.

Lemma increment_fits m : fits (d_Name (with_label_values m).1) (with_label_values m).2.
Proof.
  exists (with_label_values m).1. split; [|by destruct m].
  apply (bool_decide_eq_true _). by destruct m.
Qed.

(** C28. What a scrape shows: after any sequence of reports and forgettings, the
    three replica gauges exist exactly for the clusters in some owner's last tally,
    and show the sums of the owners' last tallies there; and whatever the two
    injected snapshots hold, no two metrics of the scrape are the same series, which
    the registry would refuse. No metric is registered twice, all its labels are of
    the bounded set, and every metric of a scrape and every increment of a counter
    has one value for each label of its descriptor, so none of them panics. *)
Theorem gauges_are_current ops snap state :
  let a := foldl tally_step ∅ ops in
  (∀ g, g ∈ replica_gauges a ↔ ∃ c, (∃ o, is_Some (last_tally ops o !! c)) ∧
     (g = gauge desiredDesc [c] (Desired (total ops c)) ∨ g = gauge readyDesc [c] (Ready (total ops c)) ∨
      g = gauge failedDesc [c] (Failed (total ops c)))) ∧
  NoDup (map series (scrape a snap state)) ∧
  NoDup (map d_Name (mjoin registered)) ∧
  (∀ d l, d ∈ mjoin registered → l ∈ d_Labels d → l ∈ bounded_labels) ∧
  (∀ g, g ∈ scrape a snap state → fits (g_Name g) (g_Labels g)) ∧
  (∀ m, fits (d_Name (with_label_values m).1) (with_label_values m).2).
Proof.
  split_and!.
  - intros g. apply replica_gauges_current.
  - apply scrape_series_distinct.
  - by apply (bool_decide_unpack (NoDup (map d_Name (mjoin registered)))); vm_compute.
  - intros d l Hd Hl.
    assert (Forall (λ d, Forall (λ l, l ∈ bounded_labels) (d_Labels d)) (mjoin registered)) as Hall
      by (apply (bool_decide_unpack _); by vm_compute).
    rewrite Forall_forall in Hall. specialize (Hall d Hd). rewrite Forall_forall in Hall. auto.
  - intros g. apply gauge_fits.
  - apply increment_fits.
Qed.

(** Two owners, one of which shrank to another cluster, and a third that is gone. *)
Example gauges_ex :
  let n z := {| Desired := z; Ready := 1; Failed := (z - 1)%Z |} in
  replica_gauges (foldl tally_step ∅
    [OpObserve "a/x" {[ "eu-1" := n 2%Z; "us-1" := n 3%Z ]}; OpObserve "a/z" {[ "eu-1" := n 9%Z ]};
     OpObserve "a/y" {[ "eu-1" := n 4%Z ]}; OpObserve "a/x" {[ "eu-1" := n 1%Z ]}; OpForget "a/z"]) =
  [gauge desiredDesc ["eu-1"] 5; gauge readyDesc ["eu-1"] 2; gauge failedDesc ["eu-1"] 3]%Z.
Proof. intros n. vm_refl. Qed.

Record call := { call_at : Z; call_object : string; call_reason : string; call_message : string }.

Definition call_key (c : call) : eventKey :=
  {| ek_object := call_object c; ek_reason := call_reason c |}.

(** The answers of a run of calls. *)
Fixpoint run_allow (l : EventLimiter) (cs : list call) : list (call * bool) :=
  match cs with
  | [] => []
  | c :: cs' =>
      let '(b, l') := Allow (call_at c) (call_object c) (call_reason c) (call_message c) l in
      (c, b) :: run_allow l' cs'
  end.

Lemma Allow_cooldown now o r m l : cooldown (Allow now o r m l).2 = cooldown l.
Proof. unfold Allow. by repeat case_match. Qed.

Lemma Allow_other now o r m l k :
  k ≠ {| ek_object := o; ek_reason := r |} → last (Allow now o r m l).2 !! k = last l !! k.
Proof. intros Hk. unfold Allow. repeat case_match; simpl; try done; by rw lookup_insert_ne. Qed.

Lemma Allow_emitted now o r m l :
  let '(b, l') := Allow now o r m l in
  if b then last l' !! Build_eventKey o r = Some {| ee_message := m; ee_at := now |}
  else l' = l.
Proof. unfold Allow. repeat case_match; simplify_eq; simpl; try done; by rw lookup_insert_eq. Qed.

Definition in_order (cs : list call) : Prop :=
  StronglySorted (λ a b, (call_at a ≤ call_at b)%Z) cs.

(** While the calls for [k] all say [m] and the clock does not run back, an
    emission recorded at [t0] keeps [k] quiet until the cooldown has passed. *)
Lemma run_allow_quiet k m cs : ∀ l t0 c,
  last l !! k = Some {| ee_message := m; ee_at := t0 |} →
  (cooldown l < 2 ^ 63)%Z →
  in_order cs → Forall (λ c, (t0 ≤ call_at c)%Z) cs →
  Forall (λ c, call_key c = k → call_message c = m) cs →
  (c, true) ∈ run_allow l cs → call_key c = k → (cooldown l ≤ call_at c - t0)%Z.
Proof.
  induction cs as [|c0 cs IH]; intros l t0 c Hl Hcd Hs Ht Hm Hin Hk; [by apply not_elem_of_nil in Hin|].
  apply StronglySorted_inv in Hs as [Hs Hs0]. apply Forall_cons in Ht as [Ht0 Ht].
  apply Forall_cons in Hm as [Hm0 Hm]. simpl in Hin.
  pose proof (Allow_emitted (call_at c0) (call_object c0) (call_reason c0) (call_message c0) l) as He.
  pose proof (Allow_cooldown (call_at c0) (call_object c0) (call_reason c0) (call_message c0) l) as Hc.
  pose proof (Allow_other (call_at c0) (call_object c0) (call_reason c0) (call_message c0) l k) as Ho.
  destruct (Allow _ _ _ _ l) as [b l'] eqn:E. simpl in Hc, Ho.
  change (Build_eventKey _ _) with (call_key c0) in He, Ho.
  destruct (decide (call_key c0 = k)) as [Hk0|Hk0].
  - destruct b.
    + assert (cooldown l ≤ call_at c0 - t0)%Z as Hge.
      { unfold Allow in E. change (Build_eventKey _ _) with (call_key c0) in E.
        rw Hk0 Hl (Hm0 Hk0) in E. simpl in E. rw bool_decide_eq_true_2 // in E. simpl in E.
        case_match eqn:Elt; [done|]. apply Z.ltb_ge in Elt. unfold time_Sub in Elt. lia. }
      apply elem_of_cons in Hin as [[= ->]|Hin]; [done|].
      rw Hk0 (Hm0 Hk0) in He. rw -Hc. rw -Hc in Hge Hcd.
      pose proof (IH l' (call_at c0) c He Hcd Hs Hs0 Hm Hin Hk). lia.
    + subst l'. apply elem_of_cons in Hin as [?|Hin]; [congruence|]. by eapply IH.
  - apply elem_of_cons in Hin as [[= -> _]|Hin]; [done|].
    rw -Hc. rw -Hc in Hcd. eapply IH; try done. by rw Ho; [congruence|].
Qed.

(** A flapping target cannot flood the event stream: in any run of calls with
    a clock that does not run back, two events that are both emitted for one
    (object, reason) whose calls all carry the same message are at least the
    cooldown apart, whatever other events are interleaved. *)
Theorem Allow_spacing l k m cs i j ci cj :
  (cooldown l < 2 ^ 63)%Z → in_order cs →
  Forall (λ c, call_key c = k → call_message c = m) cs →
  (i < j)%nat → run_allow l cs !! i = Some (ci, true) → run_allow l cs !! j = Some (cj, true) →
  call_key ci = k → call_key cj = k →
  (cooldown l ≤ call_at cj - call_at ci)%Z.
Proof.
  intros Hcd Hs Hm Hij Hi Hj Hki Hkj. revert l i j Hcd Hij Hi Hj.
  induction cs as [|c cs IH]; intros l i j Hcd Hij Hi Hj; [done|].
  apply StronglySorted_inv in Hs as [Hs Hs0]. apply Forall_cons in Hm as [Hm0 Hm].
  simpl in Hi, Hj.
  pose proof (Allow_emitted (call_at c) (call_object c) (call_reason c) (call_message c) l) as He.
  pose proof (Allow_cooldown (call_at c) (call_object c) (call_reason c) (call_message c) l) as Hc.
  destruct (Allow _ _ _ _ l) as [b l'] eqn:E. simpl in Hc. rw -Hc. rw -Hc in Hcd.
  destruct j as [|j]; [lia|]. destruct i as [|i]; simpl in Hi, Hj.
  - simplify_eq. change (Build_eventKey _ _) with (call_key ci) in He.
    rw (Hm0 eq_refl) in He. eapply run_allow_quiet; try done; [by eapply list_elem_of_lookup_2|].
    unfold call_key. congruence.
  - eapply (IH Hs Hm l' i j); try done. lia.
Qed.

Definition ex_call (t : Z) (m : string) : call :=
  {| call_at := t; call_object := "r-1"; call_reason := "Conflict"; call_message := m |}.

Lemma Allow_spacing_witness :
  run_allow (NewEventLimiter 0)
    [ex_call 0 "m"; ex_call Minute "m"; ex_call (6 * Minute) "m"] =
  [(ex_call 0 "m", true); (ex_call Minute "m", false); (ex_call (6 * Minute) "m", true)] ∧
  (cooldown (NewEventLimiter 0) ≤ call_at (ex_call (6 * Minute) "m") - call_at (ex_call 0 "m"))%Z.
Proof.
  split; [vm_refl|].
  apply (Allow_spacing (NewEventLimiter 0) (call_key (ex_call 0 "m")) "m"
           [ex_call 0 "m"; ex_call Minute "m"; ex_call (6 * Minute) "m"] 0 2);
    [vm_compute; reflexivity| | |lia|vm_refl..].
  - repeat constructor; vm_compute; discriminate.
  - repeat constructor.
Defined.
