(* ===== verification/Drift.v ===== *)
(** [internal/engine/drift.go]: the ownership classification of an object on a
    spoke, the drift watches per (cluster, kind) and the events they turn into
    reconcile requests. A cache is identified by a number: the cluster manager
    builds a new one each time it registers a cluster. *)
From S2P Require Import Prelude GoLib Sha256 Api Unstructured Render Telemetry.

#[local] Open Scope string_scope.

(** ** Ownership *)

Inductive ReplicaOwnership := OwnershipForeign | OwnershipManaged | OwnershipStripped.

#[export] Instance ReplicaOwnership_eq : EqDecision ReplicaOwnership.
Proof. solve_decision. Defined.

Definition ReasonOwnershipRepaired : string := "OwnershipRepaired".
Definition ReasonOwnershipStripped : string := "OwnershipStripped".
Definition ReasonReplicaOrphaned : string := "ReplicaOrphaned".

Definition ClassifyReplicaOwnership (labels : gmap string string) (sourceUID : string)
    : ReplicaOwnership :=
  if bool_decide (sourceUID = "") || negb (bool_decide (default "" (labels !! LabelSourceUID) = sourceUID))
  then OwnershipForeign
  else if decide (default "" (labels !! LabelManagedBy) = ManagedByValue) then OwnershipManaged
  else OwnershipStripped.

(** ** The detector *)

Definition defaultDriftResync : Z := 10 * Hour.

Definition Cache := nat.

(** [ctx]: [None] before [Start], then whether it is still live. [chan] is what the
    channel of capacity 1024 holds, [attached] the handlers the detector has added
    to informers. *)
Record DriftDetector := {
  resync : Z;
  ctx : option bool;
  clusters : gmap string Cache;
  watched : gmap string (gset GroupVersionKind);
  gvks : gset GroupVersionKind;
  chan : list NamespacedName;
  attached : list (Cache * GroupVersionKind);
}.

Definition NewDriftDetector (resync : Z) : DriftDetector :=
  {| resync := if (resync <=? 0)%Z then defaultDriftResync else resync;
     ctx := None; clusters := ∅; watched := ∅; gvks := ∅; chan := []; attached := [] |}.

Definition set_watched (w : gmap string (gset GroupVersionKind)) (d : DriftDetector) :=
  {| resync := resync d; ctx := ctx d; clusters := clusters d; watched := w; gvks := gvks d;
     chan := chan d; attached := attached d |}.

Definition attach (c : Cache) (gvk : GroupVersionKind) (d : DriftDetector) : DriftDetector :=
  {| resync := resync d; ctx := ctx d; clusters := clusters d; watched := watched d;
     gvks := gvks d; chan := chan d; attached := (attached d ++ [(c, gvk)])%list |}.

(** [d.watched[cluster][gvk]] *)
Definition is_watched (d : DriftDetector) (cluster : string) (gvk : GroupVersionKind) : bool :=
  bool_decide (gvk ∈ default ∅ (watched d !! cluster)).

(** [install] takes the lock twice, around the call to the cache. The first region
    decides whether to go on. *)
Definition install_check (d : DriftDetector) (cluster : string) (gvk : GroupVersionKind) : bool :=
  bool_decide (ctx d ≠ None) && negb (is_watched d cluster gvk).

(** The second region, after the handler was added. *)
Definition install_commit (cluster : string) (gvk : GroupVersionKind) (d : DriftDetector)
    : DriftDetector :=
  match watched d !! cluster with
  | Some w => set_watched (<[cluster := w ∪ {[gvk]}]> (watched d)) d
  | None => d
  end.

(** [ok]: whether [GetInformer] and [AddEventHandlerWithResyncPeriod] succeed. *)
Definition install (ok : Cache → GroupVersionKind → bool) (cluster : string) (c : Cache)
    (gvk : GroupVersionKind) (d : DriftDetector) : DriftDetector :=
  if install_check d cluster gvk && ok c gvk
  then install_commit cluster gvk (attach c gvk d) else d.

Definition installAll ok (name : string) (c : Cache) (d : DriftDetector) : DriftDetector :=
  foldl (λ d gvk, install ok name c gvk d) d (elements (gvks d)).

Definition set_started (d : DriftDetector) : DriftDetector :=
  {| resync := resync d; ctx := Some true; clusters := clusters d; watched := watched d;
     gvks := gvks d; chan := chan d; attached := attached d |}.

(** [Start] up to the wait, in one order of the map iteration. *)
Definition Start ok (d : DriftDetector) : DriftDetector :=
  let d' := set_started d in
  foldl (λ d nc, installAll ok nc.1 nc.2 d) d' (map_to_list (clusters d)).

Definition ready_region (name : string) (c : Cache) (d : DriftDetector) : DriftDetector :=
  {| resync := resync d; ctx := ctx d; clusters := <[name := c]> (clusters d);
     watched := <[name := ∅]> (watched d); gvks := gvks d; chan := chan d;
     attached := attached d |}.

Definition ClusterReady ok (name : string) (c : Cache) (d : DriftDetector) : DriftDetector :=
  let d := ready_region name c d in
  if decide (ctx d ≠ None) then installAll ok name c d else d.

Definition ClusterGone (name : string) (d : DriftDetector) : DriftDetector :=
  {| resync := resync d; ctx := ctx d; clusters := delete name (clusters d);
     watched := delete name (watched d); gvks := gvks d; chan := chan d;
     attached := attached d |}.

Definition learn (gvk : GroupVersionKind) (d : DriftDetector) : DriftDetector :=
  {| resync := resync d; ctx := ctx d; clusters := clusters d; watched := watched d;
     gvks := gvks d ∪ {[gvk]}; chan := chan d; attached := attached d |}.

Definition EnsureWatch ok (cluster : string) (gvk : GroupVersionKind) (d : DriftDetector)
    : DriftDetector :=
  let d := learn gvk d in
  match clusters d !! cluster with
  | Some c =>
      if bool_decide (ctx d = None) || is_watched d cluster gvk then d
      else install ok cluster c gvk d
  | None => d
  end.

Definition eventsCapacity : nat := 1024.

Definition Enqueue (key : NamespacedName) (d : DriftDetector) : DriftDetector :=
  if (length (chan d) <? eventsCapacity)%nat then
    {| resync := resync d; ctx := ctx d; clusters := clusters d; watched := watched d;
       gvks := gvks d; chan := (chan d ++ [key])%list; attached := attached d |}
  else d.

(** [driftHandler.observe] on an object with metadata; [lookup] reads the
    Replications of a source from the hub's index. *)
Definition observe (lookup : string → string → list NamespacedName) (cluster : string)
    (labels : gmap string string) (d : DriftDetector) : DriftDetector * list Metric :=
  let uid := default "" (labels !! LabelSourceUID) in
  let srcNS := default "" (labels !! LabelSourceNamespace) in
  if decide (default "" (labels !! LabelManagedBy) = ManagedByValue) then
    if bool_decide (uid = "") || bool_decide (srcNS = "") then (d, [])
    else
      let m := [driftEvents cluster] in
      if decide (ctx d = Some true)
      then (foldl (λ d key, Enqueue key d) d (lookup uid srcNS), m)
      else (d, m)
  else (d, []).

(** What an informer delivers: an object with metadata, here its labels; the
    [DeletedFinalStateUnknown] that wraps the last known state of a deleted object; or
    something else. *)
Inductive informer_object :=
  | WithMeta (labels : gmap string string)
  | DeletedFinalStateUnknown (obj : informer_object)
  | NoMeta.

Inductive informer_event :=
  | OnAdd (obj : informer_object)
  | OnUpdate (old new : informer_object)
  | OnDelete (obj : informer_object).

(** The object that a notification is about; [observe] looks at one with metadata. *)
Definition notified (ev : informer_event) : informer_object :=
  match ev with
  | OnAdd obj | OnUpdate _ obj => obj
  | OnDelete (DeletedFinalStateUnknown obj) => obj
  | OnDelete obj => obj
  end.

Definition driftHandler (lookup : string → string → list NamespacedName) (cluster : string)
    (ev : informer_event) (d : DriftDetector) : DriftDetector * list Metric :=
  match notified ev with
  | WithMeta labels => observe lookup cluster labels d
  | _ => (d, [])
  end.

(** ** Sequential runs *)

Inductive drift_op :=
  | OpStart
  | OpReady (name : string) (c : Cache)
  | OpGone (name : string)
  | OpEnsure (cluster : string) (gvk : GroupVersionKind)
  | OpEnqueue (key : NamespacedName).

(** Each operation comes with the caches' answers at the time. *)
Definition drift_step (d : DriftDetector) (op : (Cache → GroupVersionKind → bool) * drift_op)
    : DriftDetector :=
  match op.2 with
  | OpStart => Start op.1 d
  | OpReady name c => ClusterReady op.1 name c d
  | OpGone name => ClusterGone name d
  | OpEnsure cluster gvk => EnsureWatch op.1 cluster gvk d
  | OpEnqueue key => Enqueue key d
  end.

(** What a mark in [watched] stands for: a handler on the cache the cluster has now. *)
Record watch_inv (d : DriftDetector) : Prop := {
  wi_dom : dom (clusters d) = dom (watched d);
  wi_mark cluster w gvk : watched d !! cluster = Some w → gvk ∈ w →
    gvk ∈ gvks d ∧ ∃ c, clusters d !! cluster = Some c ∧ (c, gvk) ∈ attached d;
  wi_chan : (length (chan d) ≤ eventsCapacity)%nat;
}.

Lemma is_watched_true d cluster gvk :
  is_watched d cluster gvk = true ↔ ∃ w, watched d !! cluster = Some w ∧ gvk ∈ w.
Proof.
  unfold is_watched. rw bool_decide_eq_true. destruct (watched d !! cluster) as [w|]; simpl.
  - naive_solver.
  - split; [set_solver|naive_solver].
Qed.

Lemma install_clusters ok cluster c gvk d :
  clusters (install ok cluster c gvk d) = clusters d ∧ gvks (install ok cluster c gvk d) = gvks d
  ∧ ctx (install ok cluster c gvk d) = ctx d.
Proof. unfold install, install_commit. by repeat case_match. Qed.

Lemma install_inv ok cluster c gvk d :
  watch_inv d → clusters d !! cluster = Some c → gvk ∈ gvks d →
  watch_inv (install ok cluster c gvk d).
Proof.
  intros [Hd Hm Hc] Hcl Hg. unfold install. case_match; [|done].
  unfold install_commit. simpl. destruct (watched d !! cluster) as [w|] eqn:Ew.
  - split; simpl; [by rw Hd dom_insert_lookup_L|..|done].
    intros cl w' g Hw' Hg'. destruct (decide (cluster = cl)) as [<-|Hne].
    + rw lookup_insert_eq in Hw'. simplify_eq. apply elem_of_union in Hg' as [Hg'|Hg'%elem_of_singleton].
      * destruct (Hm _ _ _ Ew Hg') as (? & c' & ? & ?). simplify_eq.
        split; [done|]. exists c. split; [done|]. apply elem_of_app. by left.
      * subst g. split; [done|]. exists c. split; [done|]. apply elem_of_app. right. by left.
    + rw lookup_insert_ne // in Hw'. destruct (Hm _ _ _ Hw' Hg') as (? & c' & ? & ?).
      split; [done|]. exists c'. split; [done|]. apply elem_of_app. by left.
  - split; simpl; [done|idtac|done]. intros cl w' g Hw' Hg'.
    destruct (Hm _ _ _ Hw' Hg') as (? & c' & ? & ?).
    split; [done|]. exists c'. split; [done|]. apply elem_of_app. by left.
Qed.

Lemma installAll_clusters ok name c d :
  clusters (installAll ok name c d) = clusters d ∧ gvks (installAll ok name c d) = gvks d.
Proof.
  unfold installAll. generalize (elements (gvks d)) as l. intros l.
  induction l as [|g l IH] using rev_ind; [done|]. rw foldl_app. simpl.
  destruct (install_clusters ok name c g (foldl (λ d gvk, install ok name c gvk d) d l)) as (-> & -> & _).
  done.
Qed.

Lemma installAll_inv ok name c d :
  watch_inv d → clusters d !! name = Some c → watch_inv (installAll ok name c d).
Proof.
  intros Hd Hc. unfold installAll.
  assert (∀ l d', (∀ g, g ∈ l → g ∈ gvks d') → watch_inv d' → clusters d' !! name = Some c →
    watch_inv (foldl (λ d gvk, install ok name c gvk d) d' l)) as H.
  { induction l as [|g l IH]; intros d' Hl Hi Hcl; simpl; [done|].
    destruct (install_clusters ok name c g d') as (E1 & E2 & _).
    apply IH; [intros g' ?; rw E2; apply Hl; by right | apply install_inv; try done; apply Hl; by left
              | by rw E1]. }
  apply H; [|done..]. intros g. by rw elem_of_elements.
Qed.

Lemma drift_step_inv d op : watch_inv d → watch_inv (drift_step d op).
Proof.
  intros Hi. destruct op as [ok []]; unfold drift_step; cbn [fst snd].
  - unfold Start. set (d' := set_started d).
    assert (watch_inv d') as Hi' by (destruct Hi; by split).
    assert (∀ nc, nc ∈ map_to_list (clusters d) → clusters d' !! nc.1 = Some nc.2) as Hl
      by (intros [n c] ?; by apply elem_of_map_to_list).
    revert Hi' Hl. generalize d' as e. generalize (map_to_list (clusters d)) as l.
    induction l as [|[n c] l IH]; intros e He Hl; simpl; [done|].
    apply IH; [apply installAll_inv; [done|apply (Hl (n, c)); by left]|].
    intros nc Hnc. destruct (installAll_clusters ok n c e) as [-> _]. apply Hl. by right.
  - unfold ClusterReady. assert (watch_inv (ready_region name c d)) as Hr.
    { destruct Hi as [Hd Hm Hc]. split; simpl; [by rw !dom_insert_L Hd|idtac|done].
      intros cl w g Hw Hg. destruct (decide (name = cl)) as [<-|Hne].
      - rw lookup_insert_eq in Hw. simplify_eq. set_solver.
      - rw lookup_insert_ne // in Hw. destruct (Hm _ _ _ Hw Hg) as (? & c' & ? & ?).
        split; [done|]. exists c'. by rw lookup_insert_ne. }
    case_decide; [|done]. apply installAll_inv; [done|]. simpl. by rw lookup_insert_eq.
  - destruct Hi as [Hd Hm Hc]. split; simpl; [by rw !dom_delete_L Hd|idtac|done].
    intros cl w g [Hne Hw]%lookup_delete_Some Hg. destruct (Hm _ _ _ Hw Hg) as (? & c' & ? & ?).
    split; [done|]. exists c'. by rw lookup_delete_ne.
  - unfold EnsureWatch. assert (watch_inv (learn gvk d)) as Hr.
    { destruct Hi as [Hd Hm Hc]. split; simpl; [done|idtac|done]. intros cl w g Hw Hg.
      destruct (Hm _ _ _ Hw Hg) as (? & ?). split; [set_solver|done]. }
    destruct (clusters (learn gvk d) !! cluster) as [c|] eqn:Ec; [|done].
    case_match; [done|]. apply install_inv; [done..|]. simpl. set_solver.
  - destruct Hi as [Hd Hm Hc]. unfold Enqueue. case_match eqn:E; [|by split].
    apply Nat.ltb_lt in E. split; simpl; [done|done|]. rw length_app /=. lia.
Qed.

Lemma watch_inv_initial r : watch_inv (NewDriftDetector r).
Proof. split; simpl; [by rw !dom_empty_L|intros ???; by rw lookup_empty|unfold eventsCapacity; lia]. Qed.

(** However starts, clusters coming and going, watch requests and enqueues
    follow each other (each running to its end), a kind marked as watched on a
    cluster has its handler on the cache that cluster has now, a mark is never
    kept for a cluster that left, and a watch request on a started detector whose
    cache answers leaves the kind watched; the event channel never overfills. *)
Theorem watched_is_attached r ops cluster gvk :
  let d := foldl drift_step (NewDriftDetector r) ops in
  watch_inv d ∧
  (is_watched d cluster gvk = true →
   ∃ c, clusters d !! cluster = Some c ∧ (c, gvk) ∈ attached d) ∧
  (∀ ok c, clusters d !! cluster = Some c → ctx d ≠ None → ok c gvk = true →
   is_watched (EnsureWatch ok cluster gvk d) cluster gvk = true).
Proof.
  intros d. assert (watch_inv d) as Hi.
  { unfold d. induction ops as [|op ops IH] using rev_ind; [apply watch_inv_initial|].
    rw foldl_app. by apply drift_step_inv. }
  split; [done|split].
  - intros (w & Hw & Hg)%is_watched_true. by destruct (wi_mark _ Hi _ _ _ Hw Hg) as (_ & ?).
  - intros ok c Hc Hctx Hok. unfold EnsureWatch. simpl. rw Hc bool_decide_eq_false_2 //=.
    destruct (is_watched (learn gvk d) cluster gvk) eqn:Ew; [done|].
    unfold install, install_check. simpl. rw bool_decide_eq_true_2 // Ew Hok /=.
    assert (is_Some (watched d !! cluster)) as [w Hw]
      by (apply elem_of_dom; rw -(wi_dom _ Hi); by eapply elem_of_dom_2).
    apply is_watched_true. exists (w ∪ {[gvk]}). unfold install_commit. simpl. rw Hw. simpl.
    rw lookup_insert_eq. split; [done|set_solver].
Qed.

(** Ownership, as conflict handling and garbage collection see it: an object is
    managed exactly when it carries both marks of a source with a UID, stripped
    when only the source UID is left, and an empty UID matches nothing; whatever
    [Render] writes is managed, and the detector turns any event about it into a
    reconcile of that source's Replications. *)
Theorem ownership_and_observation `{UL : UnstructuredLaws} cfg r src md tns tn labels uid
    lookup cluster d :
  wf_obj src md → GetUID src ≠ "" → GetNamespace src ≠ "" → ctx d = Some true →
  (ClassifyReplicaOwnership labels uid = OwnershipManaged ↔
     uid ≠ "" ∧ IsManagedReplica labels uid = true) ∧
  (ClassifyReplicaOwnership labels uid = OwnershipStripped ↔
     uid ≠ "" ∧ labels !! LabelSourceUID = Some uid ∧
     default "" (labels !! LabelManagedBy) ≠ ManagedByValue) ∧
  (let rl := GetLabels (Render cfg r src tns tn).1 in
   ClassifyReplicaOwnership rl (GetUID src) = OwnershipManaged ∧
   observe lookup cluster rl d =
     (foldl (λ d key, Enqueue key d) d (lookup (GetUID src) (GetNamespace src)),
      [driftEvents cluster])).
Proof.
  intros Hwf Hu Hn Hctx. split_and!.
  - unfold ClassifyReplicaOwnership, IsManagedReplica.
    repeat case_bool_decide; repeat case_decide; simpl; naive_solver.
  - unfold ClassifyReplicaOwnership. destruct (labels !! LabelSourceUID) as [u|]; simpl;
      repeat case_bool_decide; repeat case_decide; simpl; naive_solver.
  - intros rl.
    assert (∀ k v, identityLabels r src !! k = Some v → rl !! k = Some v) as Hl.
    { intros k v Hk. unfold rl. rw (Render_labels _ _ _ _ _ _ Hwf). by apply lookup_union_Some_l. }
    assert (default "" (rl !! LabelSourceUID) = GetUID src) as E1 by by erewrite Hl.
    assert (default "" (rl !! LabelManagedBy) = ManagedByValue) as E2 by by erewrite Hl.
    assert (default "" (rl !! LabelSourceNamespace) = GetNamespace src) as E3 by by erewrite Hl.
    unfold ClassifyReplicaOwnership, observe. rw E1 E2 E3.
    rw (bool_decide_eq_false_2 _ Hu) (bool_decide_eq_false_2 _ Hn).
    rw (bool_decide_eq_true_2 (GetUID src = GetUID src)) //=.
    by rw decide_True.
Qed.

(** ** Interleavings of [install] *)

(** Region by region: a task is an [install] that has not yet looked ([Todo]) or
    that has looked and is talking to the cache ([Asking]). *)
Inductive task :=
  | Todo (cluster : string) (c : Cache) (gvk : GroupVersionKind)
  | Asking (cluster : string) (c : Cache) (gvk : GroupVersionKind).

Inductive lock_step : DriftDetector * list task → DriftDetector * list task → Prop :=
  | ls_start d ts :
      lock_step (d, ts) (set_started d,
        ts ++ (nc ← map_to_list (clusters d);
               map (Todo nc.1 nc.2) (elements (gvks d))))%list
  | ls_ready name c d ts :
      lock_step (d, ts) (ready_region name c d,
        if decide (ctx d ≠ None) then (ts ++ map (Todo name c) (elements (gvks d)))%list else ts)
  | ls_gone name d ts : lock_step (d, ts) (ClusterGone name d, ts)
  | ls_ensure cluster gvk d ts :
      lock_step (d, ts) (learn gvk d,
        match clusters d !! cluster with
        | Some c => if bool_decide (ctx d = None) || is_watched d cluster gvk
                    then ts else (ts ++ [Todo cluster c gvk])%list
        | None => ts
        end)
  | ls_check cluster c gvk d ts1 ts2 :
      lock_step (d, ts1 ++ Todo cluster c gvk :: ts2)%list
        (d, if install_check d cluster gvk then (ts1 ++ Asking cluster c gvk :: ts2)%list
            else (ts1 ++ ts2)%list)
  | ls_refused cluster c gvk d ts1 ts2 :
      lock_step (d, ts1 ++ Asking cluster c gvk :: ts2)%list (d, ts1 ++ ts2)%list
  | ls_commit cluster c gvk d ts1 ts2 :
      lock_step (d, ts1 ++ Asking cluster c gvk :: ts2)%list
        (install_commit cluster gvk (attach c gvk d), ts1 ++ ts2)%list.

(** A cluster that is registered again while an [install] for its old cache is
    between its two regions: the old installation marks the new cache as watched,
    no handler is ever attached to it, and asking again does nothing. *)
Lemma lost_watch_reachable cluster gvk :
  ∃ d, rtc lock_step (NewDriftDetector 0, []) (d, []) ∧
    clusters d !! cluster = Some 2%nat ∧ is_watched d cluster gvk = true ∧
    ((2%nat, gvk) ∉ attached d) ∧ (∀ ok, attached (EnsureWatch ok cluster gvk d) = attached d).
Proof.
  set (d1 := ready_region cluster 1%nat (set_started (NewDriftDetector 0))).
  set (d2 := learn gvk d1).
  set (d3 := ready_region cluster 2%nat (ClusterGone cluster d2)).
  set (d4 := install_commit cluster gvk (attach 1%nat gvk d3)).
  assert (is_watched d2 cluster gvk = false) as E2.
  { apply not_true_iff_false. rw is_watched_true. simpl. rw lookup_insert_eq.
    by intros (w & [= <-] & []%elem_of_empty). }
  assert (d4 = set_watched (<[cluster := ∅ ∪ {[gvk]}]> (watched d3)) (attach 1%nat gvk d3)) as E4.
  { unfold d4, install_commit. simpl. by rw lookup_insert_eq. }
  assert (is_watched d4 cluster gvk = true) as E4w.
  { apply is_watched_true. rw E4. simpl. rw lookup_insert_eq. eexists. split; [done|set_solver]. }
  exists d4. split; [|split_and!].
  - eapply rtc_l; [apply ls_start|]. simpl. rw map_to_list_empty /=.
    eapply rtc_l; [apply (ls_ready cluster 1%nat)|]. simpl. rw elements_empty /=.
    eapply rtc_l; [apply (ls_ensure cluster gvk)|]. fold d1. simpl. rw lookup_insert_eq.
    change (is_watched d1 cluster gvk) with (is_watched d2 cluster gvk). rw E2 /=. fold d1 d2.
    eapply rtc_l; [apply (ls_check cluster 1%nat gvk d2 [] [])|].
    unfold install_check. rw E2 /=.
    eapply rtc_l; [apply (ls_gone cluster)|].
    eapply rtc_l; [apply (ls_ready cluster 2%nat)|]. simpl. rw union_empty_l_L elements_singleton /=.
    fold d1 d2 d3.
    eapply rtc_l; [apply (ls_commit cluster 1%nat gvk d3 [] [Todo cluster 2%nat gvk])|]. fold d4.
    eapply rtc_l; [apply (ls_check cluster 2%nat gvk d4 [] [])|].
    unfold install_check. rw E4w andb_false_r /=. apply rtc_refl.
  - rw E4. simpl. by rw lookup_insert_eq.
  - done.
  - rw E4. simpl. set_solver.
  - intros ok. unfold EnsureWatch.
    change (is_watched (learn gvk d4) cluster gvk) with (is_watched d4 cluster gvk).
    rw E4w orb_true_r. by case_match.
Qed.

#[local] Existing Instance UnstructuredModel.api.
#[local] Existing Instance UnstructuredModel.laws.

Lemma ownership_and_observation_witness :
  let d := Start (λ _ _, true) (NewDriftDetector 0) in
  let rl := GetLabels (Render no_strip {| HubName := "" |} ex_source "team-a" "").1 in
  (wf_obj ex_source ex_metadata ∧ GetUID ex_source ≠ "" ∧ GetNamespace ex_source ≠ "") ∧
  ClassifyReplicaOwnership rl (GetUID ex_source) = OwnershipManaged.
Proof.
  intros d rl.
  assert (GetUID ex_source ≠ "") as H1 by (vm_compute; discriminate).
  assert (GetNamespace ex_source ≠ "") as H2 by (vm_compute; discriminate).
  split; [split_and!; [exact ex_source_wf|exact H1|exact H2]|].
  apply (ownership_and_observation no_strip {| HubName := "" |} ex_source ex_metadata "team-a" ""
           ∅ "" (λ _ _, []) "eu-1" d ex_source_wf H1 H2 eq_refl).
Defined.
