(* ===== verification/Transport.v ===== *)
(** [internal/engine/transport.go]: the seam between the engine and the target
    clusters. [Transport] is the interface the engine is proved against;
    [PushTransport] implements it over the clients of the cluster manager. *)
From S2P Require Import Prelude GoLib Sha256 Api Unstructured Render.

#[local] Open Scope string_scope.

(** A Go error as the engine looks at it: the answers of [apierrors.IsNotFound],
    [apierrors.IsInvalid], [errors.Is(err, ErrClusterUnavailable)] and
    [errors.Is(err, errNamespaceMissing)] on its chain, and [err.Error()]. *)
Record error := {
  IsNotFound : bool;
  IsInvalid : bool;
  IsUnavailable : bool;
  IsNamespaceMissing : bool;
  Error : string;
}.

Definition ErrClusterUnavailable : error :=
  {| IsNotFound := false; IsInvalid := false; IsUnavailable := true;
     IsNamespaceMissing := false; Error := "cluster client unavailable" |}.

(** [fmt.Errorf(prefix + ": %w", err)] *)
Definition wrap (prefix : string) (err : error) : error :=
  {| IsNotFound := IsNotFound err; IsInvalid := IsInvalid err;
     IsUnavailable := IsUnavailable err; IsNamespaceMissing := IsNamespaceMissing err;
     Error := prefix +:+ ": " +:+ Error err |}.

(** What a call to a target cluster does to the world is arbitrary. *)
Class Transport (W : Type) := {
  tApply : string → Obj → SM W (option error);
  tGet : string → GroupVersionKind → string → string → SM W (error + Obj);
  tDelete : string → Obj → SM W (option error);
}.

(** ** PushTransport *)

(** [ClientGetter] and the three methods of controller-runtime's [client.Client]
    the transport calls; server-side apply takes the field manager, and its
    ownership is always forced. A client that is found is not nil. *)
Class ClientGetter (W : Type) := {
  Client : Type;
  GetClient : string → W → option Client;
  clientApply : Client → Obj → string → SM W (option error);
  clientGet : Client → GroupVersionKind → string → string → SM W (error + Obj);
  clientDelete : Client → Obj → SM W (option error);
}.

(** [type PushTransport struct]: the clients are the class. *)
Record PushTransport := { FieldManager : string }.

Definition NewPushTransport (fieldManager : string) : PushTransport :=
  {| FieldManager := fieldManager |}.

Definition fieldManager (t : PushTransport) : string :=
  if decide (FieldManager t = "") then ManagedByValue else FieldManager t.

Section push.
Context {W : Type} `{ClientGetter W} (t : PushTransport).

Definition clientFor (cluster : string) : SM W (error + Client) :=
  c ← sgets (GetClient cluster);
  mret match c with
       | Some c => inr c
       | None => inl (wrap ("cluster " +:+ quote cluster) ErrClusterUnavailable)
       end.

Definition Apply (cluster : string) (obj : Obj) : SM W (option error) :=
  c ← clientFor cluster;
  match c with
  | inl err => mret (Some err)
  | inr c => clientApply c obj (fieldManager t)
  end.

Definition Get (cluster : string) (gvk : GroupVersionKind) (namespace name : string)
    : SM W (error + Obj) :=
  c ← clientFor cluster;
  match c with
  | inl err => mret (inl err)
  | inr c => clientGet c gvk namespace name
  end.

Definition Delete (cluster : string) (obj : Obj) : SM W (option error) :=
  c ← clientFor cluster;
  match c with
  | inl err => mret (Some err)
  | inr c => clientDelete c obj
  end.

Definition push_transport : Transport W :=
  {| tApply := Apply; tGet := Get; tDelete := Delete |}.

(** A cluster without a client costs nothing and harms nothing: every call
    answers with an error that is recognised as cluster-unavailable (and as
    neither not-found nor invalid) and leaves the world alone; with a client the
    answer is that client's own, and writes go under the configured field manager,
    the operator's name by default. *)
Theorem push_transport_correct cluster gvk obj ns name w :
  match GetClient cluster w with
  | None =>
      ∃ err, IsUnavailable err = true ∧ IsNotFound err = false ∧ IsInvalid err = false ∧
        tApply (Transport := push_transport) cluster obj w = (Some err, w) ∧
        tGet (Transport := push_transport) cluster gvk ns name w = (inl err, w) ∧
        tDelete (Transport := push_transport) cluster obj w = (Some err, w)
  | Some c =>
      tApply (Transport := push_transport) cluster obj w
        = clientApply c obj (if decide (FieldManager t = "") then "k8s-r8r" else FieldManager t) w ∧
      tGet (Transport := push_transport) cluster gvk ns name w = clientGet c gvk ns name w ∧
      tDelete (Transport := push_transport) cluster obj w = clientDelete c obj w
  end.
Proof.
  assert (clientFor cluster w = (match GetClient cluster w with
    | Some c => inr c
    | None => inl (wrap ("cluster " +:+ quote cluster) ErrClusterUnavailable) end, w)) as E by done.
  unfold push_transport, Apply, Get, Delete; simpl; unfold mbind, SM_bind. rw E.
  case_match; [done|]. by exists (wrap ("cluster " +:+ quote cluster) ErrClusterUnavailable).
Qed.
End push.
