(* ===== verification/Engine.v ===== *)
(** [internal/engine/reconciler.go]: the replication engine. [Reconcile] runs in
    the state [Engine]: the reconciler's own fields, the world the hub API and the
    transport act on (any type with the operations [Hub] and [Transport]), and a
    trace of every call, event and metric in order. *)
From S2P Require Import Prelude GoLib Sha256 Api Labels Annotations Policy Unstructured Render.
From S2P Require Import Conflict Backoff Inventory Status Telemetry Drift Transport.

#[local] Open Scope string_scope.

Definition errNamespaceMissing : error :=
  {| IsNotFound := false; IsInvalid := false; IsUnavailable := false; IsNamespaceMissing := true;
     Error := "target namespace does not exist and no matching policy allows namespace creation" |}.

(** ** Options *)

(** The options the model reads; [Recorder] and [Clusters] say whether the
    reconciler's fields of these names are set, and [strip] is the process-wide
    denylist configuration of render.go. *)
Record Options := {
  opt_HubName : string;
  opt_FieldManager : string;
  DriftResync : Z;
  BackoffBase : Z;
  BackoffMax : Z;
  KindGVKs : option (gmap string GroupVersionKind);
}.

Definition coreGVK (kind : string) : GroupVersionKind :=
  {| gvk_Group := ""; gvk_Version := "v1"; gvk_Kind := kind |}.

Definition withDefaults (o : Options) : Options :=
  {| opt_HubName := if decide (opt_HubName o = "") then "hub" else opt_HubName o;
     opt_FieldManager :=
       if decide (opt_FieldManager o = "") then ManagedByValue else opt_FieldManager o;
     DriftResync := if (DriftResync o <=? 0)%Z then defaultDriftResync else DriftResync o;
     BackoffBase := if (BackoffBase o <=? 0)%Z then (5 * Second)%Z else BackoffBase o;
     BackoffMax := if (BackoffMax o <=? 0)%Z then (5 * Minute)%Z else BackoffMax o;
     KindGVKs := match KindGVKs o with
                 | None => Some {[ "Secret" := coreGVK "Secret"; "ConfigMap" := coreGVK "ConfigMap" ]}
                 | Some m => Some m
                 end |}.

Record Config := {
  options : Options;
  strip : StripConfig;
  Recorder : bool;
  Clusters : bool;
}.

Definition kindGVKs (cfg : Config) : gmap string GroupVersionKind :=
  default ∅ (KindGVKs (withDefaults (options cfg))).

Definition renderer (cfg : Config) : Renderer :=
  {| HubName := opt_HubName (withDefaults (options cfg)) |}.

(** ** The world *)

(** The hub client's calls, the discovery inventory and the clock. A write answers
    with the stored object, which the client decodes into the caller's; for a
    status write also whether the decoder reused the inventory's array. *)
Class Hub (W : Type) := {
  hubGetReplication : NamespacedName → SM W (error + Replication);
  hubUpdate : Replication → SM W (error + Replication);
  hubUpdateStatus : Replication → SM W (error + Replication * bool);
  hubGetObject : GroupVersionKind → string → string → SM W (error + Obj);
  hubListPolicies : SM W (error + list ReplicationPolicy);
  hubGetNamespaceLabels : string → SM W (error + gmap string string);
  discovered : W → string → option (gmap string string);
  metav1_Now : W → Z;
  time_Now : W → Z;
  informer_ok : W → Cache → GroupVersionKind → bool;
}.

(** What an observer of the operator sees, and what it read to get there. *)
Inductive Act :=
  | GetReplication (nn : NamespacedName) (res : error + Replication)
  | Update (r : Replication) (res : error + Replication)
  | UpdateStatus (r : Replication) (res : error + Replication)
  | GetSource (gvk : GroupVersionKind) (ns name : string) (res : error + Obj)
  | ListPolicies (res : error + list ReplicationPolicy)
  | GetNamespaceLabels (ns : string) (res : error + gmap string string)
  | Discovered (f : string → option (gmap string string))
  | SpokeGet (cluster : string) (gvk : GroupVersionKind) (ns name : string) (res : error + Obj)
  | SpokeApply (cluster : string) (obj : Obj) (res : option error)
  | SpokeDelete (cluster : string) (obj : Obj) (res : option error)
  | Event (type reason message : string)
  | Inc (m : Metric).

Record Engine (W : Type) := {
  world : W;
  backoff : backoffTracker;
  limiter : EventLimiter;
  lastResults : gmap string Result;
  drift : option DriftDetector;
  replicas : Aggregator;
  (** the local [inv] of [Reconcile] *)
  inv : Slice;
  trace : list Act;
}.
Arguments world {W}. Arguments backoff {W}. Arguments limiter {W}. Arguments lastResults {W}.
Arguments drift {W}. Arguments replicas {W}. Arguments inv {W}. Arguments trace {W}.

Section state.
Context {W : Type}.

Definition set_world (w : W) (e : Engine W) : Engine W :=
  {| world := w; backoff := backoff e; limiter := limiter e; lastResults := lastResults e;
     drift := drift e; replicas := replicas e; inv := inv e; trace := trace e |}.
Definition set_backoff b (e : Engine W) : Engine W :=
  {| world := world e; backoff := b; limiter := limiter e; lastResults := lastResults e;
     drift := drift e; replicas := replicas e; inv := inv e; trace := trace e |}.
Definition set_limiter l (e : Engine W) : Engine W :=
  {| world := world e; backoff := backoff e; limiter := l; lastResults := lastResults e;
     drift := drift e; replicas := replicas e; inv := inv e; trace := trace e |}.
Definition set_lastResults m (e : Engine W) : Engine W :=
  {| world := world e; backoff := backoff e; limiter := limiter e; lastResults := m;
     drift := drift e; replicas := replicas e; inv := inv e; trace := trace e |}.
Definition set_drift d (e : Engine W) : Engine W :=
  {| world := world e; backoff := backoff e; limiter := limiter e; lastResults := lastResults e;
     drift := d; replicas := replicas e; inv := inv e; trace := trace e |}.
Definition set_replicas a (e : Engine W) : Engine W :=
  {| world := world e; backoff := backoff e; limiter := limiter e; lastResults := lastResults e;
     drift := drift e; replicas := a; inv := inv e; trace := trace e |}.
Definition set_inv s (e : Engine W) : Engine W :=
  {| world := world e; backoff := backoff e; limiter := limiter e; lastResults := lastResults e;
     drift := drift e; replicas := replicas e; inv := s; trace := trace e |}.
Definition set_trace t (e : Engine W) : Engine W :=
  {| world := world e; backoff := backoff e; limiter := limiter e; lastResults := lastResults e;
     drift := drift e; replicas := replicas e; inv := inv e; trace := t |}.

(** The fields after [init]. *)
Definition init (cfg : Config) (w : W) (d : option DriftDetector) : Engine W :=
  let o := withDefaults (options cfg) in
  {| world := w; backoff := newBackoffTracker (BackoffBase o) (BackoffMax o);
     limiter := NewEventLimiter 0; lastResults := ∅; drift := d; replicas := ∅;
     inv := fresh []; trace := [] |}.

Definition emit (a : Act) : SM (Engine W) unit := smod (λ e, set_trace (trace e ++ [a])%list e).

(** A call to the world, with what the trace says of its answer. *)
Definition do_call {A} (m : SM W A) (act : A → Act) : SM (Engine W) A :=
  λ e, let '(a, w) := m (world e) in (a, set_trace (trace e ++ [act a])%list (set_world w e)).
End state.

(** ** Pure helpers *)

Record slotInfo := { si_cluster : string; si_namespace : string; si_name : string }.

Definition slot_key (gvk : GroupVersionKind) (s : slotInfo) : SlotKey :=
  {| sk_Cluster := si_cluster s; sk_Namespace := si_namespace s; sk_Name := si_name s;
     sk_Group := gvk_Group gvk; sk_Kind := gvk_Kind gvk |}.

(** [type nsKey struct{ cluster, namespace string }] *)
Abbreviation nsKey := (string * string)%type.

(** The [ClusterInventory] answers for a nil [Clusters]: no labels, never gone. *)
Definition clusterLabels (cfg : Config) (f : string → option (gmap string string)) (c : string)
    : gmap string string :=
  if Clusters cfg then default ∅ (f c) else ∅.

Definition clusterGone (cfg : Config) (f : string → option (gmap string string)) (c : string)
    : bool :=
  Clusters cfg && bool_decide (f c = None).

(** The slots and the targets of the policy request, index by index. *)
Definition flattenTargets (cfg : Config) (f : string → option (gmap string string))
    (rep : Replication) (sourceName : string) (src : Source) : list slotInfo * PolicyRequest :=
  let expanded :=
    tgt ← ResolvedTargets (rep_Spec rep);
    let name := if decide (rt_TargetName tgt = "") then sourceName else rt_TargetName tgt in
    map (λ ns,
        ({| si_cluster := rt_ClusterName tgt; si_namespace := ns; si_name := name |},
         {| t_ClusterName := rt_ClusterName tgt;
            t_ClusterLabels := clusterLabels cfg f (rt_ClusterName tgt);
            t_Namespace := ns |}))
      (rt_Namespaces tgt) in
  (map fst expanded, {| q_Source := src; q_Targets := map snd expanded |}).

Definition policiesByName (policies : list ReplicationPolicy) (names : list string)
    : list ReplicationPolicy :=
  filter (λ p, pol_Name p ∈ names) policies.

Definition gvkForEntry (cfg : Config) (e : InventoryEntry) : option GroupVersionKind :=
  List.find (λ g, bool_decide (gvk_Kind g = ie_Kind e) && bool_decide (gvk_Group g = ie_Group e))
    (map snd (map_to_list (kindGVKs cfg))).

Definition classifyTransportErr (err : error) : string :=
  if IsUnavailable err then ReasonClusterUnreachable else ReasonApplyFailed.

Definition minDelay (delays : list Z) : Z :=
  foldl (λ m d, if ((0 <? d) && ((m =? 0) || (d <? m)))%Z then d else m) 0%Z delays.

Definition clusterSet (inv : list InventoryEntry) (targets : list ResolvedTarget) : list string :=
  let step out c := if decide (c ∈ out) then out else (out ++ [c])%list in
  foldl step (foldl step [] (map ie_ClusterName inv)) (map rt_ClusterName targets).

Definition replicaCountsByCluster (states : list targetState) : gmap string ReplicaCounts :=
  foldl (λ out s,
      if decide (ts_Cluster s = "") then out
      else
        let c := default no_counts (out !! ts_Cluster s) in
        <[ts_Cluster s :=
            {| Desired := (Desired c + if ts_Desired s then 1 else 0)%Z;
               Ready := (Ready c + if ts_Ready s then 1 else 0)%Z;
               Failed := (Failed c + if ts_Ready s then 0 else 1)%Z |}]> out)
    ∅ states.

(** One iteration of the loop of [addInventoryRevocations]. *)
Definition add_revocation (inv : list InventoryEntry) (st : gset nsKey * list Revocation)
    (dec : Decision) : gset nsKey * list Revocation :=
  let '(covered, revs) := st in
  let k := target_key (d_Target dec) in
  if Allowed dec || bool_decide (k ∈ covered) then st
  else if decide (entriesInNamespace inv k.1 k.2 = []) then st
  else
    (covered ∪ {[k]},
     revs ++ [{| rev_Target := d_Target dec;
                 rev_Previous := {| d_Target := d_Target dec; Allowed := true;
                                    MatchedPolicies := []; DeniedDimension := "";
                                    Reason := "" |};
                 rev_Current := Some dec |}])%list.

Definition addInventoryRevocations (revocations : list Revocation) (current : Result)
    (inv : list InventoryEntry) : list Revocation :=
  let covered := list_to_set (map (λ r, target_key (rev_Target r)) revocations) in
  (foldl (add_revocation inv) (covered, revocations) (Decisions current)).2.

(** Policies whose source dimensions still match a revoked target's source. *)
Definition source_matches `{LabelsAPI} (src : Source) (tgt : Target) (p : ReplicationPolicy) : bool :=
  let d := decide_target src tgt [p] in
  Allowed d || bool_decide (DeniedDimension d = DimensionTargetCluster)
  || bool_decide (DeniedDimension d = DimensionTargetNamespace).

Definition effectiveRevocationPolicy `{LabelsAPI} (policies : list ReplicationPolicy)
    (rev : Revocation) (src : Source) : string :=
  let named := policiesByName policies (MatchedPolicies (rev_Previous rev)) in
  if bool_decide (MatchedPolicies (rev_Previous rev) ≠ []) && bool_decide (named ≠ [])
  then eff_RevocationPolicy (ResolveOptions named)
  else
    let subset := List.filter (source_matches src (rev_Target rev)) policies in
    match subset with
    | [] => RevocationPolicyDelete
    | _ => eff_RevocationPolicy (ResolveOptions subset)
    end.

Definition mkState (s : slotInfo) (ready : bool) (reason message : string) : targetState :=
  {| ts_Cluster := si_cluster s; ts_Namespace := si_namespace s; ts_Name := si_name s;
     ts_Ready := ready; ts_Desired := true; ts_Reason := reason; ts_Message := message |}.

(** A state of a leftover replica, which is not desired. *)
Definition gcState (e : InventoryEntry) (reason message : string) : targetState :=
  {| ts_Cluster := ie_ClusterName e; ts_Namespace := ie_Namespace e; ts_Name := ie_Name e;
     ts_Ready := false; ts_Desired := false; ts_Reason := reason; ts_Message := message |}.

(** ** The reconciler *)

(** A [return fail(reason, msg, retry)] inside [applyTarget], or going on. *)
Abbreviation outcome := ((string * string * bool) + unit)%type.

(** A [continue] of the delete loop: a state, perhaps, with its delay, perhaps. *)
Abbreviation gcResult := (option targetState * option Z)%type.

(** A [ctrl.Result] carries the requeue delay; 0 is no requeue. *)
Abbreviation Res := (error + Z)%type.

Section reconciler.
Context {W : Type} `{Hub W} `{Transport W} `{MetaAPI} `{LabelsAPI} `{UnstructuredAPI}.
Context (cfg : Config).

#[local] Abbreviation M A := (SM (Engine W) A).

Definition transportApply (cluster : string) (obj : Obj) : M (option error) :=
  do_call (tApply cluster obj) (SpokeApply cluster obj).

Definition transportGet (cluster : string) (gvk : GroupVersionKind) (ns name : string)
    : M (error + Obj) :=
  do_call (tGet cluster gvk ns name) (SpokeGet cluster gvk ns name).

Definition transportDelete (cluster : string) (obj : Obj) : M (option error) :=
  do_call (tDelete cluster obj) (SpokeDelete cluster obj).

Definition clientUpdate (r : Replication) : M (error + Replication) :=
  do_call (hubUpdate r) (Update r).

Definition clientStatusUpdate (r : Replication) : M (error + Replication * bool) :=
  do_call (hubUpdateStatus r)
    (λ res, UpdateStatus r match res with inl err => inl err | inr (r', _) => inr r' end).

Definition readDiscovered : M (string → option (gmap string string)) :=
  do_call (sgets discovered) Discovered.

Definition inc (m : Metric) : M unit := emit (Inc m).

Definition event (rep : Replication) (type reason message : string) : M unit :=
  if Recorder cfg then
    e ← sget;
    let '(ok, l) := Allow (time_Now (world e)) (rep_UID rep) reason message (limiter e) in
    _ ← smod (set_limiter l);
    if ok : bool then emit (Event type reason message) else mret tt
  else mret tt.

Definition backoffFailure (nn : NamespacedName) (cluster : string) : M Z :=
  e ← sget;
  let '(d, b) := Failure nn cluster (backoff e) in
  _ ← smod (set_backoff b);
  mret d.

Definition backoffSuccess (nn : NamespacedName) (cluster : string) : M unit :=
  smod (λ e, set_backoff (Success nn cluster (backoff e)) e).

Definition invRemove (k : SlotKey) : M unit := smod (λ e, set_inv (removeEntry (inv e) k) e).

Definition invUpsert (x : InventoryEntry) : M unit :=
  smod (λ e, set_inv (upsertEntry (inv e) x) e).

(** [if r.drift != nil { r.drift.EnsureWatch(...) }] *)
Definition ensureWatch (cluster : string) (gvk : GroupVersionKind) : M unit :=
  smod (λ e, set_drift (EnsureWatch (informer_ok (world e)) cluster gvk <$> drift e) e).

Definition applyWithRecreate (cluster : string) (desired : Obj) : M (option error) :=
  err ← transportApply cluster desired;
  match err with
  | Some e0 =>
      if IsInvalid e0 then
        delErr ← transportDelete cluster desired;
        match delErr with
        | Some e1 => if IsNotFound e1 then transportApply cluster desired else mret (Some e1)
        | None => transportApply cluster desired
        end
      else mret (Some e0)
  | None => mret None
  end.

Definition ensureNamespace (cluster namespace : string) (allowCreate : bool) : M (option error) :=
  got ← transportGet cluster namespaceGVK "" namespace;
  match got with
  | inr _ => mret None
  | inl err =>
      if negb (IsNotFound err) then mret (Some err)
      else if negb allowCreate then
        mret (Some (wrap ("namespace " +:+ quote namespace) errNamespaceMissing))
      else transportApply cluster (namespacePayload namespace)
  end.

Definition failed (err : error) : outcome := inl (classifyTransportErr err, Error err, true).

(** [if applyErr := ...; applyErr != nil { return fail(...) }] and then [k]. *)
Definition or_fail (m : M (option error)) (k : M unit) : M outcome :=
  err ← m;
  match err with
  | Some err => mret (failed err)
  | None => _ ← k; mret (inr tt)
  end.

Definition driftCorrected (rep : Replication) (s : slotInfo) (observed hash : string) : M unit :=
  _ ← inc (driftCorrections (si_cluster s));
  event rep "Warning" "DriftCorrected"
    ("restored replica " +:+ replicaRef (si_cluster s) (si_namespace s) (si_name s)
     +:+ ": observed content " +:+ observed +:+ ", expected " +:+ hash).

(** The default branch of the switch: conflict classification. *)
Definition resolveConflict (rep : Replication) (src : Obj) (gvk : GroupVersionKind) (s : slotInfo)
    (eff : EffectiveOptions) (existing desired : Obj) (hash : string) : M outcome :=
  let ref := replicaRef (si_cluster s) (si_namespace s) (si_name s) in
  let decision := DecideConflict (strip cfg) existing src hash (eff_AllowedConflictPolicies eff) in
  match Action decision with
  | ActionFail =>
      _ ← inc (conflicts "fail");
      _ ← event rep "Warning" ReasonConflict
            ("target " +:+ ref +:+ ": " +:+ cd_Message decision);
      mret (inl (ReasonConflict, cd_Message decision, false))
  | ActionAdopt =>
      _ ← inc (conflicts "adopt");
      or_fail
        (transportApply (si_cluster s)
           (AdoptPatch (renderer cfg) src gvk (si_namespace s) (si_name s) hash))
        (event rep "Normal" "Adopted"
           ("adopted existing object " +:+ ref +:+ " (content hash equal)"))
  | ActionOverwrite =>
      _ ← inc (conflicts "overwrite");
      or_fail (applyWithRecreate (si_cluster s) desired)
        (event rep "Warning" "ConflictOverwritten"
           ("took over unmanaged object " +:+ ref +:+ " (conflict policy Overwrite)"))
  | ActionApply =>
      let observed := SourceHash (strip cfg) existing in
      let corrected := negb (bool_decide (observed = hash)) in
      if negb (bool_decide (default "" (GetAnnotations existing !! AnnotationSourceHash) = hash))
         || corrected
      then
        or_fail (applyWithRecreate (si_cluster s) desired)
          (if corrected then driftCorrected rep s observed hash else mret tt)
      else mret (inr tt)
  end.

(** The switch of [applyTarget] on the live read. *)
Definition convergeSlot (rep : Replication) (src : Obj) (gvk : GroupVersionKind) (s : slotInfo)
    (eff : EffectiveOptions) (desired : Obj) (hash : string) : M outcome :=
  got ← transportGet (si_cluster s) gvk (si_namespace s) (si_name s);
  match got with
  | inl err =>
      if IsNotFound err then or_fail (transportApply (si_cluster s) desired) (mret tt)
      else mret (failed err)
  | inr existing =>
      if decide (ClassifyReplicaOwnership (GetLabels existing) (GetUID src) = OwnershipStripped)
      then
        let observed := SourceHash (strip cfg) existing in
        or_fail (applyWithRecreate (si_cluster s) desired)
          (_ ← inc (replicaOwnershipLost (si_cluster s) OwnershipRepaired);
           _ ← event rep "Warning" ReasonOwnershipRepaired
                 ("replica " +:+ replicaRef (si_cluster s) (si_namespace s) (si_name s)
                  +:+ " lost its " +:+ LabelManagedBy
                  +:+ " label and had dropped out of the drift watch; ownership marks and content restored");
           if decide (observed = hash) then mret tt else driftCorrected rep s observed hash)
      else resolveConflict rep src gvk s eff existing desired hash
  end.

(** The closure [fail] of [applyTarget]. *)
Definition fail (nn : NamespacedName) (gvk : GroupVersionKind) (s : slotInfo)
    (reason msg : string) (retry : bool) : M (targetState * Z) :=
  if retry then
    d ← backoffFailure nn (si_cluster s);
    mret (mkState s false reason msg, d)
  else
    _ ← invRemove (slot_key gvk s);
    mret (mkState s false reason msg, 0%Z).

Definition entry_of (gvk : GroupVersionKind) (s : slotInfo) (hash : string) : InventoryEntry :=
  {| ie_ClusterName := si_cluster s; ie_Namespace := si_namespace s; ie_Name := si_name s;
     ie_Group := gvk_Group gvk; ie_Kind := gvk_Kind gvk; LastAppliedHash := hash |}.

Definition applyTarget (nn : NamespacedName) (rep : Replication) (src : Obj)
    (gvk : GroupVersionKind) (s : slotInfo) (eff : EffectiveOptions) : M (targetState * Z) :=
  nsErr ← ensureNamespace (si_cluster s) (si_namespace s) (eff_AllowNamespaceCreation eff);
  match nsErr with
  | Some err =>
      if IsNamespaceMissing err then
        _ ← invRemove (slot_key gvk s);
        d ← backoffFailure nn (si_cluster s);
        mret (mkState s false ReasonNamespaceMissing (Error err), d)
      else if IsUnavailable err then fail nn gvk s ReasonClusterUnreachable (Error err) true
      else fail nn gvk s ReasonApplyFailed ("ensuring namespace: " +:+ Error err) true
  | None =>
      let '(desired, hash) := Render (strip cfg) (renderer cfg) src (si_namespace s) (si_name s) in
      out ← convergeSlot rep src gvk s eff desired hash;
      match out with
      | inl (reason, msg, retry) => fail nn gvk s reason msg retry
      | inr _ =>
          _ ← backoffSuccess nn (si_cluster s);
          _ ← invUpsert (entry_of gvk s hash);
          _ ← ensureWatch (si_cluster s) gvk;
          mret (mkState s true "" "", 0%Z)
      end
  end.

Definition deniedState (s : slotInfo) (dec : Decision) (retained : gset SlotKey)
    (revokedDelete : gset nsKey) (gvk : GroupVersionKind) : M targetState :=
  e ← sget;
  let key := slot_key gvk s in
  if decide (key ∈ retained) then
    mret (mkState s false ReasonPolicyRevoked
      "permission withdrawn; replica retained but no longer updated (revocationPolicy Retain)")
  else if bool_decide ((si_cluster s, si_namespace s) ∈ revokedDelete)
          && hasEntry (view (inv e)) key then
    mret (mkState s false ReasonPolicyRevoked
      "permission withdrawn; deleting replica (revocationPolicy Delete)")
  else
    _ ← inc (policyDenials (DeniedDimension dec));
    mret (mkState s false ReasonPolicyDenied (Reason dec)).

(** The three maps [applyRevocations] fills. *)
Record revoked := {
  retainedKeys : gset SlotKey;
  revokedDeleteNS : gset nsKey;
  revokedRetained : bool;
}.

(** One iteration of the loop of [applyRevocations]. *)
Definition revoke (rep : Replication) (policies : list ReplicationPolicy) (src : Source)
    (inventory : list InventoryEntry) (acc : revoked) (rev : Revocation) : M revoked :=
  let '(c, ns) := target_key (rev_Target rev) in
  let entries := entriesInNamespace inventory c ns in
  let n := dec (Z.of_nat (length entries)) in
  match rev_Current rev with
  | None => mret acc
  | Some _ =>
      if decide (entries = []) then mret acc
      else
        let p := effectiveRevocationPolicy policies rev src in
        if decide (p = RevocationPolicyRetain) then
          _ ← inc (revocations "retain");
          _ ← event rep "Warning" ReasonPolicyRevoked
                ("policy no longer permits target " +:+ c +:+ "/" +:+ ns +:+ "; retaining " +:+ n
                 +:+ " replica(s) without further updates (revocationPolicy Retain)");
          mret {| retainedKeys := retainedKeys acc ∪ list_to_set (map KeyForEntry entries);
                  revokedDeleteNS := revokedDeleteNS acc; revokedRetained := true |}
        else if decide (p = RevocationPolicyDelete) then
          _ ← inc (revocations "delete");
          _ ← event rep "Warning" ReasonPolicyRevoked
                ("policy no longer permits target " +:+ c +:+ "/" +:+ ns +:+ "; deleting " +:+ n
                 +:+ " replica(s) (revocationPolicy Delete)");
          mret {| retainedKeys := retainedKeys acc;
                  revokedDeleteNS := revokedDeleteNS acc ∪ {[ (c, ns) ]};
                  revokedRetained := revokedRetained acc |}
        else mret acc
  end.

Definition applyRevocations (rep : Replication) (revocations : list Revocation)
    (policies : list ReplicationPolicy) (src : Source) (inventory : list InventoryEntry)
    : M revoked :=
  foldSM (revoke rep policies src inventory)
    {| retainedKeys := ∅; revokedDeleteNS := ∅; revokedRetained := false |} revocations.

(** The release loop of [collectGarbage]. *)
Definition releaseEntry (rep : Replication) (e : InventoryEntry) : M unit :=
  _ ← event rep "Warning" "ClusterGone"
        ("cluster " +:+ quote (ie_ClusterName e) +:+ " left discovery inventory; releasing replica "
         +:+ ie_Namespace e +:+ "/" +:+ ie_Name e +:+ " without cleanup");
  invRemove (KeyForEntry e).

(** The object the delete loop addresses. *)
Definition deleteObj (gvk : GroupVersionKind) (e : InventoryEntry) : Obj :=
  SetName (ie_Name e) (SetNamespace (ie_Namespace e) (SetGroupVersionKind gvk ∅)).

Definition gcFailed (nn : NamespacedName) (e : InventoryEntry) (what : string) (err : error)
    : M gcResult :=
  d ← backoffFailure nn (ie_ClusterName e);
  mret (Some (gcState e (classifyTransportErr err) (what +:+ Error err)), Some d).

(** The tail of the delete loop, from [r.Transport.Delete]. *)
Definition deleteReplica (nn : NamespacedName) (rep : Replication) (gvk : GroupVersionKind)
    (e : InventoryEntry) : M gcResult :=
  let gone :=
    _ ← backoffSuccess nn (ie_ClusterName e);
    _ ← invRemove (KeyForEntry e);
    _ ← event rep "Normal" "CleanedUp"
          ("cleaned up replica " +:+ replicaRef (ie_ClusterName e) (ie_Namespace e) (ie_Name e));
    mret (None, None) in
  err ← transportDelete (ie_ClusterName e) (deleteObj gvk e);
  match err with
  | Some err => if IsNotFound err then gone else gcFailed nn e "deleting replica: " err
  | None => gone
  end.

(** One iteration of the delete loop of [collectGarbage]. *)
Definition deleteEntry (nn : NamespacedName) (rep : Replication) (e : InventoryEntry) : M gcResult :=
  let ref := replicaRef (ie_ClusterName e) (ie_Namespace e) (ie_Name e) in
  match gvkForEntry cfg e with
  | None =>
      mret (Some (gcState e ReasonApplyFailed
        ("cannot delete replica: kind " +:+ quote (ie_Kind e) +:+ " (group " +:+ quote (ie_Group e)
         +:+ ") is not on the engine allowlist")), None)
  | Some gvk =>
      got ← transportGet (ie_ClusterName e) gvk (ie_Namespace e) (ie_Name e);
      match got with
      | inl err =>
          if IsNotFound err then
            _ ← backoffSuccess nn (ie_ClusterName e);
            _ ← invRemove (KeyForEntry e);
            mret (None, None)
          else gcFailed nn e "checking replica before delete: " err
      | inr existing =>
          match ClassifyReplicaOwnership (GetLabels existing) (sr_UID (SourceRef (rep_Spec rep))) with
          | OwnershipForeign =>
              _ ← inc (replicaOwnershipLost (ie_ClusterName e) OwnershipOrphaned);
              _ ← event rep "Warning" ReasonReplicaOrphaned
                    ("inventory entry " +:+ ref
                     +:+ " no longer carries this replication's ownership labels; releasing it without deleting anything — the object on the spoke may need manual cleanup");
              _ ← invRemove (KeyForEntry e);
              mret (None, None)
          | OwnershipStripped =>
              _ ← inc (replicaOwnershipLost (ie_ClusterName e) OwnershipDeleted);
              _ ← event rep "Warning" ReasonOwnershipStripped
                    ("replica " +:+ ref +:+ " had lost its " +:+ LabelManagedBy
                     +:+ " label; deleting it during cleanup anyway, because its "
                     +:+ LabelSourceUID +:+ " label still identifies it");
              deleteReplica nn rep gvk e
          | OwnershipManaged => deleteReplica nn rep gvk e
          end
      end
  end.

Definition collectGarbage (nn : NamespacedName) (rep : Replication) (keep : gset SlotKey)
    : M (list targetState * list Z) :=
  known ← readDiscovered;
  e ← sget;
  let plan := PlanGC (view (inv e)) keep (clusterGone cfg known) in
  _ ← forSM (Release plan) (releaseEntry rep);
  rs ← forSM (Inventory.Delete plan) (deleteEntry nn rep);
  mret (omap fst rs, omap snd rs).

(** The status [rep] shows when its inventory still is the first [n] elements of
    the array that the local [inv] edits in place. *)
Definition statusThrough (shared : option nat) (rep : Replication) (s : Slice) : ReplicationStatus :=
  match shared with
  | None => rep_Status rep
  | Some n =>
      let st := rep_Status rep in
      {| Summary := Summary st; SourceHash_ := SourceHash_ st; Conditions := Conditions st;
         NonReadyTargets := NonReadyTargets st; NonReadyOverflow := NonReadyOverflow st;
         Inventory_ := take n (arr s) |}
  end.

Definition with_status (rep : Replication) (st : ReplicationStatus) : Replication :=
  {| rep_Namespace := rep_Namespace rep; rep_Name := rep_Name rep; rep_UID := rep_UID rep;
     rep_Generation := rep_Generation rep; rep_DeletionTimestamp := rep_DeletionTimestamp rep;
     rep_Finalizers := rep_Finalizers rep; rep_Labels := rep_Labels rep;
     rep_OwnerReferences := rep_OwnerReferences rep; rep_Spec := rep_Spec rep; rep_Status := st |}.

Definition with_inventory (rep : Replication) (l : list InventoryEntry) : Replication :=
  let st := rep_Status rep in
  with_status rep
    {| Summary := Summary st; SourceHash_ := SourceHash_ st; Conditions := Conditions st;
       NonReadyTargets := NonReadyTargets st; NonReadyOverflow := NonReadyOverflow st;
       Inventory_ := l |}.

Definition with_finalizers (rep : Replication) (fs : list string) : Replication :=
  {| rep_Namespace := rep_Namespace rep; rep_Name := rep_Name rep; rep_UID := rep_UID rep;
     rep_Generation := rep_Generation rep; rep_DeletionTimestamp := rep_DeletionTimestamp rep;
     rep_Finalizers := fs; rep_Labels := rep_Labels rep;
     rep_OwnerReferences := rep_OwnerReferences rep; rep_Spec := rep_Spec rep;
     rep_Status := rep_Status rep |}.

(** [Semantic.DeepEqual] on statuses is equality here: nil and empty slices are
    both [[]]. *)
Definition writeStatusIfChanged (rep : Replication) (shared : option nat)
    (next : ReplicationStatus) : M (option error) :=
  e ← sget;
  if decide (statusThrough shared rep (inv e) = next) then mret None
  else
    res ← clientStatusUpdate (with_status rep next);
    mret match res with inl err => Some err | inr _ => None end.

Definition finishSimple (rep : Replication) (reason message : string) (requeue : Z) : M Res :=
  e ← sget;
  let states := [{| ts_Cluster := ""; ts_Namespace := ""; ts_Name := ""; ts_Ready := false;
                    ts_Desired := false; ts_Reason := reason; ts_Message := message |}] in
  let st := rep_Status rep in
  let next := buildStatus rep (SourceHash_ st) states (Inventory_ st) false
                (metav1_Now (world e)) in
  err ← writeStatusIfChanged rep None next;
  mret match err with Some err => inl err | None => inr requeue end.

Definition emitTransitionEvents (rep : Replication) (prev next : option Condition) : M unit :=
  match next with
  | None => mret tt
  | Some c =>
      if bool_decide (c_Status c = ConditionTrue)
         && bool_decide (c_Status <$> prev ≠ Some ConditionTrue)
      then event rep "Normal" "Replicated" (c_Message c)
      else if bool_decide (c_Status c = ConditionFalse)
              && (bool_decide (c_Reason c = ReasonPolicyDenied)
                  || bool_decide (c_Reason c = ReasonNoTargets))
              && bool_decide (c_Reason <$> prev ≠ Some (c_Reason c))
      then event rep "Warning" (c_Reason c) (c_Message c)
      else mret tt
  end.

Definition reconcileDeletion (nn : NamespacedName) (rep : Replication) : M Res :=
  if negb (ContainsFinalizer (rep_Finalizers rep) FinalizerName) then mret (inr 0%Z)
  else
    _ ← smod (set_inv (fresh (Inventory_ (rep_Status rep))));
    '(states, delays) ← collectGarbage nn rep ∅;
    e ← sget;
    let left := view (inv e) in
    if decide (left = []) then
      let rep := with_inventory rep [] in
      res ← clientUpdate
              (with_finalizers rep (RemoveFinalizer (rep_Finalizers rep) FinalizerName));
      match res with
      | inl err => mret (inl err)
      | inr rep =>
          _ ← smod (λ e,
                set_limiter (Telemetry.Forget (rep_UID rep) (limiter e))
                  (set_replicas (ForgetReplicas (nn_String nn) (replicas e))
                     (set_lastResults (delete (rep_UID rep) (lastResults e))
                        (set_backoff (Backoff.Forget nn (backoff e)) e))));
          mret (inr 0%Z)
      end
    else
      let next := buildStatus rep (SourceHash_ (rep_Status rep)) states left false
                    (metav1_Now (world e)) in
      err ← writeStatusIfChanged rep None next;
      match err with
      | Some err => mret (inl err)
      | None =>
          let d := minDelay delays in
          mret (inr (if (0 <? d)%Z then d else BackoffMax (withDefaults (options cfg))))
      end.

(** The inventory entries planned for allowed slots that have none: the first
    loop over the slots. The entries have an empty hash. *)
Definition planEntries (gvk : GroupVersionKind) (slots : list (slotInfo * Decision)) (inv : Slice)
    : Slice :=
  foldl (λ inv sd,
      if Allowed sd.2 && negb (hasEntry (view inv) (slot_key gvk sd.1))
      then append inv (entry_of gvk sd.1 "") else inv)
    inv slots.

(** Persisting the plan: [rep] as the client leaves it, and whether its inventory
    shares the array of [inv]. *)
Definition persistPlan (rep : Replication) (before after : Slice)
    : M (error + Replication * option nat) :=
  _ ← smod (set_inv after);
  if decide (len after = len before) then mret (inr (rep, None))
  else
    res ← clientStatusUpdate (with_inventory rep (view after));
    mret match res with
         | inl err => inl err
         | inr (rep, reused) => inr (rep, if reused : bool then Some (len after) else None)
         end.

(** The second loop over the slots. *)
Definition convergeAll (nn : NamespacedName) (rep : Replication) (src : Obj)
    (gvk : GroupVersionKind) (policies : list ReplicationPolicy) (rv : revoked)
    (slots : list (slotInfo * Decision)) : M (list (targetState * Z)) :=
  forSM slots (λ sd,
    let '(s, dec) := sd in
    if Allowed dec then
      applyTarget nn rep src gvk s
        (ResolveOptions (policiesByName policies (MatchedPolicies dec)))
    else
      st ← deniedState s dec (retainedKeys rv) (revokedDeleteNS rv) gvk;
      mret (st, 0%Z)).

(** [keep] after the second loop. *)
Definition keepKeys (gvk : GroupVersionKind) (rv : revoked) (slots : list (slotInfo * Decision))
    : gset SlotKey :=
  retainedKeys rv ∪
  list_to_set (map (λ sd, slot_key gvk sd.1) (List.filter (λ sd, Allowed sd.2) slots)).

(** From garbage collection to the end of [Reconcile]. *)
Definition finish (nn : NamespacedName) (rep : Replication) (shared : option nat) (srcHash : string)
    (states : list targetState) (delays : list Z) (keep : gset SlotKey) (revokedRetained : bool)
    : M Res :=
  '(gcStates, gcDelays) ← collectGarbage nn rep keep;
  let states := (states ++ gcStates)%list in
  let delays := (delays ++ gcDelays)%list in
  _ ← smod (λ e, set_replicas
              (ObserveReplicas (nn_String nn) (replicaCountsByCluster states) (replicas e)) e);
  e ← sget;
  let next := buildStatus rep srcHash states (view (inv e)) revokedRetained (metav1_Now (world e)) in
  let prevReady := FindStatusCondition (Conditions (rep_Status rep)) ReplicationConditionReady in
  err ← writeStatusIfChanged rep shared next;
  match err with
  | Some err => mret (inl err)
  | None =>
      _ ← emitTransitionEvents rep prevReady
            (FindStatusCondition (Conditions next) ReplicationConditionReady);
      let d := minDelay delays in
      mret (inr (if (0 <? d)%Z then d else DriftResync (withDefaults (options cfg))))
  end.

(** From the policy evaluation on, with the source object in hand. *)
Definition fanOut (nn : NamespacedName) (rep : Replication) (gvk : GroupVersionKind) (src : Obj)
    (policies : list ReplicationPolicy) (nsLabels : gmap string string) : M Res :=
  let ref := SourceRef (rep_Spec rep) in
  let srcMeta := {| s_Kind := sr_Kind ref; s_Namespace := sr_Namespace ref;
                    s_NamespaceLabels := nsLabels |} in
  known ← readDiscovered;
  let '(slots, preq) := flattenTargets cfg known rep (GetName src) srcMeta in
  let result := Evaluate preq policies in
  let slots := zip slots (Decisions result) in
  e ← sget;
  let prev := default {| Decisions := [] |} (lastResults e !! rep_UID rep) in
  let revocations := DetectRevocations prev result in
  _ ← smod (set_lastResults (<[rep_UID rep := result]> (lastResults e)));
  let inventory := Inventory_ (rep_Status rep) in
  let revocations := addInventoryRevocations revocations result inventory in
  rv ← applyRevocations rep revocations policies srcMeta inventory;
  let inv0 := fresh inventory in
  res ← persistPlan rep inv0 (planEntries gvk slots inv0);
  match res with
  | inl err => mret (inl err)
  | inr (rep, shared) =>
      outs ← convergeAll nn rep src gvk policies rv slots;
      finish nn rep shared (SourceHash (strip cfg) src) (map fst outs)
        (List.filter (λ d, 0 <? d)%Z (map snd outs)) (keepKeys gvk rv slots)
        (revokedRetained rv)
  end.

(** From the finalizer on. *)
Definition reconcileLive (nn : NamespacedName) (rep : Replication) : M Res :=
  let ref := SourceRef (rep_Spec rep) in
  match kindGVKs cfg !! sr_Kind ref with
  | None =>
      finishSimple rep ReasonApplyFailed
        ("source kind " +:+ quote (sr_Kind ref) +:+ " is not on the engine allowlist") Minute
  | Some gvk =>
      got ← do_call (hubGetObject gvk (sr_Namespace ref) (sr_Name ref))
              (GetSource gvk (sr_Namespace ref) (sr_Name ref));
      match got with
      | inl err =>
          if IsNotFound err then
            finishSimple rep ReasonSourceMissing "source object not found or its UID changed" Minute
          else mret (inl err)
      | inr src =>
          if decide (GetUID src = sr_UID ref) then
            ps ← do_call hubListPolicies ListPolicies;
            match ps with
            | inl err => mret (inl err)
            | inr policies =>
                nsl ← do_call (hubGetNamespaceLabels (sr_Namespace ref))
                        (GetNamespaceLabels (sr_Namespace ref));
                fanOut nn rep gvk src policies match nsl with inl _ => ∅ | inr l => l end
            end
          else
            finishSimple rep ReasonSourceMissing "source object not found or its UID changed" Minute
      end
  end.

Definition Reconcile (nn : NamespacedName) : M Res :=
  got ← do_call (hubGetReplication nn) (GetReplication nn);
  match got with
  | inl err =>
      if IsNotFound err then
        _ ← smod (λ e, set_replicas (ForgetReplicas (nn_String nn) (replicas e))
                         (set_backoff (Backoff.Forget nn (backoff e)) e));
        mret (inr 0%Z)
      else mret (inl err)
  | inr rep =>
      if decide (rep_DeletionTimestamp rep ≠ None) then reconcileDeletion nn rep
      else if decide (c_Reason <$> FindStatusCondition (Conditions (rep_Status rep))
                        ReplicationConditionReady = Some ReasonNotAuthoritative)
      then mret (inr 0%Z)
      else if ContainsFinalizer (rep_Finalizers rep) FinalizerName then reconcileLive nn rep
      else
        res ← clientUpdate (with_finalizers rep (AddFinalizer (rep_Finalizers rep) FinalizerName));
        match res with
        | inl err => mret (inl err)
        | inr rep => reconcileLive nn rep
        end
  end.
End reconciler.
