(* ===== verification/EngineSafety.v ===== *)
(** What a run of the engine may do, proved over every behaviour of the hub API and
    of the target clusters: each act of the trace of [Reconcile] is justified by the
    acts before it. *)
From S2P Require Import Prelude GoLib Sha256 Api Labels Annotations Policy Unstructured Render.
From S2P Require Import Conflict Backoff Inventory Status Telemetry Drift Transport Engine.

#[local] Open Scope string_scope.
#[local] Open Scope list_scope.

(** ** What the trace says *)

(** The inventory the API server holds after an act, when the act tells. *)
Definition acked (a : Act) : option (list InventoryEntry) :=
  match a with
  | GetReplication _ (inr r) => Some (Inventory_ (rep_Status r))
  | Update _ (inr r) => Some (Inventory_ (rep_Status r))
  | UpdateStatus r (inr _) => Some (Inventory_ (rep_Status r))
  | _ => None
  end.

Definition persisted (t : list Act) : list InventoryEntry :=
  foldl (λ cur a, default cur (acked a)) [] t.

(** The Replication as one of the acts showed it. *)
Definition shows (a : Act) (rep : Replication) : Prop :=
  (∃ nn, a = GetReplication nn (inr rep)) ∨ (∃ r, a = Update r (inr rep)) ∨
  (∃ r, a = UpdateStatus r (inr rep)).

Definition rep_known (t : list Act) (rep : Replication) : Prop := ∃ a, a ∈ t ∧ shows a rep.

Definition labels_known (t : list Act) (ns : string) (nsl : gmap string string) : Prop :=
  ∃ res, GetNamespaceLabels ns res ∈ t ∧ nsl = match res with inl _ => ∅ | inr l => l end.

Section laws.
Context `{MA : MetaAPI} `{LA : LabelsAPI} `{UA : UnstructuredAPI}.

(** Slot [s] of a Replication is allowed by the policies just read, for a source
    just read whose UID is the recorded one, and its key is in the inventory [p]. *)
Inductive licensed (cfg : Config) (p : list InventoryEntry) (t : list Act)
    (src : Obj) (gvk : GroupVersionKind) (s : slotInfo) (eff : EffectiveOptions) : Prop :=
  | licensed_intro rep pols known nsl dec :
      rep_known t rep →
      GetSource gvk (sr_Namespace (SourceRef (rep_Spec rep))) (sr_Name (SourceRef (rep_Spec rep)))
        (inr src) ∈ t →
      GetUID src = sr_UID (SourceRef (rep_Spec rep)) →
      ListPolicies (inr pols) ∈ t →
      Discovered known ∈ t →
      labels_known t (sr_Namespace (SourceRef (rep_Spec rep))) nsl →
      dec = decide_target
              {| s_Kind := sr_Kind (SourceRef (rep_Spec rep));
                 s_Namespace := sr_Namespace (SourceRef (rep_Spec rep));
                 s_NamespaceLabels := nsl |}
              {| t_ClusterName := si_cluster s;
                 t_ClusterLabels := clusterLabels cfg known (si_cluster s);
                 t_Namespace := si_namespace s |} pols →
      Allowed dec = true →
      eff = ResolveOptions (policiesByName pols (MatchedPolicies dec)) →
      slot_key gvk s ∈ tracked p →
      licensed cfg p t src gvk s eff.

(** The live read of the slot, and what it entitles the engine to: nothing there,
    our own object, or the two-key consent of conflict.go. *)
Definition found (t : list Act) (gvk : GroupVersionKind) (s : slotInfo) (res : error + Obj) : Prop :=
  SpokeGet (si_cluster s) gvk (si_namespace s) (si_name s) res ∈ t.

Definition verdict (cfg : Config) (src existing : Obj) (s : slotInfo) (eff : EffectiveOptions)
    : ConflictAction :=
  Action (DecideConflict (strip cfg) existing src
    (Render (strip cfg) (renderer cfg) src (si_namespace s) (si_name s)).2
    (eff_AllowedConflictPolicies eff)).

Definition desired_obj (cfg : Config) (src : Obj) (s : slotInfo) : Obj :=
  (Render (strip cfg) (renderer cfg) src (si_namespace s) (si_name s)).1.

Definition adopt_obj (cfg : Config) (src : Obj) (gvk : GroupVersionKind) (s : slotInfo) : Obj :=
  AdoptPatch (renderer cfg) src gvk (si_namespace s) (si_name s)
    (Render (strip cfg) (renderer cfg) src (si_namespace s) (si_name s)).2.

(** An object whose content the engine may replace. *)
Definition replaceable (cfg : Config) (t : list Act) (src : Obj) (gvk : GroupVersionKind)
    (s : slotInfo) (eff : EffectiveOptions) : Prop :=
  ∃ existing, found t gvk s (inr existing) ∧
    (ClassifyReplicaOwnership (GetLabels existing) (GetUID src) = OwnershipStripped ∨
     IsManagedReplica (GetLabels existing) (GetUID src) = true ∨
     verdict cfg src existing s eff = ActionOverwrite).

Definition may_apply (cfg : Config) (t : list Act) (src : Obj) (gvk : GroupVersionKind)
    (s : slotInfo) (eff : EffectiveOptions) (o : Obj) : Prop :=
  (o = desired_obj cfg src s ∧
     ((∃ err, found t gvk s (inl err) ∧ IsNotFound err = true) ∨ replaceable cfg t src gvk s eff)) ∨
  (o = adopt_obj cfg src gvk s ∧
     ∃ existing, found t gvk s (inr existing) ∧ verdict cfg src existing s eff = ActionAdopt).

(** The creation of a missing target namespace. *)
Definition may_create_namespace (t : list Act) (s : slotInfo) (eff : EffectiveOptions) (o : Obj)
    : Prop :=
  o = namespacePayload (si_namespace s) ∧ eff_AllowNamespaceCreation eff = true ∧
  ∃ err, SpokeGet (si_cluster s) namespaceGVK "" (si_namespace s) (inl err) ∈ t ∧
         IsNotFound err = true.

(** A deletion by garbage collection: a recorded entry whose object the engine has
    looked at and found to carry this source's UID. *)
Definition may_collect (p : list InventoryEntry) (t : list Act) (c : string) (o : Obj) : Prop :=
  ∃ e gvk existing rep,
    o = deleteObj gvk e ∧ c = ie_ClusterName e ∧
    gvk_Group gvk = ie_Group e ∧ gvk_Kind gvk = ie_Kind e ∧
    KeyForEntry e ∈ tracked p ∧ rep_known t rep ∧
    SpokeGet c gvk (ie_Namespace e) (ie_Name e) (inr existing) ∈ t ∧
    ClassifyReplicaOwnership (GetLabels existing) (sr_UID (SourceRef (rep_Spec rep)))
      ≠ OwnershipForeign.

(** Evidence that nothing of ours is (any longer) at the slot [k]. *)
Inductive lost_ok (cfg : Config) (t : list Act) (k : SlotKey) : Prop :=
  | lost_absent gvk err :
      SpokeGet (sk_Cluster k) gvk (sk_Namespace k) (sk_Name k) (inl err) ∈ t →
      gvk_Group gvk = sk_Group k → gvk_Kind gvk = sk_Kind k → IsNotFound err = true →
      lost_ok cfg t k
  | lost_foreign gvk existing rep :
      SpokeGet (sk_Cluster k) gvk (sk_Namespace k) (sk_Name k) (inr existing) ∈ t →
      gvk_Group gvk = sk_Group k → gvk_Kind gvk = sk_Kind k → rep_known t rep →
      ClassifyReplicaOwnership (GetLabels existing) (sr_UID (SourceRef (rep_Spec rep)))
        = OwnershipForeign →
      lost_ok cfg t k
  | lost_deleted gvk e res :
      SpokeDelete (sk_Cluster k) (deleteObj gvk e) res ∈ t → KeyForEntry e = k →
      gvk_Group gvk = sk_Group k → gvk_Kind gvk = sk_Kind k →
      match res with None => True | Some err => IsNotFound err = true end →
      lost_ok cfg t k
  | lost_namespace err :
      SpokeGet (sk_Cluster k) namespaceGVK "" (sk_Namespace k) (inl err) ∈ t →
      IsNotFound err = true →
      lost_ok cfg t k
  | lost_cluster known :
      Discovered known ∈ t → clusterGone cfg known (sk_Cluster k) = true →
      lost_ok cfg t k.

(** When an act is justified by what came before it. *)
Definition J (cfg : Config) (t : list Act) (a : Act) : Prop :=
  match a with
  | SpokeApply c o _ =>
      ∃ src gvk s eff, c = si_cluster s ∧ licensed cfg (persisted t) t src gvk s eff ∧
        (may_create_namespace t s eff o ∨ may_apply cfg t src gvk s eff o)
  | SpokeDelete c o _ =>
      (∃ src gvk s eff, c = si_cluster s ∧ licensed cfg (persisted t) t src gvk s eff ∧
         replaceable cfg t src gvk s eff ∧ o = desired_obj cfg src s) ∨
      may_collect (persisted t) t c o
  | UpdateStatus r _ =>
      ∀ k, k ∈ tracked (persisted t) → k ∉ tracked (Inventory_ (rep_Status r)) → lost_ok cfg t k
  | Update r _ =>
      (∃ rep, rep_known t rep ∧ rep_Finalizers r = AddFinalizer (rep_Finalizers rep) FinalizerName) ∨
      (∀ k, k ∈ tracked (persisted t) → lost_ok cfg t k)
  | _ => True
  end.
End laws.

(** [errNamespaceMissing] is a private sentinel of the package: no transport error
    has it on its chain. *)
Class TransportLaws (W : Type) `{Transport W} : Prop := {
  apply_not_missing cluster obj w err w' :
    tApply cluster obj w = (Some err, w') → IsNamespaceMissing err = false;
  get_not_missing cluster gvk ns name w err w' :
    tGet cluster gvk ns name w = (inl err, w') → IsNamespaceMissing err = false;
}.

(** ** The invariant of a run *)

Section safety.
Context {W : Type} `{HubW : Hub W} `{TrW : Transport W} `{TrL : !TransportLaws W} `{MA : MetaAPI} `{LA : LabelsAPI} `{UA : UnstructuredAPI}.
Context (cfg : Config).

Abbreviation M A := (SM (Engine W) A).

Definition justified (t : list Act) : Prop := ∀ pre a post, t = pre ++ a :: post → J cfg pre a.

(** While slots are worked on: the stored inventory is [p], the acts [F] have
    happened, and what the local inventory has dropped from [p] is accounted for. *)
Record ext (p : list InventoryEntry) (F : list Act) (s : Engine W) : Prop := {
  ext_just : justified (trace s);
  ext_wf : wf_slice (inv s);
  ext_persisted : persisted (trace s) = p;
  ext_facts : ∀ a, a ∈ F → a ∈ trace s;
  ext_sub : ∀ k, k ∈ tracked (view (inv s)) → k ∈ tracked p;
  ext_lost : ∀ k, k ∈ tracked p → k ∉ tracked (view (inv s)) → lost_ok cfg (trace s) k;
}.

Lemma justified_nil : justified [].
Proof. by intros [] ? ?. Qed.

Lemma justified_snoc t a : justified t → J cfg t a → justified (t ++ [a])%list.
Proof.
  intros Ht Ha pre b post Heq. destruct post as [|c post _] using rev_ind.
  - apply app_inj_tail in Heq as [-> ->]. done.
  - rw (_ : pre ++ b :: (post ++ [c]) = (pre ++ b :: post) ++ [c])%list in Heq; [by rw -app_assoc|].
    apply app_inj_tail in Heq as [-> _]. by eapply Ht.
Qed.

Lemma persisted_snoc t a : persisted (t ++ [a])%list = default (persisted t) (acked a).
Proof. unfold persisted. by rw foldl_app. Qed.

Lemma rep_known_mono t t' rep : (∀ a, a ∈ t → a ∈ t') → rep_known t rep → rep_known t' rep.
Proof. intros Ht (a & Ha & Hs). exists a. auto. Qed.

Lemma licensed_mono p t t' src gvk s eff :
  (∀ a, a ∈ t → a ∈ t') → licensed cfg p t src gvk s eff → licensed cfg p t' src gvk s eff.
Proof.
  intros Ht [rep pols known nsl dec H1 H2 H3 H4 H5 (res & H6 & H6') H7 H8 H9 H10].
  eapply (licensed_intro _ _ _ _ _ _ _ rep pols known nsl dec); eauto.
  - by eapply rep_known_mono.
  - exists res. auto.
Qed.

Lemma lost_ok_mono t t' k : (∀ a, a ∈ t → a ∈ t') → lost_ok cfg t k → lost_ok cfg t' k.
Proof.
  intros Ht [].
  - eapply lost_absent; eauto.
  - eapply lost_foreign; eauto. by eapply rep_known_mono.
  - eapply lost_deleted; eauto.
  - eapply lost_namespace; eauto.
  - eapply lost_cluster; eauto.
Qed.

Lemma replaceable_mono t t' src gvk s eff :
  (∀ a, a ∈ t → a ∈ t') → replaceable cfg t src gvk s eff → replaceable cfg t' src gvk s eff.
Proof. intros Ht (x & Hx & H). exists x. split; [by apply Ht|done]. Qed.

(** An act that says nothing about the stored inventory and is justified. *)
Lemma ext_act p F s w a :
  ext p F s → acked a = None → J cfg (trace s) a →
  ext p (a :: F) (set_trace (trace s ++ [a])%list (set_world w s)).
Proof.
  intros [Hj Hw Hp Hf Hs Hl] Ha HJ.
  assert (∀ b, b ∈ trace s → b ∈ (trace s ++ [a])%list) as Hin
    by (intros b ?; apply elem_of_app; by left).
  split; simpl.
  - by apply justified_snoc.
  - done.
  - by rw persisted_snoc Ha.
  - intros b [->|Hb]%elem_of_cons; [apply elem_of_app; right; by left|auto].
  - done.
  - intros k Hk Hk'. eapply lost_ok_mono; [exact Hin|auto].
Qed.

Lemma ext_weaken p F F' s : ext p F s → (∀ a, a ∈ F' → a ∈ F) → ext p F' s.
Proof. intros [] HF. split; auto. Qed.

(** ** Rules *)

(** Acts nobody outside reacts to. *)
Definition silent (a : Act) : Prop :=
  match a with Event _ _ _ | Inc _ => True | _ => False end.

Definition quiet {A} (m : M A) : Prop :=
  ∀ s, inv (m s).2 = inv s ∧ ∃ l, trace (m s).2 = (trace s ++ l)%list ∧ Forall silent l.

Lemma quiet_ret {A} (a : A) : quiet (mret a).
Proof. intros s. split; [done|]. exists []. by rw app_nil_r. Qed.

Lemma quiet_bind {A B} (m : M A) (f : A → M B) : quiet m → (∀ a, quiet (f a)) → quiet (m ≫= f).
Proof.
  intros Hm Hf s. unfold mbind, SM_bind. destruct (Hm s) as (Hi & l & Ht & Hl).
  destruct (m s) as [a s1]. simpl in *. destruct (Hf a s1) as (Hi' & l' & Ht' & Hl').
  split; [by rw Hi'|]. exists (l ++ l')%list. rw Ht' Ht app_assoc. split; [done|by apply Forall_app].
Qed.

Lemma quiet_get {A} (f : Engine W → A) : quiet (sgets f).
Proof. intros s. split; [done|]. exists []. by rw app_nil_r. Qed.

Lemma quiet_sget : quiet (@sget (Engine W)).
Proof. intros s. split; [done|]. exists []. by rw app_nil_r. Qed.

Lemma quiet_mod f :
  (∀ s, inv (f s) = inv s) → (∀ s, trace (f s) = trace s) → quiet (smod f).
Proof. intros Hi Ht s. split; [apply Hi|]. exists []. by rw app_nil_r Ht. Qed.

Lemma quiet_inc m : quiet (inc m).
Proof. intros s. split; [done|]. exists [Inc m]. split; [done|by repeat constructor]. Qed.

Lemma quiet_event rep ty r m : quiet (event cfg rep ty r m).
Proof.
  unfold event. destruct (Recorder cfg); [|apply quiet_ret].
  apply quiet_bind; [apply quiet_sget|intros e]. destruct (Allow _ _ _ _ _) as [[] l].
  - apply quiet_bind; [by apply quiet_mod|intros _].
    intros s. split; [done|]. exists [Event ty r m]. split; [done|by repeat constructor].
  - apply quiet_bind; [by apply quiet_mod|intros _]. apply quiet_ret.
Qed.

Lemma quiet_failure nn c : quiet (backoffFailure (W := W) nn c).
Proof.
  unfold backoffFailure. apply quiet_bind; [apply quiet_sget|intros e].
  destruct (Failure _ _ _). apply quiet_bind; [by apply quiet_mod|intros _; apply quiet_ret].
Qed.

Lemma quiet_success nn c : quiet (backoffSuccess (W := W) nn c).
Proof. by apply quiet_mod. Qed.

Lemma quiet_watch c gvk : quiet (ensureWatch c gvk).
Proof. by apply quiet_mod. Qed.

Lemma persisted_silent t l : Forall silent l → persisted (t ++ l)%list = persisted t.
Proof.
  induction l as [|a l IH] using rev_ind; [by rw app_nil_r|].
  intros [Hl Ha]%Forall_app. apply Forall_cons in Ha as [Ha _].
  rw app_assoc persisted_snoc IH //. by destruct a.
Qed.

Lemma justified_silent t l : justified t → Forall silent l → justified (t ++ l)%list.
Proof.
  induction l as [|a l IH] using rev_ind; [by rw app_nil_r|].
  intros Ht [Hl Ha]%Forall_app. apply Forall_cons in Ha as [Ha _]. rw app_assoc.
  apply justified_snoc; [auto|]. by destruct a.
Qed.

Lemma triple_quiet {A} p F (m : M A) : quiet m → triple (ext p F) m (λ _, ext p F).
Proof.
  intros Hm s [Hj Hw Hp Hf Hs Hl]. destruct (Hm s) as (Hi & l & Ht & Hsil).
  split; rw ?Hi ?Ht; auto.
  - by apply justified_silent.
  - by rw persisted_silent.
  - intros a Ha. apply elem_of_app. left. auto.
  - intros k H1 H2. eapply lost_ok_mono; [|by apply Hl]. intros a Ha. apply elem_of_app. by left.
Qed.

Lemma triple_quiet_just {A} (m : M A) :
  quiet m → triple (λ s, justified (trace s)) m (λ _ s, justified (trace s)).
Proof. intros Hm s Hj. destruct (Hm s) as (_ & l & -> & Hl). by apply justified_silent. Qed.

(** A call whose act says nothing about the stored inventory. *)
Lemma triple_call {A} p F (m : SM W A) act :
  (∀ a, acked (act a) = None) →
  (∀ t a, persisted t = p → (∀ b, b ∈ F → b ∈ t) → J cfg t (act a)) →
  triple (ext p F) (do_call m act)
    (λ a s, ext p (act a :: F) s ∧ ∃ w w', m w = (a, w')).
Proof.
  intros Ha HJ s Hs. unfold do_call. destruct (m (world s)) as [a w] eqn:E. simpl.
  split; [|by exists (world s), w]. apply ext_act; [done..|]. destruct Hs. by apply HJ.
Qed.

Lemma triple_pure {A} (P : Engine W → Prop) (φ : Prop) (m : M A) Q :
  (φ → triple P m Q) → triple (λ s, P s ∧ φ) m Q.
Proof. intros Hm s [HP Hφ]. by apply Hm. Qed.

Lemma triple_bind_ext {A B} p F F' (m : M A) (f : A → M B) Q :
  triple (ext p F) m (λ _, ext p F') → (∀ a, triple (ext p F') (f a) Q) →
  triple (ext p F) (m ≫= f) Q.
Proof. intros Hm Hf. by eapply triple_bind. Qed.

(** Quiet computations first, then the rest. *)
Lemma triple_seq {A B} p F (m : M A) (f : A → M B) Q :
  quiet m → (∀ a, triple (ext p F) (f a) Q) → triple (ext p F) (m ≫= f) Q.
Proof. intros Hm Hf. eapply triple_bind; [by apply triple_quiet|done]. Qed.

Lemma triple_remove p F k :
  triple (λ s, ext p F s ∧ lost_ok cfg (trace s) k) (invRemove k) (λ _, ext p F).
Proof.
  intros s [[Hj Hw Hp Hf Hs Hl] Hk]. unfold invRemove, smod. simpl. split; simpl; auto.
  - by apply wf_removeEntry.
  - intros j. rw view_removeEntry // tracked_remove elem_of_difference. intros [? _]. auto.
  - intros j Hj1. rw view_removeEntry // tracked_remove elem_of_difference elem_of_singleton.
    intros Hj2. destruct (decide (j = k)) as [->|Hne]; [done|]. apply Hl; tauto.
Qed.

Lemma triple_remove_facts p F k :
  lost_ok cfg F k → triple (ext p F) (invRemove k) (λ _, ext p F).
Proof.
  intros Hk s Hs. apply triple_remove. split; [done|].
  eapply lost_ok_mono; [apply (ext_facts _ _ _ Hs)|done].
Qed.

Lemma triple_upsert p F e :
  KeyForEntry e ∈ tracked p → triple (ext p F) (invUpsert e) (λ _, ext p F).
Proof.
  intros Hk s [Hj Hw Hp Hf Hs Hl]. unfold invUpsert, smod. simpl. split; simpl; auto.
  - by apply wf_upsertEntry.
  - intros j. rw view_upsertEntry // tracked_upsert elem_of_union elem_of_singleton.
    intros [?| ->]; auto.
  - intros j Hj1. rw view_upsertEntry // tracked_upsert elem_of_union. intros Hj2.
    apply Hl; [done|tauto].
Qed.

(** ** The slot *)

Lemma triple_weaken {A} p F F' (P : Engine W → Prop) (m : M A) (R : A → Prop) :
  triple P m (λ a s, ext p F' s ∧ R a) → (∀ a, a ∈ F → a ∈ F') →
  triple P m (λ a s, ext p F s ∧ R a).
Proof. intros Hm HF. eapply triple_conseq; [exact Hm|done|]. intros a s [? ?]. eauto using ext_weaken. Qed.

Section slot.
Context (p : list InventoryEntry) (F : list Act) (src : Obj) (gvk : GroupVersionKind)
  (s : slotInfo) (eff : EffectiveOptions).
Hypothesis Hlic : licensed cfg p F src gvk s eff.

Lemma may_apply_mono t t' o :
  (∀ a, a ∈ t → a ∈ t') → may_apply cfg t src gvk s eff o → may_apply cfg t' src gvk s eff o.
Proof.
  intros Ht [[-> [(err & H1 & H2)|H]]|[-> (x & H1 & H2)]].
  - left. split; [done|]. left. exists err. split; [by apply Ht|done].
  - left. split; [done|]. right. by eapply replaceable_mono.
  - right. split; [done|]. exists x. split; [by apply Ht|done].
Qed.

Lemma triple_apply F' o :
  (∀ a, a ∈ F → a ∈ F') →
  may_create_namespace F' s eff o ∨ may_apply cfg F' src gvk s eff o →
  triple (ext p F') (transportApply (si_cluster s) o)
    (λ r st, ext p F' st ∧ ∀ err, r = Some err → IsNamespaceMissing err = false).
Proof.
  intros HF Hmay. eapply triple_conseq; [apply triple_call; [done|]|done|].
  - intros t a Hp Ht. exists src, gvk, s, eff. split; [done|]. split.
    + rw Hp. eapply licensed_mono; [|exact Hlic]. auto.
    + destruct Hmay as [(-> & He & err & H1 & H2)|Hmay]; [left|right; by eapply may_apply_mono].
      split; [done|]. split; [done|]. exists err. auto.
  - intros r st [Hst (w & w' & Hw)]. split; [eapply ext_weaken; [exact Hst|set_solver]|].
    intros err ->. by eapply apply_not_missing.
Qed.

Lemma triple_recreate F' :
  (∀ a, a ∈ F → a ∈ F') → replaceable cfg F' src gvk s eff →
  triple (ext p F') (applyWithRecreate (si_cluster s) (desired_obj cfg src s)) (λ _, ext p F').
Proof.
  intros HF Hrep.
  assert (triple (ext p F') (transportApply (si_cluster s) (desired_obj cfg src s)) (λ _, ext p F'))
    as Happly.
  { eapply triple_conseq; [apply triple_apply; [exact HF|]|done|by intros ?? [? _]].
    right. left. split; [done|by right]. }
  assert (triple (ext p F') (transportDelete (si_cluster s) (desired_obj cfg src s)) (λ _, ext p F'))
    as Hdel.
  { eapply triple_conseq; [apply triple_call; [done|]|done|].
    - intros t a Hp Ht. left. exists src, gvk, s, eff. split_and!; [done| |by eapply replaceable_mono|done].
      rw Hp. eapply licensed_mono; [|exact Hlic]. auto.
    - intros r st [Hst _]. eapply ext_weaken; [exact Hst|set_solver]. }
  unfold applyWithRecreate. eapply triple_bind; [exact Happly|].
  intros [e0|]; [|by apply triple_ret]. destruct (IsInvalid e0); [|by apply triple_ret].
  eapply triple_bind; [exact Hdel|]. intros [e1|]; [|exact Happly].
  destruct (IsNotFound e1); [exact Happly|by apply triple_ret].
Qed.

Definition definitive (out : outcome) : Prop := ∃ r m, out = inl (r, m, false).

Lemma triple_or_fail F' (m : M (option error)) (k : M unit) :
  triple (ext p F') m (λ _, ext p F') → quiet k →
  triple (ext p F') (or_fail m k) (λ out st, ext p F' st ∧ ¬ definitive out).
Proof.
  intros Hm Hk. unfold or_fail. eapply triple_bind; [exact Hm|]. intros [err|].
  - apply triple_ret. intros st Hst. split; [done|]. by intros (r & m' & [=]).
  - apply triple_seq; [done|]. intros _. apply triple_ret. intros st Hst. split; [done|].
    by intros (r & m' & [=]).
Qed.

Lemma quiet_drift_corrected rep o h : quiet (driftCorrected cfg rep s o h).
Proof. apply quiet_bind; [apply quiet_inc|intros _; apply quiet_event]. Qed.

(** An object DecideConflict refuses, and that is not a stripped replica, is foreign. *)
Lemma refused_is_foreign existing h allowed :
  ClassifyReplicaOwnership (GetLabels existing) (GetUID src) ≠ OwnershipStripped →
  Action (DecideConflict (strip cfg) existing src h allowed) = ActionFail →
  ClassifyReplicaOwnership (GetLabels existing) (GetUID src) = OwnershipForeign.
Proof.
  unfold DecideConflict. intros Hc Hd.
  destruct (IsManagedReplica (GetLabels existing) (GetUID src)) eqn:E; [done|]. clear Hd.
  revert Hc E. unfold ClassifyReplicaOwnership, IsManagedReplica.
  repeat case_bool_decide; repeat case_decide; simpl; congruence.
Qed.

Lemma triple_ensureNamespace :
  triple (ext p F)
    (ensureNamespace (si_cluster s) (si_namespace s) (eff_AllowNamespaceCreation eff))
    (λ r st, ext p F st ∧ ∀ err, r = Some err → IsNamespaceMissing err = true →
       lost_ok cfg (trace st) (slot_key gvk s)).
Proof.
  unfold ensureNamespace. eapply triple_bind; [apply triple_call; done|]. intros [err|o]; cbn beta.
  2:{ apply triple_ret. intros st [Hst _]. split; [eapply ext_weaken; [exact Hst|set_solver]|done]. }
  destruct (IsNotFound err) eqn:Enf; simpl.
  2:{ apply triple_ret. intros st [Hst (w & w' & Hw)].
      split; [eapply ext_weaken; [exact Hst|set_solver]|]. intros ? [= <-].
      apply get_not_missing in Hw. congruence. }
  destruct (eff_AllowNamespaceCreation eff) eqn:Eal; simpl.
  - eapply triple_conseq; [apply triple_apply|by intros ? [? _]|].
    + intros a Ha. right. exact Ha.
    + left. split; [done|]. split; [done|]. exists err. split; [by left|done].
    + intros r st [Hst Hr]. split; [eapply ext_weaken; [exact Hst|set_solver]|].
      intros e ->. rw Hr //.
  - apply triple_ret. intros st [Hst _]. split; [eapply ext_weaken; [exact Hst|set_solver]|].
    intros _ _ _. apply (lost_namespace _ _ _ err); [|done]. apply (ext_facts _ _ _ Hst). by left.
Qed.

Lemma triple_convergeSlot rep :
  triple (ext p F)
    (convergeSlot cfg rep src gvk s eff (desired_obj cfg src s)
       (Render (strip cfg) (renderer cfg) src (si_namespace s) (si_name s)).2)
    (λ out st, ext p F st ∧ (definitive out → lost_ok cfg (trace st) (slot_key gvk s))).
Proof.
  unfold convergeSlot. eapply triple_bind; [apply triple_call; done|]. intros got. cbn beta.
  set (F' := SpokeGet _ _ _ _ got :: F).
  assert (∀ a, a ∈ F → a ∈ F') as HF by (intros a ?; by right).
  assert (∀ m : M outcome, triple (ext p F') m (λ out st, ext p F' st ∧ ¬ definitive out) →
    triple (λ st, ext p F' st ∧ ∃ w w', tGet (si_cluster s) gvk (si_namespace s) (si_name s) w = (got, w'))
      m (λ out st, ext p F st ∧ (definitive out → lost_ok cfg (trace st) (slot_key gvk s)))) as Hgo.
  { intros m Hm. eapply triple_conseq; [exact Hm|by intros ? [? _]|].
    intros out st [Hst Hd]. split; [by eapply ext_weaken|done]. }
  destruct got as [err|existing].
  - destruct (IsNotFound err) eqn:Enf; apply Hgo.
    + apply triple_or_fail; [|apply quiet_ret].
      eapply triple_conseq; [apply triple_apply; [exact HF|]|done|by intros ?? [? _]].
      right. left. split; [done|]. left. exists err. split; [by left|done].
    + apply triple_ret. intros st Hst. split; [done|]. by intros (r & m' & [=]).
  - assert (found F' gvk s (inr existing)) as Hfound by by left.
    case_decide as Hstr.
    { apply Hgo, triple_or_fail.
      - apply triple_recreate; [done|]. exists existing. auto.
      - apply quiet_bind; [apply quiet_inc|intros _]. apply quiet_bind; [apply quiet_event|intros _].
        case_decide; [apply quiet_ret|apply quiet_drift_corrected]. }
    unfold resolveConflict. change (Action (DecideConflict _ _ _ _ _)) with (verdict cfg src existing s eff).
    destruct (verdict cfg src existing s eff) eqn:Ev.
    + case_match; apply Hgo; [|apply triple_ret; intros st Hst; split; [done|by intros (? & ? & [=])]].
      apply triple_or_fail; [|case_match; [apply quiet_drift_corrected|apply quiet_ret]].
      apply triple_recreate; [done|]. exists existing. split; [done|]. right. left.
      unfold verdict in Ev. revert Ev. unfold DecideConflict. repeat case_match; done.
    + eapply triple_conseq with (P' := ext p F') (Q' := λ out st, ext p F' st ∧
        lost_ok cfg (trace st) (slot_key gvk s)); [|by intros ? [? _]|].
      2:{ intros out st [Hst ?]. split; [by eapply ext_weaken|done]. }
      apply triple_seq; [apply quiet_inc|intros _]. apply triple_seq; [apply quiet_event|intros _].
      apply triple_ret. intros st Hst. split; [done|].
      inversion Hlic as [rp pols known nsl dc H1 H2 H3].
      apply (lost_foreign _ _ _ gvk existing rp); [apply (ext_facts _ _ _ Hst); by left|done|done| |].
      * eapply rep_known_mono; [|exact H1]. intros a Ha. apply (ext_facts _ _ _ Hst). auto.
      * rw -H3. by eapply refused_is_foreign.
    + apply Hgo. apply triple_seq; [apply quiet_inc|intros _]. apply triple_or_fail; [|apply quiet_event].
      eapply triple_conseq; [apply triple_apply; [exact HF|]|done|by intros ?? [? _]].
      right. right. split; [done|]. exists existing. auto.
    + apply Hgo. apply triple_seq; [apply quiet_inc|intros _]. apply triple_or_fail; [|apply quiet_event].
      apply triple_recreate; [done|]. exists existing. auto.
Qed.
End slot.

Lemma triple_drop {A} (P R : Engine W → Prop) (m : M A) Q :
  triple P m Q → triple (λ st, P st ∧ R st) m Q.
Proof. intros Hm st [HP _]. by apply Hm. Qed.

Lemma triple_fail_retry p F nn gvk s r m :
  triple (ext p F) (fail nn gvk s r m true) (λ _, ext p F).
Proof. apply triple_seq; [apply quiet_failure|intros d]. by apply triple_ret. Qed.

Lemma triple_fail p F nn gvk s r m (b : bool) :
  triple (λ st, ext p F st ∧ (b = false → lost_ok cfg (trace st) (slot_key gvk s)))
    (fail nn gvk s r m b) (λ _, ext p F).
Proof.
  destruct b.
  - eapply triple_conseq; [apply triple_fail_retry|by intros ? [? _]|done].
  - apply (triple_bind _ (λ _, ext p F)); [|intros _; by apply triple_ret].
    eapply triple_conseq; [apply (triple_remove p F)| |done]. intros st [? Hl]. auto.
Qed.

Lemma triple_applyTarget p F nn rep src gvk s eff :
  licensed cfg p F src gvk s eff →
  triple (ext p F) (applyTarget cfg nn rep src gvk s eff) (λ _, ext p F).
Proof.
  intros Hlic. unfold applyTarget.
  eapply triple_bind; [by eapply triple_ensureNamespace|]. intros [err|]; cbn beta.
  - destruct (IsNamespaceMissing err) eqn:Em.
    + apply (triple_bind _ (λ _, ext p F));
        [|intros _; apply triple_seq; [apply quiet_failure|intros d; by apply triple_ret]].
      eapply triple_conseq; [apply (triple_remove p F)| |done]. intros st [? Hl]. split; [done|]. by eapply Hl.
    + apply triple_drop.
      destruct (IsUnavailable err); apply triple_fail_retry.
  - apply triple_drop.
    change (Render _ _ _ _ _) with (desired_obj cfg src s,
      (Render (strip cfg) (renderer cfg) src (si_namespace s) (si_name s)).2).
    eapply triple_bind; [by eapply triple_convergeSlot|]. intros [[[r m] b]|[]]; cbn beta.
    + eapply triple_conseq; [apply (triple_fail p F)| |done]. intros st [? Hd]. split; [done|].
      intros ->. apply Hd. by exists r, m.
    + apply triple_drop.
      apply triple_seq; [apply quiet_success|intros _].
      eapply triple_bind_ext; [apply triple_upsert|intros _].
      * inversion Hlic. done.
      * apply triple_seq; [apply quiet_watch|intros _]. by apply triple_ret.
Qed.

Lemma quiet_denied s d r rd gvk : quiet (deniedState (W := W) s d r rd gvk).
Proof.
  apply quiet_bind; [apply quiet_sget|intros e]. cbv zeta. destruct (decide _); [apply quiet_ret|].
  destruct (_ && _); [apply quiet_ret|].
  apply quiet_bind; [apply quiet_inc|intros _; apply quiet_ret].
Qed.

Lemma quiet_revoke rep ps src inventory acc rev : quiet (revoke cfg rep ps src inventory acc rev).
Proof.
  unfold revoke. destruct (target_key _). destruct (rev_Current rev); [|apply quiet_ret].
  repeat case_decide; try apply quiet_ret;
    (apply quiet_bind; [apply quiet_inc|intros _]);
    (apply quiet_bind; [apply quiet_event|intros _]); apply quiet_ret.
Qed.

Lemma quiet_applyRevocations rep revs ps src inventory :
  quiet (applyRevocations cfg rep revs ps src inventory).
Proof.
  unfold applyRevocations. generalize (Build_revoked ∅ ∅ false). induction revs as [|rev revs IH];
    intros acc; [apply quiet_ret|]. apply quiet_bind; [apply quiet_revoke|apply IH].
Qed.

Lemma quiet_emitTransitionEvents rep prev next : quiet (emitTransitionEvents cfg rep prev next).
Proof. unfold emitTransitionEvents. repeat case_match; (apply quiet_ret || apply quiet_event). Qed.

(** A loop whose body keeps [ext p F]. *)
Lemma triple_forSM_ext {A B} p F (l : list A) (f : A → M B) :
  (∀ x, x ∈ l → triple (ext p F) (f x) (λ _, ext p F)) →
  triple (ext p F) (forSM l f) (λ _, ext p F).
Proof.
  induction l as [|x l IH]; intros Hf; simpl; [by apply triple_ret|].
  eapply triple_bind; [apply Hf; by left|intros b].
  eapply triple_bind; [apply IH; intros y Hy; apply Hf; by right|intros bs]. by apply triple_ret.
Qed.

(** ** Garbage collection *)

Section gc.
Context (p : list InventoryEntry) (F : list Act) (nn : NamespacedName) (rep : Replication)
  (e : InventoryEntry).
Hypothesis Hrep : rep_known F rep.
Hypothesis Htracked : KeyForEntry e ∈ tracked p.

Lemma triple_release :
  (∃ known, Discovered known ∈ F ∧ clusterGone cfg known (ie_ClusterName e) = true) →
  triple (ext p F) (releaseEntry cfg rep e) (λ _, ext p F).
Proof.
  intros (known & Hk & Hg). apply triple_seq; [apply quiet_event|intros _].
  apply triple_remove_facts. by eapply lost_cluster.
Qed.

Lemma triple_gcFailed F' w err : triple (ext p F') (gcFailed nn e w err) (λ _, ext p F').
Proof. apply triple_seq; [apply quiet_failure|intros d]. by apply triple_ret. Qed.

Lemma triple_deleteReplica F' gvk existing :
  (∀ a, a ∈ F → a ∈ F') →
  SpokeGet (ie_ClusterName e) gvk (ie_Namespace e) (ie_Name e) (inr existing) ∈ F' →
  gvk_Group gvk = ie_Group e → gvk_Kind gvk = ie_Kind e →
  ClassifyReplicaOwnership (GetLabels existing) (sr_UID (SourceRef (rep_Spec rep)))
    ≠ OwnershipForeign →
  triple (ext p F') (deleteReplica cfg nn rep gvk e) (λ _, ext p F').
Proof.
  intros HF Hget Hg Hk Hown. unfold deleteReplica.
  set (gone := (_ ← backoffSuccess nn (ie_ClusterName e); _)).
  assert (∀ res, match res with None => True | Some err => IsNotFound err = true end →
    triple (ext p (SpokeDelete (ie_ClusterName e) (deleteObj gvk e) res :: F')) gone (λ _, ext p F'))
    as Hgone.
  { intros res Hres. unfold gone.
    apply triple_seq; [apply quiet_success|intros _].
    eapply triple_bind_ext; [apply triple_remove_facts|intros _].
    - eapply (lost_deleted _ _ _ gvk e res); [by left|done|done..].
    - apply triple_seq; [apply quiet_event|intros _]. apply triple_ret.
      intros st Hst. eapply ext_weaken; [exact Hst|]. intros a ?. by right. }
  eapply triple_bind; [apply triple_call; [done|]|].
  - intros t a Hp Ht. right. rw Hp. exists e, gvk, existing, rep. split_and!; try done.
    + eapply rep_known_mono; [|exact Hrep]. auto.
    + apply Ht. exact Hget.
  - intros res. cbn beta. apply triple_drop.
    destruct res as [err|]; [destruct (IsNotFound err) eqn:Enf|]; [by apply Hgone| |by apply Hgone].
    eapply triple_conseq; [apply triple_gcFailed|done|].
    intros ? st Hst. eapply ext_weaken; [exact Hst|]. intros b ?. by right.
Qed.

Lemma gvkForEntry_Some gvk :
  gvkForEntry cfg e = Some gvk → gvk_Group gvk = ie_Group e ∧ gvk_Kind gvk = ie_Kind e.
Proof.
  intros Hf%List.find_some. destruct Hf as [_ [H1%bool_decide_eq_true H2%bool_decide_eq_true]%andb_true_iff].
  done.
Qed.

Lemma triple_deleteEntry :
  triple (ext p F) (deleteEntry cfg nn rep e) (λ _, ext p F).
Proof.
  unfold deleteEntry. destruct (gvkForEntry cfg e) as [gvk|] eqn:Eg; [|by apply triple_ret].
  apply gvkForEntry_Some in Eg as [Hg Hk].
  eapply triple_bind; [apply triple_call; done|]. intros got. cbn beta.
  set (F' := SpokeGet _ _ _ _ got :: F).
  assert (∀ a, a ∈ F → a ∈ F') as HF by (intros a ?; by right).
  eapply triple_conseq with (P' := ext p F') (Q' := λ _, ext p F'); [|by intros ? [? _]|
    intros ? st Hst; by eapply ext_weaken].
  destruct got as [err|existing].
  - destruct (IsNotFound err) eqn:Enf; [|apply triple_gcFailed].
    apply triple_seq; [apply quiet_success|intros _].
    eapply triple_bind_ext; [apply triple_remove_facts|intros _; by apply triple_ret].
    apply (lost_absent _ _ _ gvk err); [by left|done..].
  - destruct (ClassifyReplicaOwnership _ _) eqn:Ec.
    + apply triple_seq; [apply quiet_inc|intros _]. apply triple_seq; [apply quiet_event|intros _].
      eapply triple_bind_ext; [apply triple_remove_facts|intros _; by apply triple_ret].
      apply (lost_foreign _ _ _ gvk existing rep); [by left|done|done|by eapply rep_known_mono|done].
    + eapply triple_deleteReplica; [exact HF|by left|done|done|congruence].
    + apply triple_seq; [apply quiet_inc|intros _]. apply triple_seq; [apply quiet_event|intros _].
      eapply triple_deleteReplica; [exact HF|by left|done|done|congruence].
Qed.
End gc.

Lemma triple_collectGarbage p F nn rep keep :
  rep_known F rep →
  triple (ext p F) (collectGarbage cfg nn rep keep) (λ _, ext p F).
Proof.
  intros Hrep. unfold collectGarbage. eapply triple_bind; [apply triple_call; done|].
  intros known. cbn beta. set (F' := Discovered known :: F).
  assert (∀ a, a ∈ F → a ∈ F') as HF by (intros a ?; by right).
  assert (rep_known F' rep) as Hrep' by by eapply rep_known_mono.
  eapply triple_conseq with (P' := ext p F') (Q' := λ _, ext p F'); [|by intros ? [? _]|
    intros ? st Hst; by eapply ext_weaken].
  intros st Hst. unfold mbind at 1, SM_bind at 1, sget at 1. cbn beta iota.
  destruct (PlanGC_filter (view (inv st)) keep (clusterGone cfg known)) as [Hd Hr].
  assert (∀ x, x ∈ view (inv st) → KeyForEntry x ∈ tracked p) as Htr.
  { intros x Hx. apply (ext_sub _ _ _ Hst), elem_of_tracked, hasEntry_true. eauto. }
  revert st Hst Hd Hr Htr. intros st Hst Hd Hr Htr.
  match goal with |- ext p F' (?m st).2 => assert (triple (ext p F') m (λ _, ext p F')) as Hm end;
    [|by apply Hm].
  eapply triple_bind_ext; [apply triple_forSM_ext|intros _; eapply triple_bind_ext; [apply triple_forSM_ext|
    intros rs; by apply triple_ret]].
  - intros x Hx. rw Hr list_elem_of_filter in Hx. destruct Hx as [[_ Hg] Hx].
    apply triple_release. exists known. split; [by left|done].
  - intros x Hx. rw Hd list_elem_of_filter in Hx. destruct Hx as [_ Hx].
    apply triple_deleteEntry; auto.
Qed.

(** ** The phases of [Reconcile] *)

(** Before the local inventory is set up. *)
Record early (p : list InventoryEntry) (F : list Act) (s : Engine W) : Prop := {
  early_just : justified (trace s);
  early_persisted : persisted (trace s) = p;
  early_facts : ∀ a, a ∈ F → a ∈ trace s;
}.

Definition ends_justified {A} (P : Engine W → Prop) (m : M A) : Prop :=
  triple P m (λ _ s, justified (trace s)).

Lemma ext_early p F s : ext p F s → early p F s.
Proof. by intros []; split. Qed.

Lemma ends_early {A} p F (a : A) : ends_justified (early p F) (mret a).
Proof. apply triple_ret. by intros s []. Qed.

Lemma ends_just {A} (a : A) : ends_justified (λ s, justified (trace s)) (mret a).
Proof. by apply triple_ret. Qed.

Lemma early_call {A B} p F (m : SM W A) act (f : A → M B) Q :
  (∀ a, acked (act a) = None) → (∀ t a, J cfg t (act a)) →
  (∀ a, triple (early p (act a :: F)) (f a) Q) →
  triple (early p F) (do_call m act ≫= f) Q.
Proof.
  intros Ha HJ Hf. eapply triple_bind; [|exact Hf]. intros s [Hj Hp HF]. unfold do_call.
  destruct (m (world s)) as [a w]. simpl. split; simpl.
  - by apply justified_snoc.
  - by rw persisted_snoc Ha.
  - intros b [->|Hb]%elem_of_cons; [apply elem_of_app; right; by left|apply elem_of_app; left; auto].
Qed.

Lemma triple_get {A} (P : Engine W → Prop) (f : Engine W → M A) Q :
  (∀ e, triple (λ s, P s ∧ s = e) (f e) Q) → triple P (sget ≫= f) Q.
Proof. intros Hf s Hs. apply (Hf s s). done. Qed.

Lemma early_quiet {A B} p F (m : M A) (f : A → M B) Q :
  quiet m → (∀ a, triple (early p F) (f a) Q) → triple (early p F) (m ≫= f) Q.
Proof.
  intros Hm Hf. apply (triple_bind _ (λ _, early p F)); [|exact Hf].
  intros s [Hj Hp HF]. destruct (Hm s) as (_ & l & Ht & Hl). split; rw Ht.
  - by apply justified_silent.
  - by rw persisted_silent.
  - intros a Ha. apply elem_of_app. left. auto.
Qed.

(** A write of the status, and what it drops. *)
Definition covers (st : ReplicationStatus) (s : Engine W) : Prop :=
  justified (trace s) ∧
  ∀ k, k ∈ tracked (persisted (trace s)) → k ∉ tracked (Inventory_ st) → lost_ok cfg (trace s) k.

Lemma ext_covers p F s st : ext p F s → Inventory_ st = view (inv s) → covers st s.
Proof. intros [] Hst. split; [done|]. rw Hst. subst p. auto. Qed.

Lemma early_covers p F s st : early p F s → Inventory_ st = p → covers st s.
Proof. intros [Hj <- _] Hst. split; [done|]. rw Hst. done. Qed.

Lemma ends_writeStatus {A} rep shared st (f : option error → M A) :
  (∀ r, ends_justified (λ s, justified (trace s)) (f r)) →
  ends_justified (covers st) (writeStatusIfChanged rep shared st ≫= f).
Proof.
  intros Hf. eapply triple_bind; [|exact Hf]. unfold writeStatusIfChanged.
  apply triple_get. intros e. destruct (decide _).
  - apply triple_ret. by intros s [[? _] _].
  - apply triple_drop. apply (triple_bind _ (λ _ s, justified (trace s))); [|intros; by apply triple_ret].
    intros s [Hj Hc]. unfold clientStatusUpdate, do_call. destruct (hubUpdateStatus _ _) as [a w].
    simpl. by apply justified_snoc.
Qed.

Lemma ends_finishSimple p F rep reason m d :
  p = Inventory_ (rep_Status rep) →
  ends_justified (early p F) (finishSimple rep reason m d).
Proof.
  intros Hp. apply triple_get. intros e. apply triple_drop.
  eapply triple_conseq; [apply ends_writeStatus; intros r; by apply triple_ret| |done].
  intros s Hs. by eapply early_covers.
Qed.

(** *** The plan *)

Definition allowed_keys (gvk : GroupVersionKind) (slots : list (slotInfo * Decision)) : gset SlotKey :=
  list_to_set (map (λ sd, slot_key gvk sd.1) (List.filter (λ sd, Allowed sd.2) slots)).

Lemma planEntries_spec gvk slots v :
  wf_slice v →
  let v' := planEntries gvk slots v in
  wf_slice v' ∧ (∃ l, view v' = view v ++ l) ∧
  tracked (view v') = tracked (view v) ∪ allowed_keys gvk slots.
Proof.
  revert v. unfold planEntries, allowed_keys.
  induction slots as [|[s d] slots IH]; intros v Hv; simpl.
  - split_and!; [done| |set_solver]. exists []. by rw app_nil_r.
  - destruct (Allowed d) eqn:Ed; simpl; [|by apply IH].
    assert (KeyForEntry (entry_of gvk s "") = slot_key gvk s) as Ek by done.
    destruct (hasEntry (view v) (slot_key gvk s)) eqn:Eh; simpl.
    + destruct (IH v Hv) as (H1 & H2 & H3). split_and!; [done|done|]. rw H3.
      apply elem_of_tracked in Eh. set_solver.
    + assert (wf_slice (append v (entry_of gvk s ""))) as Hv' by by apply wf_append.
      destruct (IH _ Hv') as (H1 & [l H2] & H3). split_and!; [done| |].
      * exists (entry_of gvk s "" :: l). by rw H2 view_append // -app_assoc.
      * rw H3 view_append //. unfold tracked. rw map_app list_to_set_app_L. simpl. rw Ek.
        set_solver.
Qed.

Lemma view_length v : wf_slice v → length (view v) = len v.
Proof. intros Hv. unfold view. rw length_take. unfold wf_slice in Hv. lia. Qed.

(** After the plan: the stored inventory is the planned one, the allowed slots are
    in it, and nothing has been dropped. *)
Lemma triple_persistPlan {A} p F rep gvk slots (f : error + Replication * option nat → M A) :
  p = Inventory_ (rep_Status rep) → rep_known F rep →
  let before := fresh p in let after := planEntries gvk slots before in
  (∀ err, ends_justified (λ s, justified (trace s)) (f (inl err))) →
  (∀ rep' shared F', (∀ a, a ∈ F → a ∈ F') → rep_known F' rep' →
     ends_justified (ext (view after) F') (f (inr (rep', shared)))) →
  ends_justified (early p F) (persistPlan rep before after ≫= f).
Proof.
  intros Hp Hrep before after Herr Hok. unfold persistPlan.
  destruct (planEntries_spec gvk slots before (wf_fresh p)) as (Hwf & [l Hl] & Htr). fold after in Hwf, Hl, Htr.
  rw view_fresh in Hl. rw view_fresh in Htr.
  intros s [Hj Hps HF]. unfold mbind, SM_bind, smod. cbn beta iota.
  destruct (decide _) as [Hlen|Hlen].
  - cbn beta iota delta [mret SM_ret]. apply (Hok rep None F); [done|exact Hrep|].
    assert (view after = p) as Hv.
    { rw Hl. assert (length l = 0)%nat as ->%nil_length_inv; [|by rw app_nil_r].
      apply (f_equal length) in Hl. rw length_app view_length // in Hl. simpl in Hlen. lia. }
    split; simpl; rw ?Hv //; by subst p.
  - unfold clientStatusUpdate, do_call. cbn [world set_inv].
    set (rw := with_inventory rep (view after)).
    assert (∀ res, J cfg (trace s) (UpdateStatus rw res)) as HJ.
    { intros res k Hk Hk'. exfalso. apply Hk'. simpl. rw Htr. rw Hps in Hk. set_solver. }
    destruct (hubUpdateStatus rw (world s)) as [[err|[rep' reused]] w] eqn:Eu;
      cbn beta iota delta [mret SM_ret].
    + apply Herr. simpl. by apply justified_snoc.
    + eapply (Hok rep' _ (UpdateStatus rw (inr rep') :: F)); [intros a ?; by right| |].
      { exists (UpdateStatus rw (inr rep')). split; [by left|]. right. right. by eexists. }
      split; simpl; [by apply justified_snoc|done|by rw persisted_snoc|..|done|done].
      intros a [->|Ha]%elem_of_cons; apply elem_of_app; [right; by left|left; auto].
Qed.

Lemma triple_convergeAll p F nn rep src gvk policies rv slots :
  (∀ s d, (s, d) ∈ slots → Allowed d = true →
     licensed cfg p F src gvk s (ResolveOptions (policiesByName policies (MatchedPolicies d)))) →
  triple (ext p F) (convergeAll cfg nn rep src gvk policies rv slots) (λ _, ext p F).
Proof.
  intros Hlic. apply triple_forSM_ext. intros [s d] Hin. destruct (Allowed d) eqn:Ed.
  - apply triple_applyTarget. by apply Hlic.
  - apply triple_seq; [apply quiet_denied|intros st]. by apply triple_ret.
Qed.

Lemma ends_finish p F nn rep shared h states delays keep rr :
  rep_known F rep →
  ends_justified (ext p F) (finish cfg nn rep shared h states delays keep rr).
Proof.
  intros Hrep. unfold finish. eapply triple_bind_ext; [by apply triple_collectGarbage|].
  intros [gcs gcd]. apply triple_seq; [by apply quiet_mod|intros _].
  apply triple_get. intros e. cbv zeta.
  eapply triple_conseq; [apply ends_writeStatus| |done].
  - intros [err|]; [apply ends_just|].
    apply (triple_bind _ (λ _ s, justified (trace s))); [apply triple_quiet_just, quiet_emitTransitionEvents|intros _; apply ends_just].
  - intros s [Hs ->]. by eapply ext_covers.
Qed.

(** A slot and its decision, from the flattened targets and the evaluation. *)
Lemma flatten_decision known rep name srcMeta pols slots preq s d :
  flattenTargets cfg known rep name srcMeta = (slots, preq) →
  (s, d) ∈ zip slots (Decisions (Evaluate preq pols)) →
  d = decide_target srcMeta
        {| t_ClusterName := si_cluster s; t_ClusterLabels := clusterLabels cfg known (si_cluster s);
           t_Namespace := si_namespace s |} pols.
Proof.
  unfold flattenTargets. set (ex := _ ≫= _). intros [= <- <-]. unfold Evaluate. simpl.
  assert (∀ x, x ∈ ex → x.2 = {| t_ClusterName := si_cluster x.1;
    t_ClusterLabels := clusterLabels cfg known (si_cluster x.1);
    t_Namespace := si_namespace x.1 |}) as Hex.
  { intros x. unfold ex. rw list_elem_of_bind. intros (tgt & Hx & _).
    apply elem_of_map in Hx as (ns & -> & _). done. }
  revert Hex. generalize ex. intros l. induction l as [|[s0 t0] l IH]; intros Hl Hin; simpl in Hin.
  - by apply not_elem_of_nil in Hin.
  - apply elem_of_cons in Hin as [[= -> ->]|Hin].
    + f_equal. apply (Hl (s0, t0)). by left.
    + apply IH; [|done]. intros x Hx. apply Hl. by right.
Qed.

Lemma elem_of_allowed gvk slots s d :
  (s, d) ∈ slots → Allowed d = true → slot_key gvk s ∈ allowed_keys gvk slots.
Proof.
  intros Hin Hd. unfold allowed_keys. apply elem_of_list_to_set, elem_of_map. exists (s, d).
  split; [done|]. apply list_elem_of_In, List.filter_In. split; [by apply list_elem_of_In|done].
Qed.

Lemma ends_fanOut p F nn rep gvk src policies nsl :
  let ref := SourceRef (rep_Spec rep) in
  p = Inventory_ (rep_Status rep) → rep_known F rep →
  GetSource gvk (sr_Namespace ref) (sr_Name ref) (inr src) ∈ F → GetUID src = sr_UID ref →
  ListPolicies (inr policies) ∈ F → labels_known F (sr_Namespace ref) nsl →
  ends_justified (early p F) (fanOut cfg nn rep gvk src policies nsl).
Proof.
  intros ref Hp Hrep Hsrc Huid Hpol Hnsl. unfold fanOut. fold ref.
  apply early_call; [done|done|]. intros known. set (F' := Discovered known :: F).
  assert (∀ a, a ∈ F → a ∈ F') as HF by (intros a ?; by right).
  set (srcMeta := Build_Source _ _ _).
  destruct (flattenTargets cfg known rep (GetName src) srcMeta) as [slots preq] eqn:Efl.
  cbv zeta. set (sd := zip slots _).
  apply early_quiet; [apply quiet_sget|intros e].
  apply early_quiet; [by apply quiet_mod|intros _].
  apply early_quiet; [apply quiet_applyRevocations|intros rv].
  assert (rep_known F' rep) as Hrep' by by eapply rep_known_mono.
  rw -Hp. apply triple_persistPlan; [done|done| |].
  { intros err. apply ends_just. }
  intros rep' shared F'' HF'' Hrep''.
  destruct (planEntries_spec gvk sd (fresh p) (wf_fresh p)) as (_ & _ & Htr).
  eapply triple_bind_ext; [apply triple_convergeAll|intros outs; by apply ends_finish].
  intros s d Hin Hd.
  assert (∀ a, a ∈ F → a ∈ F'') as HFF by (intros a ?; by apply HF'', HF).
  apply (licensed_intro _ _ _ _ _ _ _ rep policies known nsl d); try by auto.
  - by eapply rep_known_mono.
  - apply HF''. by left.
  - destruct Hnsl as (res & ? & ?). exists res. auto.
  - by eapply flatten_decision.
  - rw Htr. apply elem_of_union. right. by eapply elem_of_allowed.
Qed.

Lemma ends_reconcileLive p F nn rep :
  p = Inventory_ (rep_Status rep) → rep_known F rep →
  ends_justified (early p F) (reconcileLive cfg nn rep).
Proof.
  intros Hp Hrep. unfold reconcileLive. cbv zeta.
  destruct (kindGVKs cfg !! _) as [gvk|]; [|by apply ends_finishSimple].
  apply early_call; [done|done|]. intros [err|src].
  { destruct (IsNotFound err); [by apply ends_finishSimple|apply ends_early]. }
  destruct (decide (GetUID src = _)) as [Hu|]; [|by apply ends_finishSimple].
  apply early_call; [done|done|]. intros [err|policies]; [apply ends_early|].
  apply early_call; [done|done|]. intros nsl.
  apply ends_fanOut; try done.
  - eapply rep_known_mono; [|exact Hrep]. intros a ?. by do 3 right.
  - right. right. by left.
  - right. by left.
  - exists nsl. split; [by left|done].
Qed.

Lemma ends_reconcileDeletion p F nn rep :
  p = Inventory_ (rep_Status rep) → rep_known F rep →
  ends_justified (early p F) (reconcileDeletion cfg nn rep).
Proof.
  intros Hp Hrep. unfold reconcileDeletion.
  destruct (negb _); [apply ends_early|].
  eapply (triple_bind _ (λ _, ext p F)).
  { intros s [Hj Hps HF]. unfold smod. simpl. subst p. split; simpl; try done.
    - apply wf_fresh.
    - by rw view_fresh.
    - by rw view_fresh. }
  intros _. eapply triple_bind_ext; [by apply triple_collectGarbage|]. intros [states delays].
  apply triple_get. intros e. cbv zeta. destruct (decide _) as [Hnil|Hne].
  - apply (triple_bind _ (λ _ s, justified (trace s))); [|intros [err|rep']; [apply ends_just|]].
    + intros s [Hs ->]. unfold clientUpdate, do_call.
      destruct (hubUpdate _ _) as [res w]. simpl.
      apply justified_snoc; [apply (ext_just _ _ _ Hs)|]. right. intros k Hk.
      apply (ext_lost _ _ _ Hs); [by rw -(ext_persisted _ _ _ Hs)|]. rw Hnil. unfold tracked. set_solver.
    + apply (triple_bind _ (λ _ s, justified (trace s))); [|intros _; apply ends_just]. by intros s Hs.
  - eapply triple_conseq; [apply ends_writeStatus| |done].
    + intros [err|]; apply ends_just.
    + intros s [Hs ->]. by eapply ext_covers.
Qed.

(** Every act of a run of [Reconcile] is justified by the acts before it. *)
Lemma Reconcile_justified nn s :
  trace s = [] → justified (trace (Reconcile cfg nn s).2).
Proof.
  intros Ht.
  assert (triple (λ s, trace s = []) (Reconcile cfg nn) (λ _ s, justified (trace s))) as Hr;
    [|by apply Hr].
  clear s Ht. unfold Reconcile.
  apply (triple_bind _ (λ got s, trace s = [GetReplication nn got])).
  { intros s Hs. unfold do_call. destruct (hubGetReplication _ _). simpl. by rw Hs. }
  intros got.
  assert (justified [GetReplication nn got]) as Hj.
  { apply (justified_snoc []); [apply justified_nil|done]. }
  destruct got as [err|rep].
  - assert (∀ s : Engine W, trace s = [GetReplication nn (inl err)] → justified (trace s)) as Hj'
      by (intros s ->; done).
    destruct (IsNotFound err).
    + apply (triple_bind _ (λ _ s, justified (trace s))); [|intros _; apply ends_just].
      intros s Hs. unfold smod. simpl. auto.
    + by apply triple_ret.
  - eapply triple_conseq with (P' := early (Inventory_ (rep_Status rep)) [GetReplication nn (inr rep)])
      (Q' := λ _ s, justified (trace s)); [| |done].
    2:{ intros s Hs. split; rw Hs //. }
    assert (rep_known [GetReplication nn (inr rep)] rep) as Hrep
      by (eexists; split; [by left|left; by eexists]).
    destruct (decide _); [by apply ends_reconcileDeletion|].
    destruct (decide _); [apply ends_early|].
    destruct (ContainsFinalizer _ _); [by apply ends_reconcileLive|].
    eapply triple_bind with (R := λ res s, match res with
      | inl _ => justified (trace s)
      | inr rep' => ∃ F, rep_known F rep' ∧ early (Inventory_ (rep_Status rep')) F s end).
    + intros s [Hjs Hps HF]. unfold clientUpdate, do_call. destruct (hubUpdate _ _) as [res w].
      simpl. set (r := with_finalizers _ _).
      assert (justified (trace s ++ [Update r res])) as Hj2.
      { apply justified_snoc; [done|]. left. exists rep. split; [|done].
        by eapply rep_known_mono. }
      destruct res as [err|rep']; [done|]. exists [Update r (inr rep')].
      split; [eexists; split; [by left|right; left; by eexists]|].
      split; simpl; [done|by rw persisted_snoc|]. intros a Ha. apply elem_of_app. by right.
    + intros [err|rep']; [apply ends_just|]. intros s (F & HFr & Hs).
      eapply (ends_reconcileLive _ F); [done|done|exact Hs].
Qed.
End safety.
