(* ===== verification/EngineCorrect.v ===== *)
(** What the engine promises, as theorems about the trace of one run of
    [Reconcile], for every behaviour of the hub API and of the target clusters. *)
From S2P Require Import Prelude GoLib Sha256 Api Labels Annotations Policy Unstructured Render.
From S2P Require Import Conflict Backoff Inventory Status Telemetry Drift Transport Engine.
From S2P Require Import EngineSafety.

#[local] Open Scope string_scope.
#[local] Open Scope list_scope.

Section correct.
Context {W : Type} `{HubW : Hub W} `{TrW : Transport W} `{TrL : !TransportLaws W}
  `{MA : MetaAPI} `{LA : LabelsAPI} `{UA : UnstructuredAPI}.
Context (cfg : Config).

(** What the run read before the act: the Replication, its source object, the
    policies, and what they make of a slot. *)
Record context (pre : list Act) := {
  cx_rep : Replication;
  cx_source : Obj;
  cx_gvk : GroupVersionKind;
  cx_policies : list ReplicationPolicy;
  cx_known : string → option (gmap string string);
  cx_nsLabels : gmap string string;
}.
Arguments cx_rep {pre}. Arguments cx_source {pre}. Arguments cx_gvk {pre}.
Arguments cx_policies {pre}. Arguments cx_known {pre}. Arguments cx_nsLabels {pre}.

Definition cx_ref {pre} (cx : context pre) : SourceReference := SourceRef (rep_Spec (cx_rep cx)).

Definition cx_src {pre} (cx : context pre) : Source :=
  {| s_Kind := sr_Kind (cx_ref cx); s_Namespace := sr_Namespace (cx_ref cx);
     s_NamespaceLabels := cx_nsLabels cx |}.

Definition cx_target {pre} (cx : context pre) (s : slotInfo) : Target :=
  {| t_ClusterName := si_cluster s;
     t_ClusterLabels := clusterLabels cfg (cx_known cx) (si_cluster s);
     t_Namespace := si_namespace s |}.

(** The context was read in this run: the source is the recorded one. *)
Record was_read {pre} (cx : context pre) : Prop := {
  wr_rep : rep_known pre (cx_rep cx);
  wr_source : GetSource (cx_gvk cx) (sr_Namespace (cx_ref cx)) (sr_Name (cx_ref cx))
                (inr (cx_source cx)) ∈ pre;
  wr_uid : GetUID (cx_source cx) = sr_UID (cx_ref cx);
  wr_policies : ListPolicies (inr (cx_policies cx)) ∈ pre;
  wr_known : Discovered (cx_known cx) ∈ pre;
  wr_labels : labels_known pre (sr_Namespace (cx_ref cx)) (cx_nsLabels cx);
}.

(** Some policy that names a permission for the target grants [φ] (policies are
    identified by name). *)
Definition granted {pre} (cx : context pre) (s : slotInfo) (φ : PolicyOptions → Prop) : Prop :=
  ∃ p q, p ∈ cx_policies cx ∧ q ∈ cx_policies cx ∧ pol_Name p = pol_Name q ∧
    permits q (cx_src cx) (cx_target cx s) ∧ φ (spec_Options (pol_Spec p)).

(** ** Lemmas *)

Lemma policiesByName_granted pre (cx : context pre) s φ :
  let dec := decide_target (cx_src cx) (cx_target cx s) (cx_policies cx) in
  (∃ p, p ∈ policiesByName (cx_policies cx) (MatchedPolicies dec) ∧ φ (spec_Options (pol_Spec p))) →
  granted cx s φ.
Proof.
  intros dec (p & Hp & Hφ). unfold policiesByName in Hp. apply list_elem_of_filter in Hp as [Hn Hp].
  unfold dec in Hn. rw decide_target_matched in Hn.
  assert (pol_Name p ∈ map pol_Name
    (filter (λ q, matchPolicy q (cx_src cx) (cx_target cx s) = inr tt) (cx_policies cx))) as Hn'.
  { unfold Sort in Hn. by rw elem_of_isort in Hn. }
  apply elem_of_map in Hn' as (q & Hq & Hin). apply list_elem_of_filter in Hin as [Hm Hin].
  exists p, q. split_and!; try done. by apply matchPolicy_permits.
Qed.

Lemma licensed_context pre src gvk s eff :
  licensed cfg (persisted pre) pre src gvk s eff →
  ∃ cx : context pre, was_read cx ∧ cx_source cx = src ∧ cx_gvk cx = gvk ∧
    (∃ p, p ∈ cx_policies cx ∧ permits p (cx_src cx) (cx_target cx s)) ∧
    eff = ResolveOptions (policiesByName (cx_policies cx) (MatchedPolicies
            (decide_target (cx_src cx) (cx_target cx s) (cx_policies cx)))) ∧
    slot_key gvk s ∈ tracked (persisted pre).
Proof.
  intros [rep pols known nsl dec H1 H2 H3 H4 H5 H6 -> H8 H9 H10].
  exists (Build_context pre rep src gvk pols known nsl). split_and!; try done.
  by apply decide_target_allowed in H8.
Qed.

Lemma run_justified nn s pre a post :
  trace s = [] → trace (Reconcile cfg nn s).2 = pre ++ a :: post → J cfg pre a.
Proof. intros Ht Heq. by eapply (Reconcile_justified cfg nn s Ht). Qed.

(** ** Safety *)

(** C2. Crash safety: whatever the clusters and the API answer, when the engine
    writes a replica the slot is already in the inventory the API server has
    acknowledged, so a crash between the write and its record loses nothing. The
    only other object it writes is the payload of a target namespace. *)
Theorem replica_writes_are_recorded nn s pre c o res post :
  trace s = [] → trace (Reconcile cfg nn s).2 = pre ++ SpokeApply c o res :: post →
  (∃ ns, o = namespacePayload ns) ∨
  ∃ k src, k ∈ tracked (persisted pre) ∧ sk_Cluster k = c ∧
    (o = (Render (strip cfg) (renderer cfg) src (sk_Namespace k) (sk_Name k)).1 ∨
     ∃ gvk h, o = AdoptPatch (renderer cfg) src gvk (sk_Namespace k) (sk_Name k) h).
Proof.
  intros Ht Heq. pose proof (run_justified _ _ _ _ _ Ht Heq) as (src & gvk & sl & eff & -> & Hl & Hm).
  destruct Hm as [(-> & _)|Hm]; [left; by eexists|right].
  exists (slot_key gvk sl), src. split; [by inversion Hl|]. split; [done|].
  destruct Hm as [[-> _]|[-> _]]; [by left|right]. by eexists _, _.
Qed.

(** C4. The policy gate: nothing is written to a cluster unless, in the policies
    listed in this very run, some policy permits the Replication's source kind and
    namespace, the cluster by its discovered labels, and the namespace; and a
    namespace is created only if it was seen missing and a permitting policy's
    name grants namespace creation. *)
Theorem writes_need_policy nn s pre c o res post :
  trace s = [] → trace (Reconcile cfg nn s).2 = pre ++ SpokeApply c o res :: post →
  ∃ (cx : context pre) sl, was_read cx ∧ si_cluster sl = c ∧
    (∃ p, p ∈ cx_policies cx ∧ permits p (cx_src cx) (cx_target cx sl)) ∧
    ((o = namespacePayload (si_namespace sl) ∧
      granted cx sl (λ opts, AllowNamespaceCreation opts = true) ∧
      ∃ err, SpokeGet c namespaceGVK "" (si_namespace sl) (inl err) ∈ pre ∧ IsNotFound err = true) ∨
     o = desired_obj cfg (cx_source cx) sl ∨ o = adopt_obj cfg (cx_source cx) (cx_gvk cx) sl).
Proof.
  intros Ht Heq. pose proof (run_justified _ _ _ _ _ Ht Heq) as (src & gvk & sl & eff & -> & Hl & Hm).
  destruct (licensed_context _ _ _ _ _ Hl) as (cx & Hr & <- & <- & Hp & -> & _).
  exists cx, sl. split_and!; [done..|].
  destruct Hm as [(-> & Hc & Hns)|[[-> _]|[-> _]]]; [left|right; by left|right; by right].
  split; [done|]. split; [|done].
  by apply policiesByName_granted, ResolveOptions_creation.
Qed.

(** An existing object that the engine may write over: it carries the source's
    UID, or it is not managed by the operator and both keys turned. *)
Definition two_keys {pre} (cx : context pre) (s : slotInfo) (existing : Obj) : Prop :=
  default "" (GetLabels existing !! LabelManagedBy) ≠ ManagedByValue ∧
  RequestedConflictPolicy (GetAnnotations (cx_source cx)) = ConflictPolicyOverwrite ∧
  granted cx s (λ opts, ConflictPolicyOverwrite ∈ AllowedConflictPolicies opts).

Definition adopt_keys {pre} (cx : context pre) (s : slotInfo) (existing : Obj) : Prop :=
  default "" (GetLabels existing !! LabelManagedBy) ≠ ManagedByValue ∧
  RequestedConflictPolicy (GetAnnotations (cx_source cx))
    ∈ [ConflictPolicyAdopt; ConflictPolicyOverwrite] ∧
  granted cx s (λ opts, ∃ x, x ∈ AllowedConflictPolicies opts ∧
                             x ∈ [ConflictPolicyAdopt; ConflictPolicyOverwrite]).

Definition carries_uid {pre} (cx : context pre) (existing : Obj) : Prop :=
  default "" (GetLabels existing !! LabelSourceUID) = GetUID (cx_source cx).

Lemma replaceable_keys pre (cx : context pre) sl :
  replaceable cfg pre (cx_source cx) (cx_gvk cx) sl
    (ResolveOptions (policiesByName (cx_policies cx) (MatchedPolicies
       (decide_target (cx_src cx) (cx_target cx sl) (cx_policies cx))))) →
  ∃ existing, found pre (cx_gvk cx) sl (inr existing) ∧
    (carries_uid cx existing ∨ two_keys cx sl existing).
Proof.
  intros (x & Hx & Hor). exists x. split; [done|]. unfold carries_uid, two_keys.
  destruct Hor as [Hs|[Hm|Hv]].
  - left. revert Hs. unfold ClassifyReplicaOwnership. by repeat case_bool_decide; repeat case_decide.
  - left. unfold IsManagedReplica in Hm. by apply andb_true_iff in Hm as [_ ?%bool_decide_eq_true].
  - right. apply DecideConflict_spec in Hv as (Hm & Hreq & Hal). split_and!; [done..|].
    apply policiesByName_granted. by apply ResolveOptions_conflict in Hal as [?|?].
Qed.

Lemma strength_pos x : (1 ≤ conflictPolicyStrength x)%Z → x ∈ [ConflictPolicyAdopt; ConflictPolicyOverwrite].
Proof. destruct (strength_cases x) as [[-> _]|[[-> _]|(_ & _ & ->)]]; [set_solver..|lia]. Qed.

Lemma adopt_verdict_keys pre (cx : context pre) sl existing :
  verdict cfg (cx_source cx) existing sl
    (ResolveOptions (policiesByName (cx_policies cx) (MatchedPolicies
       (decide_target (cx_src cx) (cx_target cx sl) (cx_policies cx))))) = ActionAdopt →
  adopt_keys cx sl existing ∧
  SourceHash (strip cfg) existing = SourceHash (strip cfg) (cx_source cx).
Proof.
  intros Hv. apply DecideConflict_spec in Hv as (Hm & Hh & Hmin). split; [|done].
  split; [done|]. split; [apply strength_pos; lia|].
  apply policiesByName_granted. set (ps := policiesByName _ _) in *.
  destruct (max_strength_attained (eff_AllowedConflictPolicies (ResolveOptions ps)) 1) as [Hx _]; [lia|].
  destruct Hx as (x & Hx & Hs); [lia|]. apply ResolveOptions_conflict in Hx as [->|(p & Hp & Hxp)]; [done|].
  exists p. split; [done|]. exists x. split; [done|by apply strength_pos].
Qed.

(** C1. The engine never takes what is not its own: before every write or delete of
    a replica it has looked at that very object in this run, and found nothing
    there, or an object carrying the source's UID, or (with the source asking for
    it and policy granting it) an unmanaged object; an unmanaged object of equal
    content is adopted, which writes labels and the hash annotation only, under the
    same two keys. A deletion by
    garbage collection needs a recorded entry and the source's UID on the object. *)
Theorem never_takes_foreign nn s pre a post :
  trace s = [] → trace (Reconcile cfg nn s).2 = pre ++ a :: post →
  match a with
  | SpokeApply c o _ =>
      ∃ (cx : context pre) sl, was_read cx ∧ si_cluster sl = c ∧
        (o = namespacePayload (si_namespace sl) ∨
         (o = desired_obj cfg (cx_source cx) sl ∧
           ((∃ err, found pre (cx_gvk cx) sl (inl err) ∧ IsNotFound err = true) ∨
            ∃ existing, found pre (cx_gvk cx) sl (inr existing) ∧
              (carries_uid cx existing ∨ two_keys cx sl existing))) ∨
         (o = adopt_obj cfg (cx_source cx) (cx_gvk cx) sl ∧
            ∃ existing, found pre (cx_gvk cx) sl (inr existing) ∧
              adopt_keys cx sl existing ∧
              SourceHash (strip cfg) existing = SourceHash (strip cfg) (cx_source cx)))
  | SpokeDelete c o _ =>
      (∃ (cx : context pre) sl existing, was_read cx ∧ si_cluster sl = c ∧
         o = desired_obj cfg (cx_source cx) sl ∧ found pre (cx_gvk cx) sl (inr existing) ∧
         (carries_uid cx existing ∨ two_keys cx sl existing)) ∨
      (∃ e gvk existing rep, o = deleteObj gvk e ∧ c = ie_ClusterName e ∧
         KeyForEntry e ∈ tracked (persisted pre) ∧ rep_known pre rep ∧
         SpokeGet c gvk (ie_Namespace e) (ie_Name e) (inr existing) ∈ pre ∧
         sr_UID (SourceRef (rep_Spec rep)) ≠ "" ∧
         GetLabels existing !! LabelSourceUID = Some (sr_UID (SourceRef (rep_Spec rep))))
  | _ => True
  end.
Proof.
  intros Ht Heq. pose proof (run_justified _ _ _ _ _ Ht Heq) as HJ. destruct a; try done.
  - destruct HJ as (src & gvk & sl & eff & -> & Hl & Hm).
    destruct (licensed_context _ _ _ _ _ Hl) as (cx & Hr & <- & <- & Hp & -> & _).
    exists cx, sl. split; [done|]. split; [done|].
    destruct Hm as [(-> & _)|[[-> Hm]|[-> (x & Hx & Hv)]]]; [by left|right; left|right; right].
    + split; [done|]. destruct Hm as [?|Hm]; [by left|right]. by apply replaceable_keys.
    + split; [done|]. exists x. split; [done|]. by apply adopt_verdict_keys.
  - destruct HJ as [(src & gvk & sl & eff & -> & Hl & Hm & ->)|Hc].
    + destruct (licensed_context _ _ _ _ _ Hl) as (cx & Hr & <- & <- & Hp & -> & _). left.
      destruct (replaceable_keys _ _ _ Hm) as (x & Hx & Hor). by exists cx, sl, x.
    + right. destruct Hc as (e & gvk & x & rep & -> & -> & _ & _ & Ht1 & Hr & Hg & Hown).
      exists e, gvk, x, rep. split_and!; try done.
      * intros E. apply Hown. unfold ClassifyReplicaOwnership. by rw E.
      * revert Hown. unfold ClassifyReplicaOwnership.
        destruct (GetLabels x !! LabelSourceUID) as [u|]; simpl; repeat case_bool_decide; simpl; try done;
          by subst.
Qed.

(** C3. No replica is forgotten: whenever a status write drops a slot from the
    stored inventory, and for every slot still stored when an update leaves the
    finalizer out, the run has evidence that nothing of ours is left there: the
    object or its namespace was seen missing, it was seen to carry another source's
    marks or none, its deletion was acknowledged, or its cluster left discovery. *)
Theorem no_replica_forgotten `{ML : !MetaLaws} nn s pre a post :
  trace s = [] → trace (Reconcile cfg nn s).2 = pre ++ a :: post →
  match a with
  | UpdateStatus r _ =>
      ∀ k, k ∈ tracked (persisted pre) → k ∉ tracked (Inventory_ (rep_Status r)) → lost_ok cfg pre k
  | Update r _ =>
      ContainsFinalizer (rep_Finalizers r) FinalizerName = false →
      ∀ k, k ∈ tracked (persisted pre) → lost_ok cfg pre k
  | _ => True
  end.
Proof.
  intros Ht Heq. pose proof (run_justified _ _ _ _ _ Ht Heq) as HJ. destruct a; try done.
  intros Hf. destruct HJ as [(rep & _ & Hr)|HJ]; [|done]. rw Hr contains_add // in Hf.
Qed.
End correct.
