(* ===== verification/EngineProgress.v ===== *)
(** What a reconcile achieves: every slot is attempted and reported whatever
    happens to the others, and a converged replica is left alone. *)
From S2P Require Import Prelude GoLib Sha256 Api Labels Annotations Policy Unstructured Render.
From S2P Require Import Conflict Backoff Inventory Status Telemetry Drift Transport Engine.

#[local] Open Scope string_scope.
#[local] Open Scope list_scope.

Section progress.
Context {W : Type} `{HubW : Hub W} `{TrW : Transport W}
  `{MA : MetaAPI} `{LA : LabelsAPI} `{UA : UnstructuredAPI}.
Context (cfg : Config).

Abbreviation M A := (SM (Engine W) A).

(** ** Traces only grow *)

Definition grows (s s' : Engine W) : Prop := trace s `prefix_of` trace s'.

#[export] Instance grows_preorder : PreOrder grows.
Proof. split; [intros s; unfold grows; done|intros a b c; unfold grows; apply transitivity]. Qed.

Lemma runs_mod (f : Engine W → Engine W) :
  (∀ s, trace (f s) = trace s) → runs grows (smod f).
Proof. intros Hf s. unfold grows. simpl. by rw Hf. Qed.

Lemma runs_call {A} (m : SM W A) act : runs grows (do_call m act).
Proof.
  intros s. unfold grows, do_call. destruct (m (world s)). simpl. by apply prefix_app_r.
Qed.

Lemma runs_emit a : runs grows (emit a).
Proof. intros s. unfold grows. simpl. by apply prefix_app_r. Qed.

Lemma runs_sget : runs grows (@sget (Engine W)).
Proof. intros s. done. Qed.

#[local] Hint Resolve runs_mod runs_call runs_emit runs_sget : r8r.

Lemma runs_event rep ty r m : runs grows (event cfg rep ty r m).
Proof.
  unfold event. destruct (Recorder cfg); [|apply runs_ret, _].
  apply runs_bind; [apply _|apply runs_sget|intros e]. destruct (Allow _ _ _ _ _) as [[] l];
    (apply runs_bind; [apply _|by apply runs_mod|intros _]); [apply runs_emit|apply runs_ret, _].
Qed.

Lemma runs_failure nn c : runs grows (backoffFailure (W := W) nn c).
Proof.
  apply runs_bind; [apply _|apply runs_sget|intros e]. destruct (Failure _ _ _).
  apply runs_bind; [apply _|by apply runs_mod|intros _; apply runs_ret, _].
Qed.

Lemma runs_fail nn gvk s r m b : runs grows (fail (W := W) nn gvk s r m b).
Proof.
  destruct b; (apply runs_bind; [apply _| |intros ?; apply runs_ret, _]);
    [apply runs_failure|by apply runs_mod].
Qed.

Lemma runs_recreate c o : runs grows (applyWithRecreate (W := W) c o).
Proof.
  unfold applyWithRecreate. apply runs_bind; [apply _|apply runs_call|intros [e0|]; [|apply runs_ret, _]].
  case_match; [|apply runs_ret, _].
  apply runs_bind; [apply _|apply runs_call|intros [e1|]; [|apply runs_call]].
  case_match; [apply runs_call|apply runs_ret, _].
Qed.

Lemma runs_or_fail (m : M (option error)) k : runs grows m → runs grows k → runs grows (or_fail m k).
Proof.
  intros Hm Hk. unfold or_fail. apply runs_bind; [apply _|done|intros [err|]; [apply runs_ret, _|]].
  apply runs_bind; [apply _|done|intros _; apply runs_ret, _].
Qed.

Lemma runs_drift rep s o h : runs grows (driftCorrected cfg rep s o h).
Proof. apply runs_bind; [apply _|apply runs_emit|intros _; apply runs_event]. Qed.

Lemma runs_converge rep src gvk s eff d h : runs grows (convergeSlot cfg rep src gvk s eff d h).
Proof.
  unfold convergeSlot, resolveConflict.
  apply runs_bind; [apply _|apply runs_call|intros [err|x]].
  { case_match; [apply runs_or_fail; [apply runs_call|apply runs_ret, _]|apply runs_ret, _]. }
  destruct (decide _).
  { apply runs_or_fail; [apply runs_recreate|].
    do 2 (apply runs_bind; [apply _|first [apply runs_emit|apply runs_event]|intros _]).
    case_decide; [apply runs_ret, _|apply runs_drift]. }
  cbv zeta. destruct (Action _).
  - case_match; [|apply runs_ret, _]. apply runs_or_fail; [apply runs_recreate|].
    case_match; [apply runs_drift|apply runs_ret, _].
  - do 2 (apply runs_bind; [apply _|first [apply runs_emit|apply runs_event]|intros _]).
    apply runs_ret, _.
  - apply runs_bind; [apply _|apply runs_emit|intros _].
    apply runs_or_fail; [apply runs_call|apply runs_event].
  - apply runs_bind; [apply _|apply runs_emit|intros _].
    apply runs_or_fail; [apply runs_recreate|apply runs_event].
Qed.

Lemma runs_denied s d r rd gvk : runs grows (deniedState (W := W) s d r rd gvk).
Proof.
  unfold deniedState. apply runs_bind; [apply _|apply runs_sget|intros e]. cbv zeta.
  repeat case_match; try apply runs_ret, _.
  apply runs_bind; [apply _|apply runs_emit|intros _; apply runs_ret, _].
Qed.

(** ** One state per slot *)

Definition coordinates (st : targetState) : string * string * string * bool :=
  (ts_Cluster st, ts_Namespace st, ts_Name st, ts_Desired st).

Definition slot_coordinates (s : slotInfo) : string * string * string * bool :=
  (si_cluster s, si_namespace s, si_name s, true).

(** Every result of [m] satisfies [φ]. *)
Definition always {A} (m : M A) (φ : A → Prop) : Prop := ∀ s, φ (m s).1.

Lemma always_ret {A} (a : A) (φ : A → Prop) : φ a → always (mret a) φ.
Proof. by intros ? ?. Qed.

Lemma always_bind {A B} (m : M A) (f : A → M B) φ : (∀ a, always (f a) φ) → always (m ≫= f) φ.
Proof. intros Hf s. unfold mbind, SM_bind. destruct (m s) as [a s']. apply Hf. Qed.

Lemma always_fail nn gvk s r m b :
  always (fail (W := W) nn gvk s r m b) (λ x, coordinates x.1 = slot_coordinates s).
Proof. destruct b; by apply always_bind; intros ?; apply always_ret. Qed.

Lemma always_applyTarget nn rep src gvk s eff :
  always (applyTarget cfg nn rep src gvk s eff) (λ x, coordinates x.1 = slot_coordinates s).
Proof.
  unfold applyTarget. apply always_bind. intros [err|].
  - repeat case_match; try apply always_fail.
    do 2 (apply always_bind; intros ?). by apply always_ret.
  - destruct (Render _ _ _ _ _). apply always_bind. intros [[[r m] b]|[]]; [apply always_fail|].
    do 3 (apply always_bind; intros ?). by apply always_ret.
Qed.

Lemma first_call {A B C} (m : SM W A) act (h : A → M B) (g : B → M C) e :
  (∀ a, runs grows (h a)) → (∀ b, runs grows (g b)) →
  ∃ a, (trace e ++ [act a]) `prefix_of` trace (((do_call m act ≫= h) ≫= g) e).2.
Proof.
  intros Hh Hg. unfold mbind, SM_bind, do_call. destruct (m (world e)) as [a w]. exists a.
  set (e1 := set_trace (trace e ++ [act a]) (set_world w e)).
  change (trace e ++ [act a]) with (trace e1).
  specialize (Hh a e1). destruct (h a e1) as [b e2]. etrans; [exact Hh|apply Hg].
Qed.

Lemma always_denied s d r rd gvk :
  always (st ← deniedState (W := W) s d r rd gvk; mret (st, 0%Z))
    (λ x, coordinates x.1 = slot_coordinates s).
Proof.
  intros e. unfold deniedState, mbind, SM_bind, sget. cbv zeta. cbn beta iota.
  case_decide; [done|].
  match goal with |- context [andb ?b ?c] => by destruct (andb b c) end.
Qed.

(** The first thing a slot does is to look at its namespace. *)
Lemma applyTarget_attempts nn rep src gvk s eff e :
  ∃ res, (trace e ++ [SpokeGet (si_cluster s) namespaceGVK "" (si_namespace s) res])
    `prefix_of` trace (applyTarget cfg nn rep src gvk s eff e).2.
Proof.
  unfold applyTarget, ensureNamespace, transportGet. apply first_call.
  - intros [err|o]; [|apply runs_ret, _]. repeat case_match; try apply runs_ret, _. apply runs_call.
  - intros [err|].
    + repeat case_match; try apply runs_fail.
      apply runs_bind; [apply _|by apply runs_mod|intros _].
      apply runs_bind; [apply _|apply runs_failure|intros d; apply runs_ret, _].
    + destruct (Render _ _ _ _ _). apply runs_bind; [apply _|apply runs_converge|].
      intros [[[r m] b]|[]]; [apply runs_fail|].
      do 3 (apply runs_bind; [apply _|by apply runs_mod|intros _]). apply runs_ret, _.
Qed.

Lemma runs_applyTarget nn rep src gvk s eff : runs grows (applyTarget cfg nn rep src gvk s eff).
Proof.
  intros e. destruct (applyTarget_attempts nn rep src gvk s eff e) as (res & Hp).
  unfold grows. etrans; [|exact Hp]. by apply prefix_app_r.
Qed.

(** C15. Targets are isolated from each other: whatever fails, the fan-out reports
    exactly one state per slot, in the order of the slots and with their
    coordinates, all counted as desired; and it has gone to the cluster of every
    allowed slot, however many slots before it failed. *)
Theorem fan_out_isolation nn rep src gvk pols rv slots e :
  let r := convergeAll cfg nn rep src gvk pols rv slots e in
  map (λ o, coordinates o.1) r.1 = map (λ sd, slot_coordinates sd.1) slots ∧
  ∃ l, trace r.2 = trace e ++ l ∧
    ∀ s d, (s, d) ∈ slots → Allowed d = true →
      ∃ res, SpokeGet (si_cluster s) namespaceGVK "" (si_namespace s) res ∈ l.
Proof.
  intros r. unfold r, convergeAll. clear r. revert e.
  induction slots as [|[s d] slots IH]; intros e.
  { split; [done|]. exists []. split; [by rw app_nil_r|]. intros s d []%not_elem_of_nil. }
  set (f := λ sd : slotInfo * Decision, _) in *. rw forSM_cons.
  assert (coordinates (f (s, d) e).1.1 = slot_coordinates s ∧
    ∃ l, trace (f (s, d) e).2 = trace e ++ l ∧
      (Allowed d = true → ∃ res, SpokeGet (si_cluster s) namespaceGVK "" (si_namespace s) res ∈ l))
    as (Hc & l1 & Ht1 & Hl1).
  { unfold f. destruct (Allowed d).
    - split; [apply always_applyTarget|].
      destruct (applyTarget_attempts nn rep src gvk s
        (ResolveOptions (policiesByName pols (MatchedPolicies d))) e) as (res & l & Hl).
      exists (SpokeGet (si_cluster s) namespaceGVK "" (si_namespace s) res :: l).
      split; [by rw Hl -app_assoc|]. intros _. exists res. by left.
    - split.
      + apply always_denied.
      + assert (grows e ((st ← deniedState s d (retainedKeys rv) (revokedDeleteNS rv) gvk;
                          mret (st, 0%Z)) e).2) as [l Hl].
        { apply runs_bind; [apply _|apply runs_denied|intros st; apply runs_ret, _]. }
        exists l. by split. }
  destruct (f (s, d) e) as [o e1]. simpl in Hc, Ht1.
  destruct (IH e1) as (Hcs & l2 & Ht2 & Hl2).
  destruct (forSM slots f e1) as [os e2]. simpl in *.
  split; [by rw Hc Hcs|]. exists (l1 ++ l2). split; [by rw Ht2 Ht1 app_assoc|].
  intros s' d' [[= -> ->]|Hin]%elem_of_cons Hd.
  - destruct (Hl1 Hd) as (res & ?). exists res. apply elem_of_app. by left.
  - destruct (Hl2 _ _ Hin Hd) as (res & ?). exists res. apply elem_of_app. by right.
Qed.

(** ** A converged replica *)

Lemma bind_run {A B} (m : M A) (f : A → M B) e a e' :
  m e = (a, e') → (m ≫= f) e = f a e'.
Proof. intros E. unfold mbind, SM_bind. by rw E. Qed.

Lemma get_run c gvk ns name e res w :
  tGet c gvk ns name (world e) = (res, w) →
  transportGet c gvk ns name e =
  (res, set_trace (trace e ++ [SpokeGet c gvk ns name res]) (set_world w e)).
Proof. intros E. unfold transportGet, do_call. by rw E. Qed.

(** C35. Idempotence: once the object on the spoke shows the labels, annotations and
    content that [Render] writes (fields the API server adds aside), applying the
    slot again writes nothing: it reads the namespace and the object, reports the
    slot ready, clears the backoff and refreshes the recorded hash. *)
Theorem converged_replica_untouched `{UL : !UnstructuredLaws} nn rep src md gvk s eff e nsobj
    existing w1 w2 :
  wf_obj src md →
  let desired := (Render (strip cfg) (renderer cfg) src (si_namespace s) (si_name s)).1 in
  tGet (si_cluster s) namespaceGVK "" (si_namespace s) (world e) = (inr nsobj, w1) →
  tGet (si_cluster s) gvk (si_namespace s) (si_name s) w1 = (inr existing, w2) →
  GetLabels existing = GetLabels desired →
  GetAnnotations existing = GetAnnotations desired →
  SourceHash (strip cfg) existing = SourceHash (strip cfg) desired →
  let '((st, delay), e') := applyTarget cfg nn rep src gvk s eff e in
  st = mkState s true "" "" ∧ delay = 0%Z ∧ world e' = w2 ∧
  trace e' = trace e ++
    [SpokeGet (si_cluster s) namespaceGVK "" (si_namespace s) (inr nsobj);
     SpokeGet (si_cluster s) gvk (si_namespace s) (si_name s) (inr existing)] ∧
  inv e' = upsertEntry (inv e) (entry_of gvk s (SourceHash (strip cfg) src)) ∧
  backoff e' = Success nn (si_cluster s) (backoff e).
Proof.
  intros Hwf desired Hns Hget Hl Ha Hh.
  assert (SourceHash (strip cfg) existing = SourceHash (strip cfg) src) as Hh'.
  { rw Hh. by eapply SourceHash_Render_eq. }
  assert (default "" (GetAnnotations existing !! AnnotationSourceHash) = SourceHash (strip cfg) src)
    as Ha'.
  { rw Ha (Render_annotations _ _ _ _ _ _ Hwf) lookup_insert_eq. done. }
  assert (IsManagedReplica (GetLabels existing) (GetUID src) = true) as Hm.
  { rw Hl (Render_labels _ _ _ _ _ _ Hwf). unfold IsManagedReplica.
    apply andb_true_iff; split; apply bool_decide_eq_true_2; by erewrite lookup_union_Some_l by reflexivity. }
  assert (ClassifyReplicaOwnership (GetLabels existing) (GetUID src) ≠ OwnershipStripped) as Hc.
  { unfold IsManagedReplica in Hm. apply andb_true_iff in Hm as [Hm _].
    apply bool_decide_eq_true in Hm. unfold ClassifyReplicaOwnership. case_match; [done|]. by rw Hm. }
  unfold applyTarget.
  erewrite bind_run; [|unfold ensureNamespace; erewrite bind_run by (by apply get_run); reflexivity].
  change (Render _ _ _ _ _) with (desired, SourceHash (strip cfg) src). cbn beta iota.
  erewrite bind_run;
    [|unfold convergeSlot; erewrite bind_run by (apply get_run; exact Hget); cbn beta iota;
      rewrite decide_False //; unfold resolveConflict, DecideConflict; rewrite Hm; cbn [Action];
      rewrite Hh' Ha' bool_decide_eq_true_2 //; reflexivity].
  split_and!; try done. simpl. by rw -app_assoc.
Qed.
End progress.
