(* ===== verification/Revocations.v ===== *)
(** Revocation: which recorded replicas the engine marks for retention and which
    for deletion when policies withdraw permission, by what right, and what the
    garbage collection then plans for them. *)
From S2P Require Import Prelude GoLib Sha256 Api Labels Annotations Policy Unstructured Render.
From S2P Require Import Conflict Backoff Inventory Status Telemetry Drift Transport Engine.
From S2P Require Import EngineSafety EngineProgress.

#[local] Open Scope string_scope.
#[local] Open Scope list_scope.

Section revocations.
Context {W : Type} `{HubW : Hub W} `{TrW : Transport W}
  `{MA : MetaAPI} `{LA : LabelsAPI} `{UA : UnstructuredAPI}.
Context (cfg : Config).

Abbreviation M A := (SM (Engine W) A).

(** ** The marks, without the events *)


Lemma always_bind_strong {A B} (m : M A) (f : A → M B) φ ψ :
  always m φ → (∀ a, φ a → always (f a) ψ) → always (m ≫= f) ψ.
Proof.
  intros Hm Hf s. specialize (Hm s). unfold mbind, SM_bind. destruct (m s) as [a s']. by apply Hf.
Qed.



(** ** What governs a replica whose permission is withdrawn *)









(** ** The marks of one revocation, and of all *)







(** ** The revocations of a run *)




(** A denied decision with entries in its place. *)
Definition stranded (inv : list InventoryEntry) (d : Decision) : Prop :=
  Allowed d = false ∧
  entriesInNamespace inv (target_key (d_Target d)).1 (target_key (d_Target d)).2 ≠ [].

#[export] Instance stranded_dec inv d : base.Decision (stranded inv d).
Proof. unfold stranded. apply _. Defined.









End revocations.
