(* ===== verification/EngineWorld.v ===== *)
(** A concrete hub and concrete target clusters, in which [Reconcile] runs: the
    witnesses of the engine's theorems, and a run that shows a status churn. *)
From S2P Require Import Prelude GoLib Sha256 Api Labels Annotations Policy Unstructured Render.
From S2P Require Import Conflict Backoff Inventory Status Telemetry Drift Transport Engine.
From S2P Require Import EngineSafety EngineCorrect EngineProgress Revocations.

#[local] Open Scope string_scope.
#[local] Open Scope list_scope.

#[local] Existing Instance LabelsModel.api.
#[local] Existing Instance LabelsModel.laws.
#[local] Existing Instance MetaModel.api.
#[local] Existing Instance MetaModel.laws.
#[local] Existing Instance UnstructuredModel.api.
#[local] Existing Instance UnstructuredModel.laws.

(** Objects by cluster, kind, namespace and name. *)
Abbreviation place := (string * string * string * string)%type.

Record World := {
  w_rep : option Replication;
  w_source : option Obj;
  w_policies : list ReplicationPolicy;
  w_clusters : gmap string (gmap string string);
  w_objects : gmap place Obj;
}.

Definition not_found : error :=
  {| IsNotFound := true; IsInvalid := false; IsUnavailable := false; IsNamespaceMissing := false;
     Error := "not found" |}.

Definition set_rep (r : Replication) (w : World) : World :=
  {| w_rep := Some r; w_source := w_source w; w_policies := w_policies w;
     w_clusters := w_clusters w; w_objects := w_objects w |}.
Definition set_objects m (w : World) : World :=
  {| w_rep := w_rep w; w_source := w_source w; w_policies := w_policies w;
     w_clusters := w_clusters w; w_objects := m |}.

Definition or_missing {A} (x : option A) : error + A :=
  match x with Some a => inr a | None => inl not_found end.

Definition place_of (c : string) (o : Obj) : place := (c, GetKind o, GetNamespace o, GetName o).

#[export] Instance world_transport : Transport World := {|
  tApply c o w := (None, set_objects (<[place_of c o := o]> (w_objects w)) w);
  tGet c gvk ns name w := (or_missing (w_objects w !! (c, gvk_Kind gvk, ns, name)), w);
  tDelete c o w :=
    (if decide (w_objects w !! place_of c o = None) then Some not_found else None,
     set_objects (delete (place_of c o) (w_objects w)) w);
|}.

#[export] Instance world_transport_laws : TransportLaws World.
Proof.
  split; simpl.
  - done.
  - intros c gvk ns name w err w'. unfold or_missing. case_match; by intros [= <- _].
Qed.

#[export] Instance world_hub : Hub World := {|
  hubGetReplication _ w := (or_missing (w_rep w), w);
  hubUpdate r w := (inr r, set_rep r w);
  hubUpdateStatus r w := (inr (r, true), set_rep r w);
  hubGetObject _ _ _ w := (or_missing (w_source w), w);
  hubListPolicies w := (inr (w_policies w), w);
  hubGetNamespaceLabels _ w := (inr ∅, w);
  discovered w c := w_clusters w !! c;
  metav1_Now _ := 1000%Z;
  time_Now _ := 1000%Z;
  informer_ok _ _ _ := true;
|}.

(** A Secret replicated to one namespace of one cluster. *)
Definition w_policy : ReplicationPolicy :=
  {| pol_Name := "allow-infra";
     pol_Spec := {|
       spec_Sources := {| src_Namespaces := ["infra"]; src_NamespaceSelector := None;
                          src_Kinds := ["Secret"] |};
       spec_Targets := {| tgt_ClusterSelector := {| ls_MatchLabels := {[ "env" := "prod" ]};
                                                    ls_MatchExpressions := [] |};
                          tgt_Namespaces := ["team-a"] |};
       spec_Options := {| AllowNamespaceCreation := false; AllowedConflictPolicies := [];
                          opt_RevocationPolicy := "Delete" |} |} |}.

Definition w_spec : ReplicationSpec :=
  {| SourceRef := {| sr_Kind := "Secret"; sr_Namespace := "infra"; sr_Name := "pull-secret";
                     sr_UID := "u-1" |};
     Origin := ReplicationOriginAnnotation;
     ResolvedTargets := [{| rt_ClusterName := "eu-1"; rt_Namespaces := ["team-a"];
                            rt_TargetName := "" |}] |}.

Definition w_replication : Replication :=
  {| rep_Namespace := "infra"; rep_Name := "secret-pull-secret"; rep_UID := "r-1";
     rep_Generation := 1; rep_DeletionTimestamp := None; rep_Finalizers := [];
     rep_Labels := ∅; rep_OwnerReferences := []; rep_Spec := w_spec;
     rep_Status := empty_status |}.

Definition w_namespace : Obj :=
  {[ "kind" := VStr "Namespace"; "metadata" := VObj {[ "name" := VStr "team-a" ]} ]}.

Definition world_with (objects : gmap place Obj) : World :=
  {| w_rep := Some w_replication; w_source := Some ex_source; w_policies := [w_policy];
     w_clusters := {[ "eu-1" := {[ "env" := "prod" ]} ]};
     w_objects := <[("eu-1", "Namespace", "", "team-a") := w_namespace]> objects |}.

Definition w_cfg : Config :=
  {| options := {| opt_HubName := ""; opt_FieldManager := ""; DriftResync := 0; BackoffBase := 0;
                   BackoffMax := 0; KindGVKs := None |};
     strip := no_strip; Recorder := true; Clusters := true |}.

Definition w_nn : NamespacedName :=
  {| nn_Namespace := "infra"; nn_Name := "secret-pull-secret" |}.

Definition start : Engine World := init w_cfg (world_with ∅) None.

Definition run1 : Res * Engine World := Reconcile w_cfg w_nn start.

(** The acts that change something. *)
Definition is_write (a : Act) : bool :=
  match a with
  | Update _ _ | UpdateStatus _ _ | SpokeApply _ _ _ | SpokeDelete _ _ _ => true
  | _ => false
  end.

Definition write_name (a : Act) : string :=
  match a with
  | Update _ _ => "update"
  | UpdateStatus _ _ => "status"
  | SpokeApply _ _ _ => "apply"
  | SpokeDelete _ _ _ => "delete"
  | _ => ""
  end.

Definition writes (t : list Act) : list string := map write_name (List.filter is_write t).

(** The converging run: finalizer, plan, replica, status; the next one reads only. *)
Example run1_writes : writes (trace run1.2) = ["update"; "status"; "apply"; "status"].
Proof. vm_refl. Qed.

Definition again (e : Engine World) : Engine World := set_trace [] e.

Definition run2 : Res * Engine World := Reconcile w_cfg w_nn (again run1.2).

Example run2_writes : writes (trace run2.2) = [].
Proof. vm_refl. Qed.

Lemma run1_length : length (trace run1.2) = 13.
Proof. vm_refl. Qed.

(** ** Witnesses *)

Definition w_apply : Act :=
  SpokeApply "eu-1" (Render no_strip (renderer w_cfg) ex_source "team-a" "pull-secret").1 None.

Definition w_pre : list Act := take 9 (trace run1.2).
Definition w_post : list Act := drop 10 (trace run1.2).

Lemma run1_lookup : trace run1.2 !! 9 = Some w_apply.
Proof. vm_refl. Qed.

Lemma run1_split : trace run1.2 = w_pre ++ w_apply :: w_post.
Proof. exact (split_at run1_lookup). Qed.

Lemma replica_writes_are_recorded_witness :
  trace start = [] ∧
  ((∃ ns, (Render no_strip (renderer w_cfg) ex_source "team-a" "pull-secret").1 = namespacePayload ns) ∨
   ∃ k src, k ∈ tracked (persisted w_pre) ∧ sk_Cluster k = "eu-1" ∧
    ((Render no_strip (renderer w_cfg) ex_source "team-a" "pull-secret").1 =
       (Render (strip w_cfg) (renderer w_cfg) src (sk_Namespace k) (sk_Name k)).1 ∨
     ∃ gvk h, (Render no_strip (renderer w_cfg) ex_source "team-a" "pull-secret").1 =
       AdoptPatch (renderer w_cfg) src gvk (sk_Namespace k) (sk_Name k) h)).
Proof.
  split; [reflexivity|].
  exact (replica_writes_are_recorded w_cfg w_nn start w_pre "eu-1" _ None w_post eq_refl run1_split).
Defined.

Lemma writes_need_policy_witness :
  trace start = [] ∧
  ∃ (cx : context w_pre) sl, was_read cx ∧ si_cluster sl = "eu-1" ∧
    ∃ p, p ∈ cx_policies _ cx ∧ permits p (cx_src cx) (cx_target w_cfg cx sl).
Proof.
  split; [reflexivity|].
  destruct (writes_need_policy w_cfg w_nn start w_pre "eu-1" _ None w_post eq_refl run1_split)
    as (cx & sl & H1 & H2 & H3 & _).
  exact (ex_intro _ cx (ex_intro _ sl (conj H1 (conj H2 H3)))).
Defined.

Lemma never_takes_foreign_witness :
  trace start = [] ∧ ∃ (cx : context w_pre) sl, was_read cx ∧ si_cluster sl = "eu-1".
Proof.
  split; [reflexivity|].
  destruct (never_takes_foreign w_cfg w_nn start w_pre w_apply w_post eq_refl run1_split)
    as (cx & sl & H1 & H2 & _).
  exact (ex_intro _ cx (ex_intro _ sl (conj H1 H2))).
Defined.

(** The last act but one of the first run is the status write. *)
Definition w_status : Act := nth 11 (trace run1.2) w_apply.

Lemma run1_status :
  trace run1.2 = take 11 (trace run1.2) ++ w_status :: drop 12 (trace run1.2).
Proof.
  refine (split_at (_ : trace run1.2 !! 11 = Some w_status)).
  destruct (nth_lookup_or_length (trace run1.2) 11 w_apply) as [H|H]; [exact H|].
  exfalso. rewrite run1_length in H. lia.
Qed.

Lemma no_replica_forgotten_witness :
  trace start = [] ∧
  match w_status with
  | UpdateStatus r _ => ∀ k, k ∈ tracked (persisted (take 11 (trace run1.2))) →
      k ∉ tracked (Inventory_ (rep_Status r)) → lost_ok w_cfg (take 11 (trace run1.2)) k
  | Update r _ => ContainsFinalizer (rep_Finalizers r) FinalizerName = false →
      ∀ k, k ∈ tracked (persisted (take 11 (trace run1.2))) → lost_ok w_cfg (take 11 (trace run1.2)) k
  | _ => True
  end.
Proof.
  split; [reflexivity|].
  apply (no_replica_forgotten w_cfg w_nn start (take 11 (trace run1.2)) w_status
           (drop 12 (trace run1.2)) eq_refl run1_status).
Defined.

(** The spoke after the first run. *)
Definition w_replica : Obj := (Render no_strip (renderer w_cfg) ex_source "team-a" "pull-secret").1.

Definition w_slot : slotInfo :=
  {| si_cluster := "eu-1"; si_namespace := "team-a"; si_name := "pull-secret" |}.

Definition w_converged : World :=
  world_with {[ ("eu-1", "Secret", "team-a", "pull-secret") := w_replica ]}.

Lemma converged_replica_untouched_witness :
  wf_obj ex_source ex_metadata ∧
  trace (applyTarget w_cfg w_nn w_replication ex_source (coreGVK "Secret") w_slot
           (ResolveOptions [w_policy]) (init w_cfg w_converged None)).2 =
  [SpokeGet "eu-1" namespaceGVK "" "team-a" (inr w_namespace);
   SpokeGet "eu-1" (coreGVK "Secret") "team-a" "pull-secret" (inr w_replica)].
Proof.
  split; [exact ex_source_wf|].
  pose proof (converged_replica_untouched w_cfg w_nn w_replication ex_source ex_metadata
    (coreGVK "Secret") w_slot (ResolveOptions [w_policy]) (init w_cfg w_converged None)
    w_namespace w_replica w_converged w_converged ex_source_wf eq_refl
    ltac:(vm_refl) eq_refl eq_refl eq_refl) as H.
  destruct (applyTarget w_cfg w_nn w_replication ex_source (coreGVK "Secret") w_slot
           (ResolveOptions [w_policy]) (init w_cfg w_converged None)) as [[st d] e'].
  exact (proj1 (proj2 (proj2 (proj2 H)))).
Defined.

Definition w_entry : InventoryEntry := entry_of (coreGVK "Secret") w_slot "h".





(** ** A steady conflict *)

(** An unmanaged object of other content sits at the replica's place. *)
Definition w_conflict : World :=
  world_with {[ ("eu-1", "Secret", "team-a", "pull-secret") :=
    {[ "kind" := VStr "Secret"; "metadata" := VObj {[ "name" := VStr "pull-secret" ]} ]} ]}.

Definition conflict1 : Engine World := (Reconcile w_cfg w_nn (init w_cfg w_conflict None)).2.
Definition conflict2 : Engine World := (Reconcile w_cfg w_nn (again conflict1)).2.
Definition conflict3 : Engine World := (Reconcile w_cfg w_nn (again conflict2)).2.

(** Once the conflict is reported nothing changes any more, yet each further
    reconcile persists the planned entry of the conflicting slot and then takes it
    back: two status writes each. *)
Example steady_conflict_churns :
  writes (trace conflict2) = ["status"; "status"] ∧
  writes (trace conflict3) = ["status"; "status"].
Proof. split; vm_refl. Qed.

(** ** A revoked slot whose deletion fails *)

Definition unavailable : error :=
  {| IsNotFound := false; IsInvalid := false; IsUnavailable := true; IsNamespaceMissing := false;
     Error := "connection refused" |}.

Definition down_transport : Transport World := {|
  tApply _ _ w := (Some unavailable, w);
  tGet _ _ _ _ w := (inl unavailable, w);
  tDelete _ _ w := (Some unavailable, w);
|}.

(** The one recorded replica of a target that the policy no longer permits, on a
    cluster that does not answer. *)
Definition w_revoked : World :=
  {| w_rep := Some {| rep_Namespace := "infra"; rep_Name := "secret-pull-secret"; rep_UID := "r-1";
       rep_Generation := 1; rep_DeletionTimestamp := None; rep_Finalizers := [];
       rep_Labels := ∅; rep_OwnerReferences := []; rep_Spec := w_spec;
       rep_Status := buildStatus w_replication "h" [] [w_entry] false 0 |};
     w_source := Some ex_source; w_policies := [w_policy];
     w_clusters := {[ "eu-1" := {[ "env" := "dev" ]} ]}; w_objects := ∅ |}.

Definition failed_targets (w : World) : Z :=
  match w_rep w with Some r => FailedTargets (Summary (rep_Status r)) | None => 0 end.

(** The slot is reported by [deniedState] and again by [collectGarbage]. *)
Example revoked_slot_counted_twice :
  failed_targets (world (Reconcile (H0 := down_transport) w_cfg w_nn (init w_cfg w_revoked None)).2)
  = 2%Z.
Proof. vm_refl. Qed.
