(* ===== verification/Payloads.v ===== *)
(** The type of what the engine sends: every object it applies to a cluster is
    well-formed, free of server-managed metadata and labelled as managed, whichever
    of the three payloads of render.go it is. *)
From S2P Require Import Prelude GoLib Sha256 Api Labels Annotations Policy Unstructured Render.
From S2P Require Import Conflict Backoff Inventory Status Telemetry Drift Transport Engine.
From S2P Require Import EngineSafety EngineCorrect EngineWorld.

#[local] Open Scope string_scope.
#[local] Open Scope list_scope.

Section payloads.
Context `{UL : UnstructuredLaws}.

(** A payload: its metadata is an object whose labels and annotations are string
    maps, holds no server-managed field, and names the operator as manager. *)
Definition payload (o : Obj) : Prop :=
  ∃ md, wf_obj o md ∧ (∀ f, f ∈ serverManagedMetadataFields → md !! f = None) ∧
    GetLabels o !! LabelManagedBy = Some ManagedByValue.

(** A payload that is the replica of a source, up to date with it. *)
Definition replica_payload (cfg : StripConfig) (src o : Obj) : Prop :=
  payload o ∧ IsManagedReplica (GetLabels o) (GetUID src) = true ∧
  GetAnnotations o !! AnnotationSourceHash = Some (SourceHash cfg src).

Definition untyped_fields (f : string) : Prop :=
  f ≠ "name" ∧ f ≠ "namespace" ∧ f ≠ "labels" ∧ f ≠ "annotations".

Lemma server_untyped f : f ∈ serverManagedMetadataFields → untyped_fields f.
Proof. intros Hf. repeat split; intros ->; revert Hf; apply (bool_decide_unpack _); vm_compute; exact I. Qed.

(** The setters keep the other fields of the metadata. *)
Lemma SetName_meta n o md :
  metadata o = Some md →
  ∃ md', metadata (SetName n o) = Some md' ∧ ∀ f, f ≠ "name" → md' !! f = md !! f.
Proof.
  intros Hm. rw (set_name _ _ _ Hm). repeat case_decide.
  - eauto.
  - eexists. split; [apply (metadata_with_meta (delete "name"))|]. intros f Hf. by apply lookup_delete_ne.
  - eexists. split; [apply (metadata_with_meta (<["name" := VStr n]>))|]. intros f Hf. by apply lookup_insert_ne.
Qed.

Lemma SetNamespace_meta n o md :
  metadata o = Some md →
  ∃ md', metadata (SetNamespace n o) = Some md' ∧ ∀ f, f ≠ "namespace" → md' !! f = md !! f.
Proof.
  intros Hm. rw (set_namespace _ _ _ Hm). repeat case_decide.
  - eauto.
  - eexists. split; [apply (metadata_with_meta (delete "namespace"))|]. intros f Hf. by apply lookup_delete_ne.
  - eexists. split; [apply (metadata_with_meta (<["namespace" := VStr n]>))|].
    intros f Hf. by apply lookup_insert_ne.
Qed.

Lemma string_map_wf (m : gmap string string) : wf_string_map (Some (VObj (VStr <$> m))).
Proof. right. by exists m. Qed.

(** Labels set on metadata without annotations. *)
Lemma SetLabels_payload ls o md :
  metadata o = Some md → md !! "annotations" = None →
  (∀ f, f ∈ serverManagedMetadataFields → md !! f = None) →
  ls !! LabelManagedBy = Some ManagedByValue →
  payload (SetLabels ls o) ∧ GetLabels (SetLabels ls o) = ls ∧
  metadata (SetLabels ls o) = Some (<["labels" := VObj (VStr <$> ls)]> md).
Proof.
  intros Hm Ha Hs Hl. rw (set_labels _ _ _ Hm).
  assert (metadata (with_meta (<["labels":=VObj (VStr <$> ls)]>) o md) =
    Some (<["labels" := VObj (VStr <$> ls)]> md)) as Hm' by apply metadata_with_meta.
  assert (GetLabels (with_meta (<["labels":=VObj (VStr <$> ls)]>) o md) = ls) as Hgl.
  { rw (get_labels _ _ Hm') lookup_insert_eq. apply string_map_VStr. }
  split; [|done]. eexists. split; [split|split; [|by rw Hgl]].
  - unfold with_meta. apply lookup_insert_eq.
  - rw lookup_insert_eq. apply string_map_wf.
  - rw lookup_insert_ne // Ha. by left.
  - intros f Hf. pose proof (server_untyped f Hf) as (_ & _ & ? & _). rw lookup_insert_ne //. by apply Hs.
Qed.

(** An object that so far is only a kind and a name. *)
Lemma named_meta gvk ns n :
  ∃ md, metadata (SetName n (SetNamespace ns (SetGroupVersionKind gvk ∅))) = Some md ∧
    ∀ f, f ≠ "name" → f ≠ "namespace" → md !! f = None.
Proof.
  assert (metadata (SetGroupVersionKind gvk ∅) = Some ∅) as H0
    by (unfold metadata; by rw set_gvk_metadata).
  destruct (SetNamespace_meta ns _ _ H0) as (md1 & H1 & E1).
  destruct (SetName_meta n _ _ H1) as (md2 & H2 & E2).
  exists md2. split; [done|]. intros f Hn Hns. by rw E2 // E1.
Qed.

Lemma namespace_payload n : payload (namespacePayload n).
Proof.
  unfold namespacePayload.
  assert (metadata (SetGroupVersionKind namespaceGVK ∅) = Some ∅) as H0
    by (unfold metadata; by rw set_gvk_metadata).
  destruct (SetName_meta n _ _ H0) as (md & Hm & E).
  eapply SetLabels_payload; [exact Hm|by rw E|..|by rw lookup_singleton_eq].
  intros f Hf. pose proof (server_untyped f Hf) as (? & _). by rw E.
Qed.

Lemma identity_managed r src :
  identityLabels r src !! LabelManagedBy = Some ManagedByValue ∧
  identityLabels r src !! LabelSourceUID = Some (GetUID src).
Proof. split; reflexivity. Qed.

Lemma managed_labels r src ls :
  (∀ k v, identityLabels r src !! k = Some v → ls !! k = Some v) →
  ls !! LabelManagedBy = Some ManagedByValue ∧ IsManagedReplica ls (GetUID src) = true.
Proof.
  intros Hl. destruct (identity_managed r src) as [H1%Hl H2%Hl]. split; [done|].
  unfold IsManagedReplica. rw H1 H2 /=. by rw !bool_decide_eq_true_2.
Qed.

Lemma adopt_payload cfg r src gvk ns n :
  replica_payload cfg src (AdoptPatch r src gvk ns n (SourceHash cfg src)).
Proof.
  unfold AdoptPatch. destruct (named_meta gvk ns n) as (md & Hm & E).
  destruct (managed_labels r src (identityLabels r src)) as [Hmb Hman]; [done|].
  destruct (SetLabels_payload (identityLabels r src) _ md Hm) as (_ & _ & Hm2).
  { by rw E. }
  { intros f Hf. pose proof (server_untyped f Hf) as (? & ? & _). by rw E. }
  { done. }
  rw (set_annotations _ _ _ Hm2). set (ann := {[AnnotationSourceHash := _]}).
  set (o := SetLabels _ _) in *. set (md2 := <["labels" := _]> md) in *.
  assert (metadata (with_meta (<["annotations":=VObj (VStr <$> ann)]>) o md2) =
    Some (<["annotations" := VObj (VStr <$> ann)]> md2)) as Hm3 by apply metadata_with_meta.
  assert (GetLabels (with_meta (<["annotations":=VObj (VStr <$> ann)]>) o md2) = identityLabels r src) as Hgl.
  { rw (get_labels _ _ Hm3) lookup_insert_ne // lookup_insert_eq. apply string_map_VStr. }
  split_and!.
  - eexists. split; [split|split; [|by rw Hgl]].
    + apply lookup_insert_eq.
    + rw lookup_insert_ne // lookup_insert_eq. apply string_map_wf.
    + rw lookup_insert_eq. apply string_map_wf.
    + intros f Hf. pose proof (server_untyped f Hf) as (? & ? & ? & ?).
      rw lookup_insert_ne // lookup_insert_ne //. by apply E.
  - by rw Hgl.
  - rw (get_annotations _ _ Hm3) lookup_insert_eq string_map_VStr. apply lookup_singleton_eq.
Qed.

Lemma render_payload cfg r src md ns n :
  wf_obj src md → replica_payload cfg src (Render cfg r src ns n).1.
Proof.
  intros Hwf. pose proof (Render_labels cfg r src md ns n Hwf) as HL.
  pose proof (Render_annotations cfg r src md ns n Hwf) as HA.
  pose proof (Render_eq cfg r src md ns n Hwf) as E. cbv zeta in E.
  destruct (managed_labels r src (GetLabels (Render cfg r src ns n).1)) as [Hmb Hman].
  { intros k v Hk. rw HL. by apply lookup_union_Some_l. }
  split_and!; [|done|].
  - eexists. split; [split|split; [|done]].
    + rw E. apply lookup_insert_eq.
    + rw lookup_insert_ne // lookup_insert_eq. apply string_map_wf.
    + rw lookup_insert_eq. apply string_map_wf.
    + intros f Hf. pose proof (server_untyped f Hf) as (? & ? & ? & ?).
      rw lookup_insert_ne // lookup_insert_ne //. by apply placed_md_server.
  - rw HA. apply lookup_insert_eq.
Qed.
End payloads.

(** ** Every write of the engine *)

Section engine.
Context {W : Type} `{HubW : Hub W} `{TrW : Transport W} `{TrL : !TransportLaws W}
  `{MA : MetaAPI} `{LA : LabelsAPI} `{UL : UnstructuredLaws}.
Context (cfg : Config).

(** C26. Typing of the writes: in every run of the engine whose sources are
    well-formed objects, whatever the hub and the clusters answer, each object it
    applies to a cluster is a payload (string maps for labels and annotations, no
    server-managed metadata, the managed-by label); and unless it is the payload
    of a target namespace, it is recognised as the replica of the source that was
    read, with that source's content hash. *)
Theorem engine_sends_payloads nn s pre c o res post
    (Ht : trace s = []) (Heq : trace (Reconcile cfg nn s).2 = pre ++ SpokeApply c o res :: post)
    (Hsrc : ∀ gvk ns n src, GetSource gvk ns n (inr src) ∈ pre → ∃ md, wf_obj src md) :
  payload o ∧
  ((∃ ns, o = namespacePayload ns) ∨
   ∃ gvk ns n src, GetSource gvk ns n (inr src) ∈ pre ∧ replica_payload (strip cfg) src o).
Proof.
  pose proof (run_justified cfg nn s _ _ _ Ht Heq) as (src & gvk & sl & eff & _ & Hl & Hm).
  destruct Hl as [rep pols known nsl dec _ Hget _ _ _ _ _ _ _ _].
  destruct Hm as [(-> & _)|Hm]; [split; [apply namespace_payload|by left; eexists]|].
  destruct (Hsrc _ _ _ _ Hget) as [md Hwf].
  assert (replica_payload (strip cfg) src o) as Hr.
  { destruct Hm as [[-> _]|[-> _]]; [by eapply render_payload|apply adopt_payload]. }
  split; [apply Hr|]. right. by eexists _, _, _, src.
Qed.
End engine.

(** ** Witness *)

#[local] Existing Instance LabelsModel.api.
#[local] Existing Instance MetaModel.api.
#[local] Existing Instance UnstructuredModel.api.
#[local] Existing Instance UnstructuredModel.laws.

Definition sources (t : list Act) : list Obj :=
  omap (λ a, match a with GetSource _ _ _ (inr src) => Some src | _ => None end) t.

Lemma elem_of_sources t gvk ns n src : GetSource gvk ns n (inr src) ∈ t → src ∈ sources t.
Proof. intros H. apply list_elem_of_omap. eexists. split; [exact H|done]. Qed.

Lemma engine_sends_payloads_witness :
  payload (Render no_strip (renderer w_cfg) ex_source "team-a" "pull-secret").1.
Proof.
  refine (proj1 (engine_sends_payloads w_cfg w_nn start w_pre "eu-1" _ None w_post eq_refl run1_split _)).
  intros gvk ns n src Hin%elem_of_sources.
  assert (sources w_pre = [ex_source]) as E by vm_refl.
  rewrite E in Hin. apply list_elem_of_singleton in Hin as ->.
  exists ex_metadata. exact ex_source_wf.
Defined.
