(* ===== verification/Satisfiable.v ===== *)
(** The joint satisfiability of two label selectors, [jointlySatisfiable] of
    [internal/webhook/check.go]: a per-key abstraction of the requirements, and
    the proof of what its answers mean: "false" is always right, "true" is right
    for selectors without numeric requirements, which the check only takes to
    demand the key. *)
From S2P Require Import Prelude GoLib Api Labels.

#[local] Open Scope string_scope.

(** [type keyState struct]; a nil [positive] is [None], and a nil [negative] map
    reads like an empty one. *)
Record keyState := {
  positive : option (gset string);
  negative : gset string;
  mustExist : bool;
  mustNotExist : bool;
}.

Definition zeroState : keyState :=
  {| positive := None; negative := ∅; mustExist := false; mustNotExist := false |}.

(** The [switch] of the loop, on the state of the requirement's key. *)
Definition constrain (r : Requirement) (s : keyState) : keyState :=
  match req_Operator r with
  | Equals | DoubleEquals | In_ =>
      let vals := list_to_set (req_Values r) in
      {| positive := Some match positive s with None => vals | Some p => p ∩ vals end;
         negative := negative s; mustExist := true; mustNotExist := mustNotExist s |}
  | NotEquals | NotIn =>
      {| positive := positive s; negative := negative s ∪ list_to_set (req_Values r);
         mustExist := mustExist s; mustNotExist := mustNotExist s |}
  | Exists_ | GreaterThan | LessThan =>
      {| positive := positive s; negative := negative s; mustExist := true;
         mustNotExist := mustNotExist s |}
  | DoesNotExist =>
      {| positive := positive s; negative := negative s; mustExist := mustExist s;
         mustNotExist := true |}
  end.

Definition state_of (states : gmap string keyState) (k : string) : keyState :=
  default zeroState (states !! k).

Definition sat_step (states : gmap string keyState) (r : Requirement) : gmap string keyState :=
  <[req_Key r := constrain r (state_of states (req_Key r))]> states.

(** The body of the last loop: no contradiction on one key. *)
Definition state_ok (s : keyState) : bool :=
  negb (mustNotExist s && (mustExist s || bool_decide (positive s ≠ None)))
  && match positive s with
     | None => true
     | Some p => negb (size (p ∖ negative s) =? 0)%nat
     end.

Section sat.
Context `{LabelsAPI}.

Definition jointlySatisfiable (a b : Selector) : bool :=
  let '(reqsA, okA) := Requirements a in
  let '(reqsB, okB) := Requirements b in
  if negb okA || negb okB then false
  else
    let states := foldl sat_step ∅ (reqsA ++ reqsB) in
    forallb (λ p, state_ok p.2) (map_to_list states).

(** ** What a state stands for *)

(** The numeric operators, and a requirement with them weakened to [Exists]. *)
Definition numeric (r : Requirement) : bool :=
  match req_Operator r with GreaterThan | LessThan => true | _ => false end.

Definition relax (r : Requirement) : Requirement :=
  if numeric r then Build_Requirement (req_Key r) Exists_ [] else r.

(** [req_matches] of the relaxed requirement, on the value the label set gives its
    key. *)
Definition req_holds (r : Requirement) (o : option string) : Prop :=
  match req_Operator r with
  | In_ | Equals | DoubleEquals => ∃ v, o = Some v ∧ v ∈ req_Values r
  | NotIn | NotEquals => ∀ v, o = Some v → v ∉ req_Values r
  | Exists_ | GreaterThan | LessThan => is_Some o
  | DoesNotExist => o = None
  end.

Lemma relax_matches r ls : req_matches r ls → req_matches (relax r) ls.
Proof.
  unfold relax, numeric. destruct (req_Operator r) eqn:E; try done;
    unfold req_matches; rw E /=; intros (v & Hv & _); by exists v.
Qed.

Lemma relax_id r : numeric r = false → relax r = r.
Proof. unfold relax. by intros ->. Qed.

Lemma req_matches_holds r ls : req_matches (relax r) ls ↔ req_holds r (ls !! req_Key r).
Proof.
  unfold relax, numeric, req_holds.
  destruct (req_Operator r) eqn:E; unfold req_matches; rw ?E; done.
Qed.

(** The values of a key that its state admits. *)
Record admits (s : keyState) (o : option string) : Prop := {
  ad_positive : ∀ p, positive s = Some p → ∃ v, o = Some v ∧ v ∈ p;
  ad_negative : ∀ v, o = Some v → v ∉ negative s;
  ad_exist : mustExist s = true → is_Some o;
  ad_absent : mustNotExist s = true → o = None;
}.

Lemma admits_zero o : admits zeroState o.
Proof. split; simpl; set_solver. Qed.

Lemma admits_None s : admits s None ↔ positive s = None ∧ mustExist s = false.
Proof.
  split.
  - intros [H1 _ H3 _]. split.
    + destruct (positive s) as [p|]; [|done]. by destruct (H1 p eq_refl) as (v & ? & _).
    + destruct (mustExist s); [|done]. by destruct (H3 eq_refl).
  - intros [Hp Hm]. split; rw ?Hp ?Hm; done.
Qed.

Lemma admits_Some s v :
  admits s (Some v) ↔
  match positive s with None => True | Some p => v ∈ p end ∧
  v ∉ negative s ∧ mustNotExist s = false.
Proof.
  split.
  - intros [H1 H2 _ H4]. split_and!; [|by apply H2|].
    + destruct (positive s) as [p|]; [|done]. by destruct (H1 p eq_refl) as (w & [= ->] & Hw).
    + destruct (mustNotExist s); [|done]. by specialize (H4 eq_refl).
  - intros (Hp & Hn & Hm). split.
    + intros p E. rw E in Hp. eauto.
    + by intros w [= <-].
    + by intros _.
    + by rw Hm.
Qed.

Lemma req_holds_None r :
  req_holds r None ↔
  match req_Operator r with NotIn | NotEquals | DoesNotExist => True | _ => False end.
Proof.
  unfold req_holds. destruct (req_Operator r); split; try done.
  all: try (by intros (v & ? & _)). all: try (by intros [v ?]).
Qed.

Lemma req_holds_Some r v :
  req_holds r (Some v) ↔
  match req_Operator r with
  | In_ | Equals | DoubleEquals => v ∈ req_Values r
  | NotIn | NotEquals => v ∉ req_Values r
  | Exists_ | GreaterThan | LessThan => True
  | DoesNotExist => False
  end.
Proof. unfold req_holds. destruct (req_Operator r); naive_solver. Qed.

Lemma admits_constrain r s o : admits (constrain r s) o ↔ req_holds r o ∧ admits s o.
Proof.
  destruct o as [v|].
  - rw !admits_Some req_holds_Some. unfold constrain.
    destruct (req_Operator r); simpl; rewrite ?elem_of_union ?elem_of_list_to_set;
      destruct (positive s); rewrite ?elem_of_intersection ?elem_of_list_to_set; naive_solver.
  - rw !admits_None req_holds_None. unfold constrain.
    destruct (req_Operator r); simpl; naive_solver.
Qed.

(** After the loop, each key's state is the conjunction of its requirements. *)
Lemma states_admit rs k o :
  admits (state_of (foldl sat_step ∅ rs) k) o ↔
  ∀ r, r ∈ rs → req_Key r = k → req_holds r o.
Proof.
  induction rs as [|r rs IH] using rev_ind.
  - unfold state_of. rw lookup_empty /=. split; [set_solver|intros _; apply admits_zero].
  - rw foldl_app /=. unfold sat_step at 1, state_of at 1.
    destruct (decide (req_Key r = k)) as [<-|Hne].
    + rw lookup_insert_eq /= admits_constrain IH.
      setoid_rewrite elem_of_app. setoid_rewrite list_elem_of_singleton. naive_solver.
    + rw lookup_insert_ne //. unfold state_of in IH. rw IH.
      setoid_rewrite elem_of_app. setoid_rewrite list_elem_of_singleton. naive_solver.
Qed.

(** A value that a consistent state admits. *)
Definition pick (s : keyState) : option string :=
  match positive s with
  | Some p => head (elements (p ∖ negative s))
  | None => if mustExist s then Some (fresh (negative s)) else None
  end.

Lemma state_ok_pick s : state_ok s = true → admits s (pick s).
Proof.
  unfold state_ok, pick. rw andb_true_iff negb_true_iff andb_false_iff orb_false_iff.
  intros [Hx Hp]. destruct (positive s) as [p|] eqn:E.
  - apply negb_true_iff, Nat.eqb_neq in Hp.
    assert (mustNotExist s = false) as Hm.
    { destruct Hx as [?|[_ Hx]]; [done|]. by apply bool_decide_eq_false in Hx; naive_solver. }
    destruct (elements (p ∖ negative s)) as [|v l] eqn:El.
    + destruct Hp. apply size_empty_iff. by apply elements_empty_iff.
    + assert (v ∈ p ∖ negative s) as Hv by (apply elem_of_elements; rw El; left).
      split; simpl; rw ?E ?Hm; set_solver.
  - destruct (mustExist s) eqn:Em.
    + assert (mustNotExist s = false) as Hm by naive_solver.
      split; simpl; rw ?E ?Hm; [done| |done|done].
      intros v [= <-]. apply is_fresh.
    + split; simpl; rw ?E ?Em; done.
Qed.

Lemma admits_state_ok s o : admits s o → state_ok s = true.
Proof.
  intros [H1 H2 H3 H4]. unfold state_ok. apply andb_true_iff. split.
  - apply negb_true_iff, andb_false_iff.
    destruct (mustNotExist s); [right|by left]. specialize (H4 eq_refl). subst o.
    apply orb_false_iff. split.
    + destruct (mustExist s); [|done]. by destruct (H3 eq_refl).
    + apply bool_decide_eq_false. intros Hn. destruct (positive s) as [p|]; [|done].
      by destruct (H1 p eq_refl) as (v & ? & _).
  - destruct (positive s) as [p|]; [|done].
    destruct (H1 p eq_refl) as (v & -> & Hv). apply negb_true_iff, Nat.eqb_neq.
    intros Hs%size_empty_iff. specialize (H2 v eq_refl). set_solver.
Qed.

Lemma forallb_states (f : keyState → bool) (m : gmap string keyState) :
  forallb (λ p, f p.2) (map_to_list m) = true ↔ ∀ k s, m !! k = Some s → f s = true.
Proof.
  rw List.forallb_forall. split.
  - intros Hf k s Hk. apply (Hf (k, s)), list_elem_of_In, elem_of_map_to_list, Hk.
  - intros Hf [k s] Hin. apply list_elem_of_In, elem_of_map_to_list in Hin. by eapply Hf.
Qed.

(** The states are consistent exactly when some label set satisfies all the
    relaxed requirements. *)
Lemma states_consistent rs :
  (∀ k s, foldl sat_step ∅ rs !! k = Some s → state_ok s = true) ↔
  ∃ ls, Forall (λ r, req_matches (relax r) ls) rs.
Proof.
  split.
  - intros Hok. exists (omap pick (foldl sat_step ∅ rs)).
    apply Forall_forall. intros r Hr. apply req_matches_holds. rw lookup_omap.
    destruct (foldl sat_step ∅ rs !! req_Key r) as [s|] eqn:E; simpl.
    + apply (proj1 (states_admit rs (req_Key r) (pick s))); [|done|done].
      unfold state_of. rw E. by apply state_ok_pick, (Hok (req_Key r)).
    + apply (proj1 (states_admit rs (req_Key r) None)); [|done|done].
      unfold state_of. rw E. apply admits_zero.
  - intros [ls Hls] k s Hk. rewrite ->Forall_forall in Hls.
    apply (admits_state_ok s (ls !! k)).
    replace s with (state_of (foldl sat_step ∅ rs) k) by (unfold state_of; by rw Hk).
    apply states_admit. intros r Hr <-. by apply req_matches_holds, Hls.
Qed.

Lemma jointly_spec a b :
  jointlySatisfiable a b = true ↔
  (Requirements a).2 = true ∧ (Requirements b).2 = true ∧
  ∃ ls, Forall (λ r, req_matches (relax r) ls) ((Requirements a).1 ++ (Requirements b).1).
Proof.
  unfold jointlySatisfiable.
  destruct (Requirements a) as [ra [|]], (Requirements b) as [rb [|]]; simpl; try naive_solver.
  rw forallb_states states_consistent. naive_solver.
Qed.

(** A label set that both selectors match is a witness. *)
Lemma jointly_matches `{!LabelsLaws} a b ls :
  Matches a ls = true → Matches b ls = true → jointlySatisfiable a b = true.
Proof.
  intros [Ha Fa]%matches_requirements [Hb Fb]%matches_requirements.
  apply jointly_spec. split_and!; [done..|]. exists ls. apply Forall_app.
  split; eapply Forall_impl; eauto using relax_matches.
Qed.

(** Without numeric requirements, a label set is found that both selectors match. *)
Lemma jointly_complete `{!LabelsLaws} a b :
  (∀ r, r ∈ ((Requirements a).1 ++ (Requirements b).1)%list → numeric r = false) →
  jointlySatisfiable a b = true → ∃ ls, Matches a ls = true ∧ Matches b ls = true.
Proof.
  intros Hn (Ha & Hb & ls & Hls)%jointly_spec. exists ls.
  assert (Forall (λ r, req_matches r ls) ((Requirements a).1 ++ (Requirements b).1)%list) as Hall.
  { apply Forall_forall. intros r Hr. rewrite ->Forall_forall in Hls.
    rewrite -(relax_id r); [by apply Hn|by apply Hls]. }
  apply Forall_app in Hall as [H1 H2]. by split; apply matches_requirements.
Qed.

(** ** Property *)

(** C10. What the answer of [jointlySatisfiable] means. It is true precisely when
    both selectors are selectable and some label set meets every requirement of both
    with the numeric ones weakened to [Exists]. So the check is conservative: when a
    label set matches both selectors it answers true, and a contradiction it reports
    is one. And where no requirement is numeric it is exact: it answers true
    precisely when some label set matches both selectors. *)
Theorem jointlySatisfiable_correct `{!LabelsLaws} a b :
  (jointlySatisfiable a b = true ↔
   (Requirements a).2 = true ∧ (Requirements b).2 = true ∧
   ∃ ls, ∀ r, r ∈ ((Requirements a).1 ++ (Requirements b).1)%list → req_matches (relax r) ls) ∧
  (∀ ls, Matches a ls = true → Matches b ls = true → jointlySatisfiable a b = true) ∧
  ((∀ r, r ∈ ((Requirements a).1 ++ (Requirements b).1)%list → numeric r = false) →
   jointlySatisfiable a b = true ↔ ∃ ls, Matches a ls = true ∧ Matches b ls = true).
Proof.
  split_and!.
  - rw jointly_spec. by setoid_rewrite Forall_forall.
  - apply jointly_matches.
  - intros Hn. split; [by apply jointly_complete|]. intros (ls & Ha & Hb). by eapply jointly_matches.
Qed.
End sat.

(** ** Examples *)

Section examples.
#[local] Existing Instance LabelsModel.api.
#[local] Existing Instance LabelsModel.laws.

Example disjoint_values :
  jointlySatisfiable (Some [Build_Requirement "env" In_ ["dev"; "qa"]])
    (Some [Build_Requirement "env" NotIn ["dev"]; Build_Requirement "env" Equals ["dev"]]) = false.
Proof. reflexivity. Qed.

Example overlapping_values :
  jointlySatisfiable (Some [Build_Requirement "env" In_ ["dev"; "qa"]])
    (Some [Build_Requirement "env" NotIn ["dev"]; Build_Requirement "tier" Exists_ []]) = true.
Proof. reflexivity. Qed.

(** The check is not exact on numeric requirements: no label set matches both of
    these, and it answers true. *)
Example numeric_contradiction_missed :
  let a := Some [Build_Requirement "shard" GreaterThan ["5"]] in
  let b := Some [Build_Requirement "shard" LessThan ["3"]] in
  jointlySatisfiable a b = true ∧
  ∀ ls, Matches a ls = true → Matches b ls = false.
Proof.
  split; [reflexivity|]. intros ls [_ Ha]%matches_requirements.
  apply not_true_is_false. intros [_ Hb]%matches_requirements.
  apply Forall_cons in Ha as [(v & Hv & x & m & n & [= <-] & Hm & Hn & Hlt) _].
  apply Forall_cons in Hb as [(v' & Hv' & x' & m' & n' & [= <-] & Hm' & Hn' & Hgt) _].
  vm_compute in Hm, Hm'. simpl in *. rewrite Hv in Hv'. simplify_eq. lia.
Qed.

(** Selectors without numeric requirements that some label set matches. *)
Lemma jointlySatisfiable_correct_witness :
  let a := Some [Build_Requirement "env" In_ ["dev"; "qa"]] in
  let b := Some [Build_Requirement "env" NotIn ["dev"]; Build_Requirement "tier" Exists_ []] in
  ∃ ls, Matches a ls = true ∧ Matches b ls = true.
Proof.
  intros a b. apply (proj2 (proj2 (jointlySatisfiable_correct (H := LabelsModel.api) a b))).
  - intros r Hr. repeat (apply elem_of_cons in Hr as [->|Hr]; [reflexivity|]).
    by apply elem_of_nil in Hr.
  - reflexivity.
Defined.
End examples.
