(* ===== verification/Webhook.v ===== *)
(** [internal/webhook]: the advisory admission webhook. [Handle] is a function of
    the admission request, whose object metadata is given decoded, and of the
    answer of the policy list call; it returns the response and the metrics it
    increments. The two [range] loops over annotation maps take their order as
    arguments. *)
From S2P Require Import Prelude GoLib Api Labels Annotations Policy Telemetry Satisfiable Conflict.

#[local] Open Scope string_scope.
#[local] Open Scope list_scope.

(** ** annotations.go *)

Definition knownKeys : gset string := {[KeySourceHash]} ∪ list_to_set RequestKeys.

(** A key the webhook filters out before it parses. *)
Definition unknown (k : string) : Prop := has_prefix k Prefix = true ∧ k ∉ knownKeys.

#[export] Instance unknown_dec k : base.Decision (unknown k).
Proof. unfold unknown. apply _. Defined.

Definition filtered (ann : gmap string string) : gmap string string :=
  filter (λ kv, ¬ unknown kv.1) ann.

Definition hasR8RAnnotations (ann : gmap string string) : bool :=
  existsb (λ k, has_prefix k Prefix) (keys ann).

(** [denial]: the failing dimension and the message. *)
Record denial := { dimension : string; message : string }.

(** The response the handler builds: [admission.Allowed(message)] or
    [admission.Denied(message)], with warnings. *)
Record Response := { resp_Allowed : bool; resp_Message : string; Warnings : list string }.

(** [admission.Request]: [Object] is the annotation map of the decoded metadata,
    or the error of the decoder. *)
Record AdmissionRequest := {
  Operation : string;
  Object : string + gmap string string;
  ar_Namespace : string;
  ar_Kind : string;
}.

Section webhook.
Context `{LabelsAPI}.

Record parsedRequest := {
  optedIn : bool;
  clusterSelector : option Selector;
  clusterSelectorRaw : string;
  emptyClusterSelector : bool;
  targetNamespaces : list string;
  targetName : string;
  conflictPolicy : string;
  unknownKeys : list string;
}.

(** [parseRequest]: the request and the error, if any. [it] is the order of the
    loop over [ann], [it'] the one of [Parse] over the filtered map. *)
Definition parseRequest (it it' : list string) (ann : gmap string string)
    (sourceNamespace : string) : parsedRequest * option (list string) :=
  let f := filtered ann in
  let raw := mget f KeyTargetClusters in
  let present := bool_decide (is_Some (f !! KeyTargetClusters)) in
  let empty := present && bool_decide (TrimSpace raw = "") in
  let p := {| optedIn := Replicates f; clusterSelector := None; clusterSelectorRaw := raw;
              emptyClusterSelector := empty; targetNamespaces := []; targetName := "";
              conflictPolicy := DefaultConflictPolicy; unknownKeys := filter unknown it |} in
  match Parse it' f with
  | inl errs => (p, Some errs)
  | inr None => (p, None)
  | inr (Some req) =>
      ({| optedIn := optedIn p;
          clusterSelector := if present && negb empty then Some (ClusterSelector req) else None;
          clusterSelectorRaw := raw; emptyClusterSelector := empty;
          targetNamespaces := EffectiveNamespaces req sourceNamespace;
          targetName := TargetName req; conflictPolicy := ConflictPolicy req;
          unknownKeys := unknownKeys p |}, None)
  end.

(** ** check.go *)

Definition policiesForSourceNamespace (policies : list ReplicationPolicy)
    (sourceNamespace : string) : list ReplicationPolicy :=
  List.filter (λ p,
    contains (src_Namespaces (spec_Sources (pol_Spec p))) sourceNamespace
    || bool_decide (src_NamespaceSelector (spec_Sources (pol_Spec p)) ≠ None)) policies.

Definition policiesForKind (policies : list ReplicationPolicy) (kind : string)
    : list ReplicationPolicy :=
  List.filter (λ p, contains (src_Kinds (spec_Sources (pol_Spec p))) kind) policies.

(** The inner loop: some policy's selector is compatible with the requested one. *)
Definition satisfiable_by (sel : Selector) (p : ReplicationPolicy) : bool :=
  match LabelSelectorAsSelector (tgt_ClusterSelector (spec_Targets (pol_Spec p))) with
  | None => false
  | Some psel => jointlySatisfiable sel psel
  end.

(** The body of the loop over the requested namespaces. *)
Definition check_namespace (kindMatched : list ReplicationPolicy) (req : parsedRequest)
    (tns : string) : option denial :=
  match List.filter (λ p, contains (tgt_Namespaces (spec_Targets (pol_Spec p))) tns) kindMatched with
  | [] =>
      Some {| dimension := DimensionTargetNamespace;
              message := "no ReplicationPolicy matching the source allowlists target namespace "
                +:+ quote tns +:+ "." |}
  | tnsMatched =>
      match clusterSelector req with
      | None => None
      | Some sel =>
          if existsb (satisfiable_by sel) tnsMatched then None
          else Some {| dimension := DimensionTargetCluster;
                       message := "requested cluster selector " +:+ quote (clusterSelectorRaw req)
                         +:+ " cannot match any cluster permitted by a "
                         +:+ "ReplicationPolicy that also allows target namespace "
                         +:+ quote tns +:+ "." |}
      end
  end.

Fixpoint check_namespaces (kindMatched : list ReplicationPolicy) (req : parsedRequest)
    (tnss : list string) : option denial :=
  match tnss with
  | [] => None
  | tns :: tnss' =>
      match check_namespace kindMatched req tns with
      | Some d => Some d
      | None => check_namespaces kindMatched req tnss'
      end
  end.

Definition checkPolicies (policies : list ReplicationPolicy) (kind sourceNamespace : string)
    (req : parsedRequest) : option denial :=
  match policies with
  | [] => Some {| dimension := DimensionNoPolicies;
                  message := "no ReplicationPolicy objects exist; replication is denied by default." |}
  | _ =>
      match policiesForSourceNamespace policies sourceNamespace with
      | [] => Some {| dimension := DimensionSourceNamespace;
                      message := "no ReplicationPolicy allowlists source namespace "
                        +:+ quote sourceNamespace +:+ "." |}
      | nsMatched =>
          match policiesForKind nsMatched kind with
          | [] => Some {| dimension := DimensionSourceKind;
                          message := "no ReplicationPolicy matching source namespace "
                            +:+ quote sourceNamespace +:+ " allowlists kind " +:+ quote kind +:+ "." |}
          | kindMatched => check_namespaces kindMatched req (targetNamespaces req)
          end
      end
  end.

Definition conflictPolicyWarning (policies : list ReplicationPolicy) (kind sourceNamespace : string)
    (req : parsedRequest) : string :=
  if bool_decide (conflictPolicy req = "") || bool_decide (conflictPolicy req = ConflictPolicyFail)
  then ""
  else if existsb (λ p, contains (AllowedConflictPolicies (spec_Options (pol_Spec p)))
                          (conflictPolicy req))
            (policiesForKind (policiesForSourceNamespace policies sourceNamespace) kind)
  then ""
  else KeyConflictPolicy +:+ " is " +:+ quote (conflictPolicy req)
    +:+ ", but no ReplicationPolicy that could match this source permits it; "
    +:+ "conflicts will be handled with the weaker of the request and the policy grant".

(** ** webhook.go *)

Definition warningsFor (p : parsedRequest) : list string :=
  map (λ k, "unknown annotation " +:+ quote k +:+ " is ignored by k8s-r8r (known keys: "
            +:+ Join RequestKeys ", " +:+ ")") (Sort (unknownKeys p))
  ++ (if emptyClusterSelector p
      then [KeyTargetClusters +:+ " is empty: an empty selector selects no target clusters"]
      else []).

Definition allowed (msg : string) (ws : list string) : Response :=
  {| resp_Allowed := true; resp_Message := msg; Warnings := ws |}.
Definition denied (msg : string) (ws : list string) : Response :=
  {| resp_Allowed := false; resp_Message := msg; Warnings := ws |}.

(** [aggregate] renders a [utilerrors.Aggregate]. *)
Context (aggregate : list string → string).

Definition Handle (it it' : list string) (req : AdmissionRequest)
    (listed : string + list ReplicationPolicy) : Response * list Metric :=
  if negb (bool_decide (Operation req = "CREATE")) && negb (bool_decide (Operation req = "UPDATE"))
  then (allowed "only CREATE and UPDATE are validated" [], [])
  else match Object req with
  | inl err =>
      (allowed "k8s-r8r: object metadata could not be decoded; advisory validation skipped"
         ["k8s-r8r advisory validation skipped: decoding metadata: " +:+ err], [])
  | inr ann =>
      if negb (hasR8RAnnotations ann) then (allowed "no r8r.io annotations present" [], [])
      else
        let '(parsed, ferr) := parseRequest it it' ann (ar_Namespace req) in
        let warnings := warningsFor parsed in
        match ferr with
        | Some errs => (denied (aggregate errs) warnings, [webhookDenials "annotations"])
        | None =>
            if negb (optedIn parsed) then
              (allowed ("replication not requested (r8r.io/replicate is not " +:+ dq +:+ "true"
                        +:+ dq +:+ ")") warnings, [])
            else match listed with
            | inl err =>
                (allowed "k8s-r8r: ReplicationPolicy list failed; advisory validation skipped"
                   (warnings ++ ["k8s-r8r advisory validation skipped: listing ReplicationPolicies: "
                                 +:+ err]), [])
            | inr policies =>
                let w := conflictPolicyWarning policies (ar_Kind req) (ar_Namespace req) parsed in
                let warnings := if decide (w = "") then warnings else warnings ++ [w] in
                match checkPolicies policies (ar_Kind req) (ar_Namespace req) parsed with
                | Some d =>
                    (denied ("replication request denied (advisory pre-check; dimension "
                             +:+ dimension d +:+ "): " +:+ message d +:+ " "
                             +:+ "The controller re-evaluates policy authoritatively at reconcile time.")
                       warnings, [webhookDenials (dimension d)])
                | None => (allowed "replication request passes advisory policy pre-check" warnings, [])
                end
            end
        end
  end.

(** ** Lemmas *)

Lemma elem_of_knownKeys k : k ∈ knownKeys ↔ k ∈ ignoredKeys ∨ k ∈ requestKeys.
Proof.
  unfold knownKeys, ignoredKeys, RequestKeys, Sort.
  rewrite elem_of_union elem_of_list_to_set elem_of_isort elem_of_elements. done.
Qed.

(** The request controller's parser knows the same keys: on annotations it
    accepts, nothing is filtered out. *)
Lemma filtered_id ann :
  (∀ k, k ∈ dom ann → has_prefix k Prefix = true → k ∈ requestKeys ∨ k ∈ ignoredKeys) →
  filtered ann = ann.
Proof.
  intros Hk. apply map_filter_id. intros k v Hv [Hp Hn]. simpl in *.
  apply Hn, elem_of_knownKeys. rw or_comm. apply Hk; [|done]. by apply elem_of_dom.
Qed.

(** What the webhook's parse gives for annotations the controller accepts. *)
Lemma parseRequest_accepts (it' itc : list string) ann o :
  itc ≡ₚ keys ann → it' ≡ₚ keys (filtered ann) → Parse itc ann = inr o →
  Parse it' (filtered ann) = inr o ∧ filtered ann = ann ∧ valid_contract ann.
Proof.
  intros Hc Hi Hp.
  assert (all_errors itc ann = []) as He.
  { destruct (all_errors itc ann) as [|e es] eqn:E; [done|].
    rw (Parse_errors _ _ _ _ E) in Hp. done. }
  pose proof (proj1 (all_errors_nil itc ann Hc) He) as Hv.
  assert (filtered ann = ann) as Hf by (apply filtered_id; apply Hv).
  rewrite Hf in Hi |- *. split_and!; [|done..].
  rw (Parse_no_errors itc ann He) in Hp. rw -Hp.
  by apply Parse_no_errors, (proj2 (all_errors_nil it' ann Hi)).
Qed.

Lemma elem_of_sourceNamespace ps ns p :
  p ∈ policiesForSourceNamespace ps ns ↔
  p ∈ ps ∧ (ns ∈ src_Namespaces (spec_Sources (pol_Spec p)) ∨
            src_NamespaceSelector (spec_Sources (pol_Spec p)) ≠ None).
Proof.
  unfold policiesForSourceNamespace.
  by rewrite list_elem_of_In List.filter_In -list_elem_of_In orb_true_iff contains_true
    bool_decide_eq_true.
Qed.

Lemma elem_of_kind ps kind p :
  p ∈ policiesForKind ps kind ↔ p ∈ ps ∧ kind ∈ src_Kinds (spec_Sources (pol_Spec p)).
Proof.
  unfold policiesForKind. by rewrite list_elem_of_In List.filter_In -list_elem_of_In contains_true.
Qed.

Lemma elem_of_matched ps kind ns p :
  p ∈ policiesForKind (policiesForSourceNamespace ps ns) kind ↔
  p ∈ ps ∧ (ns ∈ src_Namespaces (spec_Sources (pol_Spec p)) ∨
            src_NamespaceSelector (spec_Sources (pol_Spec p)) ≠ None) ∧
  kind ∈ src_Kinds (spec_Sources (pol_Spec p)).
Proof. rewrite elem_of_kind elem_of_sourceNamespace. tauto. Qed.

(** A policy that permits some target of the source survives both filters. *)
Lemma permits_matched ps p src tgt :
  p ∈ ps → permits p src tgt →
  p ∈ policiesForKind (policiesForSourceNamespace ps (s_Namespace src)) (s_Kind src).
Proof.
  intros Hp [[Hn|(sel & Hs & _)] Hk _ _]; apply elem_of_matched; split_and!; try done.
  - by left.
  - right. by rw Hs.
Qed.

Section laws.
Context `{!LabelsLaws}.

(** A namespace that fails the check is permitted by no surviving policy, on any
    cluster the request's selector matches. *)
Lemma check_namespace_sound ps req tns d p src tgt :
  check_namespace ps req tns = Some d → p ∈ ps → t_Namespace tgt = tns →
  (∀ sel, clusterSelector req = Some sel → Matches sel (t_ClusterLabels tgt) = true) →
  ¬ permits p src tgt.
Proof.
  unfold check_namespace. intros Hd Hp Ht Hsel [_ _ Hc Hn].
  assert (p ∈ List.filter (λ p, contains (tgt_Namespaces (spec_Targets (pol_Spec p))) tns) ps) as Hin.
  { rewrite list_elem_of_In List.filter_In -list_elem_of_In contains_true -Ht. done. }
  destruct (List.filter _ ps) as [|q l]; [by apply not_elem_of_nil in Hin|].
  destruct (clusterSelector req) as [sel|] eqn:Es; [|done].
  destruct (existsb (satisfiable_by sel) (q :: l)) eqn:Ex; [done|].
  apply Bool.not_true_iff_false in Ex. apply Ex, existsb_exists.
  exists p. split; [by apply list_elem_of_In|]. unfold satisfiable_by.
  unfold selectorMatches in Hc. destruct (LabelSelectorAsSelector _) as [psel|]; [|done].
  by eapply jointly_matches; [apply Hsel|].
Qed.

Lemma check_namespaces_Some ps req tnss d :
  check_namespaces ps req tnss = Some d →
  ∃ tns, tns ∈ tnss ∧ check_namespace ps req tns = Some d.
Proof.
  induction tnss as [|tns tnss IH]; simpl; [done|].
  destruct (check_namespace ps req tns) as [d'|] eqn:E.
  - intros [= ->]. exists tns. split; [left|done].
  - intros (t & ? & ?)%IH. exists t. split; [by right|done].
Qed.

(** A denial of [checkPolicies]: one of the requested namespaces is permitted by
    no policy, whatever the cluster and the labels of the source namespace. *)
Lemma checkPolicies_sound ps kind ns req d :
  targetNamespaces req ≠ [] → checkPolicies ps kind ns req = Some d →
  ∃ tns, tns ∈ targetNamespaces req ∧
    ∀ p nsl tgt, p ∈ ps → t_Namespace tgt = tns →
      (∀ sel, clusterSelector req = Some sel → Matches sel (t_ClusterLabels tgt) = true) →
      ¬ permits p {| s_Kind := kind; s_Namespace := ns; s_NamespaceLabels := nsl |} tgt.
Proof.
  intros Hne Hd. destruct (targetNamespaces req) as [|t0 ts] eqn:Et; [done|].
  destruct (policiesForKind (policiesForSourceNamespace ps ns) kind) as [|q l] eqn:E.
  - exists t0. split; [left|]. intros p nsl tgt Hp _ _ Hm.
    pose proof (permits_matched ps p _ _ Hp Hm) as Hin. simpl in Hin. rewrite E in Hin.
    by apply not_elem_of_nil in Hin.
  - assert (check_namespaces (q :: l) req (targetNamespaces req) = Some d) as Hc.
    { unfold checkPolicies in Hd. destruct ps as [|p0 ps0]; [done|].
      destruct (policiesForSourceNamespace (p0 :: ps0) ns) as [|q' l'] eqn:E'; [done|].
      by rewrite E in Hd. }
    rewrite Et in Hc. apply check_namespaces_Some in Hc as (tns & Hin & Hc).
    exists tns. split; [done|]. intros p nsl tgt Hp Ht Hsel Hm.
    eapply (check_namespace_sound _ _ _ _ p _ tgt Hc); [|done..].
    rw -E. by apply (permits_matched ps p _ _ Hp Hm).
Qed.

(** What [parseRequest] returns for annotations that the controller accepts. *)
Lemma parseRequest_request it it' itc ann ns r :
  itc ≡ₚ keys ann → it' ≡ₚ keys (filtered ann) → Parse itc ann = inr (Some r) →
  let '(p, err) := parseRequest it it' ann ns in
  err = None ∧ targetNamespaces p = EffectiveNamespaces r ns ∧
  conflictPolicy p = ConflictPolicy r ∧
  ∀ sel, clusterSelector p = Some sel → sel = ClusterSelector r.
Proof.
  intros Hc Hi Hp. destruct (parseRequest_accepts it' itc ann _ Hc Hi Hp) as (Hp' & _ & _).
  unfold parseRequest. rewrite Hp' /=. split_and!; [done..|].
  intros sel. by case_match; intros [= <-].
Qed.

Lemma EffectiveNamespaces_nonempty r ns : EffectiveNamespaces r ns ≠ [].
Proof. unfold EffectiveNamespaces. by destruct (TargetNamespaces r). Qed.

(** ** Properties *)

(** C13. The webhook never blocks what the controller would replicate. It denies
    only CREATE and UPDATE requests whose metadata it could decode; annotations
    that the controller's own parse rejects aside, they opt in, the policies were
    listed, and some requested namespace is denied by [Evaluate]'s decision for
    every cluster the request selects, whatever labels the clusters and the source
    namespace carry. Of annotations that the controller's parse rejects it says
    nothing: the controller replicates nothing for them. *)
Theorem denial_is_sound it it' req listed
    (Hd : resp_Allowed (Handle it it' req listed).1 = false) :
  (Operation req = "CREATE" ∨ Operation req = "UPDATE") ∧
  ∃ ann, Object req = inr ann ∧
    ∀ itc (Hc : itc ≡ₚ keys ann) (Hi : it' ≡ₚ keys (filtered ann)),
      match Parse itc ann with
      | inl _ => True
      | inr None => False
      | inr (Some r) =>
          ∃ ps tns, listed = inr ps ∧ tns ∈ EffectiveNamespaces r (ar_Namespace req) ∧
            ∀ tgt nsl, t_Namespace tgt = tns →
              Matches (ClusterSelector r) (t_ClusterLabels tgt) = true →
              Allowed (decide_target {| s_Kind := ar_Kind req; s_Namespace := ar_Namespace req;
                                        s_NamespaceLabels := nsl |} tgt ps) = false
      end.
Proof.
  unfold Handle in Hd. destruct (negb _ && negb _) eqn:Eop; [done|].
  split.
  { apply andb_false_iff in Eop as [E|E]; apply negb_false_iff, bool_decide_eq_true in E; auto. }
  destruct (Object req) as [err|ann]; [done|]. exists ann. split; [done|]. intros itc Hc Hi.
  destruct (Parse itc ann) as [|[r|]] eqn:Ep; [done|..].
  - pose proof (parseRequest_request it it' itc ann (ar_Namespace req) r Hc Hi Ep) as Hr.
    destruct (negb (hasR8RAnnotations ann)); [done|].
    destruct (parseRequest it it' ann (ar_Namespace req)) as [p err]. destruct Hr as (-> & Ht & _ & Hs).
    destruct (negb (optedIn p)); [done|]. destruct listed as [|ps]; [done|].
    destruct (checkPolicies ps (ar_Kind req) (ar_Namespace req) p) as [d|] eqn:Ec; [|done].
    apply checkPolicies_sound in Ec as (tns & Hin & Hno);
      [|rewrite Ht; apply EffectiveNamespaces_nonempty].
    rewrite Ht in Hin. exists ps, tns. split_and!; [done..|]. intros tgt nsl Htgt Hm.
    destruct (Allowed (decide_target _ tgt ps)) eqn:Ea; [|done].
    apply decide_target_allowed in Ea as (q & Hq & Hperm).
    destruct (Hno q nsl tgt Hq Htgt); [|done].
    intros sel Hsel. by rewrite (Hs sel Hsel).
  - destruct (parseRequest_accepts it' itc ann _ Hc Hi Ep) as (Hp' & Hf & Hv).
    assert (Replicates ann = false) as Hn.
    { rw (Parse_no_errors itc ann) in Ep; [by apply (all_errors_nil itc ann Hc)|].
      by destruct (Replicates ann). }
    destruct (negb (hasR8RAnnotations ann)); [done|].
    unfold parseRequest in Hd. rewrite Hp' Hf /= Hn in Hd. done.
Qed.
End laws.
End webhook.

(** ** Concrete inputs *)

#[local] Existing Instance LabelsModel.api.
#[local] Existing Instance LabelsModel.laws.

Definition create (ann : gmap string string) : AdmissionRequest :=
  {| Operation := "CREATE"; Object := inr ann; ar_Namespace := "platform"; ar_Kind := "Secret" |}.

Definition ann_prod : gmap string string :=
  {[ KeyReplicate := "true"; KeyTargetClusters := "env=prod"; KeyTargetNamespaces := "apps" ]}.

Definition handle (ann : gmap string string) : Response * list Metric :=
  Handle (λ _, "") (keys ann) (keys (filtered ann)) (create ann) (inr [pol_dev; pol_all]).

(** The only policy for namespace [apps] selects [env=dev] clusters. *)
Lemma denial_is_sound_witness :
  (handle ann_prod).2 = [webhookDenials DimensionTargetCluster] ∧
  Allowed (decide_target src_secret tgt_prod [pol_dev; pol_all]) = false.
Proof.
  split; [vm_refl|].
  destruct (denial_is_sound (λ _, "") (keys ann_prod) (keys (filtered ann_prod)) (create ann_prod)
              (inr [pol_dev; pol_all]) ltac:(vm_refl)) as (_ & ann & [= <-] & Hd).
  specialize (Hd (keys ann_prod) ltac:(reflexivity) ltac:(reflexivity)).
  assert (Parse (keys ann_prod) ann_prod = inr (Some (spec_request ann_prod))) as Hp by vm_refl.
  rewrite Hp in Hd. destruct Hd as (ps & tns & [= <-] & Hin & Hno).
  apply (Hno tgt_prod ∅).
  - apply list_elem_of_singleton in Hin. exact (eq_sym Hin).
  - vm_refl.
Defined.

(** A namespace the policies admit next to one they do not: the write is denied
    although the controller would replicate to the first. *)
Definition ann_two : gmap string string :=
  {[ KeyReplicate := "true"; KeyTargetClusters := "env=dev"; KeyTargetNamespaces := "apps,elsewhere" ]}.

Example partial_request_denied :
  (handle ann_two).2 = [webhookDenials DimensionTargetNamespace] ∧
  Allowed (decide_target src_secret tgt_dev [pol_dev; pol_all]) = true.
Proof. split; vm_refl. Qed.

(** A policy that grants only Overwrite: the engine honours a request for Adopt,
    but the webhook warns that no policy permits it. *)
Definition pol_overwrite : ReplicationPolicy :=
  mk_policy "ow" ["platform"] ["Secret"] ∅ ["apps"] [ConflictPolicyOverwrite] RevocationPolicyDelete.

Example spurious_conflict_warning :
  let req := (parseRequest [] [] {[ KeyReplicate := "true"; KeyConflictPolicy := "Adopt" ]} "platform").1 in
  conflictPolicyWarning [pol_overwrite] "Secret" "platform" req ≠ "" ∧
  EffectiveConflictPolicy (conflictPolicy req)
    (eff_AllowedConflictPolicies (ResolveOptions [pol_overwrite])) = ConflictPolicyAdopt.
Proof. split; [by vm_compute|vm_refl]. Qed.
