(* ===== verification/Discovery.v ===== *)
(** [internal/discovery] and [internal/discovery/capi]: cluster records and the
    events about them, the provider registry, and the ClusterAPI provider as a
    state machine fed by informer notifications, with its version negotiation. *)
From S2P Require Import Prelude GoLib Api Annotations Unstructured.

#[local] Open Scope string_scope.
#[local] Open Scope list_scope.

(** ** discovery.go *)

Record CredentialRef := { cr_Namespace : string; cr_Name : string }.

Definition CredentialRef_String (r : CredentialRef) : string := cr_Namespace r +:+ "/" +:+ cr_Name r.

Record ClusterRecord := {
  cl_Name : string;
  cl_Labels : gmap string string;
  cl_Ready : bool;
  cl_CredentialRef : CredentialRef;
}.

(** [type EventType string] *)
Inductive EventType := EventRegister | EventUpdate | EventDeregister.

(** [type Event struct] *)
Record DiscoveryEvent := { ev_Type : EventType; ev_Record : ClusterRecord }.

#[export] Instance CredentialRef_eq : EqDecision CredentialRef.
Proof. solve_decision. Defined.
#[export] Instance ClusterRecord_eq : EqDecision ClusterRecord.
Proof. solve_decision. Defined.
#[export] Instance EventType_eq : EqDecision EventType.
Proof. solve_decision. Defined.

(** ** registry.go *)

(** [Options.Setting]; [Options] is its settings map here. *)
Definition Setting (settings : gmap string string) (key def : string) : string :=
  match settings !! key with Some v => v | None => def end.

Section registry.
(** What a factory makes of the options: an error or a provider. *)
Context {Provider : Type}.

Definition Factory : Type := gmap string string → string + Provider.

(** [Registry.factories] *)
Definition Registry : Type := gmap string Factory.

Definition NewRegistry : Registry := ∅.

(** [Register]: the error, if any, and the registry. A nil factory is [None]. *)
Definition Register (name : string) (f : option Factory) (r : Registry) : option string * Registry :=
  match f with
  | Some f =>
      if decide (name = "") then
        (Some ("discovery: invalid registration for provider " +:+ quote name), r)
      else match r !! name with
           | Some _ => (Some ("discovery: provider " +:+ quote name +:+ " already registered"), r)
           | None => (None, <[name := f]> r)
           end
  | None => (Some ("discovery: invalid registration for provider " +:+ quote name), r)
  end.

Definition Names (r : Registry) : list string := Sort (elements (dom r)).

Definition New (name : string) (o : gmap string string) (r : Registry) : string + Provider :=
  match r !! name with
  | None => inl ("discovery: unknown provider " +:+ quote name +:+ " (registered: "
                 +:+ fmt_strings (Names r) +:+ ")")
  | Some f => f o
  end.

(** Registering never replaces a factory, and a registered one is found. *)
Lemma Register_spec name f r :
  let '(err, r') := Register name f r in
  (∀ n g, r !! n = Some g → r' !! n = Some g) ∧
  match err with
  | None => ∃ g, f = Some g ∧ r !! name = None ∧ (∀ o, New name o r' = g o) ∧
            dom r' = {[name]} ∪ dom r
  | Some _ => r' = r
  end.
Proof.
  unfold Register. destruct f as [g|]; [|done]. case_decide; [done|].
  destruct (r !! name) as [g'|] eqn:E; [done|]. split.
  - intros n h Hn. rw lookup_insert_ne //. congruence.
  - exists g. split_and!; [done..| |by rw dom_insert_L].
    intros o. unfold New. by rw lookup_insert_eq.
Qed.
End registry.

(** ** capi/provider.go *)

Definition kubeconfigSecretSuffix : string := "-kubeconfig".

Definition readyConditionTypes : gset string := {["ControlPlaneReady"; "ControlPlaneAvailable"]}.

(** [unstructured.NestedSlice]: the slice at a path; [None] when it is absent or
    something on the path has another type. *)
Class NestedAPI := { NestedSlice : Obj → list string → option (list value) }.

(** A string member of a condition, [""] when it is anything else. *)
Definition str_field (m : gmap string value) (k : string) : string :=
  match m !! k with Some (VStr s) => s | _ => "" end.

(** The loop of [controlPlaneReady]. *)
Fixpoint any_ready (conditions : list value) : bool :=
  match conditions with
  | [] => false
  | VObj cond :: cs =>
      if decide (str_field cond "type" ∉ readyConditionTypes) then any_ready cs
      else if decide (str_field cond "status" = "True") then true
      else any_ready cs
  | _ :: cs => any_ready cs
  end.

Section capi.
Context `{UnstructuredAPI} `{NestedAPI}.

Definition controlPlaneReady (u : Obj) : bool :=
  match NestedSlice u ["status"; "conditions"] with
  | None => false
  | Some conditions => any_ready conditions
  end.

Definition recordFromCluster (u : Obj) : ClusterRecord :=
  {| cl_Name := GetName u; cl_Labels := GetLabels u; cl_Ready := controlPlaneReady u;
     cl_CredentialRef :=
       {| cr_Namespace := GetNamespace u; cr_Name := GetName u +:+ kubeconfigSecretSuffix |} |}.

Definition recordsEqual (a b : ClusterRecord) : bool :=
  bool_decide (cl_Name a = cl_Name b) && bool_decide (cl_Ready a = cl_Ready b)
  && bool_decide (cl_CredentialRef a = cl_CredentialRef b)
  && (size (cl_Labels a) =? size (cl_Labels b))%nat
  && forallb (λ kv, bool_decide (mget (cl_Labels b) kv.1 = kv.2)) (map_to_list (cl_Labels a)).

(** The mutable fields of [Provider] its informer handlers use; every subscribed
    handler receives the same events in the same order. *)
Record CapiProvider := { records : gmap string ClusterRecord; watching : bool }.

Definition capi_New : CapiProvider := {| records := ∅; watching := false |}.

Definition setWatching (v : bool) (p : CapiProvider) : CapiProvider :=
  {| records := records p; watching := v |}.

(** The map key of a Cluster object. *)
Definition record_key (u : Obj) : string := GetNamespace u +:+ "/" +:+ GetName u.

(** [List]: in the order of the map iteration [it]. *)
Definition List_records (p : CapiProvider) (it : list string) : list ClusterRecord :=
  omap (λ k, records p !! k) it.

Definition upsert (u : Obj) (p : CapiProvider) : list DiscoveryEvent * CapiProvider :=
  let record := recordFromCluster u in
  let key := record_key u in
  let store := {| records := <[key := record]> (records p); watching := watching p |} in
  match records p !! key with
  | Some prev =>
      if recordsEqual prev record then ([], p)
      else ([{| ev_Type := EventUpdate; ev_Record := record |}], store)
  | None => ([{| ev_Type := EventRegister; ev_Record := record |}], store)
  end.

Definition unready (r : ClusterRecord) : ClusterRecord :=
  {| cl_Name := cl_Name r; cl_Labels := cl_Labels r; cl_Ready := false;
     cl_CredentialRef := cl_CredentialRef r |}.

Definition remove (u : Obj) (p : CapiProvider) : list DiscoveryEvent * CapiProvider :=
  match records p !! record_key u with
  | None => ([], p)
  | Some record =>
      ([{| ev_Type := EventDeregister; ev_Record := unready record |}],
       {| records := delete (record_key u) (records p); watching := watching p |})
  end.

(** What the informer delivers; [None] is an object of another type. A delete may
    come wrapped in a tombstone, which [remove] unwraps. *)
Inductive notification :=
  | AddOrUpdate (obj : option Obj)
  | Delete (obj : option Obj)
  | DeleteTombstone (obj : option Obj).

Definition notify (n : notification) (p : CapiProvider) : list DiscoveryEvent * CapiProvider :=
  match n with
  | AddOrUpdate (Some u) => upsert u p
  | Delete (Some u) | DeleteTombstone (Some u) => remove u p
  | _ => ([], p)
  end.

(** The events of a sequence of notifications, in order, and the final state. *)
Definition notify_all (ns : list notification) (p : CapiProvider)
    : list DiscoveryEvent * CapiProvider :=
  foldl (λ acc n, let '(es, p') := notify n acc.2 in (acc.1 ++ es, p')) ([], p) ns.

(** ** Version negotiation *)

Definition cluster_group : string := "cluster.x-k8s.io".
Definition cluster_resource : string := "clusters".
Definition clusterGroupResource_String : string := "clusters.cluster.x-k8s.io".

Definition supportedClusterVersions : list string := ["v1"; "v1beta2"; "v1beta1"].

(** The answers of the discovery client: the API groups with their versions
    ([GroupVersion] and [Version] of each), and the resources of a group version.
    The error of the latter says whether it is a NotFound. *)
Record APIGroup := { g_Name : string; g_Versions : list (string * string) }.

Record DiscoveryInterface := {
  ServerGroups : string + list APIGroup;
  ServerResourcesForGroupVersion : string → (bool * string) + list string;
}.

(** The error kinds [negotiate] tells apart. *)
Inductive NegotiateError :=
  | errUnsupportedVersions (served : list string)
  | errClusterResourceAbsent
  | errNoDiscoveryClient
  | errRequest (text : string).

Definition servesResource (d : DiscoveryInterface) (groupVersion resource : string)
    : NegotiateError + bool :=
  match ServerResourcesForGroupVersion d groupVersion with
  | inl (true, _) => inr false
  | inl (false, err) =>
      inl (errRequest ("capi: listing resources for " +:+ groupVersion +:+ ": " +:+ err))
  | inr l => inr (contains l resource)
  end.

(** The inner loop, over the versions of one group. *)
Fixpoint served_versions (d : DiscoveryInterface) (vs : list (string * string))
    (served : list string) : NegotiateError + list string :=
  match vs with
  | [] => inr served
  | (gv, v) :: vs' =>
      match servesResource d gv cluster_resource with
      | inl e => inl e
      | inr ok => served_versions d vs' (if ok : bool then served ++ [v] else served)
      end
  end.

Fixpoint served_groups (d : DiscoveryInterface) (gs : list APIGroup) (served : list string)
    : NegotiateError + list string :=
  match gs with
  | [] => inr served
  | g :: gs' =>
      if decide (g_Name g ≠ cluster_group) then served_groups d gs' served
      else match served_versions d (g_Versions g) served with
           | inl e => inl e
           | inr served' => served_groups d gs' served'
           end
  end.

(** The version chosen, for the fixed group and resource. *)
Definition resolveClusterGVR (d : option DiscoveryInterface) : NegotiateError + string :=
  match d with
  | None => inl errNoDiscoveryClient
  | Some d =>
      match ServerGroups d with
      | inl err => inl (errRequest ("capi: listing server API groups: " +:+ err))
      | inr groups =>
          match served_groups d groups [] with
          | inl e => inl e
          | inr served =>
              match List.find (contains served) supportedClusterVersions with
              | Some want => inr want
              | None => match served with
                        | [] => inl errClusterResourceAbsent
                        | _ => inl (errUnsupportedVersions served)
                        end
              end
          end
      end
  end.

(** [negotiate], over what the API server answers at each attempt; the context is
    done after the last. [inr None] is the empty GVR. *)
Fixpoint negotiate (attempts : list (option DiscoveryInterface)) : NegotiateError + option string :=
  match attempts with
  | [] => inr None
  | d :: attempts' =>
      match resolveClusterGVR d with
      | inr gvr => inr (Some gvr)
      | inl (errUnsupportedVersions served) => inl (errUnsupportedVersions served)
      | inl errNoDiscoveryClient => inl errNoDiscoveryClient
      | inl _ => negotiate attempts'
      end
  end.

(** ** Specification *)

(** The inventory a subscriber keeps: the events applied in order. *)
Definition apply_event (view : gmap string ClusterRecord) (e : DiscoveryEvent)
    : gmap string ClusterRecord :=
  match ev_Type e with
  | EventDeregister => delete (cl_Name (ev_Record e)) view
  | _ => <[cl_Name (ev_Record e) := ev_Record e]> view
  end.

Definition view_of (es : list DiscoveryEvent) : gmap string ClusterRecord := foldl apply_event ∅ es.

(** An event that fits the view it arrives at: a new cluster registers, a known
    one updates or deregisters (and is then no longer ready). *)
Definition event_ok (view : gmap string ClusterRecord) (e : DiscoveryEvent) : Prop :=
  match ev_Type e with
  | EventRegister => view !! cl_Name (ev_Record e) = None
  | EventUpdate => is_Some (view !! cl_Name (ev_Record e))
  | EventDeregister => is_Some (view !! cl_Name (ev_Record e)) ∧ cl_Ready (ev_Record e) = false
  end.

Definition protocol (es : list DiscoveryEvent) : Prop :=
  ∀ pre e post, es = pre ++ e :: post → event_ok (view_of pre) e.

(** The Cluster objects that exist after the notifications. *)
Definition fleet_step (m : gmap string Obj) (n : notification) : gmap string Obj :=
  match n with
  | AddOrUpdate (Some u) => <[record_key u := u]> m
  | Delete (Some u) | DeleteTombstone (Some u) => delete (record_key u) m
  | _ => m
  end.

Definition fleet (ns : list notification) : gmap string Obj := foldl fleet_step ∅ ns.

Definition object_of (n : notification) : option Obj :=
  match n with AddOrUpdate o | Delete o | DeleteTombstone o => o end.

(** No two Clusters share a name: the documented condition on the watch scope. *)
Definition unique_names (ns : list notification) : Prop :=
  ∀ n n' u v, n ∈ ns → n' ∈ ns → object_of n = Some u → object_of n' = Some v →
    GetName u = GetName v ↔ record_key u = record_key v.

(** ** Lemmas *)

Lemma recordsEqual_spec a b :
  recordsEqual a b = true ↔
  cl_Name a = cl_Name b ∧ cl_Ready a = cl_Ready b ∧ cl_CredentialRef a = cl_CredentialRef b ∧
  size (cl_Labels a) = size (cl_Labels b) ∧
  ∀ k v, cl_Labels a !! k = Some v → mget (cl_Labels b) k = v.
Proof.
  unfold recordsEqual. rewrite !andb_true_iff !bool_decide_eq_true Nat.eqb_eq List.forallb_forall.
  split.
  - intros ((((? & ?) & ?) & ?) & Hf). split_and!; try done. intros k v Hk.
    specialize (Hf (k, v)). rewrite bool_decide_eq_true in Hf.
    apply Hf. by apply list_elem_of_In, elem_of_map_to_list.
  - intros (? & ? & ? & ? & Hf). split_and!; try done. intros [k v] Hin.
    apply list_elem_of_In, elem_of_map_to_list in Hin. by apply bool_decide_eq_true, Hf.
Qed.

Lemma recordsEqual_refl a : recordsEqual a a = true.
Proof. apply recordsEqual_spec. split_and!; try done. intros k v Hk. unfold mget. by rewrite Hk. Qed.

(** It is equality on records whose labels all have a value. *)
Lemma recordsEqual_exact a b :
  map_Forall (λ _ v, v ≠ "") (cl_Labels a) → recordsEqual a b = true → a = b.
Proof.
  intros Hne (Hn & Hr & Hc & Hs & Hl)%recordsEqual_spec.
  assert (cl_Labels a = cl_Labels b) as He.
  { apply map_subseteq_size_eq; [|lia]. apply map_subseteq_spec. intros k v Hk.
    specialize (Hl k v Hk). specialize (Hne k v Hk). unfold mget in Hl.
    destruct (cl_Labels b !! k); simpl in Hl; congruence. }
  destruct a, b; simpl in *; congruence.
Qed.

Lemma view_snoc es e : view_of (es ++ [e]) = apply_event (view_of es) e.
Proof. unfold view_of. by rewrite foldl_app. Qed.

Lemma protocol_snoc es e : protocol es → event_ok (view_of es) e → protocol (es ++ [e]).
Proof.
  intros Hp He pre x post Heq.
  destruct post as [|y post _] using rev_ind.
  - apply app_inj_tail in Heq as [<- <-]. done.
  - rewrite app_comm_cons app_assoc in Heq. apply app_inj_tail in Heq as [-> _]. by eapply Hp.
Qed.

Lemma notify_all_snoc ns n p :
  notify_all (ns ++ [n]) p =
  let '(es, p1) := notify_all ns p in let '(es', p2) := notify n p1 in (es ++ es', p2).
Proof. unfold notify_all. rewrite foldl_app /=. by destruct (foldl _ _ ns) as [es p1]. Qed.

Lemma fleet_snoc ns n : fleet (ns ++ [n]) = fleet_step (fleet ns) n.
Proof. unfold fleet. by rewrite foldl_app. Qed.

(** The provider's records, the subscribers' view and the objects that exist. *)
Record in_sync (ns : list notification) (es : list DiscoveryEvent) (p : CapiProvider) : Prop := {
  sync_records : ∀ k,
    match records p !! k, fleet ns !! k with
    | Some r, Some u => recordsEqual r (recordFromCluster u) = true
    | None, None => True
    | _, _ => False
    end;
  sync_keys : ∀ k r, records p !! k = Some r →
    ∃ n u, n ∈ ns ∧ object_of n = Some u ∧ record_key u = k ∧ cl_Name r = GetName u;
  sync_view : ∀ c r, view_of es !! c = Some r ↔ ∃ k, records p !! k = Some r ∧ cl_Name r = c;
  sync_protocol : protocol es;
}.

Lemma in_sync_nil : in_sync [] [] capi_New.
Proof.
  split.
  - intros k. unfold fleet. simpl. by rewrite !lookup_empty.
  - intros k r. simpl. by rewrite lookup_empty.
  - unfold view_of. simpl. intros c r. rewrite lookup_empty.
    split; [done|]. intros (k & Hk & _). by rewrite lookup_empty in Hk.
  - intros pre e post Heq. by destruct pre.
Qed.

(** A record of the name of [u] sits at the key of [u]. *)
Lemma sync_name ns es p n u k r :
  unique_names (ns ++ [n]) → in_sync ns es p → object_of n = Some u →
  records p !! k = Some r → cl_Name r = GetName u ↔ k = record_key u.
Proof.
  intros Hu [_ Hk _ _] Hn Hr. destruct (Hk k r Hr) as (n' & v & Hin & Ho & <- & ->).
  apply (Hu n' n v u); [set_solver..|done|done].
Qed.

Lemma in_sync_upsert ns es p u :
  unique_names (ns ++ [AddOrUpdate (Some u)]) → in_sync ns es p →
  in_sync (ns ++ [AddOrUpdate (Some u)]) (es ++ (upsert u p).1) (upsert u p).2.
Proof.
  intros Hu Hs. pose proof (λ k r, sync_name ns es p _ u k r Hu Hs eq_refl) as Hname.
  pose proof Hs as [HR HK HV HP].
  assert (∀ k, k ≠ record_key u →
    match records p !! k, fleet_step (fleet ns) (AddOrUpdate (Some u)) !! k with
    | Some r, Some u => recordsEqual r (recordFromCluster u) = true
    | None, None => True | _, _ => False end) as HR'.
  { intros k Hk. simpl. rewrite lookup_insert_ne //. apply HR. }
  assert (∀ k r, <[record_key u := recordFromCluster u]> (records p) !! k = Some r →
    ∃ n v, n ∈ ns ++ [AddOrUpdate (Some u)] ∧ object_of n = Some v ∧ record_key v = k ∧
           cl_Name r = GetName v) as HK'.
  { intros k r [[<- <-]|[Hne Hr]]%lookup_insert_Some.
    - exists (AddOrUpdate (Some u)), u. split_and!; [set_solver|done..].
    - destruct (HK k r Hr) as (n & v & ? & ?). exists n, v. set_solver. }
  assert (∀ c r, <[GetName u := recordFromCluster u]> (view_of es) !! c = Some r ↔
    ∃ k, <[record_key u := recordFromCluster u]> (records p) !! k = Some r ∧ cl_Name r = c) as HV'.
  { intros c r. setoid_rewrite lookup_insert_Some. rewrite HV. split.
    - intros [[<- <-]|[Hne (k & Hk & <-)]]; [exists (record_key u); by auto|].
      exists k. split; [|done]. right. split; [|done]. intros <-.
      apply Hne. symmetry. by apply (Hname (record_key u) r).
    - intros (k & [[<- <-]|[Hne Hk]] & <-); [by left|]. right. split; [|eauto].
      intros E. apply Hne. symmetry. by apply (Hname k r). }
  unfold upsert. specialize (HR (record_key u)).
  destruct (records p !! record_key u) as [prev|] eqn:E; [destruct (recordsEqual _ _) eqn:Eq|];
    simpl; rewrite ?app_nil_r.
  - split; [| |done|done].
    + intros k. rewrite fleet_snoc. destruct (decide (k = record_key u)) as [->|Hne]; [|by apply HR'].
      simpl. by rewrite E lookup_insert_eq.
    + intros k r Hr. destruct (HK k r Hr) as (n & v & ? & ?). exists n, v. set_solver.
  - split; simpl; [|exact HK'|by rewrite view_snoc|].
    + intros k. rewrite fleet_snoc. destruct (decide (k = record_key u)) as [->|Hne];
        [|rewrite lookup_insert_ne //; by apply HR'].
      simpl. rewrite !lookup_insert_eq. apply recordsEqual_refl.
    + apply protocol_snoc; [done|]. exists prev. apply HV. exists (record_key u). split; [done|].
      by apply (Hname (record_key u) prev).
  - split; simpl; [|exact HK'|by rewrite view_snoc|].
    + intros k. rewrite fleet_snoc. destruct (decide (k = record_key u)) as [->|Hne];
        [|rewrite lookup_insert_ne //; by apply HR'].
      simpl. rewrite !lookup_insert_eq. apply recordsEqual_refl.
    + apply protocol_snoc; [done|]. unfold event_ok. simpl.
      destruct (view_of es !! GetName u) as [r|] eqn:Ev; [|done].
      apply HV in Ev as (k & Hk & Hc). apply (Hname k r) in Hc as ->; [|done..]. congruence.
Qed.

Lemma in_sync_remove ns es p n u :
  unique_names (ns ++ [n]) → in_sync ns es p → object_of n = Some u →
  fleet_step (fleet ns) n = delete (record_key u) (fleet ns) →
  in_sync (ns ++ [n]) (es ++ (remove u p).1) (remove u p).2.
Proof.
  intros Hu Hs Ho Hf. pose proof (λ k r, sync_name ns es p n u k r Hu Hs Ho) as Hname.
  pose proof Hs as [HR HK HV HP].
  assert (∀ k r, records p !! k = Some r →
    ∃ m v, m ∈ ns ++ [n] ∧ object_of m = Some v ∧ record_key v = k ∧ cl_Name r = GetName v) as HK'.
  { intros k r Hr. destruct (HK k r Hr) as (m & v & ? & ?). exists m, v. set_solver. }
  unfold remove. destruct (records p !! record_key u) as [prev|] eqn:E; simpl.
  - assert (cl_Name prev = GetName u) as Hn by (by apply (Hname (record_key u) prev E)).
    split; simpl.
    + intros k. rewrite fleet_snoc Hf. destruct (decide (k = record_key u)) as [->|Hne].
      * by rewrite !lookup_delete_eq.
      * rewrite !lookup_delete_ne //. apply HR.
    + intros k r [_ Hr]%lookup_delete_Some. by apply HK'.
    + intros c r. rewrite view_snoc /apply_event /= Hn. setoid_rewrite lookup_delete_Some.
      rewrite HV. split.
      * intros [Hne (k & Hk & <-)]. exists k. split_and!; [|done..]. intros <-.
        apply Hne. symmetry. by apply (Hname (record_key u) r).
      * intros (k & [Hne Hk] & <-). split; [|eauto]. intros Hc. apply Hne.
        symmetry. by apply (Hname k r).
    + apply protocol_snoc; [done|]. split; [|done]. exists prev. apply HV. eauto.
  - rewrite app_nil_r. split; [|done..].
    intros k. rewrite fleet_snoc Hf. destruct (decide (k = record_key u)) as [->|Hne].
    + by rewrite E lookup_delete_eq.
    + rewrite lookup_delete_ne //. apply HR.
Qed.

Lemma in_sync_all ns :
  unique_names ns → in_sync ns (notify_all ns capi_New).1 (notify_all ns capi_New).2.
Proof.
  induction ns as [|n ns IH] using rev_ind; intros Hu; [apply in_sync_nil|].
  assert (in_sync ns (notify_all ns capi_New).1 (notify_all ns capi_New).2) as Hs.
  { apply IH. intros m m' u v Hm Hm'. apply Hu; set_solver. }
  rewrite notify_all_snoc. destruct (notify_all ns capi_New) as [es p]; simpl in Hs.
  assert (fleet_step (fleet ns) n = fleet ns → in_sync (ns ++ [n]) es p) as Hskip.
  { intros Hf. destruct Hs as [HR HK HV HP]. split; [|..|done].
    - intros k. rewrite fleet_snoc Hf. apply HR.
    - intros k r Hr. destruct (HK k r Hr) as (m & v & ? & ?). exists m, v. set_solver.
    - done. }
  destruct n as [[u|]|[u|]|[u|]]; simpl;
    try (rewrite app_nil_r; by apply Hskip).
  - pose proof (in_sync_upsert ns es p u Hu Hs) as H'. by destruct (upsert u p).
  - pose proof (in_sync_remove ns es p _ u Hu Hs eq_refl eq_refl) as H'. by destruct (remove u p).
  - pose proof (in_sync_remove ns es p _ u Hu Hs eq_refl eq_refl) as H'. by destruct (remove u p).
Qed.

(** What a subscriber's inventory has, and that it has every Cluster. *)
Lemma in_sync_view ns es p c r :
  in_sync ns es p → view_of es !! c = Some r → ∃ k u, fleet ns !! k = Some u ∧ GetName u = c.
Proof.
  intros [HR _ HV _] (k & Hk & <-)%HV. specialize (HR k). rewrite Hk in HR.
  destruct (fleet ns !! k) as [u|] eqn:E; [|done]. exists k, u. split; [done|].
  apply recordsEqual_spec in HR as (-> & _). done.
Qed.

Lemma in_sync_fleet ns es p k u :
  in_sync ns es p → fleet ns !! k = Some u →
  ∃ r, view_of es !! GetName u = Some r ∧ cl_Name r = GetName u ∧ cl_Ready r = controlPlaneReady u ∧
    cl_CredentialRef r = cl_CredentialRef (recordFromCluster u) ∧
    (map_Forall (λ _ v, v ≠ "") (cl_Labels r) → r = recordFromCluster u).
Proof.
  intros [HR _ HV _] Hk. specialize (HR k). rewrite Hk in HR.
  destruct (records _ !! k) as [r|] eqn:E; [|done]. exists r.
  pose proof (λ He, recordsEqual_exact r _ He HR) as Hex.
  apply recordsEqual_spec in HR as (Hn & Hr & Hc & _).
  split_and!; [|done..]. apply HV. exists k. by rewrite Hn.
Qed.

(** ** What the API server serves *)

Definition lists_clusters (d : DiscoveryInterface) (gv : string) : Prop :=
  ∃ l, ServerResourcesForGroupVersion d gv = inr l ∧ cluster_resource ∈ l.

(** The resource list of a group version can be read (a NotFound counts). *)
Definition readable (d : DiscoveryInterface) (gv : string) : Prop :=
  ∀ err, ServerResourcesForGroupVersion d gv ≠ inl (false, err).

(** The group versions of the Cluster API. *)
Definition advertises (d : DiscoveryInterface) (gv v : string) : Prop :=
  ∃ gs g, ServerGroups d = inr gs ∧ g ∈ gs ∧ g_Name g = cluster_group ∧ (gv, v) ∈ g_Versions g.

Definition serves (d : DiscoveryInterface) (v : string) : Prop :=
  ∃ gv, advertises d gv v ∧ lists_clusters d gv.

(** Every read the negotiation needs succeeds. *)
Definition reads_ok (d : DiscoveryInterface) : Prop :=
  (∃ gs, ServerGroups d = inr gs) ∧ ∀ gv v, advertises d gv v → readable d gv.

(** [v] is served and no supported version ahead of it is. *)
Definition preferred (d : DiscoveryInterface) (v : string) : Prop :=
  ∃ ahead behind, supportedClusterVersions = ahead ++ v :: behind ∧ serves d v ∧
    ∀ w, w ∈ ahead → ¬ serves d w.

(** An answer that may change by itself: a failed read, or no Cluster resource. *)
Definition retryable (d : option DiscoveryInterface) : Prop :=
  ∃ d', d = Some d' ∧ (¬ reads_ok d' ∨ ∀ v, ¬ serves d' v).

Lemma servesResource_spec d gv :
  match servesResource d gv cluster_resource with
  | inl e => ¬ readable d gv ∧ ∃ t, e = errRequest t
  | inr ok => readable d gv ∧ (ok = true ↔ lists_clusters d gv)
  end.
Proof.
  unfold servesResource, readable, lists_clusters.
  destruct (ServerResourcesForGroupVersion d gv) as [[[|] err]|l] eqn:E; rewrite ?E.
  - split; [done|]. naive_solver.
  - split; [|eauto]. intros Hr. by apply (Hr err).
  - split; [done|]. rewrite contains_true. naive_solver.
Qed.

Lemma served_versions_spec d vs served :
  match served_versions d vs served with
  | inl e => (∃ gv v, (gv, v) ∈ vs ∧ ¬ readable d gv) ∧ ∃ t, e = errRequest t
  | inr served' =>
      (∀ gv v, (gv, v) ∈ vs → readable d gv) ∧
      ∀ v, v ∈ served' ↔ v ∈ served ∨ ∃ gv, (gv, v) ∈ vs ∧ lists_clusters d gv
  end.
Proof.
  revert served. induction vs as [|[gv v] vs IH]; intros served; simpl; [set_solver|].
  pose proof (servesResource_spec d gv) as Hs.
  destruct (servesResource d gv cluster_resource) as [e|ok].
  - destruct Hs as [Hn He]. split; [|done]. exists gv, v. split; [left|done].
  - destruct Hs as [Hr Hok]. specialize (IH (if ok then served ++ [v] else served)).
    destruct (served_versions d vs _) as [e|served'].
    + destruct IH as [(gv' & v' & Hin & Hn) He]. split; [|done]. exists gv', v'. split; [by right|done].
    + destruct IH as [IH1 IH2]. split.
      * intros gv' v' [[= -> ->]|Hin]%elem_of_cons; [done|by eapply IH1].
      * intros w. rewrite IH2. setoid_rewrite elem_of_cons. destruct ok.
        -- rewrite elem_of_app list_elem_of_singleton. apply proj1 in Hok. specialize (Hok eq_refl).
           naive_solver.
        -- assert (¬ lists_clusters d gv) by (intros ?; by apply Hok in H1). naive_solver.
Qed.

Lemma served_groups_spec d gs served :
  match served_groups d gs served with
  | inl e => (∃ g gv v, g ∈ gs ∧ g_Name g = cluster_group ∧ (gv, v) ∈ g_Versions g ∧ ¬ readable d gv) ∧
             ∃ t, e = errRequest t
  | inr served' =>
      (∀ g gv v, g ∈ gs → g_Name g = cluster_group → (gv, v) ∈ g_Versions g → readable d gv) ∧
      ∀ v, v ∈ served' ↔ v ∈ served ∨
        ∃ g gv, g ∈ gs ∧ g_Name g = cluster_group ∧ (gv, v) ∈ g_Versions g ∧ lists_clusters d gv
  end.
Proof.
  revert served. induction gs as [|g gs IH]; intros served; simpl; [set_solver|].
  case_decide as Hg.
  - specialize (IH served). destruct (served_groups d gs served) as [e|served'].
    + destruct IH as [(g' & gv & v & ? & ?) He]. split; [|done]. exists g', gv, v. set_solver.
    + destruct IH as [IH1 IH2]. setoid_rewrite elem_of_cons. split; [naive_solver|].
      intros v. rewrite IH2. naive_solver.
  - pose proof (served_versions_spec d (g_Versions g) served) as Hv.
    destruct (served_versions d (g_Versions g) served) as [e|served1].
    + destruct Hv as [(gv & v & ? & ?) He]. split; [|done]. exists g, gv, v. set_solver.
    + destruct Hv as [Hv1 Hv2]. specialize (IH served1).
      destruct (served_groups d gs served1) as [e|served'].
      * destruct IH as [(g' & gv & v & ? & ?) He]. split; [|done]. exists g', gv, v. set_solver.
      * destruct IH as [IH1 IH2]. setoid_rewrite elem_of_cons. split; [naive_solver|].
        intros v. rewrite IH2 Hv2. naive_solver.
Qed.

(** The error kinds of [resolveClusterGVR] and the version it chooses. *)
Lemma resolveClusterGVR_spec d :
  match resolveClusterGVR (Some d) with
  | inr v => reads_ok d ∧ preferred d v
  | inl (errUnsupportedVersions served) =>
      reads_ok d ∧ served ≠ [] ∧ ∀ v, v ∈ served ↔ serves d v ∧ v ∉ supportedClusterVersions
  | inl errClusterResourceAbsent => reads_ok d ∧ ∀ v, ¬ serves d v
  | inl errNoDiscoveryClient => False
  | inl (errRequest _) => ¬ reads_ok d
  end.
Proof.
  unfold resolveClusterGVR. destruct (ServerGroups d) as [err|gs] eqn:Eg.
  { intros [[gs Hgs] _]. congruence. }
  pose proof (served_groups_spec d gs []) as Hs.
  destruct (served_groups d gs []) as [e|served].
  { destruct Hs as [(g & gv & v & Hg & Hn & Hv & Hr) [t ->]]. intros [_ Hok].
    apply Hr, (Hok gv v). by exists gs, g. }
  destruct Hs as [Hr Hs].
  assert (reads_ok d) as Hok.
  { split; [eauto|]. intros gv v (gs' & g & Hgs & ? & ? & ?).
    assert (gs' = gs) as -> by congruence. by eapply Hr. }
  assert (∀ v, v ∈ served ↔ serves d v) as Hserves.
  { intros v. rewrite Hs. unfold serves, advertises. split.
    - intros [?%not_elem_of_nil|(g & gv & ? & ? & ? & ?)]; [done|]. exists gv. split; [|done].
      by exists gs, g.
    - intros (gv & (gs' & g & ? & ? & ? & ?) & ?).
      assert (gs' = gs) as -> by congruence. right. by exists g, gv. }
  destruct (List.find (contains served) supportedClusterVersions) as [want|] eqn:Ef.
  - split; [done|]. unfold preferred. setoid_rewrite <-Hserves. revert Ef. unfold supportedClusterVersions.
    simpl. repeat case_match; intros [= <-];
      repeat match goal with
      | H : contains _ _ = true |- _ => apply contains_true in H
      | H : contains _ _ = false |- _ => apply contains_false in H
      end.
    + exists [], ["v1beta2"; "v1beta1"]. set_solver.
    + exists ["v1"], ["v1beta1"]. set_solver.
    + exists ["v1"; "v1beta2"], []. set_solver.
  - assert (∀ v, v ∈ served → v ∉ supportedClusterVersions) as Hun.
    { intros v Hv Hin. apply list_elem_of_In in Hin.
      pose proof (List.find_none _ _ Ef v Hin) as Hc. apply contains_false in Hc. exact (Hc Hv). }
    destruct served as [|v0 served0].
    + split; [done|]. intros v Hv. apply Hserves in Hv. by apply not_elem_of_nil in Hv.
    + split_and!; [done..|]. intros v. rewrite Hserves. split; [|tauto]. intros Hv. split; [done|].
      by apply Hun, Hserves.
Qed.

(** ** Properties *)

(** C9. The provider's events replay the fleet. For any sequence of informer
    notifications about uniquely named Clusters, the events it emits follow the
    protocol (a Register for an unknown name, Update and Deregister for a known
    one, never a ready record on Deregister), and the inventory a subscriber builds
    from them has exactly the existing Clusters, each with its name, readiness and
    credentials, and with its labels when none of its former labels was empty. *)
Theorem events_replay_the_fleet ns (Hu : unique_names ns) :
  let es := (notify_all ns capi_New).1 in
  protocol es ∧
  (∀ c r, view_of es !! c = Some r → ∃ k u, fleet ns !! k = Some u ∧ GetName u = c) ∧
  (∀ k u, fleet ns !! k = Some u → ∃ r, view_of es !! GetName u = Some r ∧
     cl_Name r = GetName u ∧ cl_Ready r = controlPlaneReady u ∧
     cl_CredentialRef r = cl_CredentialRef (recordFromCluster u) ∧
     (map_Forall (λ _ v, v ≠ "") (cl_Labels r) → r = recordFromCluster u)).
Proof.
  pose proof (in_sync_all ns Hu) as Hs. intros es. split_and!.
  - apply (sync_protocol _ _ _ Hs).
  - intros c r. by eapply in_sync_view.
  - intros k u. by eapply in_sync_fleet.
Qed.

(** Negotiation never guesses: it returns the first supported version, in
    the order of preference, that the API server serves for clusters; it fails
    only without a discovery client or when clusters are served at unsupported
    versions only; and it keeps waiting exactly through answers that can resolve
    themselves (a failed read, or no Cluster resource). *)
Theorem negotiate_correct ds :
  match negotiate ds with
  | inr None => Forall retryable ds
  | inr (Some v) => ∃ pre d post, ds = pre ++ Some d :: post ∧ Forall retryable pre ∧
                      reads_ok d ∧ preferred d v
  | inl errNoDiscoveryClient => ∃ pre post, ds = pre ++ None :: post ∧ Forall retryable pre
  | inl (errUnsupportedVersions served) =>
      ∃ pre d post, ds = pre ++ Some d :: post ∧ Forall retryable pre ∧ reads_ok d ∧
        served ≠ [] ∧ ∀ v, v ∈ served ↔ serves d v ∧ v ∉ supportedClusterVersions
  | inl _ => False
  end.
Proof.
  induction ds as [|d ds IH]; simpl; [constructor|].
  destruct d as [d|]; [|by exists [], ds].
  assert (∀ r, retryable (Some d) → r = negotiate ds → match r with
    | inr None => Forall retryable (Some d :: ds)
    | inr (Some v) => ∃ pre d' post, Some d :: ds = pre ++ Some d' :: post ∧ Forall retryable pre ∧
                        reads_ok d' ∧ preferred d' v
    | inl errNoDiscoveryClient => ∃ pre post, Some d :: ds = pre ++ None :: post ∧ Forall retryable pre
    | inl (errUnsupportedVersions served) =>
        ∃ pre d' post, Some d :: ds = pre ++ Some d' :: post ∧ Forall retryable pre ∧ reads_ok d' ∧
          served ≠ [] ∧ ∀ v, v ∈ served ↔ serves d' v ∧ v ∉ supportedClusterVersions
    | inl _ => False
    end) as Hwait.
  { intros r Hr ->. destruct (negotiate ds) as [[served| | |t']|[v|]]; try done.
    - destruct IH as (pre & d' & post & -> & ?). exists (Some d :: pre), d', post. naive_solver.
    - destruct IH as (pre & post & -> & ?). exists (Some d :: pre), post. naive_solver.
    - destruct IH as (pre & d' & post & -> & ?). exists (Some d :: pre), d', post. naive_solver.
    - by constructor. }
  pose proof (resolveClusterGVR_spec d) as Hd.
  destruct (resolveClusterGVR (Some d)) as [[served| | |t]|v].
  - exists [], d, ds. naive_solver.
  - apply Hwait; [|done]. exists d. naive_solver.
  - done.
  - apply Hwait; [|done]. exists d. naive_solver.
  - exists [], d, ds. naive_solver.
Qed.
End capi.

(** ** Concrete inputs *)

Module NestedModel.
Fixpoint nested (o : Obj) (path : list string) : option (list value) :=
  match path with
  | [] => None
  | [k] => match o !! k with Some (VArr l) => Some l | _ => None end
  | k :: path' => match o !! k with Some (VObj m) => nested m path' | _ => None end
  end.

#[export] Instance api : NestedAPI := {| NestedSlice := nested |}.
End NestedModel.

#[local] Existing Instance UnstructuredModel.api.
#[local] Existing Instance NestedModel.api.

Definition ex_cluster (ns name : string) (status : string) : Obj :=
  {[ "metadata" := VObj {[ "name" := VStr name; "namespace" := VStr ns ]};
     "status" := VObj {[ "conditions" := VArr
       [VStr "junk"; VObj {[ "type" := VStr "ControlPlaneReady"; "status" := VStr status ]}] ]} ]}.

Definition ex_notifications : list notification :=
  [AddOrUpdate (Some (ex_cluster "fleet" "eu-1" "False")); AddOrUpdate None;
   AddOrUpdate (Some (ex_cluster "fleet" "eu-1" "True"));
   AddOrUpdate (Some (ex_cluster "fleet" "eu-1" "True"));
   DeleteTombstone (Some (ex_cluster "fleet" "eu-1" "True"))].

Example ex_events :
  map (λ e, (ev_Type e, cl_Ready (ev_Record e))) (notify_all ex_notifications capi_New).1 =
  [(EventRegister, false); (EventUpdate, true); (EventDeregister, false)].
Proof. vm_compute. reflexivity. Qed.

Lemma ex_unique : unique_names (take 3 ex_notifications).
Proof.
  intros n n' u v Hn Hn'. simpl in Hn, Hn'.
  repeat (apply elem_of_cons in Hn as [->|Hn]; [|]); try by apply not_elem_of_nil in Hn.
  all: repeat (apply elem_of_cons in Hn' as [->|Hn']; [|]); try by apply not_elem_of_nil in Hn'.
  all: intros [= <-] [= <-]; by split.
Qed.

Lemma events_replay_witness :
  unique_names (take 3 ex_notifications) ∧
  ∃ r, view_of (notify_all (take 3 ex_notifications) capi_New).1 !! "eu-1" = Some r ∧
       cl_Ready r = true.
Proof.
  pose proof ex_unique as Hu.
  split; [exact Hu|].
  destruct (events_replay_the_fleet (take 3 ex_notifications) Hu) as (_ & _ & H).
  destruct (H "fleet/eu-1" (ex_cluster "fleet" "eu-1" "True") ltac:(vm_refl))
    as (r & Hr & _ & Hready & _).
  exists r. split; [exact Hr|]. rewrite Hready. vm_refl.
Defined.

(** Two label sets the provider takes for equal: the update that turns the first
    into the second is dropped. *)
Definition with_labels (m : gmap string string) : ClusterRecord :=
  {| cl_Name := "eu-1"; cl_Labels := m; cl_Ready := true;
     cl_CredentialRef := {| cr_Namespace := "fleet"; cr_Name := "eu-1-kubeconfig" |} |}.

Example recordsEqual_misses_a_change :
  recordsEqual (with_labels {[ "x" := "" ]}) (with_labels {[ "y" := "foo" ]}) = true.
Proof. reflexivity. Qed.
