(* ===== verification/DeepCopy.v ===== *)
(** The generated deep copies of [api/v1alpha1/zz_generated.deepcopy.go]: the API
    types as the structs of slices and pointers that they are in memory, their
    [DeepCopyInto], [DeepCopy] and [DeepCopyObject], and what a deep copy is for; with
    them the hand-written [Clone] of internal/discovery/discovery.go. The metadata
    types of apimachinery and their own copies are parameters. *)
From S2P Require Import Prelude GoLib GoHeap Api Unstructured Discovery.

(** ** The structs *)

Record go_ResolvedTarget := {
  rt_ClusterName' : string;
  rt_Namespaces' : Slice string;
  rt_TargetName' : string;
}.

Record go_ReplicationSpec := {
  SourceRef' : SourceReference;
  Origin' : string;
  ResolvedTargets' : Slice go_ResolvedTarget;
}.

Record go_ReplicationStatus := {
  Summary' : TargetSummary;
  SourceHash' : string;
  Conditions' : Slice Condition;
  NonReadyTargets' : Slice NonReadyTarget;
  NonReadyOverflow' : Z;
  Inventory' : Slice InventoryEntry;
}.

Record go_PolicyOptions := {
  AllowNamespaceCreation' : bool;
  AllowedConflictPolicies' : Slice string;
  RevocationPolicy' : string;
}.

(** [discovery.ClusterRecord]; a map is a reference to it, nil or not. *)
Record go_ClusterRecord := {
  cl_Name' : string;
  cl_Labels' : Ptr (gmap string string);
  cl_Ready' : bool;
  cl_CredentialRef' : CredentialRef;
}.

(** [metav1]: the metadata of objects and of lists, and label selectors, with what
    they reach in a store of their own kinds of arrays. *)
Class MetaV1 := {
  ObjectMeta : Type;
  ListMeta : Type;
  go_LabelSelector : Type;
  MetaArray : Type;
}.

Section types.
Context `{MetaV1}.

Record go_PolicySources := {
  src_Namespaces' : Slice string;
  src_NamespaceSelector' : Ptr go_LabelSelector;
  src_Kinds' : Slice string;
}.

Record go_PolicyTargets := {
  tgt_ClusterSelector' : go_LabelSelector;
  tgt_Namespaces' : Slice string;
}.

Record go_ReplicationPolicySpec := {
  Sources' : go_PolicySources;
  Targets' : go_PolicyTargets;
  Options' : go_PolicyOptions;
}.

(** [metav1.TypeMeta]. *)
Record TypeMeta := { tm_Kind : string; tm_APIVersion : string }.

Record go_ReplicationPolicy := {
  pol_TypeMeta : TypeMeta;
  pol_ObjectMeta : ObjectMeta;
  pol_Spec' : go_ReplicationPolicySpec;
}.

Record go_ReplicationPolicyList := {
  pols_TypeMeta : TypeMeta;
  pols_ListMeta : ListMeta;
  pols_Items : Slice go_ReplicationPolicy;
}.

Record go_Replication := {
  rep_TypeMeta : TypeMeta;
  rep_ObjectMeta : ObjectMeta;
  rep_Spec' : go_ReplicationSpec;
  rep_Status' : go_ReplicationStatus;
}.

Record go_ReplicationList := {
  reps_TypeMeta : TypeMeta;
  reps_ListMeta : ListMeta;
  reps_Items : Slice go_Replication;
}.

(** The arrays of the store. *)
Inductive cell :=
  | Strings (l : list string)
  | SourceReferences (l : list SourceReference)
  | ResolvedTargetsArr (l : list go_ResolvedTarget)
  | ReplicationSpecs (l : list go_ReplicationSpec)
  | TargetSummaries (l : list TargetSummary)
  | ConditionsArr (l : list Condition)
  | NonReadyTargetsArr (l : list NonReadyTarget)
  | InventoryEntries (l : list InventoryEntry)
  | ReplicationStatuses (l : list go_ReplicationStatus)
  | Replications (l : list go_Replication)
  | ReplicationLists (l : list go_ReplicationList)
  | LabelSelectors (l : list go_LabelSelector)
  | PolicySourcesArr (l : list go_PolicySources)
  | PolicyTargetsArr (l : list go_PolicyTargets)
  | PolicyOptionsArr (l : list go_PolicyOptions)
  | ReplicationPolicySpecs (l : list go_ReplicationPolicySpec)
  | ReplicationPolicies (l : list go_ReplicationPolicy)
  | ReplicationPolicyLists (l : list go_ReplicationPolicyList)
  | LabelMaps (l : list (gmap string string))
  | MetaArrays (a : MetaArray).

Definition store : Type := list cell.
End types.

Section arrays.
Context `{MetaV1}.

#[export] Instance strings_elem : Elem cell string :=
  {| to_cell := Strings; of_cell x := match x with Strings l => Some l | _ => None end; of_to_cell _ := eq_refl |}.
#[export] Instance source_references_elem : Elem cell SourceReference :=
  {| to_cell := SourceReferences; of_cell x := match x with SourceReferences l => Some l | _ => None end; of_to_cell _ := eq_refl |}.
#[export] Instance resolved_targets_elem : Elem cell go_ResolvedTarget :=
  {| to_cell := ResolvedTargetsArr; of_cell x := match x with ResolvedTargetsArr l => Some l | _ => None end; of_to_cell _ := eq_refl |}.
#[export] Instance replication_specs_elem : Elem cell go_ReplicationSpec :=
  {| to_cell := ReplicationSpecs; of_cell x := match x with ReplicationSpecs l => Some l | _ => None end; of_to_cell _ := eq_refl |}.
#[export] Instance target_summaries_elem : Elem cell TargetSummary :=
  {| to_cell := TargetSummaries; of_cell x := match x with TargetSummaries l => Some l | _ => None end; of_to_cell _ := eq_refl |}.
#[export] Instance conditions_elem : Elem cell Condition :=
  {| to_cell := ConditionsArr; of_cell x := match x with ConditionsArr l => Some l | _ => None end; of_to_cell _ := eq_refl |}.
#[export] Instance non_ready_elem : Elem cell NonReadyTarget :=
  {| to_cell := NonReadyTargetsArr; of_cell x := match x with NonReadyTargetsArr l => Some l | _ => None end; of_to_cell _ := eq_refl |}.
#[export] Instance inventory_elem : Elem cell InventoryEntry :=
  {| to_cell := InventoryEntries; of_cell x := match x with InventoryEntries l => Some l | _ => None end; of_to_cell _ := eq_refl |}.
#[export] Instance statuses_elem : Elem cell go_ReplicationStatus :=
  {| to_cell := ReplicationStatuses; of_cell x := match x with ReplicationStatuses l => Some l | _ => None end; of_to_cell _ := eq_refl |}.
#[export] Instance replications_elem : Elem cell go_Replication :=
  {| to_cell := Replications; of_cell x := match x with Replications l => Some l | _ => None end; of_to_cell _ := eq_refl |}.
#[export] Instance replication_lists_elem : Elem cell go_ReplicationList :=
  {| to_cell := ReplicationLists; of_cell x := match x with ReplicationLists l => Some l | _ => None end; of_to_cell _ := eq_refl |}.
#[export] Instance selectors_elem : Elem cell go_LabelSelector :=
  {| to_cell := LabelSelectors; of_cell x := match x with LabelSelectors l => Some l | _ => None end; of_to_cell _ := eq_refl |}.
#[export] Instance sources_elem : Elem cell go_PolicySources :=
  {| to_cell := PolicySourcesArr; of_cell x := match x with PolicySourcesArr l => Some l | _ => None end; of_to_cell _ := eq_refl |}.
#[export] Instance targets_elem : Elem cell go_PolicyTargets :=
  {| to_cell := PolicyTargetsArr; of_cell x := match x with PolicyTargetsArr l => Some l | _ => None end; of_to_cell _ := eq_refl |}.
#[export] Instance options_elem : Elem cell go_PolicyOptions :=
  {| to_cell := PolicyOptionsArr; of_cell x := match x with PolicyOptionsArr l => Some l | _ => None end; of_to_cell _ := eq_refl |}.
#[export] Instance policy_specs_elem : Elem cell go_ReplicationPolicySpec :=
  {| to_cell := ReplicationPolicySpecs; of_cell x := match x with ReplicationPolicySpecs l => Some l | _ => None end; of_to_cell _ := eq_refl |}.
#[export] Instance policies_elem : Elem cell go_ReplicationPolicy :=
  {| to_cell := ReplicationPolicies; of_cell x := match x with ReplicationPolicies l => Some l | _ => None end; of_to_cell _ := eq_refl |}.
#[export] Instance policy_lists_elem : Elem cell go_ReplicationPolicyList :=
  {| to_cell := ReplicationPolicyLists; of_cell x := match x with ReplicationPolicyLists l => Some l | _ => None end; of_to_cell _ := eq_refl |}.
#[export] Instance label_maps_elem : Elem cell (gmap string string) :=
  {| to_cell := LabelMaps; of_cell x := match x with LabelMaps l => Some l | _ => None end; of_to_cell _ := eq_refl |}.
End arrays.

(** ** What the structs stand for *)

(** The values of the metadata types, and the copies that apimachinery defines on
    them, on [metav1.Time] and on [metav1.Condition]. *)
Class MetaCopies `{MetaV1} := {
  ObjectMetaValue : Type;
  ListMetaValue : Type;
  #[global] objectmeta_type :: GoType cell ObjectMeta ObjectMetaValue;
  #[global] listmeta_type :: GoType cell ListMeta ListMetaValue;
  #[global] labelselector_type :: GoType cell go_LabelSelector LabelSelector;
  ObjectMeta_DeepCopyInto : ObjectMeta → SM store ObjectMeta;
  ListMeta_DeepCopyInto : ListMeta → SM store ListMeta;
  LabelSelector_DeepCopyInto : go_LabelSelector → SM store go_LabelSelector;
  Time_DeepCopyInto : Z → SM store Z;
  Condition_DeepCopyInto : Condition → SM store Condition;
}.

Section values.
Context `{MetaCopies}.

#[export] Instance string_type : GoType cell string string := plain string.
#[export] Instance bool_type : GoType cell bool bool := plain bool.
#[export] Instance int_type : GoType cell Z Z := plain Z.
#[export] Instance typemeta_type : GoType cell TypeMeta TypeMeta := plain TypeMeta.
#[export] Instance sourcereference_type : GoType cell SourceReference SourceReference :=
  plain SourceReference.
#[export] Instance targetsummary_type : GoType cell TargetSummary TargetSummary :=
  plain TargetSummary.
#[export] Instance condition_type : GoType cell Condition Condition := plain Condition.
#[export] Instance inventoryentry_type : GoType cell InventoryEntry InventoryEntry :=
  plain InventoryEntry.

#[export] Instance labelmap_type : GoType cell (gmap string string) (gmap string string) :=
  plain (gmap string string).
#[export] Instance credentialref_type : GoType cell CredentialRef CredentialRef :=
  plain CredentialRef.

(** Structs as the products of their fields. *)
Definition nrt_fields (t : NonReadyTarget) :=
  (nr_ClusterName t, nr_Namespace t, nr_Name t, nr_Reason t, nr_Message t, nr_LastTransitionTime t).
Definition nrt_struct '(c, ns, n, r, m, t) := Build_NonReadyTarget c ns n r m t.
#[export] Instance nonreadytarget_type : GoType cell NonReadyTarget NonReadyTarget :=
  via nrt_fields nrt_struct.

Definition rt_fields (t : go_ResolvedTarget) :=
  (rt_ClusterName' t, rt_Namespaces' t, rt_TargetName' t).
Definition rt_struct '(c, ns, n) := Build_go_ResolvedTarget c ns n.
Definition rt_value : Type := string * option (list string) * string.
#[export] Instance resolvedtarget_type : GoType cell go_ResolvedTarget rt_value := via rt_fields id.

Definition rs_fields (t : go_ReplicationSpec) := (SourceRef' t, Origin' t, ResolvedTargets' t).
Definition rs_struct '(r, o, ts) := Build_go_ReplicationSpec r o ts.
Definition rs_value : Type := SourceReference * string * option (list rt_value).
#[export] Instance replicationspec_type : GoType cell go_ReplicationSpec rs_value := via rs_fields id.

Definition st_fields (t : go_ReplicationStatus) :=
  (Summary' t, SourceHash' t, Conditions' t, NonReadyTargets' t, NonReadyOverflow' t, Inventory' t).
Definition st_struct '(a, b, c, d, e, f) := Build_go_ReplicationStatus a b c d e f.
Definition st_value : Type :=
  TargetSummary * string * option (list Condition) * option (list NonReadyTarget) * Z
  * option (list InventoryEntry).
#[export] Instance replicationstatus_type : GoType cell go_ReplicationStatus st_value :=
  via st_fields id.

Definition rep_fields (t : go_Replication) :=
  (rep_TypeMeta t, rep_ObjectMeta t, rep_Spec' t, rep_Status' t).
Definition rep_struct '(tm, om, sp, st) := Build_go_Replication tm om sp st.
Definition rep_value : Type := TypeMeta * ObjectMetaValue * rs_value * st_value.
#[export] Instance replication_type : GoType cell go_Replication rep_value := via rep_fields id.

Definition reps_fields (t : go_ReplicationList) := (reps_TypeMeta t, reps_ListMeta t, reps_Items t).
Definition reps_struct '(tm, lm, ts) := Build_go_ReplicationList tm lm ts.
Definition reps_value : Type := TypeMeta * ListMetaValue * option (list rep_value).
#[export] Instance replicationlist_type : GoType cell go_ReplicationList reps_value :=
  via reps_fields id.

Definition po_fields (t : go_PolicyOptions) :=
  (AllowNamespaceCreation' t, AllowedConflictPolicies' t, RevocationPolicy' t).
Definition po_struct '(a, b, c) := Build_go_PolicyOptions a b c.
Definition po_value : Type := bool * option (list string) * string.
#[export] Instance policyoptions_type : GoType cell go_PolicyOptions po_value := via po_fields id.

Definition ps_fields (t : go_PolicySources) :=
  (src_Namespaces' t, src_NamespaceSelector' t, src_Kinds' t).
Definition ps_struct '(a, b, c) := Build_go_PolicySources a b c.
Definition ps_value : Type := option (list string) * option LabelSelector * option (list string).
#[export] Instance policysources_type : GoType cell go_PolicySources ps_value := via ps_fields id.

Definition pt_fields (t : go_PolicyTargets) := (tgt_ClusterSelector' t, tgt_Namespaces' t).
Definition pt_struct '(a, b) := Build_go_PolicyTargets a b.
Definition pt_value : Type := LabelSelector * option (list string).
#[export] Instance policytargets_type : GoType cell go_PolicyTargets pt_value := via pt_fields id.

Definition sp_fields (t : go_ReplicationPolicySpec) := (Sources' t, Targets' t, Options' t).
Definition sp_struct '(a, b, c) := Build_go_ReplicationPolicySpec a b c.
Definition sp_value : Type := ps_value * pt_value * po_value.
#[export] Instance policyspec_type : GoType cell go_ReplicationPolicySpec sp_value := via sp_fields id.

Definition pol_fields (t : go_ReplicationPolicy) := (pol_TypeMeta t, pol_ObjectMeta t, pol_Spec' t).
Definition pol_struct '(tm, om, sp) := Build_go_ReplicationPolicy tm om sp.
Definition pol_value : Type := TypeMeta * ObjectMetaValue * sp_value.
#[export] Instance policy_type : GoType cell go_ReplicationPolicy pol_value := via pol_fields id.

Definition pols_fields (t : go_ReplicationPolicyList) :=
  (pols_TypeMeta t, pols_ListMeta t, pols_Items t).
Definition pols_struct '(tm, lm, ts) := Build_go_ReplicationPolicyList tm lm ts.
Definition pols_value : Type := TypeMeta * ListMetaValue * option (list pol_value).
#[export] Instance policylist_type : GoType cell go_ReplicationPolicyList pols_value :=
  via pols_fields id.

Definition cl_fields (r : go_ClusterRecord) :=
  (cl_Name' r, cl_Labels' r, cl_Ready' r, cl_CredentialRef' r).
Definition cl_struct '(n, ls, b, c) := Build_go_ClusterRecord n ls b c.
Definition cl_value : Type := string * option (gmap string string) * bool * CredentialRef.
#[export] Instance clusterrecord_type : GoType cell go_ClusterRecord cl_value := via cl_fields id.

(** The data of Api and Discovery, which do not tell nil from empty. *)
Definition ResolvedTarget_of : rt_value → ResolvedTarget :=
  λ '(c, ns, n), Build_ResolvedTarget c (default [] ns) n.
Definition ReplicationSpec_of : rs_value → ReplicationSpec :=
  λ '(r, o, ts), Build_ReplicationSpec r o (ResolvedTarget_of <$> default [] ts).
Definition ReplicationStatus_of : st_value → ReplicationStatus :=
  λ '(a, b, c, d, e, f),
    Build_ReplicationStatus a b (default [] c) (default [] d) e (default [] f).
Definition ReplicationPolicySpec_of : sp_value → ReplicationPolicySpec :=
  λ '((ns, sel, ks), (cs, tns), (b, ps, rev)),
    Build_ReplicationPolicySpec (Build_PolicySources (default [] ns) sel (default [] ks))
      (Build_PolicyTargets cs (default [] tns)) (Build_PolicyOptions b (default [] ps) rev).
Definition ClusterRecord_of : cl_value → ClusterRecord :=
  λ '(n, ls, b, c), Build_ClusterRecord n (default ∅ ls) b c.
End values.

(** ** zz_generated.deepcopy.go

    [DeepCopyInto in out] starts with [*out = *in] and then replaces the fields that
    refer to memory; here it takes [*in] and gives the [*out] it leaves. [make] and
    [copy] are [copy_slice mret]; [make] and the loop of [DeepCopyInto] is
    [copy_slice] of that [DeepCopyInto]. The addresses of the arrays a call makes are
    fresh; which of them comes first does not show. *)

Section copies.
Context `{MetaCopies}.
#[local] Notation M := (SM store).

Definition InventoryEntry_DeepCopyInto (i : InventoryEntry) : M InventoryEntry := mret i.
Definition InventoryEntry_DeepCopy : Ptr InventoryEntry → M (Ptr InventoryEntry) :=
  copy_ptr InventoryEntry_DeepCopyInto.

Definition NonReadyTarget_DeepCopyInto (i : NonReadyTarget) : M NonReadyTarget :=
  t ← Time_DeepCopyInto (nr_LastTransitionTime i);
  mret {| nr_ClusterName := nr_ClusterName i; nr_Namespace := nr_Namespace i; nr_Name := nr_Name i;
          nr_Reason := nr_Reason i; nr_Message := nr_Message i; nr_LastTransitionTime := t |}.
Definition NonReadyTarget_DeepCopy : Ptr NonReadyTarget → M (Ptr NonReadyTarget) :=
  copy_ptr NonReadyTarget_DeepCopyInto.

Definition PolicyOptions_DeepCopyInto (i : go_PolicyOptions) : M go_PolicyOptions :=
  ps ← copy_slice mret (AllowedConflictPolicies' i);
  mret {| AllowNamespaceCreation' := AllowNamespaceCreation' i; AllowedConflictPolicies' := ps;
          RevocationPolicy' := RevocationPolicy' i |}.
Definition PolicyOptions_DeepCopy : Ptr go_PolicyOptions → M (Ptr go_PolicyOptions) :=
  copy_ptr PolicyOptions_DeepCopyInto.

Definition PolicySources_DeepCopyInto (i : go_PolicySources) : M go_PolicySources :=
  ns ← copy_slice mret (src_Namespaces' i);
  sel ← copy_ptr LabelSelector_DeepCopyInto (src_NamespaceSelector' i);
  ks ← copy_slice mret (src_Kinds' i);
  mret {| src_Namespaces' := ns; src_NamespaceSelector' := sel; src_Kinds' := ks |}.
Definition PolicySources_DeepCopy : Ptr go_PolicySources → M (Ptr go_PolicySources) :=
  copy_ptr PolicySources_DeepCopyInto.

Definition PolicyTargets_DeepCopyInto (i : go_PolicyTargets) : M go_PolicyTargets :=
  sel ← LabelSelector_DeepCopyInto (tgt_ClusterSelector' i);
  ns ← copy_slice mret (tgt_Namespaces' i);
  mret {| tgt_ClusterSelector' := sel; tgt_Namespaces' := ns |}.
Definition PolicyTargets_DeepCopy : Ptr go_PolicyTargets → M (Ptr go_PolicyTargets) :=
  copy_ptr PolicyTargets_DeepCopyInto.

Definition ReplicationPolicySpec_DeepCopyInto (i : go_ReplicationPolicySpec)
    : M go_ReplicationPolicySpec :=
  src ← PolicySources_DeepCopyInto (Sources' i);
  tgt ← PolicyTargets_DeepCopyInto (Targets' i);
  opt ← PolicyOptions_DeepCopyInto (Options' i);
  mret {| Sources' := src; Targets' := tgt; Options' := opt |}.
Definition ReplicationPolicySpec_DeepCopy :
    Ptr go_ReplicationPolicySpec → M (Ptr go_ReplicationPolicySpec) :=
  copy_ptr ReplicationPolicySpec_DeepCopyInto.

Definition ReplicationPolicy_DeepCopyInto (i : go_ReplicationPolicy) : M go_ReplicationPolicy :=
  om ← ObjectMeta_DeepCopyInto (pol_ObjectMeta i);
  sp ← ReplicationPolicySpec_DeepCopyInto (pol_Spec' i);
  mret {| pol_TypeMeta := pol_TypeMeta i; pol_ObjectMeta := om; pol_Spec' := sp |}.
Definition ReplicationPolicy_DeepCopy : Ptr go_ReplicationPolicy → M (Ptr go_ReplicationPolicy) :=
  copy_ptr ReplicationPolicy_DeepCopyInto.

Definition ReplicationPolicyList_DeepCopyInto (i : go_ReplicationPolicyList)
    : M go_ReplicationPolicyList :=
  lm ← ListMeta_DeepCopyInto (pols_ListMeta i);
  items ← copy_slice ReplicationPolicy_DeepCopyInto (pols_Items i);
  mret {| pols_TypeMeta := pols_TypeMeta i; pols_ListMeta := lm; pols_Items := items |}.
Definition ReplicationPolicyList_DeepCopy :
    Ptr go_ReplicationPolicyList → M (Ptr go_ReplicationPolicyList) :=
  copy_ptr ReplicationPolicyList_DeepCopyInto.

Definition SourceReference_DeepCopyInto (i : SourceReference) : M SourceReference := mret i.
Definition SourceReference_DeepCopy : Ptr SourceReference → M (Ptr SourceReference) :=
  copy_ptr SourceReference_DeepCopyInto.

Definition TargetSummary_DeepCopyInto (i : TargetSummary) : M TargetSummary := mret i.
Definition TargetSummary_DeepCopy : Ptr TargetSummary → M (Ptr TargetSummary) :=
  copy_ptr TargetSummary_DeepCopyInto.

Definition ResolvedTarget_DeepCopyInto (i : go_ResolvedTarget) : M go_ResolvedTarget :=
  ns ← copy_slice mret (rt_Namespaces' i);
  mret {| rt_ClusterName' := rt_ClusterName' i; rt_Namespaces' := ns;
          rt_TargetName' := rt_TargetName' i |}.
Definition ResolvedTarget_DeepCopy : Ptr go_ResolvedTarget → M (Ptr go_ResolvedTarget) :=
  copy_ptr ResolvedTarget_DeepCopyInto.

Definition ReplicationSpec_DeepCopyInto (i : go_ReplicationSpec) : M go_ReplicationSpec :=
  ts ← copy_slice ResolvedTarget_DeepCopyInto (ResolvedTargets' i);
  mret {| SourceRef' := SourceRef' i; Origin' := Origin' i; ResolvedTargets' := ts |}.
Definition ReplicationSpec_DeepCopy : Ptr go_ReplicationSpec → M (Ptr go_ReplicationSpec) :=
  copy_ptr ReplicationSpec_DeepCopyInto.

Definition ReplicationStatus_DeepCopyInto (i : go_ReplicationStatus) : M go_ReplicationStatus :=
  cs ← copy_slice Condition_DeepCopyInto (Conditions' i);
  nrs ← copy_slice NonReadyTarget_DeepCopyInto (NonReadyTargets' i);
  inv ← copy_slice mret (Inventory' i);
  mret {| Summary' := Summary' i; SourceHash' := SourceHash' i; Conditions' := cs;
          NonReadyTargets' := nrs; NonReadyOverflow' := NonReadyOverflow' i; Inventory' := inv |}.
Definition ReplicationStatus_DeepCopy : Ptr go_ReplicationStatus → M (Ptr go_ReplicationStatus) :=
  copy_ptr ReplicationStatus_DeepCopyInto.

Definition Replication_DeepCopyInto (i : go_Replication) : M go_Replication :=
  om ← ObjectMeta_DeepCopyInto (rep_ObjectMeta i);
  sp ← ReplicationSpec_DeepCopyInto (rep_Spec' i);
  st ← ReplicationStatus_DeepCopyInto (rep_Status' i);
  mret {| rep_TypeMeta := rep_TypeMeta i; rep_ObjectMeta := om; rep_Spec' := sp; rep_Status' := st |}.
Definition Replication_DeepCopy : Ptr go_Replication → M (Ptr go_Replication) :=
  copy_ptr Replication_DeepCopyInto.

Definition ReplicationList_DeepCopyInto (i : go_ReplicationList) : M go_ReplicationList :=
  lm ← ListMeta_DeepCopyInto (reps_ListMeta i);
  items ← copy_slice Replication_DeepCopyInto (reps_Items i);
  mret {| reps_TypeMeta := reps_TypeMeta i; reps_ListMeta := lm; reps_Items := items |}.
Definition ReplicationList_DeepCopy : Ptr go_ReplicationList → M (Ptr go_ReplicationList) :=
  copy_ptr ReplicationList_DeepCopyInto.

(** [ClusterRecord.Clone]; the map is made and filled with [maps.Copy]. *)
Definition ClusterRecord_Clone (r : go_ClusterRecord) : M go_ClusterRecord :=
  ls ← copy_ptr mret (cl_Labels' r);
  mret {| cl_Name' := cl_Name' r; cl_Labels' := ls; cl_Ready' := cl_Ready' r;
          cl_CredentialRef' := cl_CredentialRef' r |}.

(** A [runtime.Object] of this group: the interface holds a pointer, or is nil. A
    non-nil interface can hold a nil pointer. *)
Inductive Object :=
  | ReplicationObj (p : Ptr go_Replication)
  | ReplicationListObj (p : Ptr go_ReplicationList)
  | ReplicationPolicyObj (p : Ptr go_ReplicationPolicy)
  | ReplicationPolicyListObj (p : Ptr go_ReplicationPolicyList).

(** [if c := in.DeepCopy(); c != nil { return c }; return nil] *)
Definition as_object {A} (obj : Ptr A → Object) (c : Ptr A) : option Object :=
  match c with Some _ => Some (obj c) | None => None end.

Definition Replication_DeepCopyObject (i : Ptr go_Replication) : M (option Object) :=
  c ← Replication_DeepCopy i; mret (as_object ReplicationObj c).
Definition ReplicationList_DeepCopyObject (i : Ptr go_ReplicationList) : M (option Object) :=
  c ← ReplicationList_DeepCopy i; mret (as_object ReplicationListObj c).
Definition ReplicationPolicy_DeepCopyObject (i : Ptr go_ReplicationPolicy) : M (option Object) :=
  c ← ReplicationPolicy_DeepCopy i; mret (as_object ReplicationPolicyObj c).
Definition ReplicationPolicyList_DeepCopyObject (i : Ptr go_ReplicationPolicyList)
    : M (option Object) :=
  c ← ReplicationPolicyList_DeepCopy i; mret (as_object ReplicationPolicyListObj c).

(** [obj.DeepCopyObject()] through the interface. *)
Definition DeepCopyObject (o : Object) : M (option Object) :=
  match o with
  | ReplicationObj p => Replication_DeepCopyObject p
  | ReplicationListObj p => ReplicationList_DeepCopyObject p
  | ReplicationPolicyObj p => ReplicationPolicy_DeepCopyObject p
  | ReplicationPolicyListObj p => ReplicationPolicyList_DeepCopyObject p
  end.
End copies.

(** ** Laws *)

(** What apimachinery promises of its types: they live in memory like the others,
    and their [DeepCopyInto] is deep. *)
Class MetaCopyLaws `{MetaCopies} : Prop := {
  #[global] objectmeta_laws :: GoLaws cell ObjectMeta ObjectMetaValue;
  #[global] listmeta_laws :: GoLaws cell ListMeta ListMetaValue;
  #[global] labelselector_laws :: GoLaws cell go_LabelSelector LabelSelector;
  ObjectMeta_deep : deep ObjectMeta_DeepCopyInto;
  ListMeta_deep : deep ListMeta_DeepCopyInto;
  LabelSelector_deep : deep LabelSelector_DeepCopyInto;
  Time_deep : deep Time_DeepCopyInto;
  Condition_deep : deep Condition_DeepCopyInto;
}.

(** A copy by its shape: assignments, products, slices and pointers. *)
Ltac deep_tac :=
  repeat first
    [ assumption | apply deep_slice | apply deep_ptr | apply deep_pair | apply deep_plain
    | apply Time_deep | apply Condition_deep | apply ObjectMeta_deep | apply ListMeta_deep
    | apply LabelSelector_deep ].

Ltac head_of t := match t with ?f _ => head_of f | _ => t end.

(** A struct: its fields are copied in turn, some by assignment. *)
Tactic Notation "deep_struct" uconstr(f) uconstr(g) uconstr(cp) :=
  eapply (deep_via f g _ cp);
  [ by intros; repeat match goal with x : _ * _ |- _ => destruct x end
  | intros [] ?; match goal with |- ?t = _ => let h := head_of t in unfold h end;
    unfold store, copy_pair, mbind, SM_bind, mret, SM_ret; cbn;
    repeat (case_match; simplify_eq; cbn); done
  | deep_tac ].

Section deepness.
Context `{MetaCopyLaws}.

#[export] Instance string_laws : GoLaws cell string string := plain_laws _.
#[export] Instance bool_laws : GoLaws cell bool bool := plain_laws _.
#[export] Instance int_laws : GoLaws cell Z Z := plain_laws _.
#[export] Instance typemeta_laws : GoLaws cell TypeMeta TypeMeta := plain_laws _.
#[export] Instance sourcereference_laws : GoLaws cell SourceReference _ := plain_laws _.
#[export] Instance targetsummary_laws : GoLaws cell TargetSummary _ := plain_laws _.
#[export] Instance condition_laws : GoLaws cell Condition _ := plain_laws _.
#[export] Instance inventoryentry_laws : GoLaws cell InventoryEntry _ := plain_laws _.
#[export] Instance labelmap_laws : GoLaws cell (gmap string string) _ := plain_laws _.
#[export] Instance credentialref_laws : GoLaws cell CredentialRef _ := plain_laws _.
#[export] Instance clusterrecord_laws : GoLaws cell go_ClusterRecord _ := via_laws _ _.
#[export] Instance nonreadytarget_laws : GoLaws cell NonReadyTarget _ := via_laws _ _.
#[export] Instance resolvedtarget_laws : GoLaws cell go_ResolvedTarget _ := via_laws _ _.
#[export] Instance replicationspec_laws : GoLaws cell go_ReplicationSpec _ := via_laws _ _.
#[export] Instance replicationstatus_laws : GoLaws cell go_ReplicationStatus _ := via_laws _ _.
#[export] Instance replication_laws : GoLaws cell go_Replication _ := via_laws _ _.
#[export] Instance replicationlist_laws : GoLaws cell go_ReplicationList _ := via_laws _ _.
#[export] Instance policyoptions_laws : GoLaws cell go_PolicyOptions _ := via_laws _ _.
#[export] Instance policysources_laws : GoLaws cell go_PolicySources _ := via_laws _ _.
#[export] Instance policytargets_laws : GoLaws cell go_PolicyTargets _ := via_laws _ _.
#[export] Instance policyspec_laws : GoLaws cell go_ReplicationPolicySpec _ := via_laws _ _.
#[export] Instance policy_laws : GoLaws cell go_ReplicationPolicy _ := via_laws _ _.
#[export] Instance policylist_laws : GoLaws cell go_ReplicationPolicyList _ := via_laws _ _.

#[local] Notation assign := (mret : _ → SM store _) (only parsing).
#[local] Infix "⊗" := copy_pair (at level 40, left associativity).

Lemma ResolvedTarget_deep : deep ResolvedTarget_DeepCopyInto.
Proof. deep_struct rt_fields rt_struct (assign ⊗ copy_slice assign ⊗ assign). Qed.

Lemma ReplicationSpec_deep : deep ReplicationSpec_DeepCopyInto.
Proof.
  pose proof ResolvedTarget_deep.
  deep_struct rs_fields rs_struct (assign ⊗ assign ⊗ copy_slice ResolvedTarget_DeepCopyInto).
Qed.

Lemma NonReadyTarget_deep : deep NonReadyTarget_DeepCopyInto.
Proof.
  deep_struct nrt_fields nrt_struct
    (assign ⊗ assign ⊗ assign ⊗ assign ⊗ assign ⊗ Time_DeepCopyInto).
Qed.

Lemma ReplicationStatus_deep : deep ReplicationStatus_DeepCopyInto.
Proof.
  pose proof NonReadyTarget_deep.
  deep_struct st_fields st_struct
    (assign ⊗ assign ⊗ copy_slice Condition_DeepCopyInto ⊗ copy_slice NonReadyTarget_DeepCopyInto
     ⊗ assign ⊗ copy_slice assign).
Qed.

Lemma Replication_deep : deep Replication_DeepCopyInto.
Proof.
  pose proof ReplicationSpec_deep. pose proof ReplicationStatus_deep.
  deep_struct rep_fields rep_struct
    (assign ⊗ ObjectMeta_DeepCopyInto ⊗ ReplicationSpec_DeepCopyInto
     ⊗ ReplicationStatus_DeepCopyInto).
Qed.

Lemma ReplicationList_deep : deep ReplicationList_DeepCopyInto.
Proof.
  pose proof Replication_deep.
  deep_struct reps_fields reps_struct
    (assign ⊗ ListMeta_DeepCopyInto ⊗ copy_slice Replication_DeepCopyInto).
Qed.

Lemma PolicyOptions_deep : deep PolicyOptions_DeepCopyInto.
Proof. deep_struct po_fields po_struct (assign ⊗ copy_slice assign ⊗ assign). Qed.

Lemma PolicySources_deep : deep PolicySources_DeepCopyInto.
Proof.
  deep_struct ps_fields ps_struct
    (copy_slice assign ⊗ copy_ptr LabelSelector_DeepCopyInto ⊗ copy_slice assign).
Qed.

Lemma PolicyTargets_deep : deep PolicyTargets_DeepCopyInto.
Proof. deep_struct pt_fields pt_struct (LabelSelector_DeepCopyInto ⊗ copy_slice assign). Qed.

Lemma ReplicationPolicySpec_deep : deep ReplicationPolicySpec_DeepCopyInto.
Proof.
  pose proof PolicySources_deep. pose proof PolicyTargets_deep. pose proof PolicyOptions_deep.
  deep_struct sp_fields sp_struct
    (PolicySources_DeepCopyInto ⊗ PolicyTargets_DeepCopyInto ⊗ PolicyOptions_DeepCopyInto).
Qed.

Lemma ReplicationPolicy_deep : deep ReplicationPolicy_DeepCopyInto.
Proof.
  pose proof ReplicationPolicySpec_deep.
  deep_struct pol_fields pol_struct
    (assign ⊗ ObjectMeta_DeepCopyInto ⊗ ReplicationPolicySpec_DeepCopyInto).
Qed.

Lemma ReplicationPolicyList_deep : deep ReplicationPolicyList_DeepCopyInto.
Proof.
  pose proof ReplicationPolicy_deep.
  deep_struct pols_fields pols_struct
    (assign ⊗ ListMeta_DeepCopyInto ⊗ copy_slice ReplicationPolicy_DeepCopyInto).
Qed.

Lemma ClusterRecord_deep : deep ClusterRecord_Clone.
Proof. deep_struct cl_fields cl_struct (assign ⊗ copy_ptr assign ⊗ assign ⊗ assign). Qed.

(** Through the interface: nil stays the nil interface, and another object gives a
    non-nil interface on a copy of the same type that reads the same. *)
Definition object_copy {A V} `{Elem cell A} `{GoType cell A V} (obj : Ptr A → Object)
    (cp : Ptr A → SM store (option Object)) : Prop :=
  (∀ s, cp None s = (None, s)) ∧
  ∀ s p v, reads s (Some p : Ptr A) = Some v →
    ∃ c, (cp (Some p) s).1 = Some (obj (Some c)) ∧ reads (cp (Some p) s).2 (Some c : Ptr A) = Some v.

Lemma as_object_copy {A V} `{Elem cell A} `{GoLaws cell A V} obj (cp : A → SM store A) :
  deep cp → object_copy obj (λ i, c ← copy_ptr cp i; mret (as_object obj c)).
Proof.
  intros Hd%deep_ptr. split; [done|]. intros s p v Hr. specialize (Hd s _ v Hr) as (_ & Hr' & _).
  unfold mbind, SM_bind, store in *. destruct (copy_ptr cp (Some p) s) as [[c|] s'] eqn:Hc; simpl in *.
  - by exists c.
  - injection Hr' as <-. by apply bind_Some in Hr as (? & _ & (? & _ & [=])%fmap_Some).
Qed.

Lemma deep_copy_isolated {A V} `{Elem cell A} `{GoLaws cell A V} (cp : A → SM store A) :
  deep cp → isolated (copy_ptr cp).
Proof. intros. by apply deep_isolated, deep_ptr. Qed.

(** The structs of the package. *)
#[local] Ltac struct_deep :=
  first [ apply ResolvedTarget_deep | apply ReplicationSpec_deep | apply NonReadyTarget_deep
        | apply ReplicationStatus_deep | apply Replication_deep | apply ReplicationList_deep
        | apply PolicyOptions_deep | apply PolicySources_deep | apply PolicyTargets_deep
        | apply ReplicationPolicySpec_deep | apply ReplicationPolicy_deep
        | apply ReplicationPolicyList_deep | apply deep_plain ].

(** C29. Every generated [DeepCopy], and [Clone], is deep: the copy reads as the
    original did, nothing that was there is written, copy and original share no
    memory, and so no later write through the one shows in the other; a nil pointer,
    slice or map is copied to nil. Through [runtime.Object] the copy has the
    original's type, and nil is the nil interface. *)
Theorem deep_copies_are_isolated :
  (isolated InventoryEntry_DeepCopy ∧ isolated NonReadyTarget_DeepCopy ∧
   isolated SourceReference_DeepCopy ∧ isolated TargetSummary_DeepCopy ∧
   isolated ResolvedTarget_DeepCopy ∧ isolated ReplicationSpec_DeepCopy ∧
   isolated ReplicationStatus_DeepCopy ∧ isolated Replication_DeepCopy ∧
   isolated ReplicationList_DeepCopy) ∧
  (isolated PolicyOptions_DeepCopy ∧ isolated PolicySources_DeepCopy ∧
   isolated PolicyTargets_DeepCopy ∧ isolated ReplicationPolicySpec_DeepCopy ∧
   isolated ReplicationPolicy_DeepCopy ∧ isolated ReplicationPolicyList_DeepCopy) ∧
  object_copy ReplicationObj (λ p, DeepCopyObject (ReplicationObj p)) ∧
  object_copy ReplicationListObj (λ p, DeepCopyObject (ReplicationListObj p)) ∧
  object_copy ReplicationPolicyObj (λ p, DeepCopyObject (ReplicationPolicyObj p)) ∧
  object_copy ReplicationPolicyListObj (λ p, DeepCopyObject (ReplicationPolicyListObj p)) ∧
  isolated ClusterRecord_Clone.
Proof.
  split_and!; [..|apply deep_isolated, ClusterRecord_deep];
    first [apply deep_copy_isolated | apply as_object_copy]; struct_deep.
Qed.
End deepness.

(** ** groupversion_info.go *)

Section scheme.
Context `{MetaV1}.
#[local] Open Scope string_scope.

Definition GroupVersion : string * string := ("r8r.io", "v1alpha1").

(** [objectTypes] by the names of the Go types, which [AddKnownTypes] takes as
    kinds: the [init] functions run in the order of their files. *)
Definition init_replication (types : list string) : list string :=
  types ++ ["Replication"; "ReplicationList"].
Definition init_replicationpolicy (types : list string) : list string :=
  types ++ ["ReplicationPolicy"; "ReplicationPolicyList"].
Definition objectTypes : list string := init_replicationpolicy (init_replication []).

(** The kinds that [AddToScheme] adds to a scheme with [AddKnownTypes]; the
    option types of [metav1.AddToGroupVersion] come on top. *)
Definition AddToScheme (known : list GroupVersionKind) : list GroupVersionKind :=
  known ++ ((λ k, {| gvk_Group := GroupVersion.1; gvk_Version := GroupVersion.2; gvk_Kind := k |})
            <$> objectTypes).

Definition type_name (o : Object) : string :=
  match o with
  | ReplicationObj _ => "Replication"
  | ReplicationListObj _ => "ReplicationList"
  | ReplicationPolicyObj _ => "ReplicationPolicy"
  | ReplicationPolicyListObj _ => "ReplicationPolicyList"
  end.

(** Every object of the group is registered, each kind once. *)
Lemma objects_registered known o :
  {| gvk_Group := GroupVersion.1; gvk_Version := GroupVersion.2; gvk_Kind := type_name o |}
    ∈ AddToScheme known ∧ NoDup objectTypes.
Proof.
  split; [|by apply (bool_decide_unpack (NoDup objectTypes)); vm_compute].
  apply elem_of_app. right. apply list_elem_of_fmap. exists (type_name o). split; [done|].
  destruct o; set_solver.
Qed.
End scheme.

(** ** One choice of the metadata types *)

Module Concrete.
(** A name and the finalizers; a resource version; the labels behind a map
    reference, and the requirements. *)
Record requirement := { Key' : string; Operator' : string; Values' : Slice string }.
Record selector := { MatchLabels' : Ptr (gmap string string); Requirements' : Slice requirement }.
Inductive arrays := Requirements (l : list requirement).

#[local] Instance meta : MetaV1 :=
  {| ObjectMeta := string * Slice string; ListMeta := string; go_LabelSelector := selector;
     MetaArray := arrays |}.

#[local] Instance requirements_elem : Elem cell requirement :=
  {| to_cell l := MetaArrays (Requirements l);
     of_cell x := match x with MetaArrays (Requirements l) => Some l | _ => None end;
     of_to_cell _ := eq_refl |}.

#[local] Instance str : GoType cell string string := plain string.
#[local] Instance labels : GoType cell (gmap string string) (gmap string string) := plain _.
#[local] Instance requirement_type : GoType cell requirement LabelSelectorRequirement :=
  via (λ r, (Key' r, Operator' r, Values' r)) (λ '(k, o, v), Build_LabelSelectorRequirement k o (default [] v)).
#[local] Instance selector_type : GoType cell selector LabelSelector :=
  via (λ x, (MatchLabels' x, Requirements' x)) (λ '(m, rs), Build_LabelSelector (default ∅ m) (default [] rs)).
#[local] Instance str_laws : GoLaws cell string string := plain_laws _.
#[local] Instance map_laws : GoLaws cell (gmap string string) _ := plain_laws _.
#[local] Instance requirement_laws : GoLaws cell requirement _ := via_laws _ _.
#[local] Instance selector_laws : GoLaws cell selector _ := via_laws _ _.

Definition copy_requirement (r : requirement) : SM store requirement :=
  vs ← copy_slice mret (Values' r);
  mret {| Key' := Key' r; Operator' := Operator' r; Values' := vs |}.
Definition copy_selector (x : selector) : SM store selector :=
  m ← copy_ptr mret (MatchLabels' x); rs ← copy_slice copy_requirement (Requirements' x);
  mret {| MatchLabels' := m; Requirements' := rs |}.

#[local] Instance copies : MetaCopies :=
  {| ObjectMetaValue := string * option (list string); ListMetaValue := string;
     ObjectMeta_DeepCopyInto := copy_pair (A := string) (B := Slice string) mret (copy_slice mret);
     ListMeta_DeepCopyInto := mret; LabelSelector_DeepCopyInto := copy_selector;
     Time_DeepCopyInto := mret; Condition_DeepCopyInto := mret |}.

Lemma requirement_deep : deep copy_requirement.
Proof.
  deep_struct (λ r, (Key' r, Operator' r, Values' r)) (λ '(k, o, v), Build_requirement k o v)
    (copy_pair (copy_pair mret mret) (copy_slice mret)).
Qed.

Lemma selector_deep : deep copy_selector.
Proof.
  pose proof requirement_deep.
  deep_struct (λ x, (MatchLabels' x, Requirements' x)) (λ '(m, rs), Build_selector m rs)
    (copy_pair (copy_ptr mret) (copy_slice copy_requirement)).
Qed.

#[local] Instance laws : MetaCopyLaws.
Proof.
  split; simpl; try apply _; try apply deep_plain; try apply selector_deep.
  deep_tac.
Qed.

#[local] Open Scope string_scope.

Definition whole {A} (n len : nat) : Slice A := Some {| s_arr := n; s_off := 0; s_len := len |}.

(** A replication with two targets that share an array of namespaces. *)
Definition memory : store :=
  [Strings ["staging"; "prod"];
   ResolvedTargetsArr
     [{| rt_ClusterName' := "c1"; rt_Namespaces' := whole 0 2; rt_TargetName' := "" |};
      {| rt_ClusterName' := "c2"; rt_Namespaces' := whole 0 1; rt_TargetName' := "creds" |}];
   Strings ["r8r.io/cleanup"];
   Replications
     [{| rep_TypeMeta := {| tm_Kind := "Replication"; tm_APIVersion := "r8r.io/v1alpha1" |};
         rep_ObjectMeta := ("secret-creds", whole 2 1);
         rep_Spec' := {| SourceRef' := {| sr_Kind := "Secret"; sr_Namespace := "default";
                                          sr_Name := "creds"; sr_UID := "u1" |};
                         Origin' := "Annotation"; ResolvedTargets' := whole 1 2 |};
         rep_Status' := {| Summary' := {| DesiredTargets := 2; ReadyTargets := 0; FailedTargets := 0 |};
                           SourceHash' := ""; Conditions' := None; NonReadyTargets' := None;
                           NonReadyOverflow' := 0; Inventory' := None |} |}]].
Definition object : Ptr go_Replication := Some {| p_arr := 3; p_idx := 0 |}.

(** The namespaces of the target that the array is shared with. *)
Definition namespaces (s : store) (p : Ptr go_Replication) : option (list (list string)) :=
  '(_, _, sp, _) ← reads s p ≫= id; Some (rt_Namespaces <$> ResolvedTargets (ReplicationSpec_of sp)).

Lemma deep_copy_witness :
  let '(c, s) := Replication_DeepCopy object memory in
  let s' := foldl write s [(0, Strings ["changed"; "changed"])] in
  namespaces s' object = Some [["changed"; "changed"]; ["changed"]] ∧
  namespaces s' c = Some [["staging"; "prod"]; ["staging"]].
Proof.
  destruct (reads memory object) as [v|] eqn:Hr.
  2: { exfalso. assert (match reads memory object with Some _ => true | None => false end = true)
         as Ht by (vm_compute; reflexivity). by rewrite Hr in Ht. }
  destruct deep_copies_are_isolated as ((_ & _ & _ & _ & _ & _ & _ & Hi & _) & _).
  specialize (Hi memory object v Hr).
  assert (bool_decide (0 ∉ reach (Replication_DeepCopy object memory).2
                               (Replication_DeepCopy object memory).1) = true) as Hn
    by (vm_compute; reflexivity).
  assert (namespaces (foldl write (Replication_DeepCopy object memory).2
            [(0, Strings ["changed"; "changed"])]) object
          = Some [["changed"; "changed"]; ["changed"]]) as Ho by (vm_compute; reflexivity).
  assert (namespaces memory object = Some [["staging"; "prod"]; ["staging"]]) as Hm
    by (vm_compute; reflexivity).
  apply bool_decide_eq_true in Hn.
  destruct (Replication_DeepCopy object memory) as [c s]. destruct Hi as (_ & _ & _ & Hw & _).
  split; [exact Ho|]. unfold namespaces in *. rewrite Hr in Hm. rewrite Hw; [by repeat constructor|exact Hm].
Defined.
End Concrete.
