(* ===== verification/ProviderStart.v ===== *)
(** The life of the ClusterAPI provider (internal/discovery/capi/provider.go): its
    factory and options, [Subscribe], and [Start] as a state machine over what the API
    server answers, what the informer delivers, and the end of its context. *)
From S2P Require Import Prelude GoLib Api Annotations Unstructured Discovery.

#[local] Open Scope string_scope.
#[local] Open Scope list_scope.

(** ** Construction *)

Definition ProviderName : string := "cluster-api".
Definition SettingNamespace : string := "namespace".

(** [Provider]: whether it has a discovery client, the scope and resync period of its
    informer, the number of subscribed handlers, which are told apart by the order
    of their subscription, and what the informer handlers change. *)
Record Provider := {
  disco : bool;
  namespace : string;
  resync : Z;
  handlers : nat;
  state : CapiProvider;
}.

Definition Option : Type := Provider → Provider.

Definition WithNamespace (ns : string) : Option := λ p,
  {| disco := disco p; namespace := ns; resync := resync p; handlers := handlers p;
     state := state p |}.
Definition WithResync (d : Z) : Option := λ p,
  {| disco := disco p; namespace := namespace p; resync := d; handlers := handlers p;
     state := state p |}.
Definition WithDiscovery (d : bool) : Option := λ p,
  {| disco := d; namespace := namespace p; resync := resync p; handlers := handlers p;
     state := state p |}.

(** [New]. *)
Definition NewProvider (opts : list Option) : Provider :=
  foldl (λ p o, o p)
    {| disco := false; namespace := ""; resync := 10 * Minute; handlers := 0; state := capi_New |}
    opts.

(** The clients the factory builds from the hub's config: their errors. *)
Class HubClients := { dynamic_NewForConfig : option string; NewDiscoveryClientForConfig : option string }.

(** The factory that [init] registers. [hub] says whether there is a hub config. *)
Definition factory `{HubClients} (hub : bool) (settings : gmap string string) : string + Provider :=
  if negb hub then inl "capi: provider requires a hub rest config"
  else match dynamic_NewForConfig with
  | Some err => inl ("capi: building dynamic client: " +:+ err)
  | None =>
      match NewDiscoveryClientForConfig with
      | Some err => inl ("capi: building discovery client: " +:+ err)
      | None => inr (NewProvider [WithDiscovery true;
                                  WithNamespace (Setting settings SettingNamespace "")])
      end
  end.

(** ** Start *)

Inductive StartError :=
  | ErrNegotiation (e : NegotiateError)
  | ErrAddingHandler (err : string)
  | ErrNeverSynced.

(** Where [Start] is: not called; asking the API server; between two attempts; before
    [AddEventHandler]; in [WaitForCacheSync]; watching; returned. *)
Inductive phase :=
  | Unstarted | Negotiating | Waiting | Adding (v : string) | Syncing (v : string)
  | Watching (v : string) | Returned (err : option StartError).

(** [informer] is set once [factory.Start] was called, [done] is the context, and
    [sent] are the calls of handlers. *)
Record life := {
  provider : Provider;
  at_ : phase;
  informer : bool;
  done_ : bool;
  sent : list (nat * DiscoveryEvent);
}.

Inductive life_label :=
  | Subscribe
  | StartCall
  | Attempt (d : DiscoveryInterface)
  | RetryTimer
  | HandlerAdded (err : option string)
  | Notified (n : notification)
  | CacheSynced
  | SyncGivesUp
  | ContextDone
  | Stop.

Section life.
Context `{UnstructuredAPI} `{NestedAPI}.

(** [emit]: every handler is called with the event. *)
Definition emit (n : nat) (e : DiscoveryEvent) : list (nat * DiscoveryEvent) :=
  map (λ h, (h, e)) (seq 0 n).

Definition set_phase (a : phase) (s : life) : life :=
  {| provider := provider s; at_ := a; informer := informer s; done_ := done_ s; sent := sent s |}.

Definition set_state (f : CapiProvider → CapiProvider) (s : life) : life :=
  let p := provider s in
  {| provider := {| disco := disco p; namespace := namespace p; resync := resync p;
                    handlers := handlers p; state := f (state p) |};
     at_ := at_ s; informer := informer s; done_ := done_ s; sent := sent s |}.

(** One attempt of [negotiate]. *)
Definition attempt (d : option DiscoveryInterface) : phase :=
  match resolveClusterGVR d with
  | inr v => Adding v
  | inl (errUnsupportedVersions served) => Returned (Some (ErrNegotiation (errUnsupportedVersions served)))
  | inl errNoDiscoveryClient => Returned (Some (ErrNegotiation errNoDiscoveryClient))
  | inl _ => Waiting
  end.

Definition client (p : Provider) (d : DiscoveryInterface) : option DiscoveryInterface :=
  if disco p then Some d else None.

(** The informer calls [upsert] or [remove], which call the handlers. *)
Definition deliver (n : notification) (s : life) : life :=
  let '(es, st) := notify n (state (provider s)) in
  let s' := set_state (λ _, st) s in
  {| provider := provider s'; at_ := at_ s'; informer := informer s'; done_ := done_ s';
     sent := sent s' ++ flat_map (emit (handlers (provider s))) es |}.

Definition life_step (l : life_label) (s : life) : option life :=
  match l, at_ s with
  | Subscribe, _ =>
      let p := provider s in
      Some {| provider := {| disco := disco p; namespace := namespace p; resync := resync p;
                             handlers := S (handlers p); state := state p |};
              at_ := at_ s; informer := informer s; done_ := done_ s; sent := sent s |}
  | StartCall, Unstarted => Some (set_phase Negotiating s)
  | Attempt d, Negotiating => Some (set_phase (attempt (client (provider s) d)) s)
  | RetryTimer, Waiting => Some (set_phase Negotiating s)
  | HandlerAdded err, Adding v =>
      match err with
      | Some err => Some (set_phase (Returned (Some (ErrAddingHandler err))) s)
      | None => Some {| provider := provider s; at_ := Syncing v; informer := true;
                        done_ := done_ s; sent := sent s |}
      end
  | Notified n, _ => if informer s then Some (deliver n s) else None
  | CacheSynced, Syncing v => Some (set_phase (Watching v) (set_state (setWatching true) s))
  | SyncGivesUp, Syncing v =>
      Some (set_phase (Returned (if done_ s then None else Some ErrNeverSynced)) s)
  | ContextDone, _ =>
      Some {| provider := provider s; at_ := at_ s; informer := informer s; done_ := true;
              sent := sent s |}
  | Stop, Waiting => if done_ s then Some (set_phase (Returned None) s) else None
  | Stop, Watching v =>
      if done_ s then Some (set_phase (Returned None) (set_state (setWatching false) s)) else None
  | _, _ => None
  end.

(** The lives of a provider, with their steps in order. *)
Inductive lives (p : Provider) : list life_label → life → Prop :=
  | lives_new : lives p [] {| provider := p; at_ := Unstarted; informer := false; done_ := false;
                              sent := [] |}
  | lives_step ls l s s' : lives p ls s → life_step l s = Some s' → lives p (ls ++ [l]) s'.
End life.

(** ** What a life consists of *)

#[local] Arguments resolveClusterGVR : simpl never.

Definition attempts (ls : list life_label) : list DiscoveryInterface :=
  omap (λ l, match l with Attempt d => Some d | _ => None end) ls.

Definition notified (ls : list life_label) : list notification :=
  omap (λ l, match l with Notified n => Some n | _ => None end) ls.

(** The events that handler [h] was called with. *)
Definition delivered (h : nat) (s : life) : list DiscoveryEvent :=
  omap (λ x, if decide (x.1 = h) then Some x.2 else None) (sent s).

(** [Subscribe] is only called before [Start], as it documents. *)
Definition subscribed_first (ls : list life_label) : Prop :=
  ∀ pre post, ls = pre ++ StartCall :: post → Subscribe ∉ post.

Section lives.
Context `{UnstructuredAPI} `{NestedAPI}.

Lemma notify_watching n r w w' :
  (notify n {| records := r; watching := w |}).1 = (notify n {| records := r; watching := w' |}).1 ∧
  records (notify n {| records := r; watching := w |}).2
  = records (notify n {| records := r; watching := w' |}).2 ∧
  watching (notify n {| records := r; watching := w |}).2 = w.
Proof.
  destruct n as [[u|]|[u|]|[u|]]; simpl; try done; unfold upsert, remove; simpl; repeat case_match; done.
Qed.

(** One call each, in the order of the events. *)
Lemma delivered_emit h n es :
  h < n →
  omap (λ x : nat * DiscoveryEvent, if decide (x.1 = h) then Some x.2 else None) (flat_map (emit n) es) = es.
Proof.
  intros Hh. induction es as [|e es IH]; simpl; [done|]. rewrite omap_app IH.
  assert (omap (λ x : nat * DiscoveryEvent, if decide (x.1 = h) then Some x.2 else None) (emit n e) = [e])
    as ->; [|done].
  unfold emit. replace n with (h + S (n - h - 1)) by lia. rewrite seq_app map_app omap_app. simpl.
  rewrite decide_True //.
  assert (∀ l, h ∉ l → omap (λ x : nat * DiscoveryEvent, if decide (x.1 = h) then Some x.2 else None)
    (map (λ h0, (h0, e)) l) = []) as Hno.
  { induction l as [|x l IHl]; simpl; [done|]. intros [Hne Hl]%not_elem_of_cons.
    rewrite decide_False; [done|]. by apply IHl. }
  assert (h ∉ seq 0 h ∧ h ∉ seq (S h) (n - h - 1)) as [H1 H2] by (rewrite !elem_of_seq; lia).
  rewrite Hno //. simpl. f_equal. by apply Hno.
Qed.

(** ** The invariant *)

(** The negotiation waited through the earlier answers. *)
Definition waits (d : DiscoveryInterface) : Prop := attempt (Some d) = Waiting.

Definition concluded (ds : list DiscoveryInterface) (r : NegotiateError + string) : Prop :=
  ∃ pre d, ds = pre ++ [d] ∧ Forall waits pre ∧ resolveClusterGVR (Some d) = r.

(** What brought [Start] to where it is. *)
Definition arrived (ls : list life_label) (s : life) : Prop :=
  match at_ s with
  | Unstarted => attempts ls = [] ∧ informer s = false
  | Negotiating | Waiting => Forall waits (attempts ls) ∧ informer s = false
  | Adding v => concluded (attempts ls) (inr v) ∧ informer s = false
  | Syncing v | Watching v => concluded (attempts ls) (inr v)
  | Returned None => done_ s = true
  | Returned (Some (ErrNegotiation e)) =>
      (∃ served, e = errUnsupportedVersions served) ∧ concluded (attempts ls) (inl e)
  | Returned (Some _) => ∃ v, concluded (attempts ls) (inr v)
  end.

Record life_inv (ls : list life_label) (s : life) : Prop := {
  li_disco : disco (provider s) = true;
  li_watching : watching (state (provider s)) = true ↔ ∃ v, at_ s = Watching v;
  li_arrived : arrived ls s;
  li_started : StartCall ∉ ls → at_ s = Unstarted;
  li_quiet : informer s = false → notified ls = [] ∧ sent s = [];
  li_records : records (state (provider s)) = records (notify_all (notified ls) capi_New).2;
  li_sent : subscribed_first ls → ∀ h, h < handlers (provider s) →
    delivered h s = (notify_all (notified ls) capi_New).1;
}.

Lemma subscribed_first_snoc ls l :
  subscribed_first (ls ++ [l]) → subscribed_first ls ∧ (l = Subscribe → StartCall ∉ ls).
Proof.
  intros Hf. split.
  - intros pre post -> Hin. apply (Hf pre (post ++ [l])); [by rewrite -app_assoc|set_solver].
  - intros -> (pre & post & ->)%list_elem_of_split.
    apply (Hf pre (post ++ [Subscribe])); [by rewrite -app_assoc|set_solver].
Qed.

(** A step that is neither a subscription nor a notification: where it leads is the
    only thing to show. *)
Lemma life_inv_move ls l s s' :
  life_inv ls s → l ≠ Subscribe → (∀ n, l ≠ Notified n) →
  disco (provider s') = disco (provider s) → handlers (provider s') = handlers (provider s) →
  records (state (provider s')) = records (state (provider s)) → sent s' = sent s →
  (watching (state (provider s')) = true ↔ ∃ v, at_ s' = Watching v) →
  (informer s' = false → informer s = false) →
  arrived (ls ++ [l]) s' → (StartCall ∉ ls ++ [l] → at_ s' = Unstarted) →
  life_inv (ls ++ [l]) s'.
Proof.
  intros [Hd Hw Ha Hst Hq Hr Hs] Hl Hn Ed Eh Er Es Hw' Hi Ha' Hst'.
  assert (notified (ls ++ [l]) = notified ls) as En.
  { unfold notified. rewrite omap_app. simpl. destruct l; try by rewrite app_nil_r. by destruct (Hn n). }
  split; rewrite ?En ?Es ?Er; try done; [congruence|by intros ?%Hi; apply Hq|].
  intros [Hf _]%subscribed_first_snoc h. unfold delivered. rewrite Es Eh. by apply Hs.
Qed.

Lemma life_inv_subscribe ls s s' :
  life_inv ls s → life_step Subscribe s = Some s' → life_inv (ls ++ [Subscribe]) s'.
Proof.
  intros [Hd Hw Ha Hst Hq Hr Hs]. simpl. intros [= <-].
  assert (notified (ls ++ [Subscribe]) = notified ls ∧ attempts (ls ++ [Subscribe]) = attempts ls) as [En Ea]
    by (unfold notified, attempts; rewrite !omap_app /= !app_nil_r; done).
  split; rewrite ?En; simpl; try done.
  - unfold arrived in *. rewrite Ea. exact Ha.
  - intros Hns. apply Hst. set_solver.
  - intros [_ Hns]%subscribed_first_snoc h _. specialize (Hst (Hns eq_refl)).
    unfold arrived in Ha. rewrite Hst in Ha. destruct Ha as [_ Hi]. destruct (Hq Hi) as [-> Hsent].
    unfold delivered. simpl. by rewrite Hsent.
Qed.

Lemma life_inv_notified ls s s' n :
  life_inv ls s → life_step (Notified n) s = Some s' → life_inv (ls ++ [Notified n]) s'.
Proof.
  intros [Hd Hw Ha Hst Hq Hr Hs] Hstep.
  assert (informer s = true ∧ s' = deliver n s) as [Hi ->]
    by (simpl in Hstep; destruct (at_ s), (informer s); by simplify_eq).
  assert (notified (ls ++ [Notified n]) = notified ls ++ [n] ∧ attempts (ls ++ [Notified n]) = attempts ls)
    as [En Ea] by (unfold notified, attempts; rewrite !omap_app /= ?app_nil_r; done).
  pose proof (notify_all_snoc (notified ls) n capi_New) as Hsn.
  destruct (notify_all (notified ls) capi_New) as [es [r w]]. simpl in Hr, Hs.
  unfold deliver, set_state. destruct (provider s) as [di na re ha [r' w']]. simpl in *. subst r'.
  destruct (notify_watching n r w' w) as (He & Hrec & Hwat).
  destruct (notify n {| records := r; watching := w' |}) as [es1 st1],
    (notify n {| records := r; watching := w |}) as [es2 st2]. simpl in *. subst es2.
  split; rewrite ?En ?Hsn; simpl; try done.
  - by rewrite Hwat.
  - unfold arrived in *. rewrite Ea. exact Ha.
  - intros Hns. apply Hst. set_solver.
  - congruence.
  - intros [Hf _]%subscribed_first_snoc h Hh. unfold delivered. simpl. rewrite omap_app.
    f_equal; [by apply Hs|by apply delivered_emit].
Qed.

Lemma attempts_snoc ls l :
  attempts (ls ++ [l]) = attempts ls ++ match l with Attempt d => [d] | _ => [] end.
Proof. unfold attempts. rewrite omap_app. by destruct l. Qed.

Lemma life_inv_attempt ls s s' d :
  life_inv ls s → life_step (Attempt d) s = Some s' → life_inv (ls ++ [Attempt d]) s'.
Proof.
  intros Hinv. pose proof Hinv as [Hd Hw Ha Hst Hq Hr Hs]. simpl.
  destruct (at_ s) eqn:Ep; try done. intros [= <-].
  unfold arrived in Ha. rewrite Ep in Ha. destruct Ha as [Hwait Hi].
  unfold client. rewrite Hd.
  assert (∀ r, resolveClusterGVR (Some d) = r → concluded (attempts (ls ++ [Attempt d])) r) as Hc.
  { intros r Hr'. exists (attempts ls), d. by rewrite attempts_snoc. }
  pose proof (resolveClusterGVR_spec d) as Hspec.
  assert (waits d → Forall waits (attempts (ls ++ [Attempt d]))) as Hw8
    by (intros Hx; rewrite attempts_snoc; apply Forall_app; by repeat constructor).
  assert (watching (state (provider s)) = false) as Hnw.
  { destruct (watching _); [|done]. destruct Hw as [Hw _]. destruct (Hw eq_refl). congruence. }
  apply (life_inv_move ls (Attempt d) s); try done; simpl.
  - rewrite Hnw. split; [done|]. unfold attempt. intros [v Hv]. by repeat case_match.
  - unfold arrived, attempt. simpl. destruct (resolveClusterGVR (Some d)) as [[served| | |t]|v] eqn:E; simpl.
    + split; [eauto|by apply Hc].
    + split; [|done]. apply Hw8. unfold waits, attempt. by rewrite E.
    + done.
    + split; [|done]. apply Hw8. unfold waits, attempt. by rewrite E.
    + split; [by apply Hc|done].
  - intros Hns. assert (Negotiating = Unstarted) by (apply Hst; set_solver). done.
Qed.

Lemma not_watching ls s : life_inv ls s → (∀ v, at_ s ≠ Watching v) → watching (state (provider s)) = false.
Proof.
  intros Hi Hn. destruct (watching (state (provider s))) eqn:E; [|done].
  apply (li_watching _ _ Hi) in E as [v Hv]. by destruct (Hn v).
Qed.

Lemma life_inv_step ls l s s' : life_inv ls s → life_step l s = Some s' → life_inv (ls ++ [l]) s'.
Proof.
  intros Hinv Hs. pose proof (li_arrived _ _ Hinv) as Ha. unfold arrived in Ha.
  assert (at_ s ≠ Unstarted → ∀ l, StartCall ∉ ls ++ [l] → False) as Hst.
  { intros Hne l' Hns. apply Hne, (li_started _ _ Hinv). set_solver. }
  assert (∀ b : phase, (∀ v, at_ s ≠ Watching v) → (∀ v, b ≠ Watching v) →
    watching (state (provider s)) = true ↔ ∃ v, b = Watching v) as Hw.
  { intros b Hn Hb. rewrite (not_watching ls s) //. split; [done|]. intros [v Hv]. by destruct (Hb v). }
  destruct l as [| |d| |err|n| | | |].
  - by eapply life_inv_subscribe.
  - simpl in Hs. destruct (at_ s) eqn:Ep; simplify_eq. destruct Ha as [Ha Hi].
    apply (life_inv_move ls StartCall s); try done; simpl; [by apply Hw| |set_solver].
    unfold arrived. simpl. rewrite attempts_snoc app_nil_r Ha. by split.
  - by eapply life_inv_attempt.
  - simpl in Hs. destruct (at_ s) eqn:Ep; simplify_eq.
    apply (life_inv_move ls RetryTimer s); try done; simpl; [by apply Hw| |by intros []%Hst].
    unfold arrived. simpl. by rewrite attempts_snoc app_nil_r.
  - simpl in Hs. destruct (at_ s) eqn:Ep; simplify_eq. destruct Ha as [Ha Hi].
    destruct err as [err|]; simplify_eq;
      (apply (life_inv_move ls (HandlerAdded _) s); try done; simpl; [by apply Hw| |by intros []%Hst]);
      unfold arrived; simpl; rewrite attempts_snoc app_nil_r; eauto.
  - by eapply life_inv_notified.
  - simpl in Hs. destruct (at_ s) eqn:Ep; simplify_eq.
    apply (life_inv_move ls CacheSynced s); try done; simpl; [by split; eauto| |by intros []%Hst].
    unfold arrived. simpl. by rewrite attempts_snoc app_nil_r.
  - simpl in Hs. destruct (at_ s) eqn:Ep; simplify_eq.
    apply (life_inv_move ls SyncGivesUp s); try done; simpl; [by apply Hw| |by intros []%Hst].
    unfold arrived. simpl. rewrite attempts_snoc app_nil_r. destruct (done_ s) eqn:Ed; eauto.
  - simpl in Hs. simplify_eq.
    apply (life_inv_move ls ContextDone s); try done; simpl.
    + apply (li_watching _ _ Hinv).
    + unfold arrived. simpl. rewrite attempts_snoc app_nil_r. by destruct (at_ s) as [| | | | | |[[]|]].
    + intros Hns. apply (li_started _ _ Hinv). set_solver.
  - simpl in Hs. destruct (at_ s) eqn:Ep; simplify_eq; destruct (done_ s) eqn:Ed; simplify_eq;
      (apply (life_inv_move ls Stop s); try done; simpl; [|by intros []%Hst]).
    + by apply Hw.
    + split; [done|]. by intros [].
Qed.

Lemma lives_inv p ls s :
  disco p = true → handlers p = 0 → state p = capi_New → lives p ls s → life_inv ls s.
Proof.
  intros Hd Hh Hs. induction 1 as [|ls l s s' _ IH Hstep]; [|by eapply life_inv_step].
  split; simpl; rewrite ?Hs; try done. by split; [|intros []].
Qed.

Lemma factory_fresh `{HubClients} hub settings p :
  factory hub settings = inr p →
  disco p = true ∧ handlers p = 0 ∧ state p = capi_New ∧
  namespace p = Setting settings SettingNamespace "".
Proof. unfold factory. destruct hub; simpl; [|done]. repeat case_match; by intros [= <-]. Qed.

Lemma waits_retryable d : waits d → retryable (Some d).
Proof.
  unfold waits, attempt. pose proof (resolveClusterGVR_spec d) as Hd. intros Hw. exists d. split; [done|].
  destruct (resolveClusterGVR (Some d)) as [[served| | |t]|v]; naive_solver.
Qed.

Lemma concluded_spec ds r :
  concluded ds r → ∃ pre d, ds = pre ++ [d] ∧ Forall (λ d', retryable (Some d')) pre ∧
    resolveClusterGVR (Some d) = r.
Proof.
  intros (pre & d & -> & Hw & Hr). exists pre, d. split_and!; try done.
  eapply Forall_impl; [exact Hw|]. intros d'. apply waits_retryable.
Qed.

(** C20. The life of the registered provider, whatever the API server answers, however
    its informer's notifications come in, and whenever the context ends. It reports
    itself as watching exactly while its informer is established and synced; it
    watches the version that the last answer made the first choice, after waiting only
    through answers that can resolve themselves; [Start] fails only when clusters are
    served at unsupported versions alone, or when the informer refuses the handler or
    never syncs, and returns without an error only when its context is done; and every
    handler that subscribed before is called, in order, with events that follow the
    protocol and from which it rebuilds the fleet. *)
Theorem provider_life `{HubClients} hub settings p ls s
    (Hnew : factory hub settings = inr p) (Hlife : lives p ls s)
    (Hfirst : subscribed_first ls) (Hu : unique_names (notified ls)) :
  (watching (state (provider s)) = true ↔ ∃ v, at_ s = Watching v) ∧
  (∀ v, at_ s = Syncing v ∨ at_ s = Watching v → ∃ pre d, attempts ls = pre ++ [d] ∧
     Forall (λ d', retryable (Some d')) pre ∧ reads_ok d ∧ preferred d v) ∧
  (∀ e, at_ s = Returned (Some (ErrNegotiation e)) → ∃ pre d served, attempts ls = pre ++ [d] ∧
     Forall (λ d', retryable (Some d')) pre ∧ reads_ok d ∧ e = errUnsupportedVersions served ∧
     served ≠ [] ∧ ∀ v, v ∈ served ↔ serves d v ∧ v ∉ supportedClusterVersions) ∧
  (at_ s = Returned None → done_ s = true) ∧
  (∀ h, h < handlers (provider s) → protocol (delivered h s) ∧
     (∀ c r, view_of (delivered h s) !! c = Some r → ∃ k u, fleet (notified ls) !! k = Some u ∧ GetName u = c) ∧
     (∀ k u, fleet (notified ls) !! k = Some u → ∃ r, view_of (delivered h s) !! GetName u = Some r ∧
        cl_Ready r = controlPlaneReady u ∧ cl_CredentialRef r = cl_CredentialRef (recordFromCluster u))).
Proof.
  destruct (factory_fresh _ _ _ Hnew) as (Hd & Hh & Hs & _).
  pose proof (lives_inv p ls s Hd Hh Hs Hlife) as Hi. pose proof (li_arrived _ _ Hi) as Ha.
  unfold arrived in Ha. split; [apply (li_watching _ _ Hi)|]. split_and!.
  - intros v Hv. assert (concluded (attempts ls) (inr v)) as (pre & d & -> & Hp & Hr)%concluded_spec
      by (by destruct Hv as [Hv|Hv]; rewrite Hv in Ha).
    pose proof (resolveClusterGVR_spec d) as Hspec. rewrite Hr in Hspec. destruct Hspec. by exists pre, d.
  - intros e He. rewrite He in Ha. destruct Ha as [[served ->] (pre & d & -> & Hp & Hr)%concluded_spec].
    pose proof (resolveClusterGVR_spec d) as Hspec. rewrite Hr in Hspec.
    exists pre, d, served. naive_solver.
  - intros E. by rewrite E in Ha.
  - intros h Hlt. rewrite (li_sent _ _ Hi Hfirst h Hlt).
    pose proof (in_sync_all (notified ls) Hu) as Hsync. split_and!.
    + apply (sync_protocol _ _ _ Hsync).
    + intros c r. by eapply in_sync_view.
    + intros k u Hk. destruct (in_sync_fleet _ _ _ k u Hsync Hk) as (r & ? & _ & ? & ? & _). eauto.
Qed.
End lives.

(** ** A provider that waits for the ClusterAPI *)

#[local] Existing Instance UnstructuredModel.api.
#[local] Existing Instance NestedModel.api.

#[local] Instance ex_clients : HubClients :=
  {| dynamic_NewForConfig := None; NewDiscoveryClientForConfig := None |}.

Definition ex_settings : gmap string string := {["namespace" := "fleet"]}.

(** First the hub has no ClusterAPI, then it serves two of its versions. *)
Definition ex_absent : DiscoveryInterface :=
  {| ServerGroups := inr []; ServerResourcesForGroupVersion _ := inl (true, "not found") |}.
Definition ex_served : DiscoveryInterface :=
  {| ServerGroups := inr [{| g_Name := cluster_group;
       g_Versions := [("cluster.x-k8s.io/v1beta1", "v1beta1"); ("cluster.x-k8s.io/v1beta2", "v1beta2")] |}];
     ServerResourcesForGroupVersion _ := inr ["machines"; "clusters"] |}.

Definition ex_start : list life_label :=
  [Subscribe; Subscribe; StartCall; Attempt ex_absent; RetryTimer; Attempt ex_served; HandlerAdded None]
  ++ map Notified (take 3 ex_notifications) ++ [CacheSynced].

Fixpoint life_exec (ls : list life_label) (s : life) : option life :=
  match ls with
  | [] => Some s
  | l :: ls' => match life_step l s with Some s' => life_exec ls' s' | None => None end
  end.

Definition born (p : Provider) : life :=
  {| provider := p; at_ := Unstarted; informer := false; done_ := false; sent := [] |}.

Lemma life_exec_lives p past ls s s' : lives p past s → life_exec ls s = Some s' → lives p (past ++ ls) s'.
Proof.
  revert past s. induction ls as [|l ls IH]; intros past s Hl; simpl.
  - intros [= <-]. by rewrite app_nil_r.
  - destruct (life_step l s) as [s1|] eqn:E; [|done]. intros H.
    replace (past ++ l :: ls) with ((past ++ [l]) ++ ls) by by rewrite -app_assoc.
    apply (IH _ s1); [|done]. by econstructor.
Qed.

Definition ex_provider : Provider :=
  NewProvider [WithDiscovery true; WithNamespace "fleet"].

Definition ex_alive : life := default (born ex_provider) (life_exec ex_start (born ex_provider)).

Lemma ex_lives : lives ex_provider ex_start ex_alive.
Proof.
  assert (match life_exec ex_start (born ex_provider) with Some _ => true | None => false end = true)
    as He by vm_refl.
  unfold ex_alive. destruct (life_exec ex_start (born ex_provider)) as [s|] eqn:E; [|done].
  apply (life_exec_lives ex_provider [] ex_start (born ex_provider)); [constructor|exact E].
Qed.

Lemma ex_first : subscribed_first ex_start.
Proof.
  assert (∀ l, l ∈ drop 3 ex_start → l ≠ Subscribe ∧ l ≠ StartCall) as Hrest.
  { intros l Hin. simpl in Hin. repeat (apply elem_of_cons in Hin as [->|Hin]; [done|]).
    by apply not_elem_of_nil in Hin. }
  change ex_start with (Subscribe :: Subscribe :: StartCall :: drop 3 ex_start).
  generalize dependent (drop 3 ex_start). intros rest Hrest [|a [|b [|c pre]]] post [= E].
  - subst post. by intros []%Hrest.
  - exfalso. destruct (Hrest StartCall); [|done]. subst. set_solver.
Qed.

Lemma provider_life_witness :
  factory true ex_settings = inr ex_provider ∧ lives ex_provider ex_start ex_alive ∧
  subscribed_first ex_start ∧ unique_names (notified ex_start) ∧
  watching (state (provider ex_alive)) = true ∧
  ∃ r, view_of (delivered 1 ex_alive) !! "eu-1" = Some r ∧ cl_Ready r = true.
Proof.
  assert (factory true ex_settings = inr ex_provider) as Hf by reflexivity.
  pose proof ex_unique as Hu. change (take 3 ex_notifications) with (notified ex_start) in Hu.
  split; [exact Hf|]. split; [exact ex_lives|]. split; [exact ex_first|]. split; [exact Hu|].
  destruct (provider_life true ex_settings ex_provider ex_start ex_alive Hf ex_lives ex_first Hu)
    as (Hw & _ & _ & _ & Hd).
  split.
  - apply Hw. exists "v1beta2". vm_refl.
  - destruct (Hd 1) as (_ & _ & Hv); [apply Nat.ltb_lt; vm_refl|].
    destruct (Hv "fleet/eu-1" (ex_cluster "fleet" "eu-1" "True") ltac:(vm_refl)) as (r & Hr & Hready & _).
    exists r. split; [exact Hr|]. rewrite Hready. vm_refl.
Defined.
