(* ===== verification/Triggers.v ===== *)
(** What wakes the engine: [SetupWithManager] of internal/engine/reconciler.go with
    its field indexes, the map functions of its watches, the drift lookup and the
    hooks on cluster runtimes. The hub cache is a parameter: [ReplicationReader] is
    its list call, [ReaderLaws] what it promises about the stored Replications. *)
From S2P Require Import Telemetry Discovery.
From S2P Require Import Prelude GoLib Sha256 Api Unstructured Render Drift Policy Labels Backoff Transport Engine.

#[local] Open Scope string_scope.
#[local] Open Scope list_scope.

(** ** The hub cache *)

(** The list options of the operator: an empty namespace is every namespace. *)
Record ListOptions := {
  InNamespace : string;
  MatchingFields : option (string * string);
  MatchingLabels : gmap string string;
}.

Definition everything : ListOptions :=
  {| InNamespace := ""; MatchingFields := None; MatchingLabels := ∅ |}.

Definition key_of (rep : Replication) : NamespacedName :=
  {| nn_Namespace := rep_Namespace rep; nn_Name := rep_Name rep |}.

(** An index by name: the values of an object in it. *)
Abbreviation Indexes := (string → Replication → list string).

Definition selects (index : Indexes) (o : ListOptions) (rep : Replication) : bool :=
  (bool_decide (InNamespace o = "") || bool_decide (rep_Namespace rep = InNamespace o))
  && match MatchingFields o with
     | None => true
     | Some (idx, v) => bool_decide (v ∈ index idx rep)
     end
  && bool_decide (MatchingLabels o ⊆ rep_Labels rep).

(** [client.Client.List] of Replications; [None] is an error. *)
Class ReplicationReader := { List : ListOptions → option (list Replication) }.

Class ReaderLaws `{ReplicationReader} (index : Indexes) (stored : list Replication) : Prop := {
  list_exact o items : List o = Some items → items ≡ₚ filter (λ r, selects index o r = true) stored;
}.

(** ** [SetupWithManager] *)

Definition sourceUIDIndex : string := "engine.sourceRef.uid".
Definition inventoryClusterIndex : string := "engine.inventory.cluster".
Definition targetClusterIndex : string := "engine.targets.cluster".

(** The three functions given to [IndexField]. *)
Definition index_source_uid (rep : Replication) : list string :=
  let uid := sr_UID (SourceRef (rep_Spec rep)) in
  if decide (uid = "") then [] else [uid].
Definition index_inventory_cluster (rep : Replication) : list string :=
  clusterSet (Inventory_ (rep_Status rep)) [].
Definition index_target_cluster (rep : Replication) : list string :=
  clusterSet [] (ResolvedTargets (rep_Spec rep)).

Definition engineIndexes : Indexes := λ idx rep,
  if decide (idx = sourceUIDIndex) then index_source_uid rep
  else if decide (idx = inventoryClusterIndex) then index_inventory_cluster rep
  else if decide (idx = targetClusterIndex) then index_target_cluster rep
  else [].

Section triggers.
Context `{ReplicationReader}.

Definition requests (items : option (list Replication)) : list NamespacedName :=
  match items with None => [] | Some l => map key_of l end.

Definition mapSource (namespace uid : string) : list NamespacedName :=
  requests (List {| InNamespace := namespace; MatchingFields := Some (sourceUIDIndex, uid);
                    MatchingLabels := ∅ |}).

Definition mapPolicy : list NamespacedName := requests (List everything).

(** The function given to [NewDriftDetector]. *)
Definition drift_lookup (sourceUID sourceNamespace : string) : list NamespacedName :=
  requests (List {| InNamespace := sourceNamespace;
                    MatchingFields := Some (sourceUIDIndex, sourceUID); MatchingLabels := ∅ |}).

Definition enqueue_unseen (st : gset NamespacedName * DriftDetector) (rep : Replication)
    : gset NamespacedName * DriftDetector :=
  let key := key_of rep in
  if decide (key ∈ st.1) then st else ({[key]} ∪ st.1, Enqueue key st.2).

Definition by_cluster (idx name : string) : ListOptions :=
  {| InNamespace := ""; MatchingFields := Some (idx, name); MatchingLabels := ∅ |}.

Definition enqueue_listed (name : string) (st : gset NamespacedName * DriftDetector) (idx : string)
    : gset NamespacedName * DriftDetector :=
  match List (by_cluster idx name) with
  | None => st
  | Some items => foldl enqueue_unseen st items
  end.

Definition enqueueForCluster (name : string) (d : DriftDetector) : DriftDetector :=
  (foldl (enqueue_listed name) (∅, d) [targetClusterIndex; inventoryClusterIndex]).2.

(** The two hooks given to the cluster runtime manager. *)
Definition onClusterReady ok (name : string) (c : Cache) (d : DriftDetector) : DriftDetector :=
  enqueueForCluster name (ClusterReady ok name c d).
Definition onClusterGone (name : string) (d : DriftDetector) : DriftDetector :=
  enqueueForCluster name (ClusterGone name d).

(** What reaches the engine's controller: a Replication changed, a policy changed, the
    drift channel delivered a key, the metadata of an object of a kind changed. *)
Inductive hub_event :=
  | ReplicationEvent (rep : Replication)
  | PolicyEvent
  | DriftEvent (key : NamespacedName)
  | MetadataEvent (gvk : GroupVersionKind) (namespace uid : string).

(** The watches of [SetupWithManager], by the requests they enqueue; [kinds] is
    [Options.KindGVKs]. *)
Definition watches (kinds : list GroupVersionKind) (ev : hub_event) : list NamespacedName :=
  match ev with
  | ReplicationEvent rep => [key_of rep]
  | PolicyEvent => mapPolicy
  | DriftEvent key => [key]
  | MetadataEvent gvk namespace uid => if decide (gvk ∈ kinds) then mapSource namespace uid else []
  end.
End triggers.

(** [ProviderInventory.Lookup] over the records of the provider. *)
Fixpoint Lookup (records : list ClusterRecord) (name : string) : option ClusterRecord :=
  match records with
  | [] => None
  | rec :: rest => if decide (cl_Name rec = name) then Some rec else Lookup rest name
  end.

(** ** Lemmas *)

Lemma clusterSet_step_elem (out : list string) c x :
  x ∈ (if decide (c ∈ out) then out else out ++ [c]) ↔ x ∈ out ∨ x = c.
Proof. case_decide; [naive_solver|]. by rewrite elem_of_app list_elem_of_singleton. Qed.

Lemma elem_of_clusterSet inv targets c :
  c ∈ clusterSet inv targets ↔
    (∃ e, e ∈ inv ∧ ie_ClusterName e = c) ∨ (∃ t, t ∈ targets ∧ rt_ClusterName t = c).
Proof.
  assert (∀ (l out : list string), c ∈ foldl (λ out c, if decide (c ∈ out) then out else out ++ [c]) out l ↔
    c ∈ out ∨ c ∈ l) as Hf.
  { induction l as [|x l IH]; intros out; simpl; [set_solver|].
    rewrite IH clusterSet_step_elem elem_of_cons. tauto. }
  unfold clusterSet. rewrite !Hf !elem_of_map. set_solver.
Qed.

#[local] Opaque eventsCapacity.

(** Enqueuing a list of keys, as far as the channel takes them. *)
Lemma Enqueue_chan k d :
  chan (Enqueue k d) = chan d ++ take (eventsCapacity - length (chan d)) [k].
Proof.
  unfold Enqueue. destruct (Nat.ltb_spec (length (chan d)) eventsCapacity) as [Hlt|Hge]; simpl.
  - destruct (eventsCapacity - length (chan d))%nat eqn:E; [lia|]. simpl. by rewrite take_nil.
  - replace (eventsCapacity - length (chan d))%nat with 0%nat by lia. by rewrite app_nil_r.
Qed.

Lemma Enqueue_all_chan ks d :
  chan (foldl (λ d k, Enqueue k d) d ks) = chan d ++ take (eventsCapacity - length (chan d)) ks.
Proof.
  revert d. induction ks as [|k ks IH]; intros d; [by rewrite take_nil app_nil_r|].
  simpl. rewrite IH Enqueue_chan -app_assoc. f_equal.
  rewrite length_app length_take. simpl.
  destruct (eventsCapacity - length (chan d))%nat as [|n] eqn:E; simpl.
  - replace (_ - _)%nat with 0%nat by lia. done.
  - rewrite take_nil. simpl. do 2 f_equal. lia.
Qed.

Lemma ClusterReady_chan ok name c d : chan (ClusterReady ok name c d) = chan d.
Proof.
  assert (∀ l d, chan (foldl (λ d gvk, install ok name c gvk d) d l) = chan d) as Hl.
  { induction l as [|g l IH]; intros e; [done|]. simpl. rewrite IH. unfold install, install_commit.
    repeat case_match; done. }
  unfold ClusterReady, installAll. case_decide; [by rewrite Hl|done].
Qed.

(** What one pass over a list adds. *)
Lemma enqueue_unseen_all items : ∀ seen,
  ∃ ks, NoDup ks ∧ (∀ k, k ∈ ks ↔ k ∉ seen ∧ k ∈ map key_of items) ∧
    ∀ d, foldl enqueue_unseen (seen, d) items =
      (list_to_set ks ∪ seen, foldl (λ d k, Enqueue k d) d ks).
Proof.
  induction items as [|r items IH]; intros seen.
  - exists []. split_and!; [constructor|set_solver|]. intros d. simpl. by rewrite union_empty_l_L.
  - simpl. unfold enqueue_unseen at 2. simpl. case_decide as Hk.
    + destruct (IH seen) as (ks & Hnd & Hin & E). exists ks. split_and!; [done| |done].
      intros k. rewrite Hin elem_of_cons. split; [tauto|]. by intros [? [->|?]].
    + destruct (IH ({[key_of r]} ∪ seen)) as (ks & Hnd & Hin & E).
      exists (key_of r :: ks). split_and!.
      * constructor; [|done]. rewrite Hin elem_of_union elem_of_singleton. tauto.
      * intros k. rewrite !elem_of_cons Hin elem_of_union elem_of_singleton.
        destruct (decide (k = key_of r)) as [->|]; tauto.
      * intros d. rewrite E. simpl. f_equal. by rewrite (comm_L (∪) {[key_of r]}) assoc_L (comm_L (∪) _ {[key_of r]}) assoc_L.
Qed.

(** ** Correctness *)

Definition targets (name : string) (rep : Replication) : Prop :=
  ∃ t, t ∈ ResolvedTargets (rep_Spec rep) ∧ rt_ClusterName t = name.
Definition inventories (name : string) (rep : Replication) : Prop :=
  ∃ e, e ∈ Inventory_ (rep_Status rep) ∧ ie_ClusterName e = name.

Lemma index_target_elem name rep :
  name ∈ engineIndexes targetClusterIndex rep ↔ targets name rep.
Proof. unfold engineIndexes. simpl. unfold index_target_cluster. rewrite elem_of_clusterSet. set_solver. Qed.

Lemma index_inventory_elem name rep :
  name ∈ engineIndexes inventoryClusterIndex rep ↔ inventories name rep.
Proof. unfold engineIndexes. simpl. unfold index_inventory_cluster. rewrite elem_of_clusterSet. set_solver. Qed.

Section correctness.
Context `{ReplicationReader} (stored : list Replication) `{RL : !ReaderLaws engineIndexes stored}.

Lemma listed o items rep :
  List o = Some items → rep ∈ items ↔ rep ∈ stored ∧ selects engineIndexes o rep = true.
Proof using RL. intros ->%list_exact. rewrite list_elem_of_filter. tauto. Qed.

Lemma requests_length o : (length (requests (List o)) ≤ length stored)%nat.
Proof using RL.
  destruct (List o) as [items|] eqn:E; simpl; [|lia].
  rewrite length_map (list_exact _ _ E). apply length_filter.
Qed.

Lemma by_cluster_listed idx name items rep :
  List (by_cluster idx name) = Some items →
  rep ∈ items ↔ rep ∈ stored ∧ name ∈ engineIndexes idx rep.
Proof using RL.
  intros Hl. rewrite (listed _ _ _ Hl). unfold selects. simpl.
  rewrite (bool_decide_eq_true_2 (∅ ⊆ _)); [apply map_empty_subseteq|].
  rewrite andb_true_r bool_decide_eq_true. done.
Qed.

(** The Replications an index leads to, when its list call answers. *)
Definition found (idx name : string) (rep : Replication) : Prop :=
  List (by_cluster idx name) ≠ None ∧ rep ∈ stored ∧ name ∈ engineIndexes idx rep.

Lemma enqueue_listed_spec name idx seen :
  ∃ ks, NoDup ks ∧ (∀ k, k ∈ ks ↔ k ∉ seen ∧ ∃ rep, key_of rep = k ∧ found idx name rep) ∧
    ∀ d, enqueue_listed name (seen, d) idx = (list_to_set ks ∪ seen, foldl (λ d k, Enqueue k d) d ks).
Proof using RL.
  unfold enqueue_listed. destruct (List (by_cluster idx name)) as [items|] eqn:E.
  - destruct (enqueue_unseen_all items seen) as (ks & Hnd & Hin & Eq). exists ks.
    split_and!; [done| |done]. intros k. rewrite Hin elem_of_map. apply and_iff_compat_l.
    unfold found. rewrite E. setoid_rewrite (by_cluster_listed _ _ _ _ E). naive_solver.
  - exists []. split_and!; [constructor| |intros d; simpl; by rewrite union_empty_l_L].
    intros k. split; [by intros ?%not_elem_of_nil|]. by intros (_ & rep & _ & [] & _).
Qed.

Lemma enqueueForCluster_spec name :
  ∃ ks, NoDup ks ∧
    (∀ k, k ∈ ks ↔ ∃ rep, key_of rep = k ∧
       (found targetClusterIndex name rep ∨ found inventoryClusterIndex name rep)) ∧
    ∀ d, enqueueForCluster name d = foldl (λ d k, Enqueue k d) d ks.
Proof using RL.
  unfold enqueueForCluster. cbn [foldl].
  destruct (enqueue_listed_spec name targetClusterIndex ∅) as (ks1 & Hnd1 & Hin1 & E1).
  destruct (enqueue_listed_spec name inventoryClusterIndex (list_to_set ks1 ∪ ∅)) as (ks2 & Hnd2 & Hin2 & E2).
  exists (ks1 ++ ks2). split_and!.
  - apply NoDup_app. split_and!; [done| |done]. intros k Hk. rewrite Hin2. set_solver.
  - intros k. rewrite elem_of_app Hin2 right_id_L elem_of_list_to_set. split.
    + intros [(_ & rep & ? & ?)%Hin1|(_ & rep & ? & ?)]; exists rep; tauto.
    + intros (rep & Hrep & Hf). destruct (decide (k ∈ ks1)) as [Hk|Hk]; [by left|].
      destruct Hf as [Hf|Hf]; [left; apply Hin1|right]; (split; [set_solver|by eauto]).
  - intros d. by rewrite E1 E2 /= foldl_app.
Qed.

(** C24. A cluster runtime that comes or goes wakes exactly the Replications it
    concerns, each once: those whose resolved targets name the cluster and those
    whose inventory does, each as far as the list call for that index answers;
    they go into the event channel in order as far as it has room, and the
    detector holds the new cache, or none. *)
Theorem cluster_hooks_wake ok name c d :
  ∃ ks, NoDup ks ∧
    (∀ k, k ∈ ks ↔ ∃ rep, rep ∈ stored ∧ key_of rep = k ∧
       ((targets name rep ∧ List (by_cluster targetClusterIndex name) ≠ None) ∨
        (inventories name rep ∧ List (by_cluster inventoryClusterIndex name) ≠ None))) ∧
    (let room := (eventsCapacity - length (chan d))%nat in
     chan (onClusterReady ok name c d) = chan d ++ take room ks ∧
     chan (onClusterGone name d) = chan d ++ take room ks) ∧
    clusters (onClusterReady ok name c d) !! name = Some c ∧
    clusters (onClusterGone name d) !! name = None.
Proof using RL.
  pose proof (ClusterReady_chan ok name c d) as Hr.
  assert (∀ ks d', clusters (foldl (λ d k, Enqueue k d) d' ks) = clusters d') as Hc.
  { induction ks as [|k ks IH]; intros d'; [done|]. simpl. rewrite IH. unfold Enqueue. by case_match. }
  unfold onClusterReady, onClusterGone.
  destruct (enqueueForCluster_spec name) as (ks & Hnd & Hin & E). exists ks. split_and!; [done|..].
  - intros k. rewrite Hin. unfold found. setoid_rewrite index_target_elem.
    setoid_rewrite index_inventory_elem. naive_solver.
  - by rewrite !E !Enqueue_all_chan Hr.
  - by rewrite !E !Enqueue_all_chan.
  - rewrite E Hc. unfold ClusterReady. case_decide; [|apply lookup_insert_eq].
    rewrite (proj1 (installAll_clusters _ _ _ _)). apply lookup_insert_eq.
  - rewrite E Hc. apply lookup_delete_eq.
Qed.

(** A Replication made for a source. *)
Definition fans_out (rep : Replication) (namespace uid : string) : Prop :=
  rep ∈ stored ∧ rep_Namespace rep = namespace ∧ sr_UID (SourceRef (rep_Spec rep)) = uid.

Lemma uid_selected rep namespace uid :
  namespace ≠ "" → uid ≠ "" →
  rep ∈ stored ∧ selects engineIndexes
    {| InNamespace := namespace; MatchingFields := Some (sourceUIDIndex, uid); MatchingLabels := ∅ |} rep = true
  ↔ fans_out rep namespace uid.
Proof using RL.
  intros Hn Hu. unfold selects, fans_out. simpl.
  rewrite (bool_decide_eq_true_2 (∅ ⊆ _)); [apply map_empty_subseteq|].
  rewrite (bool_decide_eq_false_2 (namespace = "")) // andb_true_r andb_true_iff !bool_decide_eq_true.
  unfold engineIndexes. simpl. unfold index_source_uid. case_decide; set_solver.
Qed.

Lemma mapSource_spec namespace uid k :
  List {| InNamespace := namespace; MatchingFields := Some (sourceUIDIndex, uid); MatchingLabels := ∅ |} ≠ None →
  namespace ≠ "" → uid ≠ "" →
  k ∈ mapSource namespace uid ↔ ∃ rep, key_of rep = k ∧ fans_out rep namespace uid.
Proof using RL.
  intros Hl Hn Hu. unfold mapSource. destruct (List _) as [items|] eqn:E; [|done]. simpl.
  rewrite elem_of_map. setoid_rewrite (listed _ _ _ E). setoid_rewrite uid_selected; [|done..].
  naive_solver.
Qed.

(** C23. No event is lost on the way to a Replication: while the hub cache answers,
    an event on the source wakes exactly the Replications that fan it out, if its kind
    is one of those configured, and none otherwise; a policy event wakes every
    Replication; and a notification on any spoke about a replica that [Render] wrote
    for the source, added, updated or deleted, as long as the event channel has room,
    wakes exactly those Replications of the source again. *)
Theorem no_lost_wakeups `{UL : UnstructuredLaws} cfg r src md tns tn cluster d
    (Hup : ∀ o, List o ≠ None) (Hwf : wf_obj src md)
    (Hu : GetUID src ≠ "") (Hn : GetNamespace src ≠ "") (Hctx : ctx d = Some true)
    (Hroom : (length (chan d) + length stored ≤ eventsCapacity)%nat) :
  let owners k := ∃ rep, key_of rep = k ∧ fans_out rep (GetNamespace src) (GetUID src) in
  let replica := WithMeta (GetLabels (Render cfg r src tns tn).1) in
  (∀ kinds gvk k, k ∈ watches kinds (MetadataEvent gvk (GetNamespace src) (GetUID src)) ↔
     gvk ∈ kinds ∧ owners k) ∧
  (∀ kinds k, k ∈ watches kinds PolicyEvent ↔ ∃ rep, key_of rep = k ∧ rep ∈ stored) ∧
  (∀ old ev, ev ∈ [OnAdd replica; OnUpdate old replica; OnDelete replica;
                   OnDelete (DeletedFinalStateUnknown replica)] →
   ∃ ks, chan (driftHandler drift_lookup cluster ev d).1 = chan d ++ ks ∧
     ∀ kinds k, k ∈ ks ≫= (λ key, watches kinds (DriftEvent key)) ↔ owners k).
Proof using RL.
  intros owners replica. split_and!.
  - intros kinds gvk k. simpl. case_decide as Hk.
    + assert (k ∈ mapSource (GetNamespace src) (GetUID src) ↔ owners k) as -> by (by apply mapSource_spec).
      tauto.
    + split; [by intros ?%not_elem_of_nil|by intros [? _]].
  - intros kinds k. simpl. unfold mapPolicy. destruct (List everything) as [items|] eqn:E; [|by apply Hup in E]. simpl.
    rewrite elem_of_map. setoid_rewrite (listed _ _ _ E). unfold selects, everything. simpl.
    setoid_rewrite (bool_decide_eq_true_2 (∅ ⊆ _)); [|apply map_empty_subseteq]. naive_solver.
  - intros old ev Hev.
    assert (driftHandler drift_lookup cluster ev d =
            observe drift_lookup cluster (GetLabels (Render cfg r src tns tn).1) d) as ->.
    { rewrite !elem_of_cons in Hev. by destruct Hev as [->|[->|[->|[->|[]%not_elem_of_nil]]]]. }
    pose proof (ownership_and_observation cfg r src md tns tn ∅ "" drift_lookup cluster d Hwf Hu Hn Hctx)
      as (_ & _ & _ & Hobs). rewrite Hobs /=. rewrite Enqueue_all_chan. eexists. split; [done|].
    rewrite take_ge; [etransitivity; [apply requests_length|lia]|].
    intros kinds k. simpl. rewrite list_elem_of_bind. setoid_rewrite list_elem_of_singleton.
    assert (k ∈ mapSource (GetNamespace src) (GetUID src) ↔ owners k) as <- by (by apply mapSource_spec).
    unfold drift_lookup, mapSource. naive_solver.
Qed.
End correctness.

(** ** Witnesses *)

(** A cache that answers every list but those on the indexes in [down]. *)
Definition cache_of (down : list string) (stored : list Replication) : ReplicationReader := {|
  List o :=
    if decide (from_option fst "" (MatchingFields o) ∈ down) then None
    else Some (filter (λ r, selects engineIndexes o r = true) stored)
|}.

Lemma cache_of_laws down stored : ReaderLaws (H := cache_of down stored) engineIndexes stored.
Proof. split. intros o items. simpl. case_decide; [done|]. by intros [= <-]. Qed.

(** Two Replications: of the pull secret, to "eu-1"; of another source, once on "eu-1". *)
Definition ex_rep (name uid target recorded : string) : Replication :=
  {| rep_Namespace := "infra"; rep_Name := name; rep_UID := "r-" +:+ name; rep_Generation := 1;
     rep_DeletionTimestamp := None; rep_Finalizers := []; rep_Labels := ∅; rep_OwnerReferences := [];
     rep_Spec :=
       {| SourceRef := {| sr_Kind := "Secret"; sr_Namespace := "infra"; sr_Name := name; sr_UID := uid |};
          Origin := "annotation";
          ResolvedTargets := [{| rt_ClusterName := target; rt_Namespaces := ["team-a"]; rt_TargetName := "" |}] |};
     rep_Status :=
       {| Summary := Summary empty_status; SourceHash_ := ""; Conditions := []; NonReadyTargets := [];
          NonReadyOverflow := 0;
          Inventory_ := [{| ie_ClusterName := recorded; ie_Namespace := "team-a"; ie_Name := name;
                            ie_Group := ""; ie_Kind := "Secret"; LastAppliedHash := "" |}] |} |}.
Definition ex_stored : list Replication :=
  [ex_rep "pull-secret" "u-1" "eu-1" "eu-1"; ex_rep "other" "u-2" "us-1" "eu-1"].
Definition ex_detector : DriftDetector := Start (λ _ _, true) (NewDriftDetector 0).

Definition chan_names (d : DriftDetector) : list string := map nn_Name (chan d).

(** With both indexes up, and with the index on targets down. *)
Example cluster_gone_wakes :
  chan_names (onClusterGone (H := cache_of [] ex_stored) "eu-1" ex_detector) = ["pull-secret"; "other"] ∧
  chan_names (onClusterGone (H := cache_of [inventoryClusterIndex] ex_stored) "eu-1" ex_detector)
    = ["pull-secret"].
Proof. split; vm_refl. Qed.

Lemma cluster_hooks_wake_witness :
  ∃ ks, NoDup ks ∧ {| nn_Namespace := "infra"; nn_Name := "other" |} ∈ ks.
Proof.
  destruct (@cluster_hooks_wake (cache_of [] ex_stored) ex_stored (cache_of_laws [] ex_stored)
    (λ _ _, true) "eu-1" 1%nat ex_detector) as (ks & Hnd & Hin & _).
  exists ks. split; [exact Hnd|]. apply Hin. exists (ex_rep "other" "u-2" "us-1" "eu-1").
  split; [right; left|]. split; [reflexivity|]. right. split; [|discriminate].
  eexists. split; [left|reflexivity].
Defined.

#[local] Existing Instance UnstructuredModel.api.
#[local] Existing Instance UnstructuredModel.laws.

Lemma no_lost_wakeups_witness :
  let H := cache_of [] ex_stored in
  {| nn_Namespace := "infra"; nn_Name := "pull-secret" |} ∈
    chan (driftHandler drift_lookup "us-1" (OnDelete (DeletedFinalStateUnknown
      (WithMeta (GetLabels (Render no_strip {| HubName := "" |} ex_source "team-a" "").1)))) ex_detector).1.
Proof.
  intros H.
  assert (GetUID ex_source ≠ "") as Hu by (vm_compute; discriminate).
  assert (GetNamespace ex_source ≠ "") as Hn by (vm_compute; discriminate).
  destruct (@no_lost_wakeups (cache_of [] ex_stored) ex_stored (cache_of_laws [] ex_stored) _ _
    no_strip {| HubName := "" |} ex_source ex_metadata "team-a" "" "us-1" ex_detector)
    as (_ & _ & Hdrift).
  - intros o. discriminate.
  - exact ex_source_wf.
  - exact Hu.
  - exact Hn.
  - reflexivity.
  - apply Nat.leb_le. vm_compute. reflexivity.
  - cbv zeta in Hdrift.
    destruct (Hdrift NoMeta (OnDelete (DeletedFinalStateUnknown
      (WithMeta (GetLabels (Render no_strip {| HubName := "" |} ex_source "team-a" "").1)))))
      as (ks & Heq & Hks); [do 3 right; left|]. unfold H. rewrite Heq. apply elem_of_app. right.
    assert ({| nn_Namespace := "infra"; nn_Name := "pull-secret" |} ∈
              ks ≫= (λ key, watches (H := cache_of [] ex_stored) [] (DriftEvent key))) as Hk;
      [|by apply list_elem_of_bind in Hk as (k & ->%list_elem_of_singleton & Hk)].
    apply Hks. exists (ex_rep "pull-secret" "u-1" "eu-1" "eu-1").
    split; [reflexivity|]. split; [left|]. split; vm_compute; reflexivity.
Defined.
