(* ===== verification/Request.v ===== *)
(** [internal/controller/request]: the annotation shim. [Reconcile] of a source
    runs against an arbitrary hub ([RequestHub]) and records every call and event
    in a trace; [authority_Reconcile] is the controller that marks hand-authored
    Replications. *)
From Stdlib Require Import Ascii.
From S2P Require Import Prelude GoLib Sha256 Api Labels Annotations Policy Unstructured Discovery.

#[local] Open Scope string_scope.
#[local] Open Scope list_scope.

Definition Finalizer : string := "r8r.io/finalizer".
Definition ManagedByLabel : string := "app.kubernetes.io/managed-by".
Definition ManagedByValue : string := "k8s-r8r".
Definition SourceKindLabel : string := "r8r.io/source-kind".
Definition SourceNameLabel : string := "r8r.io/source-name".

Definition EventReasonKindNotEnabled : string := "KindNotEnabled".
Definition EventReasonInvalidAnnotations : string := "InvalidAnnotations".
Definition EventReasonPolicyDenied : string := "PolicyDenied".
Definition EventReasonNameConflict : string := "ReplicationNameConflict".
Definition ConditionNotAuthoritative : string := "NotAuthoritative".

Definition DefaultAllowlist : list GroupVersionKind :=
  [{| gvk_Group := ""; gvk_Version := "v1"; gvk_Kind := "Secret" |};
   {| gvk_Group := ""; gvk_Version := "v1"; gvk_Kind := "ConfigMap" |}].

(** ** Names *)

(** [hex.EncodeToString(sum[:])[:8]] *)
Definition hash8 (s : string) : string := take_str 8 (sha256_hex s).

Definition ReplicationName (kind sourceName : string) : string :=
  let suffix := hash8 (kind +:+ "/" +:+ sourceName) in
  let base := ToLower kind +:+ "-" +:+ sourceName in
  let base := if (244 <? String.length base)%nat
              then TrimRight (take_str 244 base) [chr 45; chr 46] else base in
  base +:+ "-" +:+ suffix.

Definition labelSafeValue (name : string) : string :=
  if (String.length name <=? 63)%nat then name
  else TrimRight (take_str 54 name) [chr 45; chr 46; chr 95] +:+ "-" +:+ hash8 name.

Definition controllerName (gvk : GroupVersionKind) : string :=
  "request-" +:+ ToLower (gvk_Kind gvk)
  +:+ (if decide (gvk_Group gvk = "") then ""
       else "-" +:+ ReplaceAll1 (chr 46) (chr 45) (gvk_Group gvk)).

(** ** The hub *)

(** The metadata of a source, [metav1.PartialObjectMetadata]. *)
Record Meta := {
  m_Namespace : string;
  m_Name : string;
  m_UID : string;
  m_Annotations : gmap string string;
  m_DeletionTimestamp : option Z;
  m_Finalizers : list string;
}.

Definition set_finalizers (fs : list string) (m : Meta) : Meta :=
  {| m_Namespace := m_Namespace m; m_Name := m_Name m; m_UID := m_UID m;
     m_Annotations := m_Annotations m; m_DeletionTimestamp := m_DeletionTimestamp m;
     m_Finalizers := fs |}.

(** An API error as the controller looks at it. *)
Record apiError := { err_NotFound : bool; err_AlreadyExists : bool; err_Text : string }.

(** The hub client, the inventory, the clock; [GroupVersionString] is
    [schema.GroupVersion.String]. *)
Class RequestHub (W : Type) := {
  rGetSource : NamespacedName → SM W (apiError + Meta);
  rPatchSource : Meta → Meta → SM W (apiError + Meta);
  rGetReplication : NamespacedName → SM W (apiError + Replication);
  rCreate : Replication → SM W (option apiError);
  rUpdate : Replication → SM W (option apiError);
  rUpdateStatus : Replication → SM W (option apiError);
  rDelete : Replication → SM W (option apiError);
  rGetNamespaceLabels : string → SM W (apiError + gmap string string);
  rListPolicies : SM W (apiError + list ReplicationPolicy);
  rInventory : W → list ClusterRecord;
  rNow : W → Z;
  GroupVersionString : GroupVersionKind → string;
}.

(** A group or a version has no slash. *)
Definition plain (x : string) : Prop := chr 47 ∉ list_of_string x.

Definition plain_gvk (g : GroupVersionKind) : Prop := plain (gvk_Group g) ∧ plain (gvk_Version g).

(** "ParseGroupVersion turns group/version string into a GroupVersion struct" and
    [String] "puts group and version into a single group/version string". *)
Class GroupVersionLaws (W : Type) `{RequestHub W} `{MetaAPI} : Prop := {
  parse_string gvk : plain (gvk_Group gvk) → plain (gvk_Version gvk) →
    ParseGroupVersion (GroupVersionString gvk) = Some (gvk_Group gvk, gvk_Version gvk);
}.

(** "GetControllerOf returns the controller reference": the only reference. *)
Class ControllerLaws `{MetaAPI} : Prop := {
  single_controller r : or_Controller r = Some true → GetControllerOf [r] = Some r;
}.

Inductive RAct :=
  | GotSource (nn : NamespacedName) (res : apiError + Meta)
  | PatchedSource (orig new : Meta) (res : apiError + Meta)
  | GotReplication (nn : NamespacedName) (res : apiError + Replication)
  | Created (r : Replication) (res : option apiError)
  | Updated (r : Replication) (res : option apiError)
  | UpdatedStatus (r : Replication) (res : option apiError)
  | Deleted (r : Replication) (res : option apiError)
  | GotNamespace (ns : string) (res : apiError + gmap string string)
  | ListedPolicies (res : apiError + list ReplicationPolicy)
  | Emitted (reason message : string).

(** The world and what was done to it. *)
Record RState (W : Type) := { r_world : W; r_trace : list RAct }.
Arguments r_world {W}. Arguments r_trace {W}.

Definition call {W A} (m : SM W A) (act : A → RAct) : SM (RState W) A :=
  λ s, let '(a, w) := m (r_world s) in
       (a, {| r_world := w; r_trace := r_trace s ++ [act a] |}).

Definition Eventf {W} (reason message : string) : SM (RState W) unit :=
  smod (λ s, {| r_world := r_world s; r_trace := r_trace s ++ [Emitted reason message] |}).

(** ** Resolving targets *)

(** The loop that groups the allowed decisions per cluster. *)
Definition add_resolved (targetName : string) (acc : list ResolvedTarget * gmap string nat)
    (d : Decision) : list ResolvedTarget * gmap string nat :=
  let '(resolved, byCluster) := acc in
  let c := t_ClusterName (d_Target d) in
  let '(resolved, byCluster, idx) :=
    match byCluster !! c with
    | Some idx => (resolved, byCluster, idx)
    | None =>
        (resolved ++ [{| rt_ClusterName := c; rt_Namespaces := []; rt_TargetName := targetName |}],
         <[c := length resolved]> byCluster, length resolved)
    end in
  (alter (λ rt, {| rt_ClusterName := rt_ClusterName rt;
                   rt_Namespaces := rt_Namespaces rt ++ [t_Namespace (d_Target d)];
                   rt_TargetName := rt_TargetName rt |}) idx resolved,
   byCluster).

Definition group_by_cluster (targetName : string) (ds : list Decision) : list ResolvedTarget :=
  (foldl (add_resolved targetName) ([], ∅) ds).1.

(** [fmt.Sprintf("%s (and %d more denied targets)")], for two or more. *)
Definition denied_message (first : Decision) (denied : list Decision) : string :=
  if (1 <? length denied)%nat
  then Reason first +:+ " (and " +:+ dec_nat (length denied - 1) +:+ " more denied targets)"
  else Reason first.

Section request.
Context {W : Type} `{HubW : RequestHub W} `{MetaAPI} `{LabelsAPI}.

(** The candidate targets: ready clusters the selector matches, by name, crossed
    with the namespaces. *)
Definition candidates (clusters : list ClusterRecord) (sel : Selector) (namespaces : list string)
    : list Target :=
  c ← isort (λ a b, String.leb (cl_Name a) (cl_Name b)) clusters;
  if negb (cl_Ready c) || negb (Matches sel (cl_Labels c)) then []
  else map (λ ns, {| t_ClusterName := cl_Name c; t_ClusterLabels := cl_Labels c;
                     t_Namespace := ns |}) namespaces.

(** [sourceReconciler]: its kind, whether it is allowlisted, and the list of
    enabled kinds for the message. [order] is the iteration order of the loop of
    [Parse] over an annotation map, [aggregate] its error's text. *)
Record sourceReconciler := { gvk : GroupVersionKind; enabled : bool; enabledKinds : string }.

Context (s : sourceReconciler) (order : gmap string string → list string)
        (aggregate : list string → string).

#[local] Abbreviation M A := (SM (RState W) A).

Definition resolveTargets (obj : Meta) (parsed : Request)
    : M (apiError + list ResolvedTarget * list Decision) :=
  w ← sgets r_world;
  match candidates (rInventory w) (ClusterSelector parsed)
          (EffectiveNamespaces parsed (m_Namespace obj)) with
  | [] => mret (inr ([], []))
  | targets =>
      nsRes ← call (rGetNamespaceLabels (m_Namespace obj)) (GotNamespace (m_Namespace obj));
      let nsLabels := match nsRes with inr l => l | inl _ => ∅ end in
      polRes ← call rListPolicies ListedPolicies;
      match polRes with
      | inl err => mret (inl err)
      | inr policies =>
          let result :=
            Evaluate {| q_Source := {| s_Kind := gvk_Kind (gvk s); s_Namespace := m_Namespace obj;
                                       s_NamespaceLabels := nsLabels |};
                        q_Targets := targets |} policies in
          mret (inr (group_by_cluster (TargetName parsed) (result_Allowed result),
                     result_Denied result))
      end
  end.

Definition desiredReplication (obj : Meta) (name : string) (resolved : list ResolvedTarget)
    : Replication :=
  {| rep_Namespace := m_Namespace obj; rep_Name := name; rep_UID := ""; rep_Generation := 0;
     rep_DeletionTimestamp := None; rep_Finalizers := [];
     rep_Labels := {[ ManagedByLabel := ManagedByValue;
                      SourceKindLabel := ToLower (gvk_Kind (gvk s));
                      SourceNameLabel := labelSafeValue (m_Name obj) ]};
     rep_OwnerReferences :=
       [{| or_APIVersion := GroupVersionString (gvk s); or_Kind := gvk_Kind (gvk s);
           or_Name := m_Name obj; or_UID := m_UID obj; or_Controller := Some true |}];
     rep_Spec :=
       {| SourceRef := {| sr_Kind := gvk_Kind (gvk s); sr_Namespace := m_Namespace obj;
                          sr_Name := m_Name obj; sr_UID := m_UID obj |};
          Origin := ReplicationOriginAnnotation; ResolvedTargets := resolved |};
     rep_Status := empty_status |}.

Definition ownedBySource (rep : Replication) (sourceName : string) : bool :=
  match GetControllerOf (rep_OwnerReferences rep) with
  | None => false
  | Some ref =>
      match ParseGroupVersion (or_APIVersion ref) with
      | None => false
      | Some (group, _) =>
          bool_decide (group = gvk_Group (gvk s)) && bool_decide (or_Kind ref = gvk_Kind (gvk s))
          && bool_decide (or_Name ref = sourceName)
      end
  end.

Definition specEqual (existing desired : Replication) : bool :=
  bool_decide (rep_Spec existing = rep_Spec desired)
  && bool_decide (rep_Labels existing = rep_Labels desired)
  && bool_decide (rep_OwnerReferences existing = rep_OwnerReferences desired).

(** The three assignments before [Update]. *)
Definition with_desired (rep desired : Replication) : Replication :=
  {| rep_Namespace := rep_Namespace rep; rep_Name := rep_Name rep; rep_UID := rep_UID rep;
     rep_Generation := rep_Generation rep; rep_DeletionTimestamp := rep_DeletionTimestamp rep;
     rep_Finalizers := rep_Finalizers rep; rep_Labels := rep_Labels desired;
     rep_OwnerReferences := rep_OwnerReferences desired; rep_Spec := rep_Spec desired;
     rep_Status := rep_Status rep |}.

Definition with_conditions (rep : Replication) (cs : list Condition) : Replication :=
  {| rep_Namespace := rep_Namespace rep; rep_Name := rep_Name rep; rep_UID := rep_UID rep;
     rep_Generation := rep_Generation rep; rep_DeletionTimestamp := rep_DeletionTimestamp rep;
     rep_Finalizers := rep_Finalizers rep; rep_Labels := rep_Labels rep;
     rep_OwnerReferences := rep_OwnerReferences rep; rep_Spec := rep_Spec rep;
     rep_Status :=
       let st := rep_Status rep in
       {| Summary := Summary st; SourceHash_ := SourceHash_ st; Conditions := cs;
          NonReadyTargets := NonReadyTargets st; NonReadyOverflow := NonReadyOverflow st;
          Inventory_ := Inventory_ st |} |}.

(** The verdict of [reportTargetResolution] on a Replication of generation [gen]. *)
Definition resolution_condition (gen : Z) (resolved : list ResolvedTarget) (denied : list Decision)
    : Condition :=
  let mk status reason message :=
    {| c_Type := ReplicationConditionTargetsResolved; c_Status := status;
       c_ObservedGeneration := gen; c_LastTransitionTime := 0; c_Reason := reason;
       c_Message := message |} in
  match resolved, denied with
  | _ :: _, _ =>
      let msg := dec_nat (length resolved) +:+ " target cluster(s) resolved" in
      mk ConditionTrue ReasonTargetsResolved
        (match denied with
         | [] => msg
         | _ => msg +:+ ", " +:+ dec_nat (length denied) +:+ " target(s) denied by policy"
         end)
  | [], d :: _ => mk ConditionFalse ReasonPolicyDenied (denied_message d denied)
  | [], [] => mk ConditionFalse ReasonNoTargets "no ready cluster matched the target-clusters selector"
  end.

Definition reportTargetResolution (key : NamespacedName) (resolved : list ResolvedTarget)
    (denied : list Decision) : M (option apiError) :=
  res ← call (rGetReplication key) (GotReplication key);
  match res with
  | inl err => mret (if err_NotFound err then None else Some err)
  | inr rep =>
      now ← sgets (λ st, rNow (r_world st));
      let '(cs, changed) :=
        SetStatusCondition now (Conditions (rep_Status rep))
          (resolution_condition (rep_Generation rep) resolved denied) in
      if changed : bool
      then call (rUpdateStatus (with_conditions rep cs)) (UpdatedStatus (with_conditions rep cs))
      else mret None
  end.

(** ** The two halves of the handshake *)

Definition source_key (obj : Meta) : NamespacedName :=
  {| nn_Namespace := m_Namespace obj; nn_Name := ReplicationName (gvk_Kind (gvk s)) (m_Name obj) |}.

Definition release (obj : Meta) : M (option apiError) :=
  let unblock :=
    if ContainsFinalizer (m_Finalizers obj) Finalizer then
      let new := set_finalizers (RemoveFinalizer (m_Finalizers obj) Finalizer) obj in
      res ← call (rPatchSource obj new) (PatchedSource obj new);
      mret (match res with inl err => Some err | inr _ => None end)
    else mret None in
  res ← call (rGetReplication (source_key obj)) (GotReplication (source_key obj));
  match res with
  | inr rep =>
      if ownedBySource rep (m_Name obj) then
        if decide (rep_DeletionTimestamp rep = None) then
          err ← call (rDelete rep) (Deleted rep);
          match err with
          | Some e => mret (if err_NotFound e then None else Some e)
          | None => mret None
          end
        else mret None
      else unblock
  | inl err => if err_NotFound err then unblock else mret (Some err)
  end.

Definition name_conflict (key : NamespacedName) : M unit :=
  Eventf EventReasonNameConflict
    ("Replication " +:+ quote (nn_Name key) +:+ " already exists and is not owned by this "
     +:+ gvk_Kind (gvk s) +:+ "; not materializing").

(** The [switch] on the Replication: an early return, or going on. *)
Definition store (obj : Meta) (resolved : list ResolvedTarget) : M (option apiError + unit) :=
  let key := source_key obj in
  res ← call (rGetReplication key) (GotReplication key);
  match res with
  | inl err =>
      if err_NotFound err then
        let rep := desiredReplication obj (nn_Name key) resolved in
        cerr ← call (rCreate rep) (Created rep);
        match cerr with
        | Some e =>
            if err_AlreadyExists e then _ ← name_conflict key; mret (inl None)
            else mret (inl (Some e))
        | None => mret (inr tt)
        end
      else mret (inl (Some err))
  | inr rep =>
      if negb (ownedBySource rep (m_Name obj)) then _ ← name_conflict key; mret (inl None)
      else
        let desired := desiredReplication obj (nn_Name key) resolved in
        if specEqual rep desired then mret (inr tt)
        else
          uerr ← call (rUpdate (with_desired rep desired)) (Updated (with_desired rep desired));
          mret (match uerr with Some e => inl (Some e) | None => inr tt end)
  end.

(** The finalizer first: the object to go on with, or the error. *)
Definition ensure_finalizer (obj : Meta) : M (apiError + Meta) :=
  if ContainsFinalizer (m_Finalizers obj) Finalizer then mret (inr obj)
  else
    let new := set_finalizers (AddFinalizer (m_Finalizers obj) Finalizer) obj in
    call (rPatchSource obj new) (PatchedSource obj new).

Definition materialize (obj : Meta) (parsed : Request) : M (option apiError) :=
  fin ← ensure_finalizer obj;
  match fin with
  | inl err => mret (Some err)
  | inr obj =>
      res ← resolveTargets obj parsed;
      match res with
      | inl err => mret (Some err)
      | inr (resolved, denied) =>
          _ ← match denied with
              | [] => mret tt
              | first :: _ => Eventf EventReasonPolicyDenied (denied_message first denied)
              end;
          st ← store obj resolved;
          match st with
          | inl r => mret r
          | inr _ => reportTargetResolution (source_key obj) resolved denied
          end
      end
  end.

Definition Reconcile (nn : NamespacedName) : M (option apiError) :=
  res ← call (rGetSource nn) (GotSource nn);
  match res with
  | inl err => mret (if err_NotFound err then None else Some err)
  | inr obj =>
      let ann := m_Annotations obj in
      if negb (enabled s) then
        if HasRequest ann && bool_decide (m_DeletionTimestamp obj = None) then
          _ ← Eventf EventReasonKindNotEnabled
                ("kind " +:+ gvk_Kind (gvk s) +:+ " is not enabled for replication; enabled kinds: "
                 +:+ enabledKinds s);
          mret None
        else mret None
      else if bool_decide (m_DeletionTimestamp obj ≠ None) || negb (Replicates ann) then release obj
      else match Parse (order ann) ann with
           | inl errs => _ ← Eventf EventReasonInvalidAnnotations (aggregate errs); mret None
           | inr None => mret None (* not reached: the annotations opt in *)
           | inr (Some parsed) => materialize obj parsed
           end
  end.

(** [mapReplicationToSource] and [mapAllSources]: the sources to enqueue. *)
Definition mapReplicationToSource (rep : Replication) : list NamespacedName :=
  match GetControllerOf (rep_OwnerReferences rep) with
  | None => []
  | Some ref =>
      match ParseGroupVersion (or_APIVersion ref) with
      | None => []
      | Some (group, _) =>
          if negb (bool_decide (group = gvk_Group (gvk s)))
             || negb (bool_decide (or_Kind ref = gvk_Kind (gvk s))) then []
          else [{| nn_Namespace := rep_Namespace rep; nn_Name := or_Name ref |}]
      end
  end.

(** Over the items of the label-filtered list. *)
Definition mapAllSources (items : list Replication) : list NamespacedName :=
  omap (λ rep, let ref := SourceRef (rep_Spec rep) in
    if decide (sr_Kind ref = gvk_Kind (gvk s))
    then Some {| nn_Namespace := sr_Namespace ref; nn_Name := sr_Name ref |} else None) items.

(** ** The justification of every write *)

(** The source asks for replication no longer. *)
Definition withdrawn (obj : Meta) : Prop :=
  m_DeletionTimestamp obj ≠ None ∨ Replicates (m_Annotations obj) = false.

(** The source was read, or came back from the patch, with the finalizer set. *)
Definition finalized (t : list RAct) (obj : Meta) : Prop :=
  (∃ nn, GotSource nn (inr obj) ∈ t ∧ ContainsFinalizer (m_Finalizers obj) Finalizer = true) ∨
  (∃ orig new, PatchedSource orig new (inr obj) ∈ t ∧
     ContainsFinalizer (m_Finalizers new) Finalizer = true).

(** A read that shows that no Replication of the source exists any more. *)
Definition shows_gone (obj : Meta) (res : apiError + Replication) : Prop :=
  match res with
  | inl err => err_NotFound err = true
  | inr rep => ownedBySource rep (m_Name obj) = false
  end.

Definition J (t : list RAct) (a : RAct) : Prop :=
  match a with
  | PatchedSource orig new _ =>
      (∃ nn, GotSource nn (inr orig) ∈ t) ∧
      ((¬ withdrawn orig ∧ new = set_finalizers (AddFinalizer (m_Finalizers orig) Finalizer) orig) ∨
       (withdrawn orig ∧ new = set_finalizers (RemoveFinalizer (m_Finalizers orig) Finalizer) orig ∧
        ∃ res, GotReplication (source_key orig) res ∈ t ∧ shows_gone orig res))
  | Created r _ =>
      ∃ obj resolved err, finalized t obj ∧
        r = desiredReplication obj (nn_Name (source_key obj)) resolved ∧
        GotReplication (source_key obj) (inl err) ∈ t ∧ err_NotFound err = true
  | Updated r _ =>
      ∃ obj resolved rep, finalized t obj ∧ GotReplication (source_key obj) (inr rep) ∈ t ∧
        ownedBySource rep (m_Name obj) = true ∧
        r = with_desired rep (desiredReplication obj (nn_Name (source_key obj)) resolved)
  | Deleted r _ =>
      ∃ nn obj, GotSource nn (inr obj) ∈ t ∧ withdrawn obj ∧
        GotReplication (source_key obj) (inr r) ∈ t ∧ ownedBySource r (m_Name obj) = true
  | UpdatedStatus r _ =>
      ∃ key rep cs, GotReplication key (inr rep) ∈ t ∧ r = with_conditions rep cs ∧
        ∀ ty, ty ≠ ReplicationConditionTargetsResolved →
          FindStatusCondition cs ty = FindStatusCondition (Conditions (rep_Status rep)) ty
  | _ => True
  end.

Definition justified (t : list RAct) : Prop :=
  ∀ pre a post, t = pre ++ a :: post → J pre a.

(** A justified trace that contains the acts [F]. *)
Definition knows (F : list RAct) (st : RState W) : Prop :=
  justified (r_trace st) ∧ ∀ a, a ∈ F → a ∈ r_trace st.

Definition ends_justified {A} (F : list RAct) (m : M A) : Prop :=
  triple (knows F) m (λ _ st, justified (r_trace st)).

Lemma finalized_mono t t' obj : (∀ a, a ∈ t → a ∈ t') → finalized t obj → finalized t' obj.
Proof. intros Ht. unfold finalized. naive_solver. Qed.

Lemma J_mono t t' a : (∀ a, a ∈ t → a ∈ t') → J t a → J t' a.
Proof.
  intros Ht. pose proof (finalized_mono t t') as Hf.
  destruct a; simpl; try done; [|naive_solver..].
  intros [(nn & Hn) [?|(? & ? & res' & ? & ?)]]; split; eauto 10.
Qed.

Lemma request_justified_snoc t a : justified t → J t a → justified (t ++ [a]).
Proof.
  intros Ht Ha pre x post Heq. destruct post as [|y post _] using rev_ind.
  - apply app_inj_tail in Heq as [<- <-]. done.
  - rewrite app_comm_cons app_assoc in Heq. apply app_inj_tail in Heq as [-> _]. by eapply Ht.
Qed.

Lemma knows_snoc F st a w :
  knows F st → J F a → knows (a :: F) {| r_world := w; r_trace := r_trace st ++ [a] |}.
Proof.
  intros [Hj HF] Ha. split; simpl.
  - apply request_justified_snoc; [done|]. by eapply J_mono.
  - intros b. rewrite elem_of_cons elem_of_app list_elem_of_singleton. naive_solver.
Qed.

Lemma ends_ret {A} F (a : A) : ends_justified F (mret a).
Proof. by intros st [Hj _]. Qed.

Lemma ends_call {A B} F (m : SM W A) act (f : A → M B) :
  (∀ a, J F (act a)) → (∀ a, ends_justified (act a :: F) (f a)) →
  ends_justified F (call m act ≫= f).
Proof.
  intros Hj Hf st Hst. unfold mbind, SM_bind, call.
  destruct (m (r_world st)) as [a w] eqn:E. apply Hf. by apply knows_snoc.
Qed.

Lemma ends_last {A} F (m : SM W A) act :
  (∀ a, J F (act a)) → ends_justified F (call m act).
Proof.
  intros Hj st Hst. unfold call. destruct (m (r_world st)) as [a w] eqn:E. simpl.
  exact (proj1 (knows_snoc F st (act a) w Hst (Hj a))).
Qed.

Lemma ends_event {B} F r msg (f : unit → M B) :
  (∀ u, ends_justified F (f u)) → ends_justified F (Eventf r msg ≫= f).
Proof.
  intros Hf st [Hj HF]. apply Hf. split; simpl; [by apply request_justified_snoc|].
  intros a Ha. apply elem_of_app. left. by apply HF.
Qed.

Lemma ends_gets {A B} F (g : RState W → A) (f : A → M B) :
  (∀ a, ends_justified F (f a)) → ends_justified F (sgets g ≫= f).
Proof. intros Hf st Hst. by apply Hf. Qed.

(** Sequencing with a part that keeps what is known. *)
Lemma ends_bind {A B} F (R : A → list RAct) (m : M A) (f : A → M B) :
  triple (knows F) m (λ a, knows (R a)) → (∀ a, ends_justified (R a) (f a)) →
  ends_justified F (m ≫= f).
Proof. intros Hm Hf. by eapply triple_bind. Qed.

(** ** The parts of [Reconcile] *)

Lemma ends_release nn obj F :
  GotSource nn (inr obj) ∈ F → withdrawn obj → ends_justified F (release obj).
Proof.
  intros Hsrc Hw.
  assert (∀ res, shows_gone obj res → ends_justified (GotReplication (source_key obj) res :: F)
    (if ContainsFinalizer (m_Finalizers obj) Finalizer then
      let new := set_finalizers (RemoveFinalizer (m_Finalizers obj) Finalizer) obj in
      res ← call (rPatchSource obj new) (PatchedSource obj new);
      mret (match res with inl err => Some err | inr _ => None end)
    else mret None)) as Hun.
  { intros res Hgone. destruct (ContainsFinalizer _ _); [|apply ends_ret].
    apply ends_call; [|intros; apply ends_ret]. intros r. split; [exists nn; by right|].
    right. split_and!; [done..|]. exists res. split; [left|done]. }
  unfold release. apply ends_call; [done|]. intros [err|rep].
  - destruct (err_NotFound err) eqn:E; [by apply Hun|apply ends_ret].
  - destruct (ownedBySource rep (m_Name obj)) eqn:E; [|by apply Hun].
    case_decide; [|apply ends_ret]. apply ends_call.
    + intros res. exists nn, obj. split_and!; [by right|done|left|done].
    + intros [e|]; apply ends_ret.
Qed.

Lemma keeps_bind {A B} F (m : M A) (f : A → M B) :
  triple (knows F) m (λ _, knows F) → (∀ a, ends_justified F (f a)) → ends_justified F (m ≫= f).
Proof. intros Hm Hf. by apply (triple_bind _ (λ _, knows F)). Qed.

Lemma keeps_call {A} F (m : SM W A) act :
  (∀ a, J F (act a)) → triple (knows F) (call m act) (λ _, knows F).
Proof.
  intros Hj st Hst. unfold call. destruct (m (r_world st)) as [a w].
  destruct (knows_snoc F st (act a) w Hst (Hj a)) as [H1 H2].
  split; [done|]. intros b Hb. apply H2. by right.
Qed.

Lemma keeps_resolve F obj parsed :
  triple (knows F) (resolveTargets obj parsed) (λ _, knows F).
Proof.
  unfold resolveTargets. apply (triple_bind _ (λ _, knows F)); [by intros st Hst|]. intros w.
  destruct (candidates _ _ _); [by apply triple_ret|].
  apply (triple_bind _ (λ _, knows F)); [by apply keeps_call|]. intros nsRes.
  apply (triple_bind _ (λ _, knows F)); [by apply keeps_call|]. intros [err|ps]; by apply triple_ret.
Qed.

Section laws.
Context `{ML : !MetaLaws}.

Lemma ends_report F key resolved denied :
  ends_justified F (reportTargetResolution key resolved denied).
Proof.
  unfold reportTargetResolution. apply ends_call; [done|]. intros [err|rep]; [apply ends_ret|].
  apply ends_gets. intros now.
  destruct (SetStatusCondition now (Conditions (rep_Status rep))
              (resolution_condition (rep_Generation rep) resolved denied)) as [cs changed] eqn:E.
  destruct changed; [|apply ends_ret]. apply ends_last. intros res.
  exists key, rep, cs. split_and!; [left|done|]. intros ty Hty.
  replace cs with (SetStatusCondition now (Conditions (rep_Status rep))
    (resolution_condition (rep_Generation rep) resolved denied)).1 by (by rewrite E).
  apply find_set_other. by destruct resolved, denied.
Qed.

Lemma ends_store {B} F obj resolved (f : option apiError + unit → M B) :
  finalized F obj → (∀ r F', ends_justified F' (f r)) →
  ends_justified F (store obj resolved ≫= f).
Proof.
  intros Hfin Hf.
  assert (∀ {A} F' (m : M A) (g : A → M (option apiError + unit)),
    ends_justified F' (x ← m; y ← g x; f y) → ends_justified F' ((x ← m; g x) ≫= f)) as Hassoc.
  { intros A F' m g H' st Hst. specialize (H' st Hst). revert H'.
    unfold mbind, SM_bind. by destruct (m st). }
  assert (∀ x F', ends_justified F' (name_conflict (source_key obj) ≫= λ _, mret x ≫= f)) as Hc.
  { intros x F'. apply ends_event. intros _. apply Hf. }
  assert (∀ a, finalized (a :: F) obj) as Hfin'.
  { intros a. eapply finalized_mono; [|done]. intros b Hb. by right. }
  unfold store. apply Hassoc. apply ends_call; [done|]. intros [err|rep].
  - destruct (err_NotFound err) eqn:E; [|apply Hf]. apply Hassoc, ends_call.
    + intros res. exists obj, resolved, err. split_and!; [done|done|left|done].
    + intros [e|]; [|apply Hf]. destruct (err_AlreadyExists e); [apply Hassoc, Hc|apply Hf].
  - destruct (ownedBySource rep (m_Name obj)) eqn:Eo; simpl; [|apply Hassoc, Hc].
    destruct (specEqual _ _); [apply Hf|]. apply Hassoc, ends_call.
    + intros res. exists obj, resolved, rep. split_and!; [done|left|done|done].
    + intros [e|]; apply Hf.
Qed.

Lemma ends_materialize nn F obj parsed :
  GotSource nn (inr obj) ∈ F → ¬ withdrawn obj → ends_justified F (materialize obj parsed).
Proof.
  intros Hsrc Hw. unfold materialize, ensure_finalizer.
  assert (∀ F' obj', finalized F' obj' → ends_justified F'
    (res ← resolveTargets obj' parsed;
      match res with
      | inl err => mret (Some err)
      | inr (resolved, denied) =>
          _ ← match denied with
              | [] => mret tt
              | first :: _ => Eventf EventReasonPolicyDenied (denied_message first denied)
              end;
          st ← store obj' resolved;
          match st with
          | inl r => mret r
          | inr _ => reportTargetResolution (source_key obj') resolved denied
          end
      end)) as Hgo.
  { intros F' obj' Hfin. apply keeps_bind; [apply keeps_resolve|].
    intros [err|[resolved denied]]; [apply ends_ret|].
    assert (∀ u : unit, ends_justified F' (st ← store obj' resolved;
          match st with
          | inl r => mret r
          | inr _ => reportTargetResolution (source_key obj') resolved denied
          end)) as Hs.
    { intros u. apply ends_store; [done|]. intros [r|?] F''; [apply ends_ret|apply ends_report]. }
    destruct denied as [|d ds]; [apply (Hs tt)|by apply ends_event]. }
  destruct (ContainsFinalizer (m_Finalizers obj) Finalizer) eqn:E.
  - apply (Hgo F obj). left. by exists nn.
  - apply ends_call.
    + intros res. split; [by exists nn|by left].
    + intros [err|obj']; [apply ends_ret|]. apply Hgo. right. do 2 eexists. split; [left|].
      apply contains_add.
Qed.

Lemma request_run_justified nn st :
  r_trace st = [] → justified (r_trace (Reconcile nn st).2).
Proof.
  intros Ht. assert (knows [] st) as Hst.
  { split; [|by intros a ?%not_elem_of_nil]. rewrite Ht. by intros [] ? ?. }
  revert st Ht Hst. enough (ends_justified [] (Reconcile nn)) as He by (intros st _; apply He).
  unfold Reconcile. apply ends_call; [done|]. intros [err|obj]; [apply ends_ret|].
  destruct (enabled s); simpl.
  - destruct (bool_decide _ || _) eqn:E.
    + apply (ends_release nn); [left|]. apply orb_true_iff in E as [E|E].
      * left. by apply bool_decide_eq_true in E.
      * right. by apply negb_true_iff.
    + assert (¬ withdrawn obj) as Hw.
      { apply orb_false_iff in E as [E1 E2]. apply bool_decide_eq_false in E1.
        apply negb_false_iff in E2. intros [?|?]; [done|congruence]. }
      destruct (Parse _ _) as [errs|[parsed|]].
      * apply ends_event. intros _. apply ends_ret.
      * apply (ends_materialize nn); [left|done].
      * apply ends_ret.
  - destruct (HasRequest _ && _); [|apply ends_ret]. apply ends_event. intros _. apply ends_ret.
Qed.

(** ** Grouping and candidates *)

Lemma elem_of_candidates clusters sel nss t :
  t ∈ candidates clusters sel nss ↔
  ∃ c ns, c ∈ clusters ∧ ns ∈ nss ∧ cl_Ready c = true ∧ Matches sel (cl_Labels c) = true ∧
    t = {| t_ClusterName := cl_Name c; t_ClusterLabels := cl_Labels c; t_Namespace := ns |}.
Proof.
  unfold candidates. rewrite list_elem_of_bind. setoid_rewrite elem_of_isort. split.
  - intros (c & Ht & Hc). destruct (cl_Ready c) eqn:Er, (Matches sel (cl_Labels c)) eqn:Em; simpl in Ht;
      try by apply not_elem_of_nil in Ht.
    apply elem_of_map in Ht as (ns & -> & Hns). by exists c, ns.
  - intros (c & ns & Hc & Hns & Hr & Hm & ->). exists c. split; [|done]. rewrite Hr Hm /=.
    apply elem_of_map. by exists ns.
Qed.

(** The namespaces of the decisions on one cluster, in order. *)
Definition namespaces_on (c : string) (ds : list Decision) : list string :=
  map (λ d, t_Namespace (d_Target d)) (filter (λ d, t_ClusterName (d_Target d) = c) ds).

(** The loop state after the decisions [ds]. *)
Record grouped (tn : string) (ds : list Decision) (acc : list ResolvedTarget * gmap string nat) : Prop := {
  gr_index : ∀ c i, acc.2 !! c = Some i → acc.1 !! i =
    Some {| rt_ClusterName := c; rt_Namespaces := namespaces_on c ds; rt_TargetName := tn |};
  gr_all : ∀ i rt, acc.1 !! i = Some rt → acc.2 !! rt_ClusterName rt = Some i;
  gr_clusters : ∀ c, is_Some (acc.2 !! c) ↔ namespaces_on c ds ≠ [];
}.

Lemma namespaces_on_snoc c ds d :
  namespaces_on c (ds ++ [d]) =
  namespaces_on c ds ++ (if decide (t_ClusterName (d_Target d) = c) then [t_Namespace (d_Target d)] else []).
Proof.
  unfold namespaces_on. rewrite filter_app map_app filter_cons. by case_decide.
Qed.

Lemma add_resolved_grouped tn ds d acc :
  grouped tn ds acc → grouped tn (ds ++ [d]) (add_resolved tn acc d).
Proof.
  destruct acc as [rs m]. intros [HI HA HC]; simpl in HI, HA, HC.
  set (c := t_ClusterName (d_Target d)). set (ns := t_Namespace (d_Target d)).
  assert (∃ rs' m' i, add_resolved tn (rs, m) d =
    (alter (λ rt, {| rt_ClusterName := rt_ClusterName rt;
        rt_Namespaces := rt_Namespaces rt ++ [ns]; rt_TargetName := rt_TargetName rt |}) i rs', m') ∧
    m' !! c = Some i ∧
    (∀ c' j, m' !! c' = Some j → rs' !! j =
       Some {| rt_ClusterName := c'; rt_Namespaces := namespaces_on c' ds; rt_TargetName := tn |}) ∧
    (∀ j rt, rs' !! j = Some rt → m' !! rt_ClusterName rt = Some j) ∧
    (∀ c', is_Some (m' !! c') ↔ c' = c ∨ namespaces_on c' ds ≠ [])) as (rs' & m' & i & -> & Hi & HI' & HA' & HC').
  { unfold add_resolved. fold c ns. destruct (m !! c) as [i|] eqn:E.
    - exists rs, m, i. split_and!; [done..|]. intros c'. rewrite HC. split; [by right|].
      intros [->|?]; [|done]. apply HC. eauto.
    - assert (namespaces_on c ds = []) as Hnil.
      { destruct (namespaces_on c ds) eqn:En; [done|]. exfalso.
        destruct (proj2 (HC c)) as [? Hs]; [by rewrite En|]. congruence. }
      exists (rs ++ [{| rt_ClusterName := c; rt_Namespaces := []; rt_TargetName := tn |}]),
        (<[c := length rs]> m), (length rs).
      split_and!; [done|by rewrite lookup_insert_eq|..].
      + intros c' j [[<- <-]|[Hne Hj]]%lookup_insert_Some.
        * rewrite lookup_app_r // Nat.sub_diag /= Hnil //.
        * apply HI in Hj. by apply lookup_app_l_Some.
      + intros j rt [Hj|[Hge Hj]]%lookup_app_Some.
        * apply HA in Hj. rewrite lookup_insert_ne //. congruence.
        * apply list_lookup_singleton_Some in Hj as [? <-]. rewrite lookup_insert_eq. f_equal. lia.
      + intros c'. rewrite lookup_insert_is_Some HC. split.
        * intros [<-|[_ ?]]; [by left|by right].
        * intros [->|?]; [by left|]. destruct (decide (c = c')); [by left|by right]. }
  split; simpl.
  - intros c' j Hj. rewrite namespaces_on_snoc. fold c ns. case_decide as Hc.
    + subst c'. assert (j = i) as -> by congruence.
      rewrite list_lookup_alter_eq (HI' c i Hi) //.
    + rewrite app_nil_r list_lookup_alter_ne; [|by apply HI']. intros <-.
      pose proof (HI' c i Hi) as E1. pose proof (HI' c' i Hj) as E2. congruence.
  - intros j rt. destruct (decide (j = i)) as [->|Hne].
    + rewrite list_lookup_alter_eq. intros (rt' & Hrt & ->)%fmap_Some. simpl. exact (HA' i rt' Hrt).
    + rewrite list_lookup_alter_ne //. apply HA'.
  - intros c'. rewrite HC' namespaces_on_snoc. fold c ns. case_decide as Hc.
    + subst. split; [intros _; by destruct (namespaces_on c ds)|by left].
    + rewrite app_nil_r. naive_solver.
Qed.

Lemma group_by_cluster_grouped tn ds : grouped tn ds (foldl (add_resolved tn) ([], ∅) ds).
Proof.
  induction ds as [|d ds IH] using rev_ind.
  - split; simpl.
    + intros c i. by rewrite lookup_empty.
    + done.
    + intros c. unfold namespaces_on. simpl. rewrite lookup_empty. split; [by intros []|done].
  - rewrite foldl_app /=. by apply add_resolved_grouped.
Qed.

Lemma group_by_cluster_spec tn ds :
  NoDup (map rt_ClusterName (group_by_cluster tn ds)) ∧
  ∀ rt, rt ∈ group_by_cluster tn ds ↔
    rt = {| rt_ClusterName := rt_ClusterName rt; rt_Namespaces := namespaces_on (rt_ClusterName rt) ds;
            rt_TargetName := tn |} ∧ rt_Namespaces rt ≠ [].
Proof.
  destruct (group_by_cluster_grouped tn ds) as [HI HA HC]. fold (group_by_cluster tn ds) in HI, HA.
  split.
  - apply NoDup_alt. intros i j c Hi Hj.
    apply list_lookup_fmap_Some in Hi as (rt & -> & Hi). apply list_lookup_fmap_Some in Hj as (rt' & E & Hj).
    apply HA in Hi, Hj. rewrite E in Hi. congruence.
  - intros rt. split.
    + intros [i Hi]%list_elem_of_lookup. pose proof (HA i rt Hi) as Hm.
      pose proof (HI _ _ Hm) as Hi'. rewrite Hi' in Hi. injection Hi as <-. split; [done|]. simpl.
      apply HC. eauto.
    + intros [-> Hne]. simpl in *. apply HC in Hne as [i Hi]. apply HI in Hi.
      by eapply list_elem_of_lookup_2.
Qed.

Lemma elem_of_namespaces_on c ns ds :
  ns ∈ namespaces_on c ds ↔ ∃ d, d ∈ ds ∧ t_ClusterName (d_Target d) = c ∧ t_Namespace (d_Target d) = ns.
Proof.
  unfold namespaces_on. rewrite elem_of_map. setoid_rewrite list_elem_of_filter. naive_solver.
Qed.

(** ** Properties *)

(** C7. The finalizer handshake and ownership: in every run of the controller,
    whatever the hub answers,
    - the source is patched in nothing but its finalizers; the finalizer is taken
      off only when the source is deleted or opted out and a read in this run
      showed that its Replication is gone or was never ours;
    - a Replication is created only for a source known to carry the finalizer and
      after a read answered NotFound; it is updated only when a read showed it
      owned by the source, and deleted only if moreover the source withdrew;
    - status writes change the TargetsResolved condition alone. *)
Theorem finalizer_handshake nn st pre a post
    (Hempty : r_trace st = []) (Hrun : r_trace (Reconcile nn st).2 = pre ++ a :: post) :
  match a with
  | PatchedSource orig new _ =>
      (∃ nn, GotSource nn (inr orig) ∈ pre) ∧
      new = set_finalizers (m_Finalizers new) orig ∧
      (∀ f, f ≠ Finalizer →
         ContainsFinalizer (m_Finalizers new) f = ContainsFinalizer (m_Finalizers orig) f) ∧
      (ContainsFinalizer (m_Finalizers new) Finalizer = false →
         withdrawn orig ∧
         ∃ res, GotReplication (source_key orig) res ∈ pre ∧ shows_gone orig res)
  | Created r _ =>
      ∃ obj err, finalized pre obj ∧ GotReplication (source_key obj) (inl err) ∈ pre ∧
        err_NotFound err = true ∧ SourceRef (rep_Spec r) =
          {| sr_Kind := gvk_Kind (gvk s); sr_Namespace := m_Namespace obj; sr_Name := m_Name obj;
             sr_UID := m_UID obj |}
  | Updated r _ =>
      ∃ obj rep, finalized pre obj ∧ GotReplication (source_key obj) (inr rep) ∈ pre ∧
        ownedBySource rep (m_Name obj) = true ∧ rep_Status r = rep_Status rep ∧
        rep_Finalizers r = rep_Finalizers rep
  | Deleted r _ =>
      ∃ nn obj, GotSource nn (inr obj) ∈ pre ∧ withdrawn obj ∧
        GotReplication (source_key obj) (inr r) ∈ pre ∧ ownedBySource r (m_Name obj) = true
  | UpdatedStatus r _ =>
      ∃ key rep, GotReplication key (inr rep) ∈ pre ∧ rep_Spec r = rep_Spec rep ∧
        ∀ ty, ty ≠ ReplicationConditionTargetsResolved →
          FindStatusCondition (Conditions (rep_Status r)) ty =
          FindStatusCondition (Conditions (rep_Status rep)) ty
  | _ => True
  end.
Proof.
  pose proof (request_run_justified nn st Hempty pre a post Hrun) as Hj.
  destruct a; simpl in Hj; try done.
  - destruct Hj as [Hsrc [[Hw ->]|(Hw & -> & Hgone)]]; simpl; split_and!; try done.
    + intros f Hf. by apply contains_add_other.
    + by rewrite contains_add.
    + intros f Hf. by apply contains_remove_other.
  - destruct Hj as (obj & resolved & err & Hfin & -> & ? & ?). by exists obj, err.
  - destruct Hj as (obj & resolved & rep & Hfin & ? & ? & ->). by exists obj, rep.
  - destruct Hj as (key & rep & cs & ? & -> & ?). by exists key, rep.
Qed.

(** What the target resolution was computed from. *)
Definition source_of (obj : Meta) (nsLabels : gmap string string) : Source :=
  {| s_Kind := gvk_Kind (gvk s); s_Namespace := m_Namespace obj; s_NamespaceLabels := nsLabels |}.

Lemma elem_of_decisions src cands policies b d :
  d ∈ result_filter (Evaluate {| q_Source := src; q_Targets := cands |} policies) b ↔
  ∃ t, t ∈ cands ∧ d = decide_target src t policies ∧ Allowed d = b.
Proof.
  unfold result_filter, Evaluate. simpl. rewrite list_elem_of_filter elem_of_map. naive_solver.
Qed.

(** The namespaces the evaluation allows on a cluster. *)
Lemma elem_of_allowed_namespaces src clusters sel nss policies c ns :
  ns ∈ namespaces_on c (result_Allowed
         (Evaluate {| q_Source := src; q_Targets := candidates clusters sel nss |} policies)) ↔
  ∃ r p, r ∈ clusters ∧ cl_Name r = c ∧ cl_Ready r = true ∧
    Matches sel (cl_Labels r) = true ∧ ns ∈ nss ∧ p ∈ policies ∧
    permits p src {| t_ClusterName := c; t_ClusterLabels := cl_Labels r; t_Namespace := ns |}.
Proof.
  rewrite elem_of_namespaces_on. unfold result_Allowed. setoid_rewrite elem_of_decisions.
  setoid_rewrite elem_of_candidates. split.
  - intros (d & (t & (r & ns' & ? & ? & ? & ? & ->) & -> & Ha) & Hcn & Hn).
    rewrite decide_target_target /= in Hcn, Hn. subst.
    apply decide_target_allowed in Ha as (p & ? & ?). by exists r, p.
  - intros (r & p & ? & <- & ? & ? & ? & ? & ?).
    set (t := {| t_ClusterName := cl_Name r; t_ClusterLabels := cl_Labels r; t_Namespace := ns |}).
    exists (decide_target src t policies). rewrite decide_target_target. split; [|done].
    exists t. split; [by exists r, ns|]. split; [done|]. apply decide_target_allowed. by exists p.
Qed.

Lemma denied_iff src t policies :
  Allowed (decide_target src t policies) = false ↔ ∀ p, p ∈ policies → ¬ permits p src t.
Proof. rewrite -Bool.not_true_iff_false decide_target_allowed. naive_solver. Qed.

(** C14. Target resolution: the resolved (cluster, namespace) pairs are exactly
    the ready discovered clusters that the request's selector matches, crossed with
    the requested namespaces, for which one of the listed policies permits the
    target; each cluster appears once, with at least one namespace and the
    requested name; the denied decisions are exactly those of the candidates that
    no policy permits. The source that the policies judge has the reconciler's kind,
    the object's namespace and the labels that this run reads of that namespace
    (none when the read fails), and the policies are those this run lists. *)
Theorem resolveTargets_correct obj parsed st resolved denied
    (Hr : (resolveTargets obj parsed st).1 = inr (resolved, denied)) :
  let clusters := rInventory (r_world st) in
  let nss := EffectiveNamespaces parsed (m_Namespace obj) in
  ∃ policies nsLabels,
    (∀ c ns, (∃ rt, rt ∈ resolved ∧ rt_ClusterName rt = c ∧ ns ∈ rt_Namespaces rt) ↔
       ∃ r p, r ∈ clusters ∧ cl_Name r = c ∧ cl_Ready r = true ∧
         Matches (ClusterSelector parsed) (cl_Labels r) = true ∧ ns ∈ nss ∧
         p ∈ policies ∧ permits p (source_of obj nsLabels)
           {| t_ClusterName := c; t_ClusterLabels := cl_Labels r; t_Namespace := ns |}) ∧
    NoDup (map rt_ClusterName resolved) ∧
    (∀ rt, rt ∈ resolved → rt_TargetName rt = TargetName parsed ∧ rt_Namespaces rt ≠ []) ∧
    (∀ d, d ∈ denied ↔ ∃ t, t ∈ candidates clusters (ClusterSelector parsed) nss ∧
       d = decide_target (source_of obj nsLabels) t policies ∧
       ∀ p, p ∈ policies → ¬ permits p (source_of obj nsLabels) t) ∧
    (candidates clusters (ClusterSelector parsed) nss ≠ [] →
       let nsRes := (rGetNamespaceLabels (m_Namespace obj) (r_world st)).1 in
       nsLabels = match nsRes with inr l => l | inl _ => ∅ end ∧
       r_trace (resolveTargets obj parsed st).2 =
       (r_trace st ++ [GotNamespace (m_Namespace obj) nsRes; ListedPolicies (inr policies)])%list).
Proof.
  clear order aggregate. intros clusters nss. unfold resolveTargets, mbind, SM_bind, sgets in Hr |- *.
  fold clusters nss in Hr |- *.
  destruct (candidates clusters (ClusterSelector parsed) nss) as [|t ts] eqn:Et.
  { simpl in Hr. injection Hr as <- <-. exists [], ∅. split_and!; try done.
    - intros c ns. split; [by intros (rt & ?%not_elem_of_nil & _)|].
      by intros (r & p & _ & _ & _ & _ & _ & ?%not_elem_of_nil & _).
    - constructor.
    - by intros rt ?%not_elem_of_nil.
    - intros d. split; [by intros ?%not_elem_of_nil|]. by intros (t & ?%not_elem_of_nil & _). }
  rewrite -Et in Hr |- *. clear Et t ts.
  unfold call in Hr |- *. destruct (rGetNamespaceLabels _ _) as [nsRes w1]. simpl in Hr |- *.
  set (nsl := match nsRes with inr l => l | inl _ => ∅ end) in Hr |- *.
  destruct (rListPolicies w1) as [[err|policies] w2]; [done|]. simpl in Hr |- *.
  injection Hr as <- <-. exists policies, nsl. fold (source_of obj nsl).
  set (src := source_of obj nsl). set (cands := candidates _ _ _).
  change (Evaluate _ policies) with (Evaluate {| q_Source := src; q_Targets := cands |} policies).
  set (result := Evaluate _ policies).
  destruct (group_by_cluster_spec (TargetName parsed) (result_Allowed result)) as [Hnd Hg].
  split_and!.
  - intros c ns. rewrite -(elem_of_allowed_namespaces src clusters _ nss). fold cands result. split.
    + intros (rt & [-> _]%Hg & <- & Hin). done.
    + intros Hin. exists {| rt_ClusterName := c;
        rt_Namespaces := namespaces_on c (result_Allowed result); rt_TargetName := TargetName parsed |}.
      split_and!; [|done|done]. apply Hg. split; [done|]. simpl. intros E. rewrite E in Hin.
      by apply not_elem_of_nil in Hin.
  - done.
  - intros rt [-> Hne]%Hg. done.
  - intros d. unfold result, result_Denied. rewrite elem_of_decisions. apply exist_proper. intros t.
    pose proof (denied_iff src t policies). naive_solver.
  - intros _. split; [done|]. by rewrite -app_assoc.
Qed.

(** A Replication as the hub stores the desired one: only what the hub assigns,
    the engine's finalizer and the status may differ. *)
Definition stored_as (desired rep : Replication) : Prop :=
  rep_Namespace rep = rep_Namespace desired ∧ rep_Spec rep = rep_Spec desired ∧
  rep_Labels rep = rep_Labels desired ∧ rep_OwnerReferences rep = rep_OwnerReferences desired.

Lemma stored_specEqual desired rep : stored_as desired rep → specEqual rep desired = true.
Proof.
  unfold specEqual. intros (_ & -> & -> & ->). by rewrite !bool_decide_eq_true_2.
Qed.

Lemma stored_controller `{CL : !ControllerLaws} obj name resolved rep :
  stored_as (desiredReplication obj name resolved) rep →
  ∃ ref, GetControllerOf (rep_OwnerReferences rep) = Some ref ∧
    or_APIVersion ref = GroupVersionString (gvk s) ∧ or_Kind ref = gvk_Kind (gvk s) ∧
    or_Name ref = m_Name obj.
Proof. intros (_ & _ & _ & ->). eexists. split; [by apply single_controller|done]. Qed.

Lemma stored_owned `{CL : !ControllerLaws} `{GL : !GroupVersionLaws W} obj name resolved rep :
  plain_gvk (gvk s) → stored_as (desiredReplication obj name resolved) rep → ownedBySource rep (m_Name obj) = true.
Proof.
  intros [? ?] (ref & Href & Hv & Hk & Hn)%stored_controller. unfold ownedBySource.
  rewrite Href Hv parse_string // Hk Hn. by rewrite !bool_decide_eq_true_2.
Qed.

(** The Replication a source materializes leads back to it: once stored it is
    recognised as owned by that source and as up to date, its events enqueue that
    source, and so does a re-resolution of all sources of the kind. *)
Theorem materialized_leads_back `{CL : !ControllerLaws} `{GL : !GroupVersionLaws W}
    obj name resolved rep (Hg : plain_gvk (gvk s))
    (Hs : stored_as (desiredReplication obj name resolved) rep) :
  let src := {| nn_Namespace := m_Namespace obj; nn_Name := m_Name obj |} in
  ownedBySource rep (m_Name obj) = true ∧
  specEqual rep (desiredReplication obj name resolved) = true ∧
  mapReplicationToSource rep = [src] ∧ mapAllSources [rep] = [src].
Proof.
  intros src. split_and!; [by eapply stored_owned|by apply stored_specEqual|..].
  - destruct (stored_controller _ _ _ _ Hs) as (ref & Href & Hv & Hk & Hn).
    destruct Hg. unfold mapReplicationToSource. rewrite Href Hv parse_string // Hk Hn.
    rewrite !bool_decide_eq_true_2 //=. by destruct Hs as (-> & _).
  - destruct Hs as (_ & Hspec & _). unfold mapAllSources. rewrite /omap /list_omap.
    rewrite Hspec decide_True //.
Qed.

(** An act that leaves the hub alone. *)
Definition reads_only (a : RAct) : bool :=
  match a with
  | PatchedSource _ _ _ | Created _ _ | Updated _ _ | UpdatedStatus _ _ | Deleted _ _ => false
  | _ => true
  end.

(** One step of the run that appends only reads. *)
Definition quiet_step {A} (m : M A) (a : A) : Prop :=
  ∀ st, ∃ t w, m st = (a, {| r_world := w; r_trace := r_trace st ++ t |}) ∧
    Forall (λ a, reads_only a = true) t.

Lemma quiet_seq {A B} (m : M A) a (f : A → M B) b :
  quiet_step m a → quiet_step (f a) b → quiet_step (m ≫= f) b.
Proof.
  intros Hm Hf st. destruct (Hm st) as (t1 & w1 & E1 & H1).
  destruct (Hf {| r_world := w1; r_trace := r_trace st ++ t1 |}) as (t2 & w2 & E2 & H2).
  exists (t1 ++ t2), w2. unfold mbind, SM_bind. rewrite E1 E2 /= app_assoc.
  split; [done|by apply Forall_app].
Qed.

Lemma quiet_done {A} (a : A) : quiet_step (mret a) a.
Proof. intros [w t]. exists [], w. by rewrite app_nil_r. Qed.

Lemma quiet_call {A} (m : SM W A) act a :
  (∀ w, (m w).1 = a) → reads_only (act a) = true → quiet_step (call m act) a.
Proof.
  intros Hm Ha st. specialize (Hm (r_world st)). unfold call.
  destruct (m (r_world st)) as [b w]. simpl in Hm. subst b. exists [act a], w. by repeat constructor.
Qed.

Lemma silent_event r msg : quiet_step (Eventf r msg) tt.
Proof. intros st. exists [Emitted r msg], (r_world st). by repeat constructor. Qed.

Lemma quiet_store `{CL : !ControllerLaws} `{GL : !GroupVersionLaws W} obj resolved rep :
  plain_gvk (gvk s) → (∀ w, (rGetReplication (source_key obj) w).1 = inr rep) →
  stored_as (desiredReplication obj (nn_Name (source_key obj)) resolved) rep →
  quiet_step (store obj resolved) (inr tt).
Proof.
  intros Hg Hrep Hst. unfold store. eapply quiet_seq; [by apply quiet_call|]. cbv beta iota.
  rewrite (stored_owned _ _ _ _ Hg Hst) /= (stored_specEqual _ _ Hst). apply quiet_done.
Qed.

Lemma quiet_report key rep resolved denied c0 :
  (∀ w, (rGetReplication key w).1 = inr rep) →
  FindStatusCondition (Conditions (rep_Status rep)) ReplicationConditionTargetsResolved = Some c0 →
  same_condition c0 (resolution_condition (rep_Generation rep) resolved denied) →
  quiet_step (reportTargetResolution key resolved denied) None.
Proof.
  intros Hrep Hc Hsame. unfold reportTargetResolution.
  eapply quiet_seq; [by apply quiet_call|]. cbv beta iota. intros st.
  unfold mbind, SM_bind, sgets.
  rewrite (set_same_noop (rNow (r_world st)) _ _ c0); [|done|apply quiet_done].
  by destruct resolved, denied.
Qed.

(** C36. A settled request causes no writes: when the source carries the finalizer,
    its Replication is stored as resolved and the TargetsResolved condition says so
    already, [Reconcile] only reads (and may repeat the denial event). *)
Theorem settled_request_untouched `{CL : !ControllerLaws} `{GL : !GroupVersionLaws W}
    nn st obj parsed resolved denied rep c0
    (Hsrc : ∀ w, (rGetSource nn w).1 = inr obj)
    (Hg : plain_gvk (gvk s)) (Hen : enabled s = true) (Hlive : ¬ withdrawn obj)
    (Hfin : ContainsFinalizer (m_Finalizers obj) Finalizer = true)
    (Hparse : Parse (order (m_Annotations obj)) (m_Annotations obj) = inr (Some parsed))
    (Hres : ∀ st, (resolveTargets obj parsed st).1 = inr (resolved, denied))
    (Hrep : ∀ w, (rGetReplication (source_key obj) w).1 = inr rep)
    (Hst : stored_as (desiredReplication obj (nn_Name (source_key obj)) resolved) rep)
    (Hc : FindStatusCondition (Conditions (rep_Status rep)) ReplicationConditionTargetsResolved = Some c0)
    (Hsame : same_condition c0 (resolution_condition (rep_Generation rep) resolved denied)) :
  (Reconcile nn st).1 = None ∧
  ∃ t, r_trace (Reconcile nn st).2 = r_trace st ++ t ∧ Forall (λ a, reads_only a = true) t.
Proof.
  enough (quiet_step (Reconcile nn) None) as Hq.
  { destruct (Hq st) as (t & w & -> & Ht). split; [done|]. by exists t. }
  assert (quiet_step (resolveTargets obj parsed) (inr (resolved, denied))) as Hquiet.
  { intros st'. specialize (Hres st'). unfold resolveTargets, mbind, SM_bind, sgets, call in Hres |- *.
    simpl in Hres |- *. destruct (candidates _ _ _) as [|x xs]; simpl in Hres |- *.
    - destruct st' as [w t]. exists [], w. rewrite app_nil_r. split; [|done]. by injection Hres as <- <-.
    - destruct (rGetNamespaceLabels _ _) as [nsRes w1]. simpl in Hres |- *.
      destruct (rListPolicies w1) as [[err|ps] w2]; simpl in Hres |- *; [done|].
      exists [GotNamespace (m_Namespace obj) nsRes; ListedPolicies (inr ps)], w2.
      rewrite -app_assoc. split; [by injection Hres as <- <-|by repeat constructor]. }
  unfold Reconcile. eapply quiet_seq; [by apply quiet_call|]. cbv beta iota.
  rewrite Hen /= bool_decide_eq_false_2; [intros Hd; apply Hlive; by left|].
  destruct (Replicates (m_Annotations obj)) eqn:Erep; [|by destruct Hlive; right]. simpl.
  rewrite Hparse. unfold materialize, ensure_finalizer. rewrite Hfin.
  eapply quiet_seq; [apply quiet_done|]. cbv beta iota.
  eapply quiet_seq; [exact Hquiet|]. cbv beta iota.
  eapply quiet_seq; [destruct denied; [apply quiet_done|apply silent_event]|]. cbv beta.
  eapply quiet_seq; [by eapply quiet_store|]. cbv beta iota. by eapply quiet_report.
Qed.
End laws.
End request.

(** ** replication_controller.go *)

Section authority.
Context {W : Type} `{HubW : RequestHub W} `{MetaAPI}.

Definition authority_condition (type status message : string) (gen : Z) : Condition :=
  {| c_Type := type; c_Status := status; c_ObservedGeneration := gen; c_LastTransitionTime := 0;
     c_Reason := ReasonNotAuthoritative; c_Message := message |}.

Definition marked (gen : Z) : Condition :=
  authority_condition ConditionNotAuthoritative ConditionTrue
    "Replication was not materialized by the operator (no owning source); it will never be reconciled"
    gen.

Definition not_ready (gen : Z) : Condition :=
  authority_condition ReplicationConditionReady ConditionFalse
    ("hand-authored Replication objects are ignored; request replication by annotating the "
     +:+ "source object") gen.

(** The new conditions and [changed]. *)
Definition authority_conditions (now : Z) (rep : Replication) : list Condition * bool :=
  let cs := Conditions (rep_Status rep) in
  match GetControllerOf (rep_OwnerReferences rep) with
  | None =>
      let '(cs1, changed1) := SetStatusCondition now cs (marked (rep_Generation rep)) in
      let '(cs2, changed2) := SetStatusCondition now cs1 (not_ready (rep_Generation rep)) in
      (cs2, changed2 || changed1)
  | Some _ =>
      match FindStatusCondition cs ConditionNotAuthoritative with
      | Some _ => RemoveStatusCondition cs ConditionNotAuthoritative
      | None => (cs, false)
      end
  end.

Definition authority_Reconcile (nn : NamespacedName) : SM (RState W) (option apiError) :=
  res ← call (rGetReplication nn) (GotReplication nn);
  match res with
  | inl err => mret (if err_NotFound err then None else Some err)
  | inr rep =>
      now ← sgets (λ st, rNow (r_world st));
      let '(cs, changed) := authority_conditions now rep in
      if changed : bool
      then call (rUpdateStatus (with_conditions rep cs)) (UpdatedStatus (with_conditions rep cs))
      else mret None
  end.

Context `{ML : !MetaLaws}.

(** Setting a condition again, under any clock, changes nothing. *)
Lemma set_again now now' cs c : SetStatusCondition now' (SetStatusCondition now cs c).1 c =
  ((SetStatusCondition now cs c).1, false).
Proof.
  destruct (find_set_same now cs c) as (c' & Hf & Hs). by eapply set_same_noop.
Qed.

(** Hand-authored Replications are marked and nothing else: without a
    controlling owner the conditions become NotAuthoritative=True and Ready=False;
    with one, NotAuthoritative goes and every other condition stays; and a second
    look at the resulting status changes nothing, so the controller settles. *)
Theorem authority_marking now now' rep :
  let cs := (authority_conditions now rep).1 in
  match GetControllerOf (rep_OwnerReferences rep) with
  | None =>
      (∃ c, FindStatusCondition cs ConditionNotAuthoritative = Some c ∧ c_Status c = ConditionTrue) ∧
      (∃ c, FindStatusCondition cs ReplicationConditionReady = Some c ∧ c_Status c = ConditionFalse ∧
            c_Reason c = ReasonNotAuthoritative)
  | Some _ =>
      FindStatusCondition cs ConditionNotAuthoritative = None ∧
      ∀ ty, ty ≠ ConditionNotAuthoritative →
        FindStatusCondition cs ty = FindStatusCondition (Conditions (rep_Status rep)) ty
  end ∧
  authority_conditions now' (with_conditions rep cs) = (cs, false).
Proof.
  unfold authority_conditions. simpl.
  destruct (GetControllerOf (rep_OwnerReferences rep)) as [ref|] eqn:Ec.
  - destruct (FindStatusCondition (Conditions (rep_Status rep)) ConditionNotAuthoritative)
      as [c|] eqn:Ef; simpl.
    + pose proof (find_remove_same (Conditions (rep_Status rep)) ConditionNotAuthoritative) as Hs.
      rewrite Hs. split_and!; [done| |done]. intros ty Hty. by apply find_remove_other.
    + rewrite Ef. done.
  - set (m := marked (rep_Generation rep)). set (n := not_ready (rep_Generation rep)).
    set (cs0 := Conditions (rep_Status rep)).
    pose proof (find_set_same now cs0 m) as (c1 & F1 & S1).
    destruct (SetStatusCondition now cs0 m) as [cs1 b1] eqn:E1. simpl in F1.
    pose proof (find_set_same now cs1 n) as (c2 & F2 & S2).
    pose proof (find_set_other now cs1 n (c_Type m) ltac:(done)) as F3.
    pose proof (set_again now now' cs1 n) as A2.
    destruct (SetStatusCondition now cs1 n) as [cs2 b2] eqn:E2. simpl in *.
    rewrite F1 in F3. split_and!.
    + exists c1. split; [done|]. by destruct S1 as (_ & -> & _).
    + exists c2. split; [done|]. by destruct S2 as (_ & -> & _ & -> & _).
    + by rewrite (set_same_noop now' cs2 m c1 F3 S1) A2.
Qed.
End authority.

(** ** Names *)

Lemma length_hash8 x : String.length (hash8 x) = 8%nat.
Proof. unfold hash8. by rewrite take_str_length length_sha256_hex. Qed.

Lemma length_dash x y : String.length (x +:+ "-" +:+ y) = (String.length x + 1 + String.length y)%nat.
Proof. rewrite !length_string_app. change (String.length "-") with 1%nat. lia. Qed.

(** A name cut to [n] bytes and trimmed on the right. *)
Definition cut_name (n : nat) (cs : list ascii) (x : string) : string := TrimRight (take_str n x) cs.

Lemma cut_name_spec n cs x :
  (String.length (cut_name n cs x) ≤ n)%nat ∧ (∃ r, x = cut_name n cs x +:+ r) ∧
  ∀ p c, c ∈ cs → cut_name n cs x ≠ p +:+ str1 c.
Proof.
  unfold cut_name. split_and!.
  - pose proof (TrimRight_length (take_str n x) cs) as H. rewrite take_str_length in H. lia.
  - destruct (take_str_prefix n x) as [r Hr]. destruct (TrimRight_prefix (take_str n x) cs) as [q Hq].
    exists (q +:+ r). by rewrite -string_app_assoc -Hq.
  - intros p c. apply TrimRight_end.
Qed.

(** C37. The derived names fit Kubernetes' limits. A Replication's name is at most
    253 bytes and ends in a dash and the eight hex digits of the source's hash,
    after "<kind>-<name>" or, when that is longer than 244 bytes, a prefix of it
    that ends in neither a dash nor a dot; a label value is at most 63 bytes, the
    name itself when that fits, and otherwise a hashed prefix that does not end in
    a dash, dot or underscore. *)
Theorem names_fit kind name :
  let full := ToLower kind +:+ "-" +:+ name in
  (String.length (ReplicationName kind name) ≤ 253)%nat ∧
  (∃ base rest, ReplicationName kind name = base +:+ "-" +:+ hash8 (kind +:+ "/" +:+ name) ∧
     full = base +:+ rest ∧
     ((String.length full ≤ 244)%nat → base = full) ∧
     ((244 < String.length full)%nat → ∀ p c, c ∈ [chr 45; chr 46] → base ≠ p +:+ str1 c)) ∧
  (String.length (labelSafeValue name) ≤ 63)%nat ∧
  ((String.length name ≤ 63)%nat → labelSafeValue name = name) ∧
  ((63 < String.length name)%nat → ∃ base rest, labelSafeValue name = base +:+ "-" +:+ hash8 name ∧
     name = base +:+ rest ∧ ∀ p c, c ∈ [chr 45; chr 46; chr 95] → base ≠ p +:+ str1 c).
Proof.
  intros full. unfold ReplicationName, labelSafeValue. fold full.
  fold (cut_name 244 [chr 45; chr 46] full). fold (cut_name 54 [chr 45; chr 46; chr 95] name).
  destruct (cut_name_spec 244 [chr 45; chr 46] full) as (L1 & [r1 P1] & E1).
  destruct (cut_name_spec 54 [chr 45; chr 46; chr 95] name) as (L2 & [r2 P2] & E2).
  split_and!.
  - rewrite length_dash length_hash8. destruct (Nat.ltb_spec 244 (String.length full)); lia.
  - destruct (Nat.ltb_spec 244 (String.length full)).
    + exists (cut_name 244 [chr 45; chr 46] full), r1. split_and!; [done|done|lia|done].
    + exists full, "". split_and!; [done|by rewrite string_app_nil_r|done|lia].
  - destruct (Nat.leb_spec (String.length name) 63); [done|]. rewrite length_dash length_hash8. lia.
  - intros H. by destruct (Nat.leb_spec (String.length name) 63); [|lia].
  - intros H. destruct (Nat.leb_spec (String.length name) 63); [lia|].
    by exists (cut_name 54 [chr 45; chr 46; chr 95] name), r2.
Qed.
