(* ===== verification/RequestWorld.v ===== *)
(** A hub with fixed answers, and the witnesses of the request controller's
    theorems on it. *)
From S2P Require Import Prelude GoLib Sha256 Api Labels Annotations Policy Unstructured Discovery.
From S2P Require Import Request.

#[local] Open Scope string_scope.
#[local] Open Scope list_scope.

#[local] Existing Instance LabelsModel.api.
#[local] Existing Instance LabelsModel.laws.
#[local] Existing Instance MetaModel.api.
#[local] Existing Instance MetaModel.laws.

Definition gv_string (g : GroupVersionKind) : string :=
  if decide (gvk_Group g = "") then gvk_Version g
  else gvk_Group g +:+ String (chr 47) (gvk_Version g).

(** A ready cluster and one that is not. *)
Definition q_clusters : list ClusterRecord :=
  [{| cl_Name := "c2"; cl_Labels := {[ "env" := "dev" ]}; cl_Ready := false;
      cl_CredentialRef := {| cr_Namespace := "f"; cr_Name := "c2-kubeconfig" |} |};
   {| cl_Name := "c1"; cl_Labels := {[ "env" := "dev" ]}; cl_Ready := true;
      cl_CredentialRef := {| cr_Namespace := "f"; cr_Name := "c1-kubeconfig" |} |}].

(** The source [obj] and the Replication answer [rep] never change. *)
Definition fixed_hub (obj : Meta) (rep : apiError + Replication) : RequestHub unit := {|
  rGetSource _ w := (inr obj, w);
  rPatchSource _ new w := (inr new, w);
  rGetReplication _ w := (rep, w);
  rCreate _ w := (None, w);
  rUpdate _ w := (None, w);
  rUpdateStatus _ w := (None, w);
  rDelete _ w := (None, w);
  rGetNamespaceLabels _ w := (inr ∅, w);
  rListPolicies w := (inr [pol_dev; pol_all], w);
  rInventory _ := q_clusters;
  rNow _ := 1000%Z;
  GroupVersionString := gv_string;
|}.

Lemma fixed_gv_laws obj rep : GroupVersionLaws unit (H := fixed_hub obj rep).
Proof.
  split. intros [g v k] Hg Hv. simpl in *. unfold gv_string, MetaModel.cut_group. simpl.
  case_decide as Hd.
  - subst. by rewrite Split_plain.
  - rewrite Split_app // Split_plain //.
Qed.

Lemma model_controller : ControllerLaws.
Proof. split. intros r Hr. simpl. by rewrite decide_True. Qed.

Definition q_secret : sourceReconciler :=
  {| gvk := {| gvk_Group := ""; gvk_Version := "v1"; gvk_Kind := "Secret" |}; enabled := true;
     enabledKinds := "ConfigMap, Secret" |}.

Lemma q_plain : plain_gvk (gvk q_secret).
Proof. split; apply (bool_decide_unpack _); vm_compute; exact I. Qed.

Definition q_source (finalizers : list string) : Meta :=
  {| m_Namespace := "platform"; m_Name := "pull"; m_UID := "u-1";
     m_Annotations := {[ KeyReplicate := "true"; KeyTargetClusters := "env=dev";
                         KeyTargetNamespaces := "apps,elsewhere" ]};
     m_DeletionTimestamp := None; m_Finalizers := finalizers |}.

Definition q_missing : apiError + Replication :=
  inl {| err_NotFound := true; err_AlreadyExists := false; err_Text := "not found" |}.

Definition q_start : RState unit := {| r_world := tt; r_trace := [] |}.

Definition q_order (m : gmap string string) : list string := keys m.

(** The first run of a new source. *)
Definition q_run : option apiError * RState unit :=
  Reconcile (HubW := fixed_hub (q_source []) q_missing) q_secret q_order (λ _, "")
    {| nn_Namespace := "platform"; nn_Name := "pull" |} q_start.

Definition act_name (a : RAct) : string :=
  match a with
  | GotSource _ _ => "get source"
  | PatchedSource _ _ _ => "patch source"
  | GotReplication _ _ => "get replication"
  | Created _ _ => "create"
  | Updated _ _ => "update"
  | UpdatedStatus _ _ => "update status"
  | Deleted _ _ => "delete"
  | GotNamespace _ _ => "get namespace"
  | ListedPolicies _ => "list policies"
  | Emitted r _ => r
  end.

Example q_run_acts : map act_name (r_trace q_run.2) =
  ["get source"; "patch source"; "get namespace"; "list policies"; "PolicyDenied";
   "get replication"; "create"; "get replication"].
Proof. vm_refl. Qed.

Definition q_resolved : list ResolvedTarget :=
  [{| rt_ClusterName := "c1"; rt_Namespaces := ["apps"]; rt_TargetName := "" |}].

Definition q_created : Replication :=
  desiredReplication (HubW := fixed_hub (q_source []) q_missing) q_secret (q_source [Finalizer])
    (ReplicationName "Secret" "pull") q_resolved.

Lemma q_run_create : r_trace q_run.2 !! 6 = Some (Created q_created None).
Proof. vm_refl. Qed.

Lemma finalizer_handshake_witness :
  r_trace q_run.2 !! 6 = Some (Created q_created None) ∧
  ∃ obj, finalized (take 6 (r_trace q_run.2)) obj ∧ m_Name obj = "pull".
Proof.
  split; [exact q_run_create|].
  destruct (finalizer_handshake (HubW := fixed_hub (q_source []) q_missing) q_secret q_order (λ _, "")
    {| nn_Namespace := "platform"; nn_Name := "pull" |} q_start (take 6 (r_trace q_run.2))
    (Created q_created None) (drop 7 (r_trace q_run.2)) eq_refl (split_at q_run_create))
    as (obj & err & Hfin & _ & _ & Hsrc).
  exists obj. split; [exact Hfin|]. exact (eq_sym (f_equal sr_Name Hsrc)).
Defined.

Definition q_parsed : Request := spec_request (m_Annotations (q_source [])).

Lemma resolveTargets_correct_witness :
  let run := resolveTargets (HubW := fixed_hub (q_source []) q_missing) q_secret (q_source []) q_parsed q_start in
  ∃ (policies : list ReplicationPolicy) nsLabels p,
    r_trace run.2 = [GotNamespace "platform" (inr nsLabels); ListedPolicies (inr policies)] ∧
    p ∈ policies ∧
    permits p (source_of q_secret (q_source []) nsLabels)
      {| t_ClusterName := "c1"; t_ClusterLabels := {[ "env" := "dev" ]}; t_Namespace := "apps" |}.
Proof.
  intros run.
  destruct (resolveTargets_correct (HubW := fixed_hub (q_source []) q_missing) q_secret
    (q_source []) q_parsed q_start q_resolved
    [decide_target (source_of q_secret (q_source []) ∅)
       {| t_ClusterName := "c1"; t_ClusterLabels := {[ "env" := "dev" ]}; t_Namespace := "elsewhere" |}
       [pol_dev; pol_all]] ltac:(vm_refl)) as (ps & nsl & Hr & _ & _ & _ & Hreads).
  destruct (Hreads ltac:(discriminate)) as [-> Htr].
  destruct (proj1 (Hr "c1" "apps")) as (r & p & Hin & Hc & Hready & _ & _ & Hp & Hperm).
  { eexists. split; [left|]. split; [reflexivity|left]. }
  exists ps, ∅, p. split; [exact Htr|]. split; [exact Hp|].
  apply elem_of_cons in Hin as [->|Hin]; [discriminate|].
  apply list_elem_of_singleton in Hin as ->. exact Hperm.
Defined.

Lemma materialized_leads_back_witness :
  mapReplicationToSource q_secret q_created = [{| nn_Namespace := "platform"; nn_Name := "pull" |}].
Proof.
  apply (materialized_leads_back (HubW := fixed_hub (q_source []) q_missing)
    (CL := model_controller) (GL := fixed_gv_laws _ _) q_secret (q_source [Finalizer])
    (ReplicationName "Secret" "pull") q_resolved q_created q_plain).
  repeat split.
Defined.

(** The Replication of the second run: stored, with the engine's finalizer and the
    condition of the first. *)
Definition q_denied : list Decision :=
  [decide_target (source_of q_secret (q_source []) ∅)
     {| t_ClusterName := "c1"; t_ClusterLabels := {[ "env" := "dev" ]}; t_Namespace := "elsewhere" |}
     [pol_dev; pol_all]].

Definition q_stored : Replication :=
  let d := with_conditions q_created [resolution_condition 1 q_resolved q_denied] in
  {| rep_Namespace := rep_Namespace d; rep_Name := rep_Name d; rep_UID := "r-1"; rep_Generation := 1;
     rep_DeletionTimestamp := None; rep_Finalizers := ["r8r.io/engine"]; rep_Labels := rep_Labels d;
     rep_OwnerReferences := rep_OwnerReferences d; rep_Spec := rep_Spec d; rep_Status := rep_Status d |}.

Definition q_hub2 : RequestHub unit := fixed_hub (q_source [Finalizer]) (inr q_stored).

Lemma settled_request_witness :
  (Reconcile (HubW := q_hub2) q_secret q_order (λ _, "")
    {| nn_Namespace := "platform"; nn_Name := "pull" |} q_start).1 = None.
Proof.
  refine (proj1 (settled_request_untouched (HubW := q_hub2) (CL := model_controller)
    (GL := fixed_gv_laws _ _) q_secret q_order (λ _, "")
    {| nn_Namespace := "platform"; nn_Name := "pull" |} q_start (q_source [Finalizer]) q_parsed
    q_resolved q_denied q_stored (resolution_condition 1 q_resolved q_denied)
    (λ _, eq_refl) q_plain eq_refl _ _ _ _ (λ _, eq_refl) _ eq_refl _)).
  - intros [H|H]; [by apply H|discriminate].
  - reflexivity.
  - vm_refl.
  - intros [[] t]. vm_refl.
  - repeat split.
  - repeat split.
Defined.

(** A hand-authored Replication. *)
Definition q_hand : Replication :=
  {| rep_Namespace := "platform"; rep_Name := "mine"; rep_UID := "r-2"; rep_Generation := 1;
     rep_DeletionTimestamp := None; rep_Finalizers := []; rep_Labels := ∅; rep_OwnerReferences := [];
     rep_Spec := rep_Spec q_created; rep_Status := empty_status |}.

Lemma authority_marking_witness :
  (authority_conditions 5 q_hand).2 = true ∧
  (authority_conditions 6 (with_conditions q_hand (authority_conditions 5 q_hand).1)).2 = false.
Proof. split; [reflexivity|]. exact (f_equal snd (proj2 (authority_marking 5 6 q_hand))). Defined.
