(* ===== verification/RequestTriggers.v ===== *)
(** What wakes the request controller: [SetupWithManager] of
    internal/controller/request/controller.go, which decides the kinds that are
    watched and gives each enabled one a trigger channel, the predicate on source
    events, and the notification that the cluster inventory changed. *)
From S2P Require Import Prelude GoLib Api Labels Annotations Policy Unstructured Discovery Request.
From S2P Require Import Triggers RequestWorld.

#[local] Open Scope string_scope.
#[local] Open Scope list_scope.

(** ** [SetupWithManager] *)

Definition allow_of (allowlist : option (list GroupVersionKind)) : list GroupVersionKind :=
  default DefaultAllowlist allowlist.

(** The kinds to watch: the enabled ones, then the others of [WatchKinds]. *)
Definition watched_kinds (allow watchKinds : list GroupVersionKind) : list GroupVersionKind :=
  allow ++ filter (λ g, g ∉ allow) watchKinds.

(** [r.clusterTriggers]: how many events each channel, of capacity one, holds. *)
Record Setup := { reconcilers : list sourceReconciler; clusterTriggers : list nat }.

(** The loop over the watched kinds; [complete] is the builder's [Complete], which
    may refuse a controller. *)
Fixpoint setup_kinds (complete : sourceReconciler → option string) (allow : list GroupVersionKind)
    (kindNames : list string) (watched : list GroupVersionKind) (st : Setup) : Setup * option string :=
  match watched with
  | [] => (st, None)
  | g :: rest =>
      let sr := {| gvk := g; enabled := bool_decide (g ∈ allow); enabledKinds := Join kindNames ", " |} in
      let triggers := if enabled sr then clusterTriggers st ++ [0%nat] else clusterTriggers st in
      match complete sr with
      | Some err =>
          ({| reconcilers := reconcilers st; clusterTriggers := triggers |},
           Some ("setting up " +:+ gvk_Kind g +:+ " request controller: " +:+ err))
      | None =>
          setup_kinds complete allow kindNames rest
            {| reconcilers := reconcilers st ++ [sr]; clusterTriggers := triggers |}
      end
  end.

(** [completeAuthority] completes the controller of hand-authored Replications;
    the client, the scheme and the recorder come with the manager. *)
Definition SetupWithManager (haveInventory : bool) (complete : sourceReconciler → option string)
    (completeAuthority : option string) (allowlist : option (list GroupVersionKind))
    (watchKinds : list GroupVersionKind) : Setup * option string :=
  let start := {| reconcilers := []; clusterTriggers := [] |} in
  if negb haveInventory then (start, Some "request.Reconciler: Inventory is required")
  else
    let allow := allow_of allowlist in
    let kindNames := Sort (map gvk_Kind allow) in
    match setup_kinds complete allow kindNames (watched_kinds allow watchKinds) start with
    | (st, Some err) => (st, Some err)
    | (st, None) => (st, completeAuthority)
    end.

(** A send that does not block, on a channel of capacity one. *)
Definition trigger (n : nat) : nat := if (n <? 1)%nat then S n else n.

Definition NotifyClusterInventoryChanged (st : Setup) : Setup :=
  {| reconcilers := reconcilers st; clusterTriggers := map trigger (clusterTriggers st) |}.

Definition ClusterEventHandler (_ : DiscoveryEvent) (st : Setup) : Setup :=
  NotifyClusterInventoryChanged st.

(** The controller takes an event off its channel. *)
Definition take_trigger (i : nat) (st : Setup) : Setup :=
  {| reconcilers := reconcilers st; clusterTriggers := alter pred i (clusterTriggers st) |}.

(** ** Source events *)

Section predicate.
Context `{MetaAPI}.

Inductive source_event :=
  | CreateEvent (o : Meta)
  | UpdateEvent (old new : Meta)
  | DeleteEvent (o : Meta)
  | GenericEvent (o : Meta).

Definition relevant (o : Meta) : bool :=
  HasRequest (m_Annotations o) || ContainsFinalizer (m_Finalizers o) Finalizer.

Definition sourcePredicate (e : source_event) : bool :=
  match e with
  | CreateEvent o => relevant o
  | UpdateEvent old new => relevant old || relevant new
  | DeleteEvent _ => false
  | GenericEvent _ => true
  end.
End predicate.

(** ** Re-resolution *)

Section remap.
Context `{ReplicationReader}.

(** The list call of [mapAllSources]. *)
Definition source_list (s : sourceReconciler) : ListOptions :=
  {| InNamespace := ""; MatchingFields := None;
     MatchingLabels := {[ ManagedByLabel := ManagedByValue;
                          SourceKindLabel := ToLower (gvk_Kind (gvk s)) ]} |}.

(** The function [remap] of the policy watch and of the trigger channel. *)
Definition remap (s : sourceReconciler) : list NamespacedName :=
  match List (source_list s) with None => [] | Some items => mapAllSources s items end.
End remap.

(** ** Lemmas *)

Lemma setup_kinds_ok complete allow names watched : ∀ st,
  (∀ s, complete s = None) →
  let mk g := {| gvk := g; enabled := bool_decide (g ∈ allow); enabledKinds := Join names ", " |} in
  setup_kinds complete allow names watched st =
    ({| reconcilers := reconcilers st ++ map mk watched;
        clusterTriggers := clusterTriggers st ++ replicate (length (filter (λ g, g ∈ allow) watched)) 0%nat |},
     None).
Proof.
  intros st Hc mk. revert st. induction watched as [|g watched IH]; intros [rs ts]; simpl.
  - by rewrite !app_nil_r.
  - rewrite Hc IH /= -!app_assoc /=. change (Build_sourceReconciler g _ _) with (mk g).
    destruct (decide (g ∈ allow)) as [Hg|Hg].
    + rewrite (bool_decide_eq_true_2 (g ∈ allow)) // filter_cons_True //= -app_assoc //.
    + rewrite (bool_decide_eq_false_2 (g ∈ allow)) // filter_cons_False //.
Qed.

Lemma setup_kinds_refused complete allow names watched g e : ∀ st,
  g ∈ watched →
  complete {| gvk := g; enabled := bool_decide (g ∈ allow); enabledKinds := Join names ", " |} = Some e →
  (setup_kinds complete allow names watched st).2 ≠ None.
Proof.
  induction watched as [|x watched IH]; intros st Hg He; [by apply not_elem_of_nil in Hg|]. simpl.
  case_match eqn:Ex; [done|]. apply elem_of_cons in Hg as [->|Hg]; [congruence|by apply IH].
Qed.

Lemma elem_of_watched allow watchKinds g :
  g ∈ watched_kinds allow watchKinds ↔ g ∈ allow ∨ g ∈ watchKinds.
Proof.
  unfold watched_kinds. rewrite elem_of_app list_elem_of_filter.
  destruct (decide (g ∈ allow)); tauto.
Qed.

Lemma filter_all {A} (P : A → Prop) `{∀ x, base.Decision (P x)} (l : list A) : (∀ x, x ∈ l → P x) → filter P l = l.
Proof.
  induction l as [|x l IH]; intros Hl; [done|].
  rewrite filter_cons_True; [apply Hl; left|]. f_equal. apply IH. intros y Hy. apply Hl. by right.
Qed.

Lemma enabled_watched allow watchKinds :
  filter (λ g, g ∈ allow) (watched_kinds allow watchKinds) = allow.
Proof.
  unfold watched_kinds. rewrite filter_app.
  rewrite filter_all; [done|].
  destruct (filter (λ g, g ∈ allow) _) as [|g l] eqn:E; [apply app_nil_r|].
  assert (g ∈ g :: l) as Hg by left. rewrite -E !list_elem_of_filter in Hg. naive_solver.
Qed.

(** The set-up watches every enabled kind and every kind of [WatchKinds]: one
    reconciler per watched kind, enabled exactly when the kind is allowlisted (by
    default Secret and ConfigMap), the enabled ones first, each with an empty
    trigger channel, and all naming the enabled kinds in order; without an
    inventory, or when a controller is refused, it is an error instead. *)
Theorem SetupWithManager_correct haveInventory complete completeAuthority allowlist watchKinds :
  let allow := allow_of allowlist in
  let '(st, err) := SetupWithManager haveInventory complete completeAuthority allowlist watchKinds in
  (haveInventory = false → st = {| reconcilers := []; clusterTriggers := [] |} ∧ err ≠ None) ∧
  (haveInventory = true → (∃ g e, g ∈ watched_kinds allow watchKinds ∧
      complete {| gvk := g; enabled := bool_decide (g ∈ allow);
                  enabledKinds := Join (Sort (map gvk_Kind allow)) ", " |} = Some e) → err ≠ None) ∧
  (haveInventory = true → (∀ s, complete s = None) →
     err = completeAuthority ∧
     map gvk (reconcilers st) = watched_kinds allow watchKinds ∧
     (∀ s, s ∈ reconcilers st →
        enabledKinds s = Join (Sort (map gvk_Kind allow)) ", " ∧ (enabled s = true ↔ gvk s ∈ allow)) ∧
     (∀ g, g ∈ allow ∨ g ∈ watchKinds ↔ ∃ s, s ∈ reconcilers st ∧ gvk s = g) ∧
     clusterTriggers st = replicate (length allow) 0%nat).
Proof.
  intros allow. unfold SetupWithManager. destruct haveInventory; simpl; [|done].
  fold allow. set (names := Sort (map gvk_Kind allow)).
  destruct (setup_kinds complete allow names (watched_kinds allow watchKinds)
    {| reconcilers := []; clusterTriggers := [] |}) as [st err] eqn:E.
  enough ((∃ g e, g ∈ watched_kinds allow watchKinds ∧ complete {| gvk := g;
             enabled := bool_decide (g ∈ allow); enabledKinds := Join names ", " |} = Some e) → err ≠ None) as He.
  { assert (err ≠ None → (∀ s, complete s = None) → False) as Hnone.
    { intros Herr Hc. rewrite setup_kinds_ok // in E. injection E as _ <-. done. }
    destruct err as [err|]; (split; [done|]; split).
    { intros _. exact He. }
    { intros _ Hc. by destruct Hnone. }
    { intros _ H. by apply He in H. }
    intros _ Hc. rewrite setup_kinds_ok // in E. injection E as <-.
    split; [done|]. cbn [reconcilers clusterTriggers app].
    rewrite enabled_watched List.map_map map_id. split_and!; [done| | |done].
    - intros s (g & -> & Hg)%elem_of_map. split; [done|]. apply bool_decide_eq_true.
    - intros g. rewrite -elem_of_watched. split.
      + intros Hg. eexists. split; [apply elem_of_map; by exists g|done].
      + by intros (s & (g' & -> & Hg)%elem_of_map & <-). }
  intros (g & e & Hg & He). pose proof (setup_kinds_refused complete allow names _ g e
    {| reconcilers := []; clusterTriggers := [] |} Hg He) as H. by rewrite E in H.
Qed.

(** ** What the predicate drops *)

Lemma Replicates_HasRequest ann : Replicates ann = true → HasRequest ann = true.
Proof.
  unfold Replicates, mget. rewrite bool_decide_eq_true. intros Hv.
  destruct (ann !! KeyReplicate) as [v|] eqn:E; [|discriminate Hv].
  unfold HasRequest, keys. apply List.existsb_exists. exists KeyReplicate. split.
  - apply list_elem_of_In, elem_of_elements. by eapply elem_of_dom_2.
  - by vm_compute.
Qed.

(** The object a reconcile for the event reads: the new one, or none. *)
Definition read_after (e : source_event) : option Meta :=
  match e with CreateEvent o | UpdateEvent _ o | GenericEvent o => Some o | DeleteEvent _ => None end.

Section idle.
Context {W : Type} `{HubW : RequestHub W} `{MetaAPI} `{LabelsAPI}.
Context (s : sourceReconciler) (order : gmap string string → list string)
        (aggregate : list string → string).

(** No Replication of the source is stored. *)
Definition unmaterialized (obj : Meta) (res : apiError + Replication) : Prop :=
  match res with
  | inl err => err_NotFound err = true
  | inr rep => ownedBySource s rep (m_Name obj) = false
  end.

(** The versions of the object that an event carries, and the one the controller
    knew before it. *)
Definition versions (e : source_event) : list Meta :=
  match e with
  | UpdateEvent old new => [old; new]
  | CreateEvent o | GenericEvent o => [o]
  | DeleteEvent _ => []
  end.

Definition known_before (e : source_event) : option Meta :=
  match e with
  | UpdateEvent old _ => Some old
  | CreateEvent o | GenericEvent o => Some o
  | DeleteEvent _ => None
  end.

(** C30. The predicate on source events drops only events that need no work. A
    dropped event carries no version of the object with an operator annotation or
    the finalizer: neither the old nor the new one of an update. And under the
    protocol of the finalizer, that a Replication of the source is stored only while
    the version known before the event carries it, a [Reconcile] for the dropped
    event, which reads the object as the event leaves it (or finds it gone), would
    return without an error and without a single write. *)
Theorem dropped_events_are_idle e nn st res
    (Hdrop : sourcePredicate e = false)
    (Hread : match read_after e with
             | Some o => (∀ w, (rGetSource nn w).1 = inr o) ∧
                         ∀ w, (rGetReplication (source_key s o) w).1 = res
             | None => ∃ err, err_NotFound err = true ∧ ∀ w, (rGetSource nn w).1 = inl err
             end)
    (Hprotocol : ∀ old o, known_before e = Some old → read_after e = Some o →
       ContainsFinalizer (m_Finalizers old) Finalizer = false → unmaterialized o res) :
  (∀ o, o ∈ versions e → HasRequest (m_Annotations o) = false ∧
     ContainsFinalizer (m_Finalizers o) Finalizer = false) ∧
  (Reconcile s order aggregate nn st).1 = None ∧
  ∃ t, r_trace (Reconcile s order aggregate nn st).2 = r_trace st ++ t ∧
    Forall (λ a, reads_only a = true) t.
Proof.
  assert (∀ o, o ∈ versions e → HasRequest (m_Annotations o) = false ∧
    ContainsFinalizer (m_Finalizers o) Finalizer = false) as Hirr.
  { intros o Ho. apply orb_false_iff. destruct e as [o1|old new|o1|o1]; simpl in Hdrop, Ho.
    - by apply list_elem_of_singleton in Ho as ->.
    - apply orb_false_iff in Hdrop as [? ?].
      by apply elem_of_cons in Ho as [->| ->%list_elem_of_singleton].
    - by apply elem_of_nil in Ho.
    - done. }
  split; [exact Hirr|].
  enough (quiet_step (Reconcile s order aggregate nn) None) as Hq.
  { destruct (Hq st) as (t & w & -> & Ht). split; [done|]. by exists t. }
  unfold Reconcile. destruct (read_after e) as [o|] eqn:Eo.
  - assert (∃ old, known_before e = Some old ∧ old ∈ versions e ∧ o ∈ versions e) as (old & Hk & Hold & Ho).
    { destruct e; simplify_eq/=; eexists; (split; [done|]); split; repeat first [left|right]. }
    destruct Hread as [Hread Hget]. destruct (Hirr o Ho) as [Hreq Hfin].
    pose proof (Hprotocol old o Hk eq_refl (proj2 (Hirr old Hold))) as Hun.
    assert (Replicates (m_Annotations o) = false) as Hno
      by (apply not_true_iff_false; intros ?%Replicates_HasRequest; congruence).
    eapply quiet_seq; [by apply quiet_call|]. cbv beta iota. rewrite Hreq Hno.
    destruct (enabled s); simpl; [|apply quiet_done]. rewrite orb_true_r. unfold release.
    eapply quiet_seq; [by apply quiet_call|]. cbv beta iota. rewrite Hfin.
    destruct res as [err|rep]; simpl in Hun; rewrite Hun; apply quiet_done.
  - destruct Hread as (err & Hnf & Hread).
    eapply quiet_seq; [by apply quiet_call|]. cbv beta iota. rewrite Hnf. apply quiet_done.
Qed.
End idle.

(** ** A changed inventory *)

Inductive trigger_op := Notify | Take (i : nat).

Definition trigger_step (st : Setup) (op : trigger_op) : Setup :=
  match op with Notify => NotifyClusterInventoryChanged st | Take i => take_trigger i st end.

Lemma trigger_le n : (n ≤ 1)%nat → trigger n = 1%nat.
Proof. unfold trigger. destruct (Nat.ltb_spec n 1); lia. Qed.

Lemma trigger_run_bounded ops : ∀ st,
  Forall (λ n, n ≤ 1)%nat (clusterTriggers st) →
  let st' := foldl trigger_step st ops in
  Forall (λ n, n ≤ 1)%nat (clusterTriggers st') ∧ reconcilers st' = reconcilers st ∧
  length (clusterTriggers st') = length (clusterTriggers st).
Proof.
  induction ops as [|op ops IH]; intros st Hst; [done|].
  assert (Forall (λ n, n ≤ 1)%nat (clusterTriggers (trigger_step st op)) ∧
    length (clusterTriggers (trigger_step st op)) = length (clusterTriggers st)) as [H1 H2].
  { destruct op as [|i]; simpl.
    - rewrite length_map. split; [|done]. apply Forall_fmap. eapply Forall_impl; [done|].
      intros n Hn. simpl. by rewrite trigger_le.
    - rewrite length_alter. split; [|done]. apply Forall_alter; [done|]. intros n _. simpl. lia. }
  destruct (IH _ H1) as (H3 & H4 & H5). simpl. rewrite H4 H5 H2. split_and!; [done| |done].
  by destruct op.
Qed.

(** A trigger that was sent and not taken is pending. *)
Lemma trigger_pending ops i : ∀ st,
  Forall (λ n, n ≤ 1)%nat (clusterTriggers st) → (Take i ∉ ops) →
  clusterTriggers st !! i = Some 1%nat → clusterTriggers (foldl trigger_step st ops) !! i = Some 1%nat.
Proof.
  induction ops as [|op ops IH]; intros st Hst Ht Hi; [done|]. simpl.
  apply not_elem_of_cons in Ht as [Hop Ht].
  destruct (trigger_run_bounded [op] st Hst) as (Hb & _ & _).
  apply IH; [exact Hb|done|]. destruct op as [|j]; simpl.
  - by rewrite list_lookup_fmap Hi.
  - rewrite list_lookup_alter_ne //. congruence.
Qed.

Lemma SetupWithManager_ok complete allowlist watchKinds :
  (∀ s, complete s = None) →
  let allow := allow_of allowlist in
  ∃ mk, (∀ g, gvk (mk g) = g ∧ enabled (mk g) = bool_decide (g ∈ allow)) ∧
  (SetupWithManager true complete None allowlist watchKinds).1 =
    {| reconcilers := map mk (watched_kinds allow watchKinds);
       clusterTriggers := replicate (length allow) 0%nat |}.
Proof.
  intros Hc allow. unfold SetupWithManager. simpl. fold allow. rewrite setup_kinds_ok // enabled_watched.
  by eexists (λ g, {| gvk := g; enabled := bool_decide (g ∈ allow); enabledKinds := _ |}).
Qed.

Lemma enabled_count mk (allow l : list GroupVersionKind) :
  (∀ g, enabled (mk g) = bool_decide (g ∈ allow)) →
  length (filter (λ s, enabled s = true) (map mk l)) = length (filter (λ g, g ∈ allow) l).
Proof.
  intros Hmk. induction l as [|g l IH]; [done|]. simpl.
  destruct (decide (g ∈ allow)) as [Hg|Hg].
  - rewrite filter_cons_True; [rewrite Hmk; by apply bool_decide_eq_true|].
    rewrite filter_cons_True //=. by rewrite IH.
  - rewrite filter_cons_False; [by rewrite Hmk bool_decide_eq_true|]. by rewrite filter_cons_False.
Qed.

Section reresolve.
Context {W : Type} `{HubW : RequestHub W} `{ReplicationReader} (index : Indexes) (stored : list Replication).
Context `{RL : !ReaderLaws index stored}.

Lemma remap_spec s k :
  List (source_list s) ≠ None →
  k ∈ remap s ↔ ∃ rep, rep ∈ stored ∧ MatchingLabels (source_list s) ⊆ rep_Labels rep ∧
    sr_Kind (SourceRef (rep_Spec rep)) = gvk_Kind (gvk s) ∧
    k = {| nn_Namespace := sr_Namespace (SourceRef (rep_Spec rep));
           nn_Name := sr_Name (SourceRef (rep_Spec rep)) |}.
Proof using RL.
  intros Hl. unfold remap, mapAllSources. destruct (List (source_list s)) as [items|] eqn:E; [|done].
  rewrite list_elem_of_omap. setoid_rewrite (list_exact _ _ E). setoid_rewrite list_elem_of_filter.
  unfold selects. simpl. setoid_rewrite bool_decide_eq_true. split.
  - intros (rep & [Hsel Hin] & Hk). case_decide; simplify_eq. by exists rep.
  - intros (rep & Hin & Hsel & Hk & ->). exists rep. by rewrite decide_True.
Qed.

(** C25. A change of the cluster inventory re-resolves every materialized request:
    whatever notifications and takes of triggers went before, once the inventory
    event came, the trigger of each enabled kind is pending until its controller
    takes it (never more than one at a time), and taking it enqueues exactly the
    sources of the stored Replications of that kind that carry the operator's
    labels; the Replication materialized for a source always is one of them. *)
Theorem inventory_change_reresolves complete allowlist watchKinds pre post i s
    (Hc : ∀ s, complete s = None)
    (Hi : filter (λ s, enabled s = true)
            (reconcilers (SetupWithManager true complete None allowlist watchKinds).1) !! i = Some s)
    (Hpost : Take i ∉ post) (Hup : List (source_list s) ≠ None) :
  let st := (SetupWithManager true complete None allowlist watchKinds).1 in
  let st' := foldl trigger_step st (pre ++ Notify :: post) in
  clusterTriggers st' !! i = Some 1%nat ∧ Forall (λ n, n ≤ 1)%nat (clusterTriggers st') ∧
  (∀ k, k ∈ remap s ↔ ∃ rep, rep ∈ stored ∧ MatchingLabels (source_list s) ⊆ rep_Labels rep ∧
    sr_Kind (SourceRef (rep_Spec rep)) = gvk_Kind (gvk s) ∧
    k = {| nn_Namespace := sr_Namespace (SourceRef (rep_Spec rep));
           nn_Name := sr_Name (SourceRef (rep_Spec rep)) |}) ∧
  (∀ rep obj name resolved, rep ∈ stored → stored_as (desiredReplication s obj name resolved) rep →
    {| nn_Namespace := m_Namespace obj; nn_Name := m_Name obj |} ∈ remap s).
Proof using RL.
  destruct (SetupWithManager_ok complete allowlist watchKinds Hc) as (mk & Hmk & E).
  intros st st'. set (allow := allow_of allowlist) in *. fold st in Hi, E.
  assert (i < length allow)%nat as Hlt.
  { rewrite E in Hi. apply lookup_lt_Some in Hi. rewrite (enabled_count _ allow) in Hi; [intros g; by destruct (Hmk g)|].
    by rewrite enabled_watched in Hi. }
  assert (Forall (λ n, n ≤ 1)%nat (clusterTriggers st)) as Hb.
  { rewrite E. apply Forall_forall. intros n [-> _]%elem_of_replicate. lia. }
  destruct (trigger_run_bounded pre st Hb) as (Hb1 & _ & Hlen). rewrite {2}E /= length_replicate in Hlen.
  destruct (trigger_run_bounded (pre ++ Notify :: post) st Hb) as (Hb2 & _ & _).
  split_and!; [|exact Hb2|by intros k; apply remap_spec|].
  - unfold st'. rewrite foldl_app. cbn [foldl]. apply trigger_pending; [|done|].
    + apply (trigger_run_bounded [Notify] _ Hb1).
    + simpl. rewrite list_lookup_fmap. destruct (lookup_lt_is_Some_2 (clusterTriggers (foldl trigger_step st pre)) i)
        as [n Hn]; [lia|]. rewrite Hn. simpl. f_equal. apply trigger_le.
      by apply (Forall_lookup_1 _ _ _ _ Hb1 Hn).
  - intros rep obj name resolved Hin (Hns & Hspec & Hlab & _). apply remap_spec; [done|].
    exists rep. rewrite Hlab Hspec. split_and!; [done| |done..].
    apply map_subseteq_spec. intros k v. simpl.
    intros [[<- <-]|[Hne [<- <-]%lookup_singleton_Some]]%lookup_insert_Some; [done|].
    by rewrite lookup_insert_ne.
Qed.
End reresolve.

(** ** Witnesses *)

(** [controllerName] leaves out the version, and maps dots and dashes alike. *)
Example controllerName_not_unique :
  controllerName {| gvk_Group := "apps"; gvk_Version := "v1"; gvk_Kind := "Foo" |} =
  controllerName {| gvk_Group := "apps"; gvk_Version := "v1beta1"; gvk_Kind := "Foo" |} ∧
  controllerName {| gvk_Group := "a.b"; gvk_Version := "v1"; gvk_Kind := "Foo" |} =
  controllerName {| gvk_Group := "a-b"; gvk_Version := "v1"; gvk_Kind := "Foo" |}.
Proof. split; reflexivity. Qed.

#[local] Existing Instance LabelsModel.api.
#[local] Existing Instance MetaModel.api.

(** A Secret that nobody asked to replicate is created. *)
Definition q_plain_source : Meta :=
  {| m_Namespace := "platform"; m_Name := "pull"; m_UID := "u-1";
     m_Annotations := {[ "team" := "platform" ]}; m_DeletionTimestamp := None; m_Finalizers := [] |}.

Lemma dropped_events_witness :
  let e := UpdateEvent {| m_Namespace := "platform"; m_Name := "pull"; m_UID := "u-1";
                          m_Annotations := ∅; m_DeletionTimestamp := None; m_Finalizers := [] |}
             q_plain_source in
  sourcePredicate e = false ∧
  (Reconcile (HubW := fixed_hub q_plain_source q_missing) q_secret q_order (λ _, "")
    {| nn_Namespace := "platform"; nn_Name := "pull" |} q_start).1 = None.
Proof.
  intros e. assert (sourcePredicate e = false) as Hd by vm_refl.
  split; [exact Hd|].
  apply (dropped_events_are_idle (HubW := fixed_hub q_plain_source q_missing) q_secret q_order (λ _, "")
    e {| nn_Namespace := "platform"; nn_Name := "pull" |} q_start q_missing Hd).
  - split; intros w; reflexivity.
  - intros old o _ _ _. reflexivity.
Defined.

Lemma inventory_change_witness :
  {| nn_Namespace := "platform"; nn_Name := "pull" |} ∈ remap (H := cache_of [] [q_created]) q_secret.
Proof.
  destruct (@inventory_change_reresolves unit (fixed_hub (q_source []) q_missing) (cache_of [] [q_created])
    engineIndexes [q_created] (cache_of_laws [] [q_created]) (λ _, None) None [] [Take 0%nat; Notify] [Take 1%nat]
    0%nat q_secret) as (_ & _ & _ & H).
  - reflexivity.
  - vm_refl.
  - intros Hin%list_elem_of_singleton. discriminate Hin.
  - discriminate.
  - apply (H q_created (q_source [Finalizer]) (ReplicationName "Secret" "pull") q_resolved); [left|repeat split].
Defined.
