(* ===== verification/EndToEnd.v ===== *)
(** From a request to the fan-out: what the request controller resolves and stores
    is what the engine takes up, target by target, under the policies and cluster
    labels of its own later reading. *)
From S2P Require Import Telemetry.
From S2P Require Import Prelude GoLib Sha256 Api Labels Annotations Policy Unstructured Render.
From S2P Require Import Discovery Triggers Transport Engine.
From S2P Require Import Request RequestWorld.

#[local] Open Scope string_scope.
#[local] Open Scope list_scope.

(** The cluster inventory of the engine over the records of the provider. *)
Definition inventory_of (records : list ClusterRecord) (name : string) : option (gmap string string) :=
  cl_Labels <$> Lookup records name.

Lemma Lookup_unique records r :
  NoDup (map cl_Name records) → r ∈ records → Lookup records (cl_Name r) = Some r.
Proof.
  induction records as [|r' records IH]; [by intros _ ?%not_elem_of_nil|].
  intros [Hn Hnd]%NoDup_cons [->|Hr]%elem_of_cons; simpl; [by rewrite decide_True|].
  rewrite decide_False; [|by apply IH]. intros E. apply Hn. rewrite E. apply elem_of_map. by exists r.
Qed.

Section end_to_end.
Context {W : Type} `{HubW : RequestHub W} `{MetaAPI} `{LabelsAPI}.
Context (s : sourceReconciler) (cfg : Config).

Let evaluated (src : Source) (records : list ClusterRecord) (parsed : Request) (nss : list string)
    (policies : list ReplicationPolicy) : Result :=
  Evaluate {| q_Source := src; q_Targets := candidates records (ClusterSelector parsed) nss |} policies.

(** What the request controller resolves, when the hub answers. *)
Lemma resolved_group obj parsed st resolved denied policies nsRes :
  (∀ w, (rListPolicies w).1 = inr policies) →
  (∀ w, (rGetNamespaceLabels (m_Namespace obj) w).1 = nsRes) →
  (resolveTargets s obj parsed st).1 = inr (resolved, denied) →
  resolved = group_by_cluster (TargetName parsed) (result_Allowed
    (evaluated (source_of s obj match nsRes with inr l => l | inl _ => ∅ end)
       (rInventory (r_world st)) parsed (EffectiveNamespaces parsed (m_Namespace obj)) policies)).
Proof.
  intros Hp Hn. unfold resolveTargets, mbind, SM_bind, sgets, evaluated. cbv beta iota.
  destruct (candidates _ _ _) as [|t ts]; [by intros [= <- <-]|].
  unfold call. specialize (Hn (r_world st)).
  destruct (rGetNamespaceLabels _ _) as [res w1]. simpl in Hn. subst res. cbn [r_world].
  specialize (Hp w1). destruct (rListPolicies w1) as [res w2]. simpl in Hp. subst res.
  cbv beta iota. simpl fst. by intros [= <- <-].
Qed.

(** The slots of the engine with their decisions. *)
Lemma flattened f rep name src policies sl d :
  let '(slots, preq) := flattenTargets cfg f rep name src in
  (sl, d) ∈ zip slots (Decisions (Evaluate preq policies)) ↔
  ∃ rt ns, rt ∈ ResolvedTargets (rep_Spec rep) ∧ ns ∈ rt_Namespaces rt ∧
    sl = {| si_cluster := rt_ClusterName rt; si_namespace := ns;
            si_name := if decide (rt_TargetName rt = "") then name else rt_TargetName rt |} ∧
    d = decide_target src {| t_ClusterName := rt_ClusterName rt;
          t_ClusterLabels := clusterLabels cfg f (rt_ClusterName rt); t_Namespace := ns |} policies.
Proof.
  unfold flattenTargets, Evaluate. cbn [Decisions q_Targets q_Source].
  set (l := ResolvedTargets (rep_Spec rep) ≫= _).
  assert (zip (map fst l) (map (λ t, decide_target src t policies) (map snd l)) =
          map (λ e, (e.1, decide_target src e.2 policies)) l) as ->.
  { induction l as [|e l' IH]; [done|]. simpl. by rewrite IH. }
  rewrite elem_of_map. unfold l. setoid_rewrite list_elem_of_bind. setoid_rewrite elem_of_map. split.
  - intros ([sl' t] & [= -> ->] & rt & (ns & [= -> ->] & Hns) & Hrt). by exists rt, ns.
  - intros (rt & ns & Hrt & Hns & -> & ->). eexists (_, _). split; [done|]. exists rt.
    split; [|done]. by exists ns.
Qed.

(** A (cluster, namespace) pair that the request selects: a ready record the
    selector matches, a requested namespace, and a policy that permits the target. *)
Definition selected (records : list ClusterRecord) (parsed : Request) (obj : Meta)
    (nsLabels : gmap string string) (policies : list ReplicationPolicy) (c ns : string) : Prop :=
  ∃ r p, r ∈ records ∧ cl_Name r = c ∧ cl_Ready r = true ∧
    Matches (ClusterSelector parsed) (cl_Labels r) = true ∧
    ns ∈ EffectiveNamespaces parsed (m_Namespace obj) ∧
    p ∈ policies ∧ permits p (source_of s obj nsLabels)
      {| t_ClusterName := c; t_ClusterLabels := cl_Labels r; t_Namespace := ns |}.

(** Some policy permits the target as the engine sees it. *)
Definition permitted (f : string → option (gmap string string)) (obj : Meta)
    (nsLabels : gmap string string) (policies : list ReplicationPolicy) (c ns : string) : Prop :=
  ∃ p, p ∈ policies ∧ permits p (source_of s obj nsLabels)
    {| t_ClusterName := c; t_ClusterLabels := clusterLabels cfg f c; t_Namespace := ns |}.

Definition target_name (obj : Meta) (parsed : Request) : string :=
  if decide (TargetName parsed = "") then m_Name obj else TargetName parsed.

(** C5. From request to fan-out: when the engine later takes up the Replication a
    source materialized, with its own reading of the policies, of the namespace
    labels and of the cluster inventory, the slots it allows are exactly the
    (cluster, namespace) pairs that the request selected at its time and that a
    policy permits now, under the requested name; as long as policies, labels and
    inventory stand as they were, it denies none of its slots. *)
Theorem fan_out_is_requested_and_permitted
    obj parsed st resolved denied name rep policies nsRes f now_policies now_labels
    (Hpol : ∀ w, (rListPolicies w).1 = inr policies)
    (Hns : ∀ w, (rGetNamespaceLabels (m_Namespace obj) w).1 = nsRes)
    (Hres : (resolveTargets s obj parsed st).1 = inr (resolved, denied))
    (Hrep : stored_as (desiredReplication s obj name resolved) rep) :
  let records := rInventory (r_world st) in
  let nsLabels := match nsRes with inr l => l | inl _ => ∅ end in
  let src := {| s_Kind := sr_Kind (SourceRef (rep_Spec rep));
                s_Namespace := sr_Namespace (SourceRef (rep_Spec rep));
                s_NamespaceLabels := now_labels |} in
  let '(slots, preq) := flattenTargets cfg f rep (m_Name obj) src in
  let decided := zip slots (Decisions (Evaluate preq now_policies)) in
  (∀ sl, (∃ d, (sl, d) ∈ decided ∧ Allowed d = true) ↔
     si_name sl = target_name obj parsed ∧
     selected records parsed obj nsLabels policies (si_cluster sl) (si_namespace sl) ∧
     permitted f obj now_labels now_policies (si_cluster sl) (si_namespace sl)) ∧
  (now_policies = policies → now_labels = nsLabels → Clusters cfg = true →
     NoDup (map cl_Name records) → f = inventory_of records →
     ∀ sl d, (sl, d) ∈ decided → Allowed d = true).
Proof.
  intros records nsLabels src.
  pose proof (flattened f rep (m_Name obj) src now_policies) as Hflat.
  destruct (flattenTargets cfg f rep (m_Name obj) src) as [slots preq]. intros decided.
  destruct Hrep as (_ & Hspec & _).
  assert (src = source_of s obj now_labels) as Hsrc by (unfold src; by rewrite Hspec).
  rewrite Hspec Hsrc in Hflat. cbn [ResolvedTargets rep_Spec desiredReplication] in Hflat.
  apply (resolved_group _ _ _ _ _ policies nsRes Hpol Hns) in Hres. fold nsLabels in Hres.
  set (ds := result_Allowed _) in Hres.
  destruct (group_by_cluster_spec (TargetName parsed) ds) as [_ Hg]. rewrite -Hres in Hg.
  assert (∀ c ns, ns ∈ namespaces_on c ds ↔ selected records parsed obj nsLabels policies c ns) as Hsel
    by (intros c ns; apply elem_of_allowed_namespaces).
  assert (∀ c ns, (∃ rt, rt ∈ resolved ∧ rt_ClusterName rt = c ∧ ns ∈ rt_Namespaces rt) ↔
    selected records parsed obj nsLabels policies c ns) as Hpair.
  { intros c ns. rewrite -Hsel. split; [by intros (rt & [-> _]%Hg & <- & ?)|]. intros Hin.
    exists {| rt_ClusterName := c; rt_Namespaces := namespaces_on c ds; rt_TargetName := TargetName parsed |}.
    split_and!; [|done|done]. apply Hg. simpl. split; [done|]. intros E. rewrite E in Hin.
    by apply not_elem_of_nil in Hin. }
  assert (∀ rt, rt ∈ resolved → rt_TargetName rt = TargetName parsed) as Hname
    by by intros rt [-> _]%Hg.
  split.
  - intros sl. split.
    + intros (d & (rt & ns & Hrt & Hin & -> & ->)%Hflat & Ha). simpl. rewrite (Hname _ Hrt).
      split; [done|]. split; [by apply Hpair; exists rt|].
      apply decide_target_allowed in Ha as (p & ? & ?). by exists p.
    + destruct sl as [c ns n]. cbn [si_name si_cluster si_namespace].
      intros (-> & (rt & Hrt & <- & Hin)%Hpair & p & Hp & Hperm). eexists. split.
      * apply Hflat. exists rt, ns. rewrite (Hname _ Hrt). done.
      * apply decide_target_allowed. by exists p.
  - intros -> -> Hc Hnd -> sl d (rt & ns & Hrt & Hin & _ & ->)%Hflat.
    apply decide_target_allowed.
    destruct (proj1 (Hpair (rt_ClusterName rt) ns)) as (r & p & Hr & Hrn & _ & _ & _ & Hp & Hperm);
      [by exists rt|].
    exists p. split; [done|]. unfold clusterLabels, inventory_of. rewrite Hc -Hrn Lookup_unique //.
    by rewrite Hrn.
Qed.
End end_to_end.

(** ** Witness *)

#[local] Existing Instance LabelsModel.api.
#[local] Existing Instance LabelsModel.laws.
#[local] Existing Instance MetaModel.api.

Definition q_config : Config :=
  {| options := {| opt_HubName := ""; opt_FieldManager := ""; DriftResync := 0; BackoffBase := 0;
                   BackoffMax := 0; KindGVKs := None |};
     strip := no_strip; Recorder := true; Clusters := true |}.

(** The engine's slots and decisions for the Replication of the request controller's
    first run. *)
Definition q_decided (policies : list ReplicationPolicy) : list (slotInfo * Decision) :=
  let '(slots, preq) := flattenTargets q_config (inventory_of q_clusters) q_created "pull"
    {| s_Kind := "Secret"; s_Namespace := "platform"; s_NamespaceLabels := ∅ |} in
  zip slots (Decisions (Evaluate preq policies)).

Lemma fan_out_is_requested_witness :
  ∃ d, ({| si_cluster := "c1"; si_namespace := "apps"; si_name := "pull" |}, d) ∈ q_decided [pol_dev; pol_all]
    ∧ Allowed d = true.
Proof.
  pose proof (fan_out_is_requested_and_permitted (HubW := fixed_hub (q_source [Finalizer]) q_missing)
    q_secret q_config (q_source [Finalizer]) q_parsed q_start q_resolved q_denied
    (ReplicationName "Secret" "pull") q_created [pol_dev; pol_all] (inr ∅) (inventory_of q_clusters)
    [pol_dev; pol_all] ∅ (λ _, eq_refl) (λ _, eq_refl) ltac:(vm_refl) ltac:(repeat split)) as [_ H].
  eexists. split; [left|]. refine (H eq_refl eq_refl eq_refl _ eq_refl _ _ _).
  - apply (bool_decide_unpack _). vm_compute. exact I.
  - left.
Defined.

(** With the permitting policy gone, the slot is denied. *)
Example denied_after_policy_change :
  map (λ sd, (si_cluster sd.1, si_namespace sd.1, Allowed sd.2)) (q_decided []) = [("c1", "apps", false)].
Proof. vm_refl. Qed.
