(* ===== verification/Cluster.v ===== *)
(** [internal/cluster]: the connectivity state machine of manager.go, the token
    rotation of token.go and the spoke bootstrap with its RBAC of bootstrap.go.
    The spoke's API and the token minter are parameters. *)
From Stdlib Require Import SpecFloat.
From S2P Require Import Telemetry.
From S2P Require Import Prelude GoLib Api.

#[local] Open Scope string_scope.
#[local] Open Scope list_scope.

(** ** Connectivity (manager.go) *)

Module Tracker.
(** [type State string]; [""] is the state before the first probe. *)
Inductive State := NoState | StateReachable | StateDegraded | StateUnreachable.

#[export] Instance State_eq : EqDecision State.
Proof. solve_decision. Defined.

(** The settings and the mutable fields of [backoffTracker]; times and durations
    are in nanoseconds. *)
Record backoffTracker := {
  baseDelay : Z;
  maxDelay : Z;
  healthyInterval : Z;
  threshold : Z;
  failures : Z;
  delay : Z;
  state : State;
  since : Z;
  lastErr : string;
}.

Definition newBackoffTracker (base max healthy threshold : Z) : backoffTracker :=
  {| baseDelay := base; maxDelay := max; healthyInterval := healthy; threshold := threshold;
     failures := 0; delay := 0; state := NoState; since := 0; lastErr := "" |}.

Definition set_mutable (t : backoffTracker) (f d : Z) (st : State) (s : Z) (e : string)
    : backoffTracker :=
  {| baseDelay := baseDelay t; maxDelay := maxDelay t; healthyInterval := healthyInterval t;
     threshold := threshold t; failures := f; delay := d; state := st; since := s; lastErr := e |}.

(** [Observe]: [None] is a successful probe. The new state is the tracker's. *)
Definition Observe (err : option string) (now : Z) (t : backoffTracker) : Z * backoffTracker :=
  match err with
  | None =>
      let s := if decide (state t = StateReachable) then since t else now in
      (healthyInterval t, set_mutable t 0 0 StateReachable s "")
  | Some e =>
      let f := int64 (failures t + 1) in
      let '(s, d) :=
        if decide (f = 1%Z) then (now, baseDelay t)
        else let d := int64 (delay t * 2) in
             (since t, if (maxDelay t <? d)%Z then maxDelay t else d) in
      let st := if (threshold t <=? f)%Z then StateUnreachable else StateDegraded in
      (d, set_mutable t f d st s e)
  end.

(** [Connectivity]: state, since, last error. *)
Definition Connectivity (t : backoffTracker) : State * Z * string := (state t, since t, lastErr t).

(** ** A lifetime of probes *)

Definition probe := (option string * Z)%type.

Definition observe_all (t : backoffTracker) (ps : list probe) : backoffTracker :=
  foldl (λ t p, (Observe p.1 p.2 t).2) t ps.

(** The failures at the end of the history, latest first. *)
Fixpoint streak (latest_first : list probe) : list probe :=
  match latest_first with
  | (Some e, now) :: ps => (Some e, now) :: streak ps
  | _ => []
  end.

(** The successes at the end, latest first. *)
Fixpoint successes (latest_first : list probe) : list probe :=
  match latest_first with
  | (None, now) :: ps => (None, now) :: successes ps
  | _ => []
  end.

(** The retry delay after [n] consecutive failures. *)
Fixpoint retry_delay (base max : Z) (n : nat) : Z :=
  match n with
  | 0 => 0
  | 1 => base
  | S n' => Z.min max (2 * retry_delay base max n')
  end.

Lemma retry_delay_bounds base max n :
  (0 ≤ base ≤ max)%Z → (0 ≤ retry_delay base max n ≤ max)%Z.
Proof.
  intros Hb. induction n as [|[|n] IH]; simpl; [lia|lia|].
  simpl in IH. destruct n; lia.
Qed.

Lemma retry_delay_doubles base max n :
  (0 ≤ base ≤ max)%Z → retry_delay base max (S n) = Z.min max (base * 2 ^ Z.of_nat n).
Proof.
  intros Hb. induction n as [|n IH]; [simpl; lia|].
  change (retry_delay base max (S (S n))) with (Z.min max (2 * retry_delay base max (S n))).
  rewrite IH Nat2Z.inj_succ Z.pow_succ_r; [lia|]. nia.
Qed.

(** The tracker after a history, from the trailing failures and successes. *)
Record tracks (base max healthy th : Z) (hist : list probe) (t : backoffTracker) : Prop := {
  tr_settings : baseDelay t = base ∧ maxDelay t = max ∧ healthyInterval t = healthy ∧ threshold t = th;
  tr_failures : failures t = Z.of_nat (length (streak (rev hist)));
  tr_delay : delay t = retry_delay base max (length (streak (rev hist)));
  tr_state : state t =
    match rev hist with
    | [] => NoState
    | (None, _) :: _ => StateReachable
    | _ => if (th <=? Z.of_nat (length (streak (rev hist))))%Z then StateUnreachable else StateDegraded
    end;
  tr_since :
    match last (streak (rev hist)), last (successes (rev hist)) with
    | Some (_, now), _ | None, Some (_, now) => since t = now
    | None, None => since t = 0%Z
    end;
  tr_error : lastErr t = match rev hist with (Some e, _) :: _ => e | _ => "" end;
}.

Lemma length_streak ps : (length (streak ps) ≤ length ps)%nat.
Proof. induction ps as [|[[e|] now] ps IH]; simpl; lia. Qed.

Lemma tracks_nil base max healthy th :
  tracks base max healthy th [] (newBackoffTracker base max healthy th).
Proof. by split. Qed.

Lemma tracks_success base max healthy th hist t now :
  tracks base max healthy th hist t →
  tracks base max healthy th (hist ++ [(None, now)]) (Observe None now t).2.
Proof.
  intros [Hs Hf Hd Hst Hsi He]. split; rewrite ?rev_app_distr; simpl; try done.
  rewrite last_cons. destruct (decide (state t = StateReachable)) as [Hr|Hr].
  - rewrite Hst in Hr. revert Hsi Hr. destruct (rev hist) as [|[[e|] now'] ps]; simpl; try done.
    + by destruct (th <=? _)%Z.
    + rewrite last_cons. intros Hsi _. by destruct (last (successes ps)) as [[]|].
  - destruct (rev hist) as [|[[e|] now'] ps]; simpl; try done.
Qed.

Lemma tracks_failure base max healthy th hist t now e :
  (0 ≤ base ≤ max)%Z → (max < 2 ^ 62)%Z → (Z.of_nat (length hist) < 2 ^ 62)%Z →
  tracks base max healthy th hist t →
  tracks base max healthy th (hist ++ [(Some e, now)]) (Observe (Some e) now t).2.
Proof.
  intros Hb Hm Hl [(Hs1 & Hs2 & Hs3 & Hs4) Hf Hd Hst Hsi He].
  pose proof (length_streak (rev hist)) as Hlen. rewrite length_rev in Hlen.
  pose proof (retry_delay_bounds base max (length (streak (rev hist))) Hb) as Hrd.
  unfold Observe. rewrite Hf Hd Hs1 Hs2 Hs4 (int64_id (_ + 1)); [lia|].
  rewrite (int64_id (_ * 2)); [lia|].
  destruct (streak (rev hist)) as [|p ps] eqn:Est.
  - simpl. split; rewrite ?rev_app_distr; simpl; rewrite ?Est; done.
  - cbn [length] in Hrd, Hlen |- *. rewrite decide_False; [lia|].
    split; rewrite ?rev_app_distr; cbn [rev app streak fst snd]; rewrite ?Est; cbn -[Z.of_nat retry_delay Z.pow];
      try done.
    + lia.
    + change (retry_delay base max (S (S (length ps)))) with
        (Z.min max (2 * retry_delay base max (S (length ps))))%Z.
      destruct (Z.ltb_spec max (retry_delay base max (S (length ps)) * 2)); lia.
    + replace (Z.of_nat (S (length ps)) + 1)%Z with (Z.of_nat (S (S (length ps)))) by lia. done.
    + rewrite last_cons in Hsi. rewrite last_cons. by destruct (last ps) as [[]|], p.
Qed.

Lemma observe_all_tracks base max healthy th ps :
  (0 ≤ base ≤ max)%Z → (max < 2 ^ 62)%Z → (Z.of_nat (length ps) < 2 ^ 62)%Z →
  tracks base max healthy th ps (observe_all (newBackoffTracker base max healthy th) ps).
Proof.
  intros Hb Hm. unfold observe_all.
  induction ps as [|[[e|] now] ps IH] using rev_ind; intros Hl; [apply tracks_nil|..];
    rewrite length_app /= in Hl; rewrite foldl_app /=.
  - apply tracks_failure; try done; [lia|]. apply IH. lia.
  - apply tracks_success, IH. lia.
Qed.

(** The time since when the tracker is in its state: that of the first probe of the
    trailing successes, or failures. *)
Definition entered (probes : list probe) : option Z := snd <$> last probes.

Lemma tracks_since_entered base max healthy th hist t err now :
  tracks base max healthy th (hist ++ [(err, now)]) t →
  entered ((err, now) :: (if err then streak else successes) (rev hist)) = Some (since t).
Proof.
  intros [_ _ _ _ Hsi _]. rewrite rev_app_distr in Hsi. unfold entered.
  destruct err as [e|]; cbn [rev app streak successes] in Hsi.
  - destruct (last ((Some e, now) :: streak (rev hist))) as [[e' first]|] eqn:El;
      [rewrite El in Hsi; rewrite El /= Hsi //|rewrite last_cons in El; by case_match].
  - destruct (last ((None, now) :: successes (rev hist))) as [[e' first]|] eqn:El;
      [rewrite El in Hsi; rewrite El /= Hsi //|rewrite last_cons in El; by case_match].
Qed.

(** C40. The connectivity tracker, after any history of probes since the cluster
    registered, and one more: after a success it is Reachable, since the first of the
    successes without a failure in between, with no error, and the next probe is after
    the healthy interval; after [n] consecutive failures it is Degraded below the
    threshold and Unreachable from it on, since the first failure of the streak, with
    the latest error, and the next probe waits min (max, base * 2^(n-1)), without
    overflow. *)
Theorem connectivity_correct base max healthy th hist err now
    (Hb : (0 ≤ base ≤ max)%Z) (Hm : (max < 2 ^ 62)%Z)
    (Hl : (Z.of_nat (length hist) < 2 ^ 61)%Z) :
  let t := observe_all (newBackoffTracker base max healthy th) hist in
  let '(delay, t') := Observe err now t in
  match err with
  | None =>
      ∃ first, entered ((err, now) :: successes (rev hist)) = Some first ∧
      Connectivity t' = (StateReachable, first, "") ∧ delay = healthy
  | Some e =>
      let n := S (length (streak (rev hist))) in
      ∃ first, entered ((err, now) :: streak (rev hist)) = Some first ∧
      Connectivity t' =
        (if (th <=? Z.of_nat n)%Z then StateUnreachable else StateDegraded, first, e) ∧
      delay = Z.min max (base * 2 ^ Z.of_nat (n - 1))
  end.
Proof.
  intros t. assert (tracks base max healthy th hist t) as Ht by (apply observe_all_tracks; lia).
  pose proof (tr_settings _ _ _ _ _ _ Ht) as (Hs1 & Hs2 & Hs3 & Hs4).
  destruct err as [e|].
  2: { pose proof (tracks_since_entered _ _ _ _ _ _ _ _ (tracks_success base max healthy th hist t now Ht)) as He.
       simpl. exists (since (Observe None now t).2). by rewrite Hs3. }
  pose proof (tracks_failure base max healthy th hist t now e Hb Hm ltac:(lia) Ht) as Ht'.
  pose proof (tracks_since_entered _ _ _ _ _ _ _ _ Ht') as Hent. destruct Ht' as [_ _ Hd Hst _ He].
  assert ((Observe (Some e) now t).1 = delay (Observe (Some e) now t).2) as Hdd.
  { unfold Observe. by case_decide. }
  destruct (Observe (Some e) now t) as [d t']. cbn [fst snd] in *.
  rewrite rev_app_distr in Hd, Hst, He. cbn [rev app streak length] in Hd, Hst, He.
  exists (since t'). split_and!; [done|unfold Connectivity; by rewrite Hst He|].
  rewrite Hdd Hd retry_delay_doubles //. do 3 f_equal. lia.
Qed.

Lemma connectivity_witness :
  (Observe (Some "timeout") 7 (observe_all (newBackoffTracker 2 300 30 3)
     [(None, 1); (Some "a", 2); (Some "b", 5)]%Z)).1 = 8%Z ∧
  since (Observe None 9 (observe_all (newBackoffTracker 2 300 30 3)
     [(Some "a", 2); (None, 5); (None, 7)]%Z)).2 = 5%Z.
Proof.
  split.
  - destruct (connectivity_correct 2 300 30 3 [(None, 1); (Some "a", 2); (Some "b", 5)]%Z
      (Some "timeout") 7) as (first & _ & _ & Hd); [simpl; lia..|exact Hd].
  - destruct (connectivity_correct 2 300 30 3 [(Some "a", 2); (None, 5); (None, 7)]%Z None 9)
      as (first & Hf & Hc & _); [simpl; lia..|].
    injection Hf as <-. exact (f_equal (λ c, c.1.2) Hc).
Defined.

(** The first retry is not capped: with a base delay above the maximum, the first
    failure waits longer than the second. *)
Example first_delay_uncapped :
  (Observe (Some "e") 0 (newBackoffTracker 10 5 1 3)).1 = 10%Z ∧
  (Observe (Some "e") 1 (observe_all (newBackoffTracker 10 5 1 3) [(Some "e", 0%Z)])).1 = 5%Z.
Proof. split; reflexivity. Qed.
End Tracker.

(** ** Token rotation (token.go) *)

Module Rotator.
(** [float64] arithmetic: conversion of an int64 (to nearest), the product, and
    the conversion back to an int64, which truncates. *)
Definition float64_of (z : Z) : spec_float := binary_normalize 53 1024 z 0 false.

Definition float64_mul : spec_float → spec_float → spec_float := SFmul 53 1024.

Definition truncate (f : spec_float) : Z :=
  match f with
  | S754_finite s m e =>
      let a := if (0 <=? e)%Z then (Zpos m * 2 ^ e)%Z else (Zpos m / 2 ^ (- e))%Z in
      if s then (- a)%Z else a
  | _ => 0%Z
  end.

(** [DefaultRefreshFraction], the float64 nearest to 0.8. *)
Definition DefaultRefreshFraction : spec_float := S754_finite false 7205759403792794 (-53).

Definition DefaultTokenTTL : Z := Hour.

(** [t.Sub(u)]: saturates at the int64 bounds. *)
Definition Sub (t u : Z) : Z := Z.max (- 2 ^ 63) (Z.min (2 ^ 63 - 1) (t - u)).

(** [Rotator]: [hasBootstrap] says whether the admin credential is configured;
    instants are in nanoseconds. *)
Record Rotator := {
  hasBootstrap : bool;
  ttl : Z;
  refreshFraction : spec_float;
  token : string;
  issuedAt : Z;
  expiresAt : Z;
}.

(** [RotatorOption] and the options; the clock is an input of the model. *)
Definition RotatorOption : Type := Rotator → Rotator.

Definition WithTTL (d : Z) : RotatorOption := λ r,
  {| hasBootstrap := hasBootstrap r; ttl := d; refreshFraction := refreshFraction r;
     token := token r; issuedAt := issuedAt r; expiresAt := expiresAt r |}.

Definition WithRefreshFraction (f : spec_float) : RotatorOption := λ r,
  {| hasBootstrap := hasBootstrap r; ttl := ttl r; refreshFraction := f;
     token := token r; issuedAt := issuedAt r; expiresAt := expiresAt r |}.

Definition WithBootstrapConfig : RotatorOption := λ r,
  {| hasBootstrap := true; ttl := ttl r; refreshFraction := refreshFraction r;
     token := token r; issuedAt := issuedAt r; expiresAt := expiresAt r |}.

Definition NewRotator (opts : list RotatorOption) : Rotator :=
  foldl (λ r o, o r)
    {| hasBootstrap := false; ttl := DefaultTokenTTL; refreshFraction := DefaultRefreshFraction;
       token := ""; issuedAt := 0; expiresAt := 0 |} opts.

(** What a mint authenticates with. *)
Inductive Credential := SAToken (token : string) | BootstrapCredential.

(** One mint: when, with what, and the token with its expiry, if it succeeded. *)
Record mint := {
  m_clock : Z;
  m_with : Credential;
  m_got : option (string * Z);
}.

(** The clock, which all the reads of one call see alike, and the minter. *)
Class Minting (W : Type) := {
  now : W → Z;
  minter : Credential → Z → SM W (string + string * Z);
}.

Definition refreshDeadline (clock : Z) (r : Rotator) : Z :=
  if decide (token r = "") then clock
  else
    let lifetime := Sub (expiresAt r) (issuedAt r) in
    (issuedAt r + truncate (float64_mul (float64_of lifetime) (refreshFraction r)))%Z.

Definition needsRefresh (clock : Z) (r : Rotator) : bool :=
  bool_decide (token r = "") || (refreshDeadline clock r <=? clock)%Z.

Section rotator.
Context {W : Type} `{Minting W}.

(** The credential that [refreshLocked] mints with, if there is one. *)
Definition mint_credential (clock : Z) (r : Rotator) : option Credential :=
  if bool_decide (token r ≠ "") && (clock <? expiresAt r)%Z then Some (SAToken (token r))
  else if hasBootstrap r then Some BootstrapCredential
  else None.

(** [refreshLocked]: the error, if any, the rotator, and the mints. *)
Definition refreshLocked (r : Rotator) : SM W (option string * Rotator * list mint) :=
  clock ← sgets now;
  match mint_credential clock r with
  | None => mret (Some "cluster: token for k8s-r8r-system/k8s-r8r expired and no bootstrap credential available",
                  r, [])
  | Some c =>
      res ← minter c (ttl r);
      match res with
      | inl err => mret (Some ("cluster: refreshing token for k8s-r8r-system/k8s-r8r: " +:+ err), r,
                         [{| m_clock := clock; m_with := c; m_got := None |}])
      | inr (tok, exp) =>
          mret (None, {| hasBootstrap := hasBootstrap r; ttl := ttl r;
                         refreshFraction := refreshFraction r; token := tok;
                         issuedAt := clock; expiresAt := exp |},
                   [{| m_clock := clock; m_with := c; m_got := Some (tok, exp) |}])
      end
  end.

(** [Config]: the bearer token of the returned config, or the error. *)
Definition Config (r : Rotator) : SM W ((string + string) * Rotator * list mint) :=
  clock ← sgets now;
  if needsRefresh clock r then
    res ← refreshLocked r;
    let '(err, r', used) := res in
    mret (match err with Some e => inl e | None => inr (token r') end, r', used)
  else mret (inr (token r), r, []).

(** What [Run] waits before its next look. *)
Definition Run_wait (clock : Z) (r : Rotator) : Z :=
  let wait := Sub (refreshDeadline clock r) clock in if (wait <? Second)%Z then Second else wait.

(** One turn of [Run], after the wait. *)
Definition Run_turn (r : Rotator) : SM W (Rotator * list mint) :=
  clock ← sgets now;
  if needsRefresh clock r then
    res ← refreshLocked r; let '(_, r', used) := res in mret (r', used)
  else mret (r, []).

Lemma refreshLocked_spec r w :
  let '(err, r', used) := (refreshLocked r w).1 in
  match used with
  | [] => hasBootstrap r = false ∧ r' = r ∧ is_Some err
  | [m] => let c := m_with m in mint_credential (now w) r = Some c ∧
           match (minter c (ttl r) w).1 with
           | inl _ => r' = r ∧ is_Some err
           | inr (tok, exp) => err = None ∧ token r' = tok ∧ expiresAt r' = exp ∧ issuedAt r' = now w ∧
                               hasBootstrap r' = hasBootstrap r ∧ ttl r' = ttl r
           end
  | _ => False
  end.
Proof.
  unfold refreshLocked, mbind, SM_bind, sgets.
  destruct (mint_credential (now w) r) as [c|] eqn:Ec.
  - destruct (minter c (ttl r) w) as [[err|[tok exp]] w'] eqn:Em; simpl; rewrite Em /=;
      split_and!; eauto.
  - simpl. split_and!; [|done|eauto]. unfold mint_credential in Ec.
    destruct (_ && _); [done|]. by destruct (hasBootstrap r).
Qed.

Lemma mint_credential_admin clock r :
  mint_credential clock r = Some BootstrapCredential →
  hasBootstrap r = true ∧ (token r = "" ∨ (expiresAt r ≤ clock)%Z).
Proof.
  unfold mint_credential.
  destruct (bool_decide (token r ≠ "")) eqn:E1, (Z.ltb_spec clock (expiresAt r)); simpl; try done;
    destruct (hasBootstrap r); try done; intros _; split; try done; try (right; lia).
  left. apply bool_decide_eq_false in E1. by apply dec_stable.
Qed.

(** Token hygiene of [Config]: traffic never carries the admin credential,
    which is only ever used to mint, at most once per call, and only when there is
    no token yet or the current one has expired; a token that is not due is returned
    without any mint; a due but unexpired token mints its successor as itself; and
    a failed mint keeps the rotator as it was and is reported. *)
Theorem Config_hygiene r w :
  let '(res, r', mints) := (Config r w).1 in
  let used := map m_with mints in
  (∀ tok, res = inr tok → tok = token r') ∧
  (needsRefresh (now w) r = false → res = inr (token r) ∧ r' = r ∧ used = []) ∧
  (BootstrapCredential ∈ used → hasBootstrap r = true ∧ (token r = "" ∨ (expiresAt r ≤ now w)%Z)) ∧
  (∀ tok, SAToken tok ∈ used → tok = token r ∧ tok ≠ "" ∧ (now w < expiresAt r)%Z) ∧
  (length used ≤ 1)%nat ∧
  (∀ e, res = inl e → r' = r) ∧
  (needsRefresh (now w) r = true → res = inr (token r') → issuedAt r' = now w ∧ used ≠ []).
Proof.
  unfold Config, mbind, SM_bind, sgets. destruct (needsRefresh (now w) r) eqn:En; simpl.
  2: { split_and!; try done; try (by intros ?%not_elem_of_nil); try (by intros ? ?%not_elem_of_nil);
       [by intros tok [= <-]|lia]. }
  pose proof (refreshLocked_spec r w) as Hs.
  destruct (refreshLocked r w) as [[[err r'] used] w']. simpl in Hs |- *.
  destruct used as [|[t c g] [|]]; [|..|done].
  - destruct Hs as (Hb & -> & [e ->]). split_and!; try done; try (by intros ?%not_elem_of_nil);
      try (by intros ? ?%not_elem_of_nil); simpl; lia.
  - simpl in Hs |- *. destruct Hs as [Hc Hm]. rewrite !list_elem_of_singleton.
    setoid_rewrite list_elem_of_singleton. split_and!.
    + by destruct err; intros tok [= <-].
    + done.
    + intros <-. by eapply mint_credential_admin.
    + intros tok <-. unfold mint_credential in Hc.
      destruct (bool_decide (token r ≠ "") && (now w <? expiresAt r)%Z) eqn:E;
        [|by destruct (hasBootstrap r)].
      apply andb_true_iff in E as [E1 E2]. injection Hc as <-.
      apply bool_decide_eq_true in E1. split_and!; [done|done|lia].
    + simpl. lia.
    + intros e He. destruct (minter c (ttl r) w).1 as [|[]]; [by destruct Hm as [-> _]|].
      by destruct Hm as (-> & _).
    + intros _ He. destruct (minter c (ttl r) w).1 as [|[]].
      * by destruct Hm as [_ [? ->]].
      * by destruct Hm as (_ & _ & _ & -> & _).
Qed.
End rotator.

(** A one-hour token is due after 48 minutes. *)
Example default_deadline :
  refreshDeadline 0 {| hasBootstrap := true; ttl := DefaultTokenTTL;
                       refreshFraction := DefaultRefreshFraction; token := "t"; issuedAt := 1000;
                       expiresAt := 1000 + Hour |} = (1000 + 48 * Minute)%Z.
Proof. vm_compute. reflexivity. Qed.
End Rotator.

(** ** Spoke bootstrap (bootstrap.go) *)

Module Bootstrap.
Definition Namespace : string := "k8s-r8r-system".
Definition ServiceAccountName : string := "k8s-r8r".
Definition ClusterRoleName : string := "k8s-r8r-replicator".
Definition ClusterRoleBindingName : string := "k8s-r8r-replicator".
Definition TokenRoleName : string := "k8s-r8r-token".
Definition TokenRoleBindingName : string := "k8s-r8r-token".

Definition replicaVerbs : list string :=
  ["get"; "list"; "watch"; "create"; "update"; "patch"; "delete"].

Record ScopedResource := { sr_Group : string; sr_Resource : string }.

#[export] Instance ScopedResource_eq : EqDecision ScopedResource.
Proof. solve_decision. Defined.

(** [RBACScope] *)
Definition RBACScope : Type := list ScopedResource.

Definition DefaultRBACScope : RBACScope :=
  [{| sr_Group := ""; sr_Resource := "secrets" |}; {| sr_Group := ""; sr_Resource := "configmaps" |}].

(** [rbacv1.PolicyRule] *)
Record PolicyRule := {
  APIGroups : list string;
  Resources : list string;
  ResourceNames : list string;
  Verbs : list string;
}.

Definition Rules (s : RBACScope) : list PolicyRule :=
  map (λ r, {| APIGroups := [sr_Group r]; Resources := [sr_Resource r]; ResourceNames := [];
               Verbs := replicaVerbs |}) s
  ++ [{| APIGroups := [""]; Resources := ["namespaces"]; ResourceNames := [];
         Verbs := ["get"; "create"; "patch"] |}].

Definition tokenRules : list PolicyRule :=
  [{| APIGroups := [""]; Resources := ["serviceaccounts/token"]; ResourceNames := [ServiceAccountName];
      Verbs := ["create"] |}].

(** The metadata that the bootstrap sets, and [managedMeta]. *)
Record Meta := { m_Name : string; m_Namespace : string; m_Labels : gmap string string }.

Definition managedByLabelKey : string := "app.kubernetes.io/managed-by".
Definition managedByLabelValue : string := "k8s-r8r".

Definition managedMeta (name namespace : string) : Meta :=
  {| m_Name := name; m_Namespace := namespace;
     m_Labels := {[ managedByLabelKey := managedByLabelValue ]} |}.

(** [rbacv1.RoleRef], [rbacv1.Subject], [rbacv1.ClusterRole]. *)
Record RoleRef := { rr_APIGroup : string; rr_Kind : string; rr_Name : string }.
Record Subject := { sub_Kind : string; sub_Name : string; sub_Namespace : string }.
Record ClusterRole := { cr_Meta : Meta; cr_Rules : list PolicyRule }.

Definition GroupName : string := "rbac.authorization.k8s.io".

(** The subject of both bindings. *)
Definition operator : Subject :=
  {| sub_Kind := "ServiceAccount"; sub_Name := ServiceAccountName; sub_Namespace := Namespace |}.

(** What the bootstrap creates. *)
Inductive SpokeObject :=
  | NamespaceObject (m : Meta)
  | ServiceAccountObject (m : Meta)
  | ClusterRoleObject (r : ClusterRole)
  | ClusterRoleBindingObject (m : Meta) (ref : RoleRef) (subjects : list Subject)
  | RoleObject (m : Meta) (rules : list PolicyRule)
  | RoleBindingObject (m : Meta) (ref : RoleRef) (subjects : list Subject).

Record spokeError := { se_NotFound : bool; se_AlreadyExists : bool; se_Text : string }.

(** The clientset: creation of any object, and reading and updating a ClusterRole. *)
Class SpokeClient (W : Type) := {
  createObject : SpokeObject → SM W (option spokeError);
  getClusterRole : string → SM W (spokeError + ClusterRole);
  updateClusterRole : ClusterRole → SM W (option spokeError);
}.

Section bootstrap.
Context {W : Type} `{SpokeClient W}.

(** The [Create] that tolerates AlreadyExists; [what] is the text of the error. *)
Definition create_tolerant (what : string) (o : SpokeObject) : SM W (option string) :=
  err ← createObject o;
  mret match err with
       | Some e => if se_AlreadyExists e then None
                   else Some ("cluster: creating " +:+ what +:+ ": " +:+ se_Text e)
       | None => None
       end.

Definition ensureNamespace : SM W (option string) :=
  create_tolerant ("namespace " +:+ Namespace) (NamespaceObject (managedMeta Namespace "")).

Definition ensureServiceAccount : SM W (option string) :=
  create_tolerant ("ServiceAccount " +:+ Namespace +:+ "/" +:+ ServiceAccountName)
    (ServiceAccountObject (managedMeta ServiceAccountName Namespace)).

Definition UpdateRBAC (scope : RBACScope) : SM W (option string) :=
  existing ← getClusterRole ClusterRoleName;
  match existing with
  | inl e =>
      if se_NotFound e then
        create_tolerant ("ClusterRole " +:+ ClusterRoleName)
          (ClusterRoleObject {| cr_Meta := managedMeta ClusterRoleName ""; cr_Rules := Rules scope |})
      else mret (Some ("cluster: reading ClusterRole " +:+ ClusterRoleName +:+ ": " +:+ se_Text e))
  | inr existing =>
      err ← updateClusterRole {| cr_Meta := cr_Meta existing; cr_Rules := Rules scope |};
      mret match err with
           | Some e => Some ("cluster: updating ClusterRole " +:+ ClusterRoleName +:+ ": " +:+ se_Text e)
           | None => None
           end
  end.

Definition ensureClusterRoleBinding : SM W (option string) :=
  create_tolerant ("ClusterRoleBinding " +:+ ClusterRoleBindingName)
    (ClusterRoleBindingObject (managedMeta ClusterRoleBindingName "")
       {| rr_APIGroup := GroupName; rr_Kind := "ClusterRole"; rr_Name := ClusterRoleName |} [operator]).

Definition ensureTokenRole : SM W (option string) :=
  create_tolerant ("Role " +:+ Namespace +:+ "/" +:+ TokenRoleName)
    (RoleObject (managedMeta TokenRoleName Namespace) tokenRules).

Definition ensureTokenRoleBinding : SM W (option string) :=
  create_tolerant ("RoleBinding " +:+ Namespace +:+ "/" +:+ TokenRoleBindingName)
    (RoleBindingObject (managedMeta TokenRoleBindingName Namespace)
       {| rr_APIGroup := GroupName; rr_Kind := "Role"; rr_Name := TokenRoleName |} [operator]).

(** [if err := step; err != nil { return err }] *)
Definition and_then (m k : SM W (option string)) : SM W (option string) :=
  err ← m; match err with Some e => mret (Some e) | None => k end.

Definition Bootstrap (scope : RBACScope) : SM W (option string) :=
  and_then ensureNamespace
    (and_then ensureServiceAccount
       (and_then (UpdateRBAC scope)
          (and_then ensureClusterRoleBinding (and_then ensureTokenRole ensureTokenRoleBinding)))).
End bootstrap.

End Bootstrap.
