(* ===== verification/SpokeRBAC.v ===== *)
(** What [internal/cluster/bootstrap.go] leaves on a spoke: the spoke's objects by
    kind, namespace and name, the laws of a Kubernetes API over them, the objects
    after a bootstrap, and what the RBAC objects among them authorize. The API is
    the class [SpokeLaws]; a concrete store that meets it ends the file. *)
From S2P Require Import Prelude GoLib Api Cluster.
Import Bootstrap.

#[local] Open Scope string_scope.
#[local] Open Scope list_scope.

(** ** Objects and their keys *)

Inductive ObjectKind :=
  | KNamespace | KServiceAccount | KClusterRole | KClusterRoleBinding | KRole | KRoleBinding.

#[export] Instance ObjectKind_eq : EqDecision ObjectKind.
Proof. solve_decision. Defined.

Definition kind_index (k : ObjectKind) : nat :=
  match k with
  | KNamespace => 0 | KServiceAccount => 1 | KClusterRole => 2
  | KClusterRoleBinding => 3 | KRole => 4 | KRoleBinding => 5
  end.

Definition kind_at (n : nat) : ObjectKind :=
  match n with
  | 0 => KNamespace | 1 => KServiceAccount | 2 => KClusterRole
  | 3 => KClusterRoleBinding | 4 => KRole | _ => KRoleBinding
  end.

#[export] Instance ObjectKind_countable : Countable ObjectKind.
Proof. by apply (inj_countable' kind_index kind_at); intros []. Defined.

(** Kind, namespace (empty for cluster-scoped objects) and name: an API server
    holds one object per key. *)
Definition ObjectKey : Type := ObjectKind * (string * string).
Definition Objects : Type := gmap ObjectKey SpokeObject.

Definition meta_of (o : SpokeObject) : Meta :=
  match o with
  | NamespaceObject m | ServiceAccountObject m | ClusterRoleBindingObject m _ _
  | RoleObject m _ | RoleBindingObject m _ _ => m
  | ClusterRoleObject r => cr_Meta r
  end.

Definition kind_of (o : SpokeObject) : ObjectKind :=
  match o with
  | NamespaceObject _ => KNamespace
  | ServiceAccountObject _ => KServiceAccount
  | ClusterRoleObject _ => KClusterRole
  | ClusterRoleBindingObject _ _ _ => KClusterRoleBinding
  | RoleObject _ _ => KRole
  | RoleBindingObject _ _ _ => KRoleBinding
  end.

Definition key_of (o : SpokeObject) : ObjectKey :=
  (kind_of o, (m_Namespace (meta_of o), m_Name (meta_of o))).

(** The rules, the role reference and the subjects of an object. *)
Definition content (o : SpokeObject) : list PolicyRule * option (RoleRef * list Subject) :=
  match o with
  | NamespaceObject _ | ServiceAccountObject _ => ([], None)
  | ClusterRoleObject r => (cr_Rules r, None)
  | RoleObject _ rules => (rules, None)
  | ClusterRoleBindingObject _ ref subjects | RoleBindingObject _ ref subjects =>
      ([], Some (ref, subjects))
  end.

(** The server stores [o] as [o']: it may add labels, and changes nothing else. *)
Definition stores (o o' : SpokeObject) : Prop :=
  key_of o' = key_of o ∧ content o' = content o ∧
  m_Labels (meta_of o) ⊆ m_Labels (meta_of o').

(** ** The laws of the API *)

(** What the answers of a spoke's API server say of its objects, while nobody else
    writes them. An error other than NotFound and AlreadyExists says nothing. *)
Class SpokeLaws (W : Type) `{SpokeClient W} := {
  objects : W → Objects;
  objects_keyed w k o : objects w !! k = Some o → key_of o = k;
  create_done o w :
    (createObject o w).1 = None →
    objects w !! key_of o = None ∧
    ∃ o', stores o o' ∧ objects (createObject o w).2 = <[key_of o := o']> (objects w);
  create_exists o w e :
    (createObject o w).1 = Some e → se_AlreadyExists e = true →
    is_Some (objects w !! key_of o) ∧ objects (createObject o w).2 = objects w;
  get_found name w r :
    (getClusterRole name w).1 = inr r →
    objects w !! (KClusterRole, ("", name)) = Some (ClusterRoleObject r) ∧
    key_of (ClusterRoleObject r) = (KClusterRole, ("", name)) ∧
    objects (getClusterRole name w).2 = objects w;
  get_absent name w e :
    (getClusterRole name w).1 = inl e → se_NotFound e = true →
    objects w !! (KClusterRole, ("", name)) = None ∧
    objects (getClusterRole name w).2 = objects w;
  update_done r w :
    (updateClusterRole r w).1 = None →
    objects (updateClusterRole r w).2 =
    <[key_of (ClusterRoleObject r) := ClusterRoleObject r]> (objects w);
}.

(** An object may be stored: it is cluster-scoped or its namespace exists. *)
Definition placeable (O : Objects) (o : SpokeObject) : Prop :=
  m_Namespace (meta_of o) = "" ∨
  is_Some (O !! (KNamespace, ("", m_Namespace (meta_of o)))).

(** The spoke is up: it refuses nothing but what is there already, and answers
    that a role is absent or what it is. *)
Record spoke_up (W : Type) `{SpokeLaws W} : Prop := {
  up_create o w :
    placeable (objects w) o →
    match (createObject o w).1 with None => True | Some e => se_AlreadyExists e = true end;
  up_get name w :
    match (getClusterRole name w).1 with inr _ => True | inl e => se_NotFound e = true end;
  up_update r w :
    is_Some (objects w !! key_of (ClusterRoleObject r)) → (updateClusterRole r w).1 = None;
}.
Arguments up_create {W _ _} _.
Arguments up_get {W _ _} _.
Arguments up_update {W _ _} _.

(** ** What the RBAC objects authorize *)

(** A rule that names the resource, with the wildcards of RBAC. *)
Definition covers (xs : list string) (x : string) : Prop := x ∈ xs ∨ "*" ∈ xs.

Definition covers_resource (xs : list string) (x : string) : Prop :=
  covers xs x ∨ ∃ base sub, x = base +:+ "/" +:+ sub ∧ "*/" +:+ sub ∈ xs.

Definition rule_allows (r : PolicyRule) (verb group resource name : string) : Prop :=
  covers (Verbs r) verb ∧ covers (APIGroups r) group ∧ covers_resource (Resources r) resource ∧
  (ResourceNames r = [] ∨ name ∈ ResourceNames r).

Definition allows (rs : list PolicyRule) (verb group resource name : string) : Prop :=
  ∃ r, r ∈ rs ∧ rule_allows r verb group resource name.

(** The key of the role a binding in [ns] refers to. *)
Definition ref_key (ns : string) (ref : RoleRef) : option ObjectKey :=
  if decide (rr_Kind ref = "ClusterRole") then Some (KClusterRole, ("", rr_Name ref))
  else if decide (rr_Kind ref = "Role") then Some (KRole, (ns, rr_Name ref))
  else None.

(** The rules of the role a binding in [ns] refers to. *)
Definition role_rules (O : Objects) (ns : string) (ref : RoleRef) : list PolicyRule :=
  match k ← ref_key ns ref; O !! k with
  | Some o => (content o).1
  | None => []
  end.

(** The bindings that name [s], in the whole cluster and in the namespace of the
    request, allow the request. *)
Definition authorized (O : Objects) (s : Subject) (verb group resource ns name : string) : Prop :=
  (∃ b m ref subjects,
     O !! (KClusterRoleBinding, ("", b)) = Some (ClusterRoleBindingObject m ref subjects) ∧
     s ∈ subjects ∧ rr_Kind ref = "ClusterRole" ∧
     allows (role_rules O "" ref) verb group resource name) ∨
  (∃ b m ref subjects,
     O !! (KRoleBinding, (ns, b)) = Some (RoleBindingObject m ref subjects) ∧
     s ∈ subjects ∧ allows (role_rules O ns ref) verb group resource name).

(** The plain rules that the bootstrap writes. *)
Lemma covers_plain x y : x ≠ "*" → covers [x] y ↔ y = x.
Proof. unfold covers. rw !list_elem_of_singleton. intros Hx. split; [|by left]. naive_solver. Qed.

Lemma covers_resource_plain x y :
  x ≠ "*" → (∀ sub, x ≠ "*/" +:+ sub) → covers_resource [x] y ↔ y = x.
Proof.
  intros Hx Hs. unfold covers_resource. rw covers_plain //. split; [|by left].
  intros [?|(base & sub & _ & Hin)]; [done|]. apply list_elem_of_singleton in Hin.
  by destruct (Hs sub).
Qed.

Lemma covers_verbs vs v : "*" ∉ vs → covers vs v ↔ v ∈ vs.
Proof. unfold covers. naive_solver. Qed.

(** No wildcard in a scope. *)
Definition plain (scope : RBACScope) : Prop :=
  ∀ r, r ∈ scope →
    sr_Group r ≠ "*" ∧ sr_Resource r ≠ "*" ∧ ∀ sub, sr_Resource r ≠ "*/" +:+ sub.

Lemma Rules_allows scope verb group resource name :
  plain scope →
  allows (Rules scope) verb group resource name ↔
  (verb ∈ replicaVerbs ∧ {| sr_Group := group; sr_Resource := resource |} ∈ scope) ∨
  (group = "" ∧ resource = "namespaces" ∧ verb ∈ ["get"; "create"; "patch"]).
Proof.
  intros Hp. unfold allows, Rules, rule_allows. setoid_rewrite elem_of_app.
  setoid_rewrite list_elem_of_singleton. setoid_rewrite elem_of_map. split.
  - intros (r & [(sr & -> & Hin)| ->] & Hv & Hg & Hr & _); simpl in *.
    + destruct (Hp _ Hin) as (H1 & H2 & H3). rewrite covers_verbs in Hv; [compute_done|].
      rewrite covers_plain // in Hg. rewrite covers_resource_plain // in Hr. subst. left. by destruct sr.
    + rewrite covers_verbs in Hv; [compute_done|]. rewrite covers_plain // in Hg.
      rewrite covers_resource_plain // in Hr. by right.
  - intros [[Hv Hin]|(-> & -> & Hv)].
    + eexists. split; [left; by exists {| sr_Group := group; sr_Resource := resource |}|]. simpl.
      split_and!; [by left|left; left|left; left; left|by left].
    + eexists. split; [by right|]. simpl. split_and!; [by left|left; left|left; left; left|by left].
Qed.

Lemma tokenRules_allow verb group resource name :
  allows tokenRules verb group resource name ↔
  verb = "create" ∧ group = "" ∧ resource = "serviceaccounts/token" ∧ name = ServiceAccountName.
Proof.
  unfold allows, tokenRules, rule_allows. setoid_rewrite list_elem_of_singleton. split.
  - intros (r & -> & Hv & Hg & Hr & [?|Hn]); [done|]. simpl in *.
    rewrite covers_plain // in Hv. rewrite covers_plain // in Hg.
    rewrite covers_resource_plain // in Hr. by apply list_elem_of_singleton in Hn.
  - intros (-> & -> & -> & ->). eexists. split; [done|]. simpl.
    split_and!; [left; left|left; left|left; left; left|right; left].
Qed.

(** ** What a successful step leaves *)

(** How a step changes the object at a key. *)
Definition change : Type := option SpokeObject → option SpokeObject → Prop.

(** [Create] that tolerates AlreadyExists: an object that is there stays as it is. *)
Definition created (b : SpokeObject) : change := λ old new,
  match old with
  | Some o => new = Some o
  | None => ∃ o, new = Some o ∧ stores b o
  end.

(** The two bindings and the Role of the bootstrap. *)
Definition roleBinding : SpokeObject :=
  ClusterRoleBindingObject (managedMeta ClusterRoleBindingName "")
    {| rr_APIGroup := GroupName; rr_Kind := "ClusterRole"; rr_Name := ClusterRoleName |} [operator].

Definition tokenRole : SpokeObject := RoleObject (managedMeta TokenRoleName Namespace) tokenRules.

Definition tokenBinding : SpokeObject :=
  RoleBindingObject (managedMeta TokenRoleBindingName Namespace)
    {| rr_APIGroup := GroupName; rr_Kind := "Role"; rr_Name := TokenRoleName |} [operator].

Definition roleObject (scope : RBACScope) (m : Meta) : SpokeObject :=
  ClusterRoleObject {| cr_Meta := m; cr_Rules := Rules scope |}.

(** [UpdateRBAC]: the rules are replaced, the metadata of a role that is there kept. *)
Definition ruled (scope : RBACScope) : change := λ old new,
  match old with
  | Some (ClusterRoleObject r) => new = Some (roleObject scope (cr_Meta r))
  | Some _ => False
  | None => ∃ o, new = Some o ∧ stores (roleObject scope (managedMeta ClusterRoleName "")) o
  end.

(** The objects at the keys of [l] change as [l] says, and no other. *)
Definition effect (l : list (ObjectKey * change)) (O O' : Objects) : Prop :=
  (∀ k, k ∉ l.*1 → O' !! k = O !! k) ∧ (∀ k R, (k, R) ∈ l → R (O !! k) (O' !! k)).

Lemma effect_app l1 l2 O O1 O2 :
  effect l1 O O1 → effect l2 O1 O2 → l1.*1 ## l2.*1 → effect (l1 ++ l2) O O2.
Proof.
  intros [H1 H1'] [H2 H2'] Hd. split.
  - intros k. rw fmap_app elem_of_app. intros Hk. rw H2; [tauto|apply H1; tauto].
  - intros k R [Hin|Hin]%elem_of_app; pose proof (list_elem_of_fmap_2 fst _ _ Hin) as Hk.
    + rw H2; [|by apply H1']. intros ?. by eapply Hd.
    + rw -H1; [|by apply H2']. intros ?. by eapply Hd.
Qed.

(** A change that, once made, is not made again. *)
Definition settles (R : change) : Prop := ∀ a b c, R a b → R b c → c = b.

Lemma created_settles b : settles (created b).
Proof. intros [a|] o c; simpl; [intros ->; done|intros (o' & -> & _) ?; done]. Qed.

Lemma ruled_role scope old new : ruled scope old new → ∃ m, new = Some (roleObject scope m).
Proof.
  destruct old as [[]|]; simpl; try done; [by eauto|].
  intros (o & -> & Hk & Hc & _). destruct o as [| |r| | |]; try done.
  exists (cr_Meta r). destruct r as [m rules]. unfold roleObject. simpl in *. by injection Hc as ->.
Qed.

Lemma ruled_settles scope : settles (ruled scope).
Proof.
  intros [[]|] o c; simpl; try done.
  - by intros ->.
  - intros Hn Hc. assert (ruled scope None o) as [m ->]%ruled_role; [exact Hn|]. by rewrite Hc.
Qed.

Lemma effect_again l O O' O'' :
  Forall (λ p, settles p.2) l → effect l O O' → effect l O' O'' → O'' = O'.
Proof.
  rw Forall_forall. intros Hs [H1 H1'] [H2 H2']. apply map_eq. intros k.
  destruct (decide (k ∈ l.*1)) as [Hin|Hn]; [|by apply H2].
  apply list_elem_of_fmap in Hin as ([k' R] & -> & Hin). simpl.
  exact (Hs _ Hin _ _ _ (H1' _ _ Hin) (H2' _ _ Hin)).
Qed.

(** ** The steps of the bootstrap *)

Section steps.
Context {W : Type} `{L : SpokeLaws W}.

(** Without an error, [m] changes the objects as [l] says. *)
Definition does (m : SM W (option string)) (l : list (ObjectKey * change)) : Prop :=
  ∀ w, (m w).1 = None → effect l (objects w) (objects (m w).2).

Lemma does_and_then m k l1 l2 :
  does m l1 → does k l2 → l1.*1 ## l2.*1 → does (and_then m k) (l1 ++ l2).
Proof.
  intros Hm Hk Hd w. unfold and_then, mbind, SM_bind. specialize (Hm w).
  destruct (m w) as [[e|] w1]; simpl in *; [done|]. intros He. eapply effect_app; eauto.
Qed.

(** One object is written. *)
Lemma effect_insert k R (O : Objects) o :
  R (O !! k) (Some o) → effect [(k, R)] O (<[k := o]> O).
Proof.
  intros HR. split.
  - intros k' Hk. rw lookup_insert_ne //. intros ->. apply Hk. left.
  - intros k' R' Hin. apply list_elem_of_singleton in Hin as [= -> ->]. by rw lookup_insert_eq.
Qed.

Lemma effect_same k R (O : Objects) : R (O !! k) (O !! k) → effect [(k, R)] O O.
Proof. intros HR. split; [done|]. by intros k' R' [= -> ->]%list_elem_of_singleton. Qed.

Lemma create_tolerant_does what o : does (create_tolerant what o) [(key_of o, created o)].
Proof.
  intros w. unfold create_tolerant, mbind, SM_bind.
  pose proof (create_done o w) as Hd. pose proof (create_exists o w) as Hx.
  destruct (createObject o w) as [[e|] w']; simpl in *.
  - destruct (se_AlreadyExists e) eqn:He; [|done]. intros _.
    destruct (Hx e eq_refl He) as [[o' Ho] Hw]. rw Hw. apply effect_same. by rw Ho.
  - intros _. destruct (Hd eq_refl) as (Hn & o' & Hs & Hw). rw Hw. apply effect_insert.
    rw Hn. by exists o'.
Qed.

Lemma UpdateRBAC_does scope :
  does (UpdateRBAC scope) [((KClusterRole, ("", ClusterRoleName)), ruled scope)].
Proof.
  intros w. unfold UpdateRBAC, mbind, SM_bind.
  pose proof (get_found ClusterRoleName w) as Hf. pose proof (get_absent ClusterRoleName w) as Ha.
  destruct (getClusterRole ClusterRoleName w) as [[e|r] w1]; simpl in Hf, Ha.
  - destruct (se_NotFound e) eqn:He; [|done]. destruct (Ha e eq_refl He) as [Hn Hw]. intros Hc.
    apply create_tolerant_does in Hc as [H1 H2]. rw Hw in H1 H2. split; [exact H1|].
    intros k R Hin. apply list_elem_of_singleton in Hin as [= -> ->].
    specialize (H2 _ _ (list_elem_of_here _ _)). rw Hn. unfold key_of in H2. simpl in H2.
    by rewrite Hn in H2.
  - destruct (Hf r eq_refl) as (Ho & Hk & Hw).
    pose proof (update_done {| cr_Meta := cr_Meta r; cr_Rules := Rules scope |} w1) as Hu.
    destruct (updateClusterRole _ w1) as [[e|] w2]; simpl in *; [done|]. intros _.
    rw (Hu eq_refl) Hw. unfold key_of in *. simpl in *. rw Hk. apply effect_insert. by rw Ho.
Qed.

(** The six objects, in the order of the steps. *)
Definition bootstrap_changes (scope : RBACScope) : list (ObjectKey * change) :=
  let create o := (key_of o, created o) in
  [create (NamespaceObject (managedMeta Namespace ""));
   create (ServiceAccountObject (managedMeta ServiceAccountName Namespace));
   ((KClusterRole, ("", ClusterRoleName)), ruled scope);
   create roleBinding; create tokenRole; create tokenBinding].

Lemma Bootstrap_does scope : does (Bootstrap scope) (bootstrap_changes scope).
Proof.
  unfold bootstrap_changes. unfold Bootstrap.
  assert (∀ (k : ObjectKey) (R : change) (l : list (ObjectKey * change)),
    k ∉ l.*1 → [(k, R)].*1 ## l.*1) as Hd.
  { intros k R l Hk. simpl. set_solver. }
  repeat first
    [ eapply (does_and_then _ _ [_] _);
        [first [apply create_tolerant_does|apply UpdateRBAC_does]| |apply Hd; compute_done]
    | apply create_tolerant_does ].
Qed.

Lemma bootstrap_settles scope : Forall (λ p, settles p.2) (bootstrap_changes scope).
Proof. repeat constructor; simpl; first [apply created_settles|apply ruled_settles]. Qed.

(** Once without an error, a second time without an error writes nothing new. *)
Lemma Bootstrap_again scope w w' w'' :
  Bootstrap scope w = (None, w') → Bootstrap scope w' = (None, w'') → objects w'' = objects w'.
Proof.
  intros H1 H2. pose proof (Bootstrap_does scope w) as E1. pose proof (Bootstrap_does scope w') as E2.
  rewrite H1 in E1. rewrite H2 in E2.
  exact (effect_again _ _ _ _ (bootstrap_settles scope) (E1 eq_refl) (E2 eq_refl)).
Qed.

(** *** On a spoke that is up, the bootstrap ends without an error *)

Section up.
Context (U : spoke_up W).

Definition namespaced (w : W) : Prop := is_Some (objects w !! (KNamespace, ("", Namespace))).

Lemma triple_and_then (P Q R : W → Prop) m k :
  triple P m (λ err w, err = None ∧ Q w) → triple Q k (λ err w, err = None ∧ R w) →
  triple P (and_then m k) (λ err w, err = None ∧ R w).
Proof.
  intros Hm Hk. eapply triple_bind; [exact Hm|]. intros [e|]; [by intros w [? _]|].
  intros w [_ Hw]. by apply Hk.
Qed.

(** A step that is done keeps what its changes keep. *)
Definition keeps (R : change) : Prop := ∀ a b, R a b → is_Some a → is_Some b.

Lemma does_namespaced m k R w :
  does m [(k, R)] → keeps R → (m w).1 = None → namespaced w → namespaced (m w).2.
Proof.
  intros Hm HR He Hw. destruct (Hm w He) as [H1 H2].
  destruct (decide (k = (KNamespace, ("", Namespace)))) as [->|Hk].
  - eapply HR; [|exact Hw]. apply H2. left.
  - unfold namespaced. rewrite H1; [set_solver|done].
Qed.

Lemma created_keeps b : keeps (created b).
Proof. intros [o|] o' Ho [? ?]; [|done]. simpl in Ho. by subst. Qed.

Lemma created_some b old new : created b old new → is_Some new.
Proof. destruct old; simpl; [by intros ->|by intros (o & -> & _)]. Qed.

Lemma ruled_keeps scope : keeps (ruled scope).
Proof. by intros [[]|] o' Ho [? ?]; simpl in Ho; subst. Qed.

Lemma create_tolerant_up what o w :
  placeable (objects w) o → (create_tolerant what o w).1 = None.
Proof.
  intros Hp. apply (up_create U) in Hp. unfold create_tolerant, mbind, SM_bind.
  destruct (createObject o w) as [[e|] w']; simpl in *; [by rw Hp|done].
Qed.

Lemma create_up what o (P : W → Prop) :
  (∀ w, P w → placeable (objects w) o ∧ namespaced w) →
  triple P (create_tolerant what o) (λ err w, err = None ∧ namespaced w).
Proof.
  intros HP w Hw. destruct (HP w Hw) as [Hp Hn]. pose proof (create_tolerant_up what o w Hp) as He.
  split; [done|]. eapply does_namespaced; [apply create_tolerant_does|apply created_keeps|done..].
Qed.

Lemma UpdateRBAC_up scope :
  triple namespaced (UpdateRBAC scope) (λ err w, err = None ∧ namespaced w).
Proof.
  intros w Hw. assert ((UpdateRBAC scope w).1 = None) as He.
  { unfold UpdateRBAC, mbind, SM_bind. pose proof (up_get U ClusterRoleName w) as Hg.
    pose proof (get_found ClusterRoleName w) as Hf.
    destruct (getClusterRole ClusterRoleName w) as [[e|r] w1]; simpl in *.
    - rewrite Hg. apply create_tolerant_up. by left.
    - destruct (Hf r eq_refl) as (Ho & Hk & Hw1).
      pose proof (up_update U {| cr_Meta := cr_Meta r; cr_Rules := Rules scope |} w1) as Hu.
      destruct (updateClusterRole _ w1) as [[e|] w2]; simpl in *; [|done].
      discriminate Hu. unfold key_of in *. simpl in *. by rewrite Hk Hw1 Ho. }
  split; [done|]. eapply does_namespaced; [apply UpdateRBAC_does|apply ruled_keeps|done..].
Qed.

Lemma Bootstrap_up scope w : (Bootstrap scope w).1 = None.
Proof.
  assert (triple (λ _, True) ensureNamespace (λ err w, err = None ∧ namespaced w)) as Hns.
  { intros w' _. assert ((ensureNamespace w').1 = None) as He; [apply create_tolerant_up; by left|].
    split; [done|]. apply create_tolerant_does in He as [_ He].
    exact (created_some _ _ _ (He _ _ (list_elem_of_here _ _))). }
  assert (triple (λ _, True) (Bootstrap scope) (λ err w, err = None ∧ namespaced w)) as Hb;
    [|by apply (Hb w)].
  unfold Bootstrap. eapply triple_and_then; [exact Hns|].
  repeat (eapply triple_and_then; [first [apply UpdateRBAC_up|apply create_up; intros w' Hw'; split; [|exact Hw']]|]);
    [by right|by left|by right|].
  apply create_up. intros w' Hw'. split; [by right|done].
Qed.
End up.
End steps.

(** ** What the bootstrap authorizes *)

Definition subjects_of (o : SpokeObject) : list Subject :=
  match (content o).2 with Some (_, subjects) => subjects | None => [] end.

(** The object at the key of [b], where there is one, has the content of [b]. *)
Definition as_stored (b : SpokeObject) (O : Objects) : Prop :=
  ∀ o, O !! key_of b = Some o → content o = content b.

(** No binding names the operator but its own two. *)
Definition bound_only (O : Objects) : Prop :=
  ∀ k o, O !! k = Some o → operator ∈ subjects_of o → k = key_of roleBinding ∨ k = key_of tokenBinding.

(** Nobody else has written the operator's bindings and token role, or bound its
    account. *)
Definition foreign_free (O : Objects) : Prop :=
  as_stored roleBinding O ∧ as_stored tokenRole O ∧ as_stored tokenBinding O ∧ bound_only O.

(** The namespace, the account, the role with the rules of [scope], and the
    operator bound to that role and to the token role and to nothing else. *)
Record bootstrapped (scope : RBACScope) (O : Objects) : Prop := {
  bs_namespace : is_Some (O !! (KNamespace, ("", Namespace)));
  bs_account : is_Some (O !! (KServiceAccount, (Namespace, ServiceAccountName)));
  bs_role : ∃ m, O !! (KClusterRole, ("", ClusterRoleName)) = Some (roleObject scope m);
  bs_present b : b ∈ [roleBinding; tokenRole; tokenBinding] → is_Some (O !! key_of b);
  bs_foreign_free : foreign_free O;
}.

Definition keyed (O : Objects) : Prop := ∀ k o, O !! k = Some o → key_of o = k.

Lemma created_stored b O O' :
  as_stored b O → created b (O !! key_of b) (O' !! key_of b) → as_stored b O'.
Proof.
  intros Hs Hc o Ho. specialize (Hs). unfold as_stored in Hs.
  destruct (O !! key_of b) as [o1|]; simpl in Hc.
  - apply Hs. congruence.
  - destruct Hc as (o2 & H2 & _ & Hcont & _). congruence.
Qed.

(** An object that names subjects is a binding. *)
Lemma subject_kind s o :
  s ∈ subjects_of o → kind_of o = KClusterRoleBinding ∨ kind_of o = KRoleBinding.
Proof. destruct o; simpl; try (by intros ?%elem_of_nil); auto. Qed.

Lemma effect_bootstrapped scope O O' :
  keyed O' → foreign_free O → effect (bootstrap_changes scope) O O' → bootstrapped scope O'.
Proof.
  intros Hk (Hb & Hr & Ht & Ho) [H1 H2].
  assert (∀ b, (key_of b, created b) ∈ bootstrap_changes scope → is_Some (O' !! key_of b)) as Hc.
  { intros b Hin. exact (created_some _ _ _ (H2 _ _ Hin)). }
  split.
  - apply (Hc (NamespaceObject (managedMeta Namespace ""))). left.
  - apply (Hc (ServiceAccountObject (managedMeta ServiceAccountName Namespace))). right. left.
  - assert (ruled scope (O !! (KClusterRole, ("", ClusterRoleName)))
      (O' !! (KClusterRole, ("", ClusterRoleName)))) as Hru; [apply H2; do 2 right; left|].
    by eapply ruled_role.
  - intros b Hin. apply Hc. unfold bootstrap_changes. set_solver.
  - split_and!; [eapply created_stored; [eassumption|apply H2; unfold bootstrap_changes; set_solver]..|].
    intros k o Hin Hs. destruct (decide (k ∈ (bootstrap_changes scope).*1)) as [Hin'|Hn].
    + apply subject_kind in Hs. apply Hk in Hin as <-.
      repeat (apply elem_of_cons in Hin' as [Hin'|Hin']);
        [..|by apply elem_of_nil in Hin']; auto;
        apply (f_equal fst) in Hin'; simpl in Hin'; destruct Hs; congruence.
    + eapply Ho; [|exact Hs]. by rewrite -(H1 k Hn).
Qed.

(** A bootstrapped spoke authorizes the operator for what the two roles allow. *)
Lemma bootstrapped_authorized scope O verb group resource ns name :
  keyed O → bootstrapped scope O →
  authorized O operator verb group resource ns name ↔
  allows (Rules scope) verb group resource name ∨
  ns = Namespace ∧ allows tokenRules verb group resource name.
Proof.
  intros Hk [_ _ [m Hm] Hp (Hb & Hr & Ht & Ho)].
  assert (∀ b, b ∈ [roleBinding; tokenRole; tokenBinding] →
    ∃ o, O !! key_of b = Some o ∧ key_of o = key_of b) as Hget.
  { intros b Hin. destruct (Hp b Hin) as [o E]. exists o. split; [done|by apply Hk]. }
  destruct (Hget roleBinding) as (crb & Ecrb & Kcrb); [left|].
  destruct (Hget tokenRole) as (tr & Etr & Ktr); [right; left|].
  destruct (Hget tokenBinding) as (tb & Etb & Ktb); [do 2 right; left|].
  pose proof (Hb _ Ecrb) as Cb. pose proof (Hr _ Etr) as Cr. pose proof (Ht _ Etb) as Ct.
  destruct crb as [| | |mb rb sb| |], tr as [| | | |mr rs|], tb as [| | | | |mt rt st]; try done.
  injection Cb as -> ->. injection Cr as ->. injection Ct as -> ->.
  assert (role_rules O "" {| rr_APIGroup := GroupName; rr_Kind := "ClusterRole";
    rr_Name := ClusterRoleName |} = Rules scope) as Hrr.
  { unfold role_rules, ref_key. simpl. by rewrite Hm. }
  assert (role_rules O Namespace {| rr_APIGroup := GroupName; rr_Kind := "Role";
    rr_Name := TokenRoleName |} = tokenRules) as Htr.
  { unfold role_rules, ref_key. simpl. by rewrite Etr. }
  split.
  - intros [(b & mb' & ref & ss & E & Hin & Hkind & Ha)|(b & mb' & ref & ss & E & Hin & Ha)];
      destruct (Ho _ _ E Hin) as [Heq|Heq]; try (injection Heq; discriminate).
    + injection Heq as ->. rewrite Ecrb in E. injection E as <- <- <-. rewrite Hrr in Ha. by left.
    + injection Heq as -> ->. rewrite Etb in E. injection E as <- <- <-. rewrite Htr in Ha. by right.
  - intros [Ha|[-> Ha]].
    + left. eexists _, _, _, _. split_and!; [exact Ecrb|left|done|by rewrite Hrr].
    + right. eexists _, _, _, _. split_and!; [exact Etb|left|by rewrite Htr].
Qed.

Lemma Bootstrap_bootstrapped {W} `{L : SpokeLaws W} scope (w w' : W) :
  foreign_free (objects w) → Bootstrap scope w = (None, w') → bootstrapped scope (objects w').
Proof.
  intros Hf Hb. pose proof (Bootstrap_does scope w) as Hd. rewrite Hb in Hd.
  eapply effect_bootstrapped; [|exact Hf|exact (Hd eq_refl)].
  intros k o. apply objects_keyed.
Qed.

(** ** A store that meets the laws *)

(** The objects at their own keys. *)
Record Store := { st_objects : Objects; st_keyed : bool_decide (map_Forall (λ k o, key_of o = k) st_objects) }.

Lemma st_keyed_spec s k o : st_objects s !! k = Some o → key_of o = k.
Proof. intros Ho. destruct s as [O Hk]. simpl in *. apply bool_decide_unpack in Hk. by apply Hk. Qed.

Lemma keyed_insert s o :
  bool_decide (map_Forall (λ k o, key_of o = k) (<[key_of o := o]> (st_objects s))).
Proof.
  apply bool_decide_pack. apply map_Forall_insert_2; [done|]. intros k o'. apply st_keyed_spec.
Qed.

Definition store (o : SpokeObject) (s : Store) : Store :=
  {| st_objects := <[key_of o := o]> (st_objects s); st_keyed := keyed_insert s o |}.

Definition empty_store : Store := {| st_objects := ∅; st_keyed := I |}.

#[export] Instance placeable_dec O o : Decision (placeable O o).
Proof. unfold placeable. apply _. Defined.

Definition answer (not_found already_exists : bool) (text : string) : spokeError :=
  {| se_NotFound := not_found; se_AlreadyExists := already_exists; se_Text := text |}.

Definition store_create (o : SpokeObject) : SM Store (option spokeError) := λ s,
  match st_objects s !! key_of o with
  | Some _ => (Some (answer false true "already exists"), s)
  | None => if decide (placeable (st_objects s) o) then (None, store o s)
            else (Some (answer true false "namespace not found"), s)
  end.

Definition store_get (name : string) : SM Store (spokeError + ClusterRole) := λ s,
  match st_objects s !! (KClusterRole, ("", name)) with
  | Some (ClusterRoleObject r) => (inr r, s)
  | _ => (inl (answer true false "not found"), s)
  end.

Definition store_update (r : ClusterRole) : SM Store (option spokeError) := λ s,
  match st_objects s !! key_of (ClusterRoleObject r) with
  | Some _ => (None, store (ClusterRoleObject r) s)
  | None => (Some (answer true false "not found"), s)
  end.

#[export] Instance store_client : SpokeClient Store :=
  {| createObject := store_create; getClusterRole := store_get; updateClusterRole := store_update |}.

Lemma store_role s name :
  match (store_get name s).1 with
  | inr r => st_objects s !! (KClusterRole, ("", name)) = Some (ClusterRoleObject r)
  | inl e => st_objects s !! (KClusterRole, ("", name)) = None ∧ se_NotFound e = true
  end ∧ (store_get name s).2 = s.
Proof.
  unfold store_get. destruct (st_objects s !! _) as [o|] eqn:E; [|done].
  pose proof (st_keyed_spec _ _ _ E) as Hk. by destruct o.
Qed.

#[export] Program Instance store_laws : SpokeLaws Store := {| objects := st_objects |}.
Next Obligation. apply st_keyed_spec. Qed.
Next Obligation.
  intros o s. simpl. unfold store_create. destruct (st_objects s !! _); [done|].
  destruct (decide _); [|done]. intros _. split; [done|]. by exists o.
Qed.
Next Obligation.
  intros o s e. simpl. unfold store_create. destruct (st_objects s !! _); [by eauto|].
  destruct (decide _); simpl; [done|]. by intros [= <-].
Qed.
Next Obligation.
  intros name s r. simpl. destruct (store_role s name) as [Hr Hs]. rewrite Hs. intros Hf.
  rewrite Hf in Hr. split_and!; [done|by apply (st_keyed_spec s)|done].
Qed.
Next Obligation.
  intros name s e. simpl. destruct (store_role s name) as [Hr Hs]. rewrite Hs. intros Hf.
  rewrite Hf in Hr. by destruct Hr.
Qed.
Next Obligation.
  intros r s. simpl. unfold store_update. by destruct (st_objects s !! _).
Qed.

Lemma store_up : spoke_up Store.
Proof.
  split.
  - intros o s Hp. simpl. unfold store_create. destruct (st_objects s !! _); [done|].
    by rewrite decide_True.
  - intros name s. simpl. destruct (store_role s name) as [Hr _].
    destruct (store_get name s).1; [by destruct Hr|done].
  - intros r s [o Ho]. simpl in *. unfold store_update. by rewrite Ho.
Qed.

Lemma empty_foreign_free : foreign_free (objects empty_store).
Proof. split_and!; intros ? *; simpl; by rewrite lookup_empty. Qed.

(** An object under one of the names keeps its content: a ClusterRoleBinding that
    binds the operator to another role stays, and the bootstrap reports no error. *)
Example foreign_binding_kept :
  let rb := ClusterRoleBindingObject (managedMeta ClusterRoleBindingName "")
              {| rr_APIGroup := GroupName; rr_Kind := "ClusterRole"; rr_Name := "view" |} [operator] in
  let '(err, s) := Bootstrap DefaultRBACScope (store rb empty_store) in
  err = None ∧ objects s !! key_of roleBinding = Some rb.
Proof. vm_compute. done. Qed.
