(* ===== verification/Credentials.v ===== *)
(** [internal/cluster/credentials.go] and the composition of a bootstrap attempt:
    [BootstrapSpoke] of token.go and the network part of [spokeWirer.bootstrap] of
    cmd/main.go. The hub's Secrets, the kubeconfig parser, the spoke's API and the
    minter are parameters. *)
From Stdlib Require Import SpecFloat.
From S2P Require Import Prelude GoLib Api Annotations Discovery Cluster.
Import Bootstrap Rotator.

#[local] Open Scope string_scope.
#[local] Open Scope list_scope.

Definition kubeconfigSecretKeys : list string := ["value"; "kubeconfig"].

(** The hub's Secrets with their data, and the parser, which gives the rest config
    or an error; connecting to a config gives a clientset or an error. *)
Class AdminAccess (W K : Type) := {
  readSecret : NamespacedName → SM W (string + gmap string string);
  RESTConfigFromKubeConfig : string → string + K;
  connect : K → option string;
}.

Section credentials.
Context {W K : Type} {AccessW : AdminAccess W K} {SpokeW : SpokeClient W} {MintW : Minting W}.

(** The loop of [RESTConfigFromKubeconfigSecret] over the keys. *)
Fixpoint first_kubeconfig (ref : CredentialRef) (data : gmap string string) (keys : list string)
    : string + K :=
  match keys with
  | [] => inl ("cluster: credential secret " +:+ CredentialRef_String ref
               +:+ " has no kubeconfig under keys " +:+ fmt_strings kubeconfigSecretKeys)
  | k :: ks =>
      match data !! k with
      | None => first_kubeconfig ref data ks
      | Some d =>
          if decide (d = "") then first_kubeconfig ref data ks
          else match RESTConfigFromKubeConfig d with
               | inl err => inl ("cluster: parsing kubeconfig from secret " +:+ CredentialRef_String ref
                                 +:+ " key " +:+ quote k +:+ ": " +:+ err)
               | inr cfg => inr cfg
               end
      end
  end.

Definition RESTConfigFromKubeconfigSecret (ref : CredentialRef) (data : gmap string string)
    : string + K := first_kubeconfig ref data kubeconfigSecretKeys.

(** [LoadAdminConfig]: the Secret read carries the name it was asked for. *)
Definition LoadAdminConfig (ref : CredentialRef) : SM W (string + K) :=
  res ← readSecret {| nn_Namespace := cr_Namespace ref; nn_Name := cr_Name ref |};
  mret match res with
       | inl err => inl ("cluster: reading credential secret " +:+ CredentialRef_String ref +:+ ": " +:+ err)
       | inr data => RESTConfigFromKubeconfigSecret ref data
       end.

(** [BootstrapSpoke]: the error or the primed rotator, and the mints. *)
Definition BootstrapSpoke (admin : K) (scope : RBACScope) (opts : list RotatorOption)
    : SM W ((string + Rotator) * list mint) :=
  match connect admin with
  | Some err => mret (inl ("cluster: building bootstrap client: " +:+ err), [])
  | None =>
      err ← Bootstrap scope;
      match err with
      | Some e => mret (inl e, [])
      | None =>
          res ← Config (NewRotator (WithBootstrapConfig :: opts));
          let '(cfg, r, used) := res in
          mret (match cfg with inl e => inl e | inr _ => inr r end, used)
      end
  end.

(** [spokeWirer.bootstrap] up to the registration: the rotator the spoke's config
    is wired to, and the mints. *)
Definition bootstrap (ref : CredentialRef) (scope : RBACScope)
    : SM W ((string + Rotator) * list mint) :=
  cfg ← LoadAdminConfig ref;
  match cfg with
  | inl e => mret (inl e, [])
  | inr admin =>
      res ← BootstrapSpoke admin scope [];
      match res with
      | (inl e, used) => mret (inl e, used)
      | (inr r, used) =>
          primed ← Config r;
          let '(tok, r', used') := primed in
          mret (match tok with inl e => inl e | inr _ => inr r' end, used ++ used')
      end
  end.

(** The kubeconfig that is used is the first of the keys with data. *)
Lemma first_kubeconfig_spec ref data keys :
  match first_kubeconfig ref data keys with
  | inr cfg => ∃ pre k post d, keys = pre ++ k :: post ∧ data !! k = Some d ∧ d ≠ "" ∧
      RESTConfigFromKubeConfig d = inr cfg ∧ ∀ k', k' ∈ pre → mget data k' = ""
  | inl _ => (∀ k, k ∈ keys → mget data k = "") ∨
      ∃ k d err, k ∈ keys ∧ data !! k = Some d ∧ RESTConfigFromKubeConfig d = inl err
  end.
Proof.
  induction keys as [|k ks IH]; simpl; [left; by intros ? ?%not_elem_of_nil|].
  assert (mget data k = "" →
    match first_kubeconfig ref data ks with
    | inr cfg => ∃ pre k' post d, k :: ks = pre ++ k' :: post ∧ data !! k' = Some d ∧ d ≠ "" ∧
        RESTConfigFromKubeConfig d = inr cfg ∧ ∀ k', k' ∈ pre → mget data k' = ""
    | inl _ => (∀ k', k' ∈ k :: ks → mget data k' = "") ∨
        ∃ k' d err, k' ∈ k :: ks ∧ data !! k' = Some d ∧ RESTConfigFromKubeConfig d = inl err
    end) as Hskip.
  { intros Hk. destruct (first_kubeconfig ref data ks) as [e|cfg].
    - destruct IH as [IH|(k' & d & err & Hin & ?)].
      + left. intros k' [->|?]%elem_of_cons; auto.
      + right. exists k', d, err. split; [by right|done].
    - destruct IH as (pre & k' & post & d & -> & ? & ? & ? & Hpre).
      exists (k :: pre), k', post, d. split_and!; try done. intros k'' [->|?]%elem_of_cons; auto. }
  destruct (data !! k) as [d|] eqn:E; [|apply Hskip; unfold mget; by rewrite E].
  case_decide as Hd; [apply Hskip; unfold mget; by rewrite E|].
  destruct (RESTConfigFromKubeConfig d) as [err|cfg] eqn:Ep.
  - right. exists k, d, err. split_and!; [left|done..].
  - exists [], k, ks, d. split_and!; try done. by intros k' ?%not_elem_of_nil.
Qed.
End credentials.
