(* ===== verification/SpokeAuth.v ===== *)
(** How a spoke's traffic is authenticated: [TokenRequestMinter] of
    internal/cluster/token.go, the [rotatingAuth] round tripper of cmd/main.go over a
    [Rotator], and the life of a rotator: primed by the bootstrap, used by every
    request, refreshed by [Run]. The TokenRequest client and the next round tripper
    are parameters. *)
From Stdlib Require Import SpecFloat.
From S2P Require Import Prelude GoLib Floats Cluster.
Import Rotator.

#[local] Open Scope string_scope.
#[local] Open Scope list_scope.

(** ** The refresh deadline *)

(** 80% of a lifetime, however the floating-point arithmetic rounds: up to one
    nanosecond, which is cut off, and [2^-48] of the lifetime. *)
Lemma default_fraction l :
  (0 ≤ l < 2 ^ 63)%Z →
  let t := truncate (float64_mul (float64_of l) DefaultRefreshFraction) in
  ((5 * t - 4 * l) * 2 ^ 48 ≤ l)%Z ∧ ((4 * l - 5 * t - 5) * 2 ^ 48 ≤ l)%Z.
Proof.
  intros Hl. destruct (decide (l = 0%Z)) as [->|Hl0]; [by vm_compute|].
  destruct (product_spec l 7205759403792794) as (m & e & Hp & He & Ha); [lia..|].
  unfold float64_mul, float64_of, DefaultRefreshFraction. rewrite Hp.
  change (truncate (S754_finite false m e)) with (floor_at m e).
  destruct (floor_at_spec m e He) as [Hlo Hhi]. split; lia.
Qed.

(** The deadline of a token that is valid when it is issued lies before its expiry,
    by a fifth of its lifetime. *)
Lemma deadline_margin clock r :
  token r ≠ "" → refreshFraction r = DefaultRefreshFraction → (issuedAt r < expiresAt r)%Z →
  let l := Sub (expiresAt r) (issuedAt r) in
  (refreshDeadline clock r < expiresAt r)%Z ∧
  ((l - 5 * (expiresAt r - refreshDeadline clock r)) * 2 ^ 48 ≤ l)%Z.
Proof.
  intros Ht Hf Hi l. unfold refreshDeadline. case_decide; [done|]. rewrite Hf. fold l.
  assert (0 < l < 2 ^ 63 ∧ l ≤ expiresAt r - issuedAt r)%Z as [Hl Hle] by (unfold l, Sub; lia).
  destruct (default_fraction l) as [Hup _]; [lia|]. split; lia.
Qed.

(** ** The TokenRequest minter *)

(** The client of the spoke: the clock, building a clientset from a config, and
    [CreateToken] for a number of seconds, with the expiry of the token. *)
Class TokenAPI (W : Type) := {
  clock_of : W → Z;
  NewForConfig : Credential → option string;
  CreateToken : Credential → Z → SM W (string + string * Z);
}.

(** What comes after the authentication: the request that is sent, and its answer. *)
Record Request := { rq_URL : string; rq_Header : gmap string (list string) }.

Class NextRoundTripper (W Response : Type) := { next : Request → SM W (string + Response) }.

Section auth.
Context {W Response : Type} {TokenW : TokenAPI W} {NextW : NextRoundTripper W Response}.

(** [TokenRequestMinter]: [int64(ttl / time.Second)] seconds. *)
Definition TokenRequestMinter (c : Credential) (d : Z) : SM W (string + string * Z) :=
  match NewForConfig c with
  | Some err => mret (inl ("cluster: building token client: " +:+ err))
  | None =>
      res ← CreateToken c (Z.quot d Second);
      mret match res with
           | inl err => inl ("cluster: requesting token for k8s-r8r-system/k8s-r8r: " +:+ err)
           | inr got => inr got
           end
  end.

#[export] Instance token_request_minting : Minting W :=
  { now := clock_of; minter := TokenRequestMinter }.

(** [Header.Set] of a canonical key. *)
Definition Header_Set (k v : string) (req : Request) : Request :=
  {| rq_URL := rq_URL req; rq_Header := <[k := [v]]> (rq_Header req) |}.

(** [rotatingAuth.RoundTrip]: the answer, the rotator, the mints, and the request
    that was passed on, if one was. *)
Definition RoundTrip (r : Rotator) (req : Request)
    : SM W ((string + Response) * Rotator * list mint * option Request) :=
  res ← Config r;
  let '(cfg, r', mints) := res in
  match cfg with
  | inl err => mret (inl ("refreshing spoke token: " +:+ err), r', mints, None)
  | inr tok =>
      let req' := Header_Set "Authorization" ("Bearer " +:+ tok) req in
      resp ← next req';
      mret (resp, r', mints, Some req')
  end.

(** ** The life of a rotator *)

(** What is done with it: [Config] for its own sake, as the bootstrap primes it; a
    request; a turn of [Run]. Its mutex puts them in an order. *)
Inductive op := Prime | Send (req : Request) | Turn.

(** What the spoke sees: mints and requests, with the clock when [Config] looked. *)
Inductive event := Minted (m : mint) | Sent (clock : Z) (req : Request).

Definition perform (o : op) (r : Rotator) : SM W (list event * Rotator) :=
  clock ← sgets clock_of;
  match o with
  | Prime => res ← Config r; let '(_, r', mints) := res in mret (map Minted mints, r')
  | Send req =>
      res ← RoundTrip r req;
      let '(_, r', mints, sent) := res in
      mret (map Minted mints ++ match sent with Some q => [Sent clock q] | None => [] end, r')
  | Turn => res ← Run_turn r; let '(r', mints) := res in mret (map Minted mints, r')
  end.

Definition serve (ops : list op) (r : Rotator) : SM W (list event * Rotator) :=
  foldSM (λ acc o, res ← perform o acc.2; let '(es, r') := res in mret (acc.1 ++ es, r')) ([], r) ops.

(** The token in use after some events: when it was issued, itself, its expiry. *)
Definition got_token (e : event) : option (Z * string * Z) :=
  match e with
  | Minted m => match m_got m with Some (tok, exp) => Some (m_clock m, tok, exp) | None => None end
  | Sent _ _ => None
  end.

Definition current (es : list event) : option (Z * string * Z) := last (omap got_token es).

(** ** What the spoke may rely on *)

(** An event is in order after the events [pre] of a life with the operations [ops]:
    a request is one of the callers', with the token in use, which at that time is
    valid for another fifth of its lifetime; a mint happens when there is no token, or
    when the one in use has served four fifths of its lifetime, and uses the admin
    credential only when there is no valid token. *)
Definition in_order (ops : list op) (pre : list event) (e : event) : Prop :=
  match e with
  | Sent clock q =>
      ∃ issued tok exp req, current pre = Some (issued, tok, exp) ∧ Send req ∈ ops ∧
        q = Header_Set "Authorization" ("Bearer " +:+ tok) req ∧ (clock < exp)%Z ∧
        ((Sub exp issued - 5 * (exp - clock)) * 2 ^ 48 ≤ Sub exp issued)%Z
  | Minted m =>
      match current pre with
      | None => m_with m = BootstrapCredential
      | Some (issued, tok, exp) =>
          m_with m = (if (m_clock m <? exp)%Z then SAToken tok else BootstrapCredential) ∧
          ((4 * Sub exp issued - 5 * (m_clock m - issued) - 5) * 2 ^ 48 ≤ Sub exp issued)%Z
      end
  end.

Definition log_ok (ops : list op) (es : list event) : Prop :=
  ∀ pre e post, es = pre ++ e :: post → in_order ops pre e.

Lemma log_ok_nil ops : log_ok ops [].
Proof. by intros [|] ? ?. Qed.

Lemma log_ok_snoc ops es e : log_ok ops es → in_order ops es e → log_ok ops (es ++ [e]).
Proof.
  intros H He pre e' post E. destruct post as [|e'' post _] using rev_ind.
  - apply app_inj_2 in E as [-> [= ->]]; done.
  - rewrite app_comm_cons app_assoc in E. apply app_inj_2 in E as [E _]; [|done]. by eapply H.
Qed.

Lemma current_snoc es e :
  current (es ++ [e]) = match got_token e with Some t => Some t | None => current es end.
Proof.
  unfold current. rewrite omap_app. simpl. destruct (got_token e); [by rewrite last_snoc|].
  by rewrite app_nil_r.
Qed.

(** The rotator agrees with the events so far. *)
Record tracks (ops : list op) (es : list event) (r : Rotator) : Prop := {
  tr_fraction : refreshFraction r = DefaultRefreshFraction;
  tr_bootstrap : hasBootstrap r = true;
  tr_current : current es = (if decide (token r = "") then None
                             else Some (issuedAt r, token r, expiresAt r));
  tr_fresh : token r ≠ "" → (issuedAt r < expiresAt r)%Z;
  tr_log : log_ok ops es;
}.

Context (mint_fresh : ∀ c secs w tok exp,
  (CreateToken c secs w).1 = inr (tok, exp) → tok ≠ "" ∧ (clock_of w < exp)%Z).

Lemma minter_fresh c d w tok exp :
  (minter c d w).1 = inr (tok, exp) → tok ≠ "" ∧ (clock_of w < exp)%Z.
Proof.
  simpl. unfold TokenRequestMinter, mbind, SM_bind. destruct (NewForConfig c); [done|].
  destruct (CreateToken c _ w) as [[|[]] w'] eqn:E; simpl; [done|]. intros [= -> ->].
  eapply (mint_fresh c (Z.quot d Second)). by rewrite E.
Qed.

(** The credential of a refresh that is due. *)
Lemma refresh_in_order ops es r clock c got :
  tracks ops es r → needsRefresh clock r = true → mint_credential clock r = Some c →
  in_order ops es (Minted {| m_clock := clock; m_with := c; m_got := got |}).
Proof.
  intros [Hf Hb Hc Hi _] Hn Hm. unfold mint_credential in Hm. rewrite Hb in Hm.
  unfold in_order. rewrite Hc. simpl.
  destruct (decide (token r = "")) as [E|E].
  - rewrite bool_decide_false in Hm; naive_solver.
  - rewrite bool_decide_true // in Hm. simpl in Hm. split; [by destruct (_ <? _)%Z; simplify_eq|].
    unfold needsRefresh in Hn. rewrite bool_decide_false // in Hn. apply Z.leb_le in Hn.
    unfold refreshDeadline in Hn. rewrite decide_False // Hf in Hn.
    destruct (default_fraction (Sub (expiresAt r) (issuedAt r))) as [_ Hlo]; [|lia].
    specialize (Hi E). unfold Sub. lia.
Qed.

Lemma refreshLocked_tracks ops es r w :
  tracks ops es r → needsRefresh (clock_of w) r = true →
  let '(err, r', mints) := (refreshLocked r w).1 in
  tracks ops (es ++ map Minted mints) r' ∧
  (err = None → token r' ≠ "" ∧ issuedAt r' = clock_of w).
Proof.
  intros Ht Hn. unfold refreshLocked, mbind, SM_bind, sgets. simpl.
  destruct (mint_credential (clock_of w) r) as [c|] eqn:Ec.
  2: { exfalso. unfold mint_credential in Ec. rewrite (tr_bootstrap _ _ _ Ht) in Ec.
       by destruct (_ && _). }
  pose proof (minter_fresh c (ttl r) w) as Hfr. simpl in Hfr.
  pose proof (λ got, refresh_in_order ops es r (clock_of w) c got Ht Hn Ec) as Ho.
  destruct (TokenRequestMinter c (ttl r) w) as [[err|[tok exp]] w']; simpl in Hfr |- *.
  - split; [|done]. destruct Ht as [Hf Hb Hc Hi Hl]. split; try done.
    + by rewrite current_snoc.
    + by apply log_ok_snoc.
  - destruct (Hfr tok exp) as [Htok Hexp]; [done|]. split; [|done].
    destruct Ht as [Hf Hb Hc Hi Hl]. split; simpl; try done.
    + rewrite current_snoc /= decide_False //.
    + by apply log_ok_snoc.
Qed.

(** A token that [Config] hands out at [clock] is in use and has its margin. *)
Definition handed_out (clock : Z) (r : Rotator) (tok : string) : Prop :=
  tok = token r ∧ tok ≠ "" ∧ (issuedAt r = clock ∨ clock < refreshDeadline clock r)%Z.

Lemma Config_tracks ops es r w :
  tracks ops es r →
  let '(res, r', mints) := (Config r w).1 in
  tracks ops (es ++ map Minted mints) r' ∧ ∀ tok, res = inr tok → handed_out (clock_of w) r' tok.
Proof.
  intros Ht. unfold Config, mbind, SM_bind, sgets. simpl.
  destruct (needsRefresh (clock_of w) r) eqn:En.
  - pose proof (refreshLocked_tracks ops es r w Ht En) as H.
    destruct (refreshLocked r w) as [[[err r'] mints] w']. simpl in H |- *.
    destruct H as [H He]. split; [done|]. intros tok. destruct err as [|]; [done|].
    intros [= <-]. destruct (He eq_refl). split_and!; auto.
  - simpl. rewrite app_nil_r. split; [done|]. intros tok [= <-].
    unfold needsRefresh in En. apply orb_false_iff in En as [E1 E2].
    apply bool_decide_eq_false in E1. split_and!; try done. right. lia.
Qed.

Lemma Run_turn_tracks ops es r w :
  tracks ops es r →
  let '(r', mints) := (Run_turn r w).1 in tracks ops (es ++ map Minted mints) r'.
Proof.
  intros Ht. unfold Run_turn, mbind, SM_bind, sgets. simpl.
  destruct (needsRefresh (clock_of w) r) eqn:En.
  - pose proof (refreshLocked_tracks ops es r w Ht En) as H.
    destruct (refreshLocked r w) as [[[err r'] mints] w']. simpl in H |- *. by destruct H.
  - simpl. by rewrite app_nil_r.
Qed.

Lemma sent_in_order ops es r clock tok req :
  tracks ops es r → handed_out clock r tok → Send req ∈ ops →
  in_order ops es (Sent clock (Header_Set "Authorization" ("Bearer " +:+ tok) req)).
Proof.
  intros [Hf _ Hc Hi _] (-> & Ht & Hd) Hreq. specialize (Hi Ht). simpl.
  rewrite Hc decide_False //. exists (issuedAt r), (token r), (expiresAt r), req.
  destruct (deadline_margin clock r Ht Hf Hi) as [H1 H2].
  split_and!; try done; unfold Sub in *; lia.
Qed.

Lemma perform_tracks ops es o r w :
  tracks ops es r → o ∈ ops →
  tracks ops (es ++ (perform o r w).1.1) (perform o r w).1.2.
Proof.
  intros Ht Ho. unfold perform, mbind, SM_bind, sgets. destruct o as [|req|].
  - pose proof (Config_tracks ops es r w Ht) as H.
    destruct (Config r w) as [[[res r'] mints] w']. by destruct H.
  - unfold RoundTrip, mbind, SM_bind. pose proof (Config_tracks ops es r w Ht) as H.
    destruct (Config r w) as [[[res r'] mints] w']. destruct H as [H Hh].
    destruct res as [err|tok]; simpl; [by rewrite app_nil_r|].
    specialize (Hh tok eq_refl). destruct (next _ w') as [resp w'']. simpl. rewrite app_assoc.
    pose proof (sent_in_order ops _ r' (clock_of w) tok req H Hh Ho).
    destruct H as [Hf Hb Hc Hi Hl]. split; try done; [|by apply log_ok_snoc].
    by rewrite current_snoc.
  - pose proof (Run_turn_tracks ops es r w Ht) as H.
    by destruct (Run_turn r w) as [[r' mints] w'].
Qed.

Lemma serve_tracks ops todo es r w :
  tracks ops es r → (∀ o, o ∈ todo → o ∈ ops) →
  let '(es', r') := (foldSM (λ acc o, res ← perform o acc.2;
                             let '(es, r') := res in mret (acc.1 ++ es, r')) (es, r) todo w).1 in
  tracks ops es' r'.
Proof.
  revert es r w. induction todo as [|o todo IH]; intros es r w Ht Hin; [done|].
  cbn [foldSM]. unfold mbind, SM_bind. cbn [fst snd].
  pose proof (perform_tracks ops es o r w Ht (Hin o ltac:(left))) as Hp.
  destruct (perform o r w) as [[es1 r1] w1]. apply IH; [done|].
  intros o' ?. apply Hin. by right.
Qed.

Lemma NewRotator_tracks ops opts :
  Forall (λ o, o = WithBootstrapConfig ∨ ∃ d, o = WithTTL d) opts →
  tracks ops [] (NewRotator (WithBootstrapConfig :: opts)).
Proof.
  intros Ho. unfold NewRotator. simpl.
  match goal with |- tracks _ _ (foldl _ ?r0 _) => generalize (eq_refl : token r0 = "");
    generalize (eq_refl : refreshFraction r0 = DefaultRefreshFraction);
    generalize (eq_refl : hasBootstrap r0 = true); generalize r0 end.
  induction Ho as [|o opts [->|[d ->]] _ IH]; intros r Hb Hf Ht; simpl; try (by apply IH).
  split; try done; [by rewrite Ht|apply log_ok_nil].
Qed.

(** C18. The traffic of a spoke over the whole life of its rotator, whatever the order
    of requests, priming and background refreshes, and however the minter, the spoke
    and the clock behave: every request that is passed on is one of the callers' with
    nothing but its Authorization header replaced, by the bearer token that was minted
    last, which at that time is valid for at least another fifth of its lifetime;
    a token is replaced only after four fifths of its lifetime, and the replacement is
    minted with that token while it is valid; the admin credential only mints, and
    only when no token is valid. *)
Theorem spoke_traffic_authenticated opts ops w :
  Forall (λ o, o = WithBootstrapConfig ∨ ∃ d, o = WithTTL d) opts →
  log_ok ops (serve ops (NewRotator (WithBootstrapConfig :: opts)) w).1.1.
Proof.
  intros Ho. pose proof (serve_tracks ops ops [] _ w (NewRotator_tracks ops opts Ho)) as H.
  unfold serve. destruct (foldSM _ _ _ _) as [[es r] w']. by apply H.
Qed.
End auth.

(** ** A spoke whose tokens last an hour *)

(** The world is the clock, in nanoseconds: a mint takes a second, a request sixteen
    minutes, the spoke grants at least ten minutes, and is down in minute 48. *)
#[local] Instance ex_api : TokenAPI Z := {
  clock_of t := t;
  NewForConfig _ := None;
  CreateToken c secs t :=
    if (48 * Minute <=? t)%Z && (t <? 49 * Minute)%Z
    then (inl "etcdserver: leader changed", t + Minute)%Z
    else (inr (match c with SAToken _ => "renewed" | BootstrapCredential => "first" end,
               t + Z.max secs 600 * Second)%Z, t + Second)%Z;
}.

#[local] Instance ex_next : NextRoundTripper Z string :=
  { next _ t := (inr "200", t + 16 * Minute)%Z }.

Definition ex_get : Request := {| rq_URL := "/api/v1/secrets"; rq_Header := ∅ |}.

(** Primed, then five requests: the fourth finds the token due and fails to renew
    it, the fifth renews it with itself. *)
Definition ex_ops : list op :=
  [Prime; Send ex_get; Send ex_get; Turn; Send ex_get; Send ex_get; Send ex_get].

Definition ex_log : list event := (serve ex_ops (NewRotator [WithBootstrapConfig]) 0%Z).1.1.

Definition shape (e : event) : Z + Z * Credential * bool :=
  match e with
  | Minted m => inr (m_clock m, m_with m, if m_got m then true else false)
  | Sent t _ => inl t
  end.

Example ex_life :
  map shape ex_log
  = [inr (0, BootstrapCredential, true); inl Second; inl (Second + 16 * Minute);
     inl (Second + 32 * Minute); inr (Second + 48 * Minute, SAToken "first", false);
     inr (Second + 49 * Minute, SAToken "first", true); inl (Second + 49 * Minute)]%Z.
Proof. vm_compute. reflexivity. Qed.

Lemma spoke_traffic_witness : length ex_log = 7 ∧ log_ok ex_ops ex_log.
Proof.
  split; [by vm_compute|]. apply (spoke_traffic_authenticated (Response := string)); [|done].
  intros c secs t tok exp. simpl. unfold Second.
  destruct ((_ <=? t)%Z && _); [done|]. simpl. intros [= <- <-]. split; [by destruct c|lia].
Defined.
