(* ===== verification/Main.v ===== *)
(** [cmd/main.go]: the kind allowlist and its three views, the two flag types,
    and what the allowlist makes the bootstrap grant on a spoke. *)
From Stdlib Require Import Ascii.
From S2P Require Import Prelude GoLib Api Cluster SpokeRBAC.
Import Bootstrap.

#[local] Open Scope string_scope.
#[local] Open Scope list_scope.

Definition comma : ascii := chr 44.
Definition equals : ascii := chr 61.

(** ** The kind allowlist *)

Module Kinds.
Definition secretGVK : GroupVersionKind :=
  {| gvk_Group := ""; gvk_Version := "v1"; gvk_Kind := "Secret" |}.
Definition configMapGVK : GroupVersionKind :=
  {| gvk_Group := ""; gvk_Version := "v1"; gvk_Kind := "ConfigMap" |}.

Definition supportedKinds : gmap string GroupVersionKind :=
  {["secrets" := secretGVK; "configmaps" := configMapGVK]}.

(** The three results of [parseAllowedKinds]. *)
Record views := {
  allowlist : list GroupVersionKind;
  kindGVKs : gmap string GroupVersionKind;
  scope : RBACScope;
}.

Definition no_views : views := {| allowlist := []; kindGVKs := ∅; scope := [] |}.

(** The resource name an entry of the flag stands for. *)
Definition entry_name (part : string) : string := ToLower (TrimSpace part).

Definition unsupported (name : string) : string :=
  "unsupported kind " +:+ quote name +:+ " in --allowed-kinds (supported: secrets, configmaps)".

(** The loop over the entries. *)
Fixpoint parse_parts (parts : list string) (v : views) : string + views :=
  match parts with
  | [] => inr v
  | part :: ps =>
      let name := entry_name part in
      if decide (name = "") then parse_parts ps v
      else match supportedKinds !! name with
           | None => inl (unsupported name)
           | Some gvk =>
               match kindGVKs v !! gvk_Kind gvk with
               | Some _ => parse_parts ps v
               | None =>
                   parse_parts ps
                     {| allowlist := allowlist v ++ [gvk];
                        kindGVKs := <[gvk_Kind gvk := gvk]> (kindGVKs v);
                        scope := scope v
                          ++ [{| sr_Group := gvk_Group gvk; sr_Resource := name |}] |}
               end
           end
  end.

Definition parseAllowedKinds (raw : string) : string + views :=
  match parse_parts (Split comma raw) no_views with
  | inl e => inl e
  | inr v => if decide (allowlist v = []) then inl "--allowed-kinds must name at least one kind"
             else inr v
  end.

(** An entry selects a kind. *)
Definition selects (part : string) (gvk : GroupVersionKind) : Prop :=
  supportedKinds !! entry_name part = Some gvk.

(** The views agree on the kinds the entries [parts] select. *)
Record agree (parts : list string) (v : views) : Prop := {
  ag_list gvk : gvk ∈ allowlist v ↔ ∃ p, p ∈ parts ∧ selects p gvk;
  ag_nodup : NoDup (allowlist v);
  ag_kinds k gvk : kindGVKs v !! k = Some gvk ↔ gvk ∈ allowlist v ∧ gvk_Kind gvk = k;
  ag_scope group resource :
    {| sr_Group := group; sr_Resource := resource |} ∈ scope v ↔
    ∃ gvk, gvk ∈ allowlist v ∧ supportedKinds !! resource = Some gvk ∧ group = gvk_Group gvk;
}.

Lemma supported_cases name gvk :
  supportedKinds !! name = Some gvk ↔
  name = "secrets" ∧ gvk = secretGVK ∨ name = "configmaps" ∧ gvk = configMapGVK.
Proof.
  unfold supportedKinds. rw lookup_insert_Some lookup_insert_Some lookup_empty. naive_solver.
Qed.

(** A kind has one resource name. *)
Lemma supported_inj n n' gvk gvk' :
  supportedKinds !! n = Some gvk → supportedKinds !! n' = Some gvk' →
  gvk_Kind gvk = gvk_Kind gvk' → n = n' ∧ gvk = gvk'.
Proof. rw !supported_cases. by intros [[-> ->]|[-> ->]] [[-> ->]|[-> ->]]. Qed.

Lemma agree_nil : agree [] no_views.
Proof.
  split; simpl.
  - intros gvk. split; [by intros ?%elem_of_nil|by intros (? & ?%elem_of_nil & _)].
  - constructor.
  - intros k gvk. rw lookup_empty. split; [done|by intros [?%elem_of_nil _]].
  - intros group resource. split; [by intros ?%elem_of_nil|by intros (? & ?%elem_of_nil & _)].
Qed.

(** An entry that selects nothing new changes nothing. *)
Lemma agree_skip parts v part :
  agree parts v → (∀ gvk, selects part gvk → gvk ∈ allowlist v) → agree (parts ++ [part]) v.
Proof.
  intros [Hl Hn Hk Hs] Hp. split; [|done..]. intros gvk. rw exists_snoc. rw Hl.
  split; [by left|]. intros [?|Hg]; [done|]. by apply Hl, Hp.
Qed.

Lemma agree_add parts v part gvk :
  agree parts v → selects part gvk → kindGVKs v !! gvk_Kind gvk = None →
  agree (parts ++ [part])
    {| allowlist := allowlist v ++ [gvk]; kindGVKs := <[gvk_Kind gvk := gvk]> (kindGVKs v);
       scope := scope v ++ [{| sr_Group := gvk_Group gvk; sr_Resource := entry_name part |}] |}.
Proof.
  intros [Hl Hn Hk Hs] Hp Hnew.
  assert (∀ g, g ∈ allowlist v → gvk_Kind g ≠ gvk_Kind gvk) as Hne.
  { intros g Hg Heq. assert (kindGVKs v !! gvk_Kind gvk = Some g); [by apply Hk|congruence]. }
  split; simpl.
  - intros g. rw exists_snoc elem_of_app list_elem_of_singleton Hl. unfold selects in *.
    split; [intros [?| ->]; auto|]. intros [?|Hg]; [by left|right; congruence].
  - apply NoDup_app. split_and!; [done| |apply NoDup_singleton].
    intros g Hg ->%list_elem_of_singleton. by apply (Hne gvk).
  - intros k g. rw lookup_insert_Some Hk elem_of_app list_elem_of_singleton. split.
    + intros [[<- <-]|(Hk' & Hg & <-)]; auto.
    + intros [[Hg| ->] <-]; [right|by left]. split_and!; [|done..]. intros ?. by apply (Hne g).
  - intros group resource. rw elem_of_app list_elem_of_singleton Hs. split.
    + intros [(g & Hg & Hr & ->)|[= -> ->]]; [exists g|exists gvk]; rw elem_of_app; split_and!; auto.
      right. left.
    + intros (g & Hg & Hr & ->). apply elem_of_app in Hg as [Hg|Hg]; [left; eauto|right].
      apply list_elem_of_singleton in Hg as ->.
      by destruct (supported_inj _ _ _ _ Hp Hr eq_refl) as [-> _].
Qed.

Lemma parse_parts_agree ps seen v :
  agree seen v →
  match parse_parts ps v with
  | inl _ => ∃ p, p ∈ ps ∧ entry_name p ≠ "" ∧ supportedKinds !! entry_name p = None
  | inr v' => agree (seen ++ ps) v' ∧
              ∀ p, p ∈ ps → entry_name p = "" ∨ is_Some (supportedKinds !! entry_name p)
  end.
Proof.
  revert seen v. induction ps as [|p ps IH]; intros seen v Ha; simpl.
  { rw app_nil_r. split; [done|]. by intros p ?%elem_of_nil. }
  assert (∀ v', agree (seen ++ [p]) v' →
    (entry_name p = "" ∨ is_Some (supportedKinds !! entry_name p)) →
    match parse_parts ps v' with
    | inl _ => ∃ q, q ∈ p :: ps ∧ entry_name q ≠ "" ∧ supportedKinds !! entry_name q = None
    | inr v' => agree (seen ++ p :: ps) v' ∧
        ∀ q, q ∈ p :: ps → entry_name q = "" ∨ is_Some (supportedKinds !! entry_name q)
    end) as Hgo.
  { intros v' Hv' Hp. specialize (IH _ _ Hv'). destruct (parse_parts ps v') as [e|v''].
    - destruct IH as (q & ? & ?). exists q. split; [by right|done].
    - destruct IH as [IH1 IH2]. rw -app_assoc in IH1. split; [done|].
      intros q [->|Hq]%elem_of_cons; [done|by apply IH2]. }
  case_decide as Hn.
  { apply Hgo; [|by left]. apply agree_skip; [done|]. intros g Hg. unfold selects in Hg.
    apply supported_cases in Hg. rw Hn in Hg. naive_solver. }
  destruct (supportedKinds !! entry_name p) as [gvk|] eqn:E; [|exists p; split_and!; [left|done..]].
  destruct (kindGVKs v !! gvk_Kind gvk) as [g|] eqn:Ek.
  - apply Hgo; [|eauto]. apply agree_skip; [done|]. intros g' Hg'.
    apply (ag_kinds _ _ Ha) in Ek as [Hin Hk]. unfold selects in Hg'. assert (g' = gvk) as -> by congruence.
    apply (ag_list _ _ Ha) in Hin as (q & Hq & Hsel).
    destruct (supported_inj _ _ _ _ Hsel E Hk) as [_ ->]. apply (ag_list _ _ Ha). eauto.
  - apply Hgo; [|eauto]. by apply agree_add.
Qed.

(** The scope of the allowlist names no wildcard. *)
Lemma scope_plain parts v : agree parts v → plain (scope v).
Proof.
  intros Ha [g r] Hin. apply (ag_scope _ _ Ha) in Hin as (gvk & _ & Hr & ->). simpl.
  by apply supported_cases in Hr as [[-> ->]|[-> ->]].
Qed.

(** What the bootstrap with the scope of the allowlist lets the operator do. *)
Lemma scope_grants parts v {W} `{L : SpokeLaws W} (w w' : W) verb group resource ns name :
  agree parts v → foreign_free (objects w) → Bootstrap (scope v) w = (None, w') →
  authorized (objects w') operator verb group resource ns name ↔
  (verb ∈ replicaVerbs ∧ ∃ gvk, gvk ∈ allowlist v ∧
     supportedKinds !! resource = Some gvk ∧ group = gvk_Group gvk) ∨
  (verb ∈ ["get"; "create"; "patch"] ∧ group = "" ∧ resource = "namespaces") ∨
  (verb = "create" ∧ group = "" ∧ resource = "serviceaccounts/token" ∧
     ns = Namespace ∧ name = ServiceAccountName).
Proof.
  intros Ha Hf Hb. pose proof (Bootstrap_bootstrapped _ _ _ Hf Hb) as Hbs.
  rewrite (bootstrapped_authorized (scope v)); [intros k o; apply objects_keyed|exact Hbs|].
  rewrite Rules_allows; [by eapply scope_plain|]. rewrite tokenRules_allow (ag_scope _ _ Ha). tauto.
Qed.

(** C38. --allowed-kinds: parsing fails exactly when some entry is not a supported
    resource name or no entry names one; otherwise the request controller's
    allowlist, the engine's kind map and the RBAC scope all stand for exactly the
    kinds the entries name, each once. Bootstrapping any spoke whose API keeps the
    laws of [SpokeLaws] with that scope ends without an error when the spoke is up;
    and when it ends without an error, on a spoke where nobody else wrote the
    operator's bindings and token role, the namespace, the account, the roles and
    the bindings are there, a second bootstrap without an error changes nothing, and
    the bindings authorize the operator's account for the replica verbs on exactly
    the allowlisted kinds, for get, create and patch on namespaces and for minting
    its own token, and for nothing else. *)
Theorem allowed_kinds_grant raw :
  let parts := Split comma raw in
  match parseAllowedKinds raw with
  | inl _ => (∃ p, p ∈ parts ∧ entry_name p ≠ "" ∧ supportedKinds !! entry_name p = None) ∨
             (∀ p, p ∈ parts → entry_name p = "")
  | inr v =>
      (∀ p, p ∈ parts → entry_name p = "" ∨ is_Some (supportedKinds !! entry_name p)) ∧
      allowlist v ≠ [] ∧ agree parts v ∧
      ∀ (W : Type) (C : SpokeClient W) (L : SpokeLaws W) (w : W),
        let '(err, w') := Bootstrap (scope v) w in
        (spoke_up W → err = None) ∧
        (foreign_free (objects w) → err = None →
           bootstrapped (scope v) (objects w') ∧
           (∀ w'', Bootstrap (scope v) w' = (None, w'') → objects w'' = objects w') ∧
           ∀ verb group resource ns name,
             authorized (objects w') operator verb group resource ns name ↔
             (verb ∈ replicaVerbs ∧ ∃ gvk, gvk ∈ allowlist v ∧
                supportedKinds !! resource = Some gvk ∧ group = gvk_Group gvk) ∨
             (verb ∈ ["get"; "create"; "patch"] ∧ group = "" ∧ resource = "namespaces") ∨
             (verb = "create" ∧ group = "" ∧ resource = "serviceaccounts/token" ∧
                ns = Namespace ∧ name = ServiceAccountName))
  end.
Proof.
  intros parts. pose proof (parse_parts_agree parts [] no_views agree_nil) as H. fold parts in H.
  unfold parseAllowedKinds. fold parts. destruct (parse_parts parts no_views) as [e|v]; [by left|].
  destruct H as [Ha Hp]. rw app_nil_l in Ha. case_decide as Hal.
  - right. intros p Hin. destruct (Hp p Hin) as [?|[g Hg]]; [done|].
    assert (g ∈ allowlist v) as Hg'; [apply (ag_list _ _ Ha); eauto|]. rw Hal in Hg'.
    by apply elem_of_nil in Hg'.
  - split_and!; [done..|]. intros W C L w. destruct (Bootstrap (scope v) w) as [err w'] eqn:Hb. split.
    + intros Hup. pose proof (Bootstrap_up Hup (scope v) w) as He. by rewrite Hb in He.
    + intros Hf ->. split_and!.
      * by eapply Bootstrap_bootstrapped.
      * intros w'' Hb'. by eapply Bootstrap_again.
      * intros. by eapply scope_grants.
Qed.

(** On an empty spoke: no error, secrets may be read in any namespace, namespaces
    may not be deleted. *)
Lemma allowed_kinds_grant_witness :
  match parseAllowedKinds "secrets,configmaps" with
  | inr v =>
      let '(err, w') := Bootstrap (scope v) empty_store in
      err = None ∧ authorized (objects w') operator "get" "" "secrets" "team-a" "db" ∧
      ¬ authorized (objects w') operator "delete" "" "namespaces" "" "team-a"
  | inl _ => False
  end.
Proof.
  pose proof (allowed_kinds_grant "secrets,configmaps") as H. cbv zeta in H.
  assert (∃ v, parseAllowedKinds "secrets,configmaps" = inr v ∧ secretGVK ∈ allowlist v) as (v & E & Hin).
  { eexists. split; [reflexivity|left]. }
  rewrite E in H |- *. destruct H as (_ & _ & _ & H).
  specialize (H Store store_client store_laws empty_store).
  destruct (Bootstrap (scope v) empty_store) as [err w']. destruct H as [Hup H].
  specialize (Hup store_up). split; [exact Hup|].
  destruct (H empty_foreign_free Hup) as (_ & _ & Hau). split; rewrite Hau.
  - left. split; [left|]. exists secretGVK. by split_and!.
  - intros [(_ & gvk & _ & Hk & _)|[(Hv & _ & _)|(Hv & _)]]; [|set_solver|done].
    by apply supported_cases in Hk as [[? _]|[? _]].
Defined.

Example allowed_kinds_ex :
  match parseAllowedKinds " ConfigMaps ,, secrets,configmaps" with
  | inr v => allowlist v = [configMapGVK; secretGVK]
  | inl _ => False
  end.
Proof. vm_compute. reflexivity. Qed.

Example allowed_kinds_typo : parseAllowedKinds "secret" = inl (unsupported "secret").
Proof. vm_compute. reflexivity. Qed.
End Kinds.

(** ** The repeatable flags *)

Module Flags.
(** [stringListFlag] and [stringMapFlag]; a nil flag is an empty one. *)
Definition list_String (s : list string) : string := Join s (str1 comma).

Definition add_part (s : list string) (part : string) : list string :=
  let part := TrimSpace part in if decide (part = "") then s else s ++ [part].

Definition list_Set (v : string) (s : list string) : list string := foldl add_part s (Split comma v).

Definition pair_of (kv : string * string) : string := kv.1 +:+ String equals kv.2.

Definition map_String (m : gmap string string) : string :=
  Join (Sort (map pair_of (map_to_list m))) (str1 comma).

(** A trimmed entry as key and value; [None] when it is malformed. *)
Definition map_entry (part : string) : option (string * string) :=
  let '(key, val, found) := Cut equals part in
  let key := TrimSpace key in
  if decide (found = false ∨ key = "") then None else Some (key, TrimSpace val).

Definition malformed (part : string) : string :=
  quote part +:+ " is not key=value with a non-empty key".

(** The loop of [Set]: what an earlier entry stored stays when a later one fails. *)
Fixpoint set_parts (parts : list string) (m : gmap string string)
    : option string * gmap string string :=
  match parts with
  | [] => (None, m)
  | part :: ps =>
      let part := TrimSpace part in
      if decide (part = "") then set_parts ps m
      else match map_entry part with
           | None => (Some (malformed part), m)
           | Some (k, v) => set_parts ps (<[k := v]> m)
           end
  end.

Definition map_Set (v : string) (m : gmap string string) : option string * gmap string string :=
  set_parts (Split comma v) m.

(** The flag package calls [Set] for each occurrence and stops at the first error. *)
Fixpoint map_Sets (vs : list string) (m : gmap string string)
    : option string * gmap string string :=
  match vs with
  | [] => (None, m)
  | v :: vs' => match map_Set v m with (None, m') => map_Sets vs' m' | r => r end
  end.

(** *** Strings without a byte *)

Definition lacks (c : ascii) (s : string) : Prop := c ∉ list_of_string s.

Lemma lacks_trim c s : lacks c s → lacks c (TrimSpace s).
Proof. intros H Hc. by apply H, TrimSpace_bytes. Qed.

Lemma Split_lacks sep s p : p ∈ Split sep s → lacks sep p.
Proof.
  unfold lacks. revert p. induction s as [|c s IH]; intros p; simpl.
  { intros ->%list_elem_of_singleton. apply not_elem_of_nil. }
  case_decide as Hc.
  - intros [->|Hp]%elem_of_cons; [apply not_elem_of_nil|by apply IH].
  - destruct (Split sep s) as [|w ws] eqn:E; [by destruct (Split_nonempty sep s)|].
    intros [->|Hp]%elem_of_cons; [|apply IH; by right]. simpl. rw not_elem_of_cons.
    split; [congruence|]. apply IH. left.
Qed.

(** [Split] undoes [Join] on entries without the separator. *)
Lemma Split_Join sep l : l ≠ [] → (∀ x, x ∈ l → lacks sep x) → Split sep (Join l (str1 sep)) = l.
Proof.
  intros Hne Hl. induction l as [|x [|y l] IH]; [done|..].
  - simpl. apply Split_plain, Hl. left.
  - change (Join (x :: y :: l) (str1 sep)) with (x +:+ String sep (Join (y :: l) (str1 sep))).
    rw Split_app; [apply Hl; left|]. f_equal. apply IH; [done|]. intros z Hz. apply Hl. by right.
Qed.

Lemma Split_comma_app sep s t : Split sep (s +:+ String sep t) = Split sep s ++ Split sep t.
Proof.
  induction s as [|c s IH]; [simpl; by rw decide_True|].
  change (String c s +:+ String sep t) with (String c (s +:+ String sep t)). simpl.
  case_decide; [by rw IH|]. rw IH. by destruct (Split sep s) eqn:E; [destruct (Split_nonempty sep s)|].
Qed.

Lemma Cut_found sep s b a : Cut sep s = (b, a, true) → s = b +:+ String sep a ∧ lacks sep b.
Proof.
  unfold lacks. revert b a. induction s as [|c s IH]; intros b a; simpl; [done|]. case_decide as Hc.
  - intros [= <- <-]. subst. split; [done|apply not_elem_of_nil].
  - destruct (Cut sep s) as [[b' a'] []] eqn:E; intros [= <- <-].
    destruct (IH _ _ eq_refl) as [-> Hb]. split; [done|]. simpl. rw not_elem_of_cons.
    split; [congruence|done].
Qed.

Lemma Cut_pair sep b a : lacks sep b → Cut sep (b +:+ String sep a) = (b, a, true).
Proof.
  unfold lacks. induction b as [|c b IH]; simpl; [by rw decide_True|]. rw not_elem_of_cons.
  intros [Hc Hb]. rw decide_False; [congruence|].
  change (String.append b (String sep a)) with (b +:+ String sep a). by rw IH.
Qed.

Lemma srev_separated a c b : srev (a +:+ String c b) = srev b +:+ String c (srev a).
Proof. rw srev_app. rw (srev_app (str1 c) b : srev (String c b) = _) string_app_assoc. done. Qed.

(** *** The list flag *)

(** What [Set] stores: trimmed, not empty, without a comma. *)
Definition plain_part (p : string) : Prop := trimmed p ∧ p ≠ "" ∧ lacks comma p.

Lemma add_part_id s p : plain_part p → add_part s p = s ++ [p].
Proof. intros (Ht & Hn & _). unfold add_part. by rw TrimSpace_id // decide_False. Qed.

Lemma foldl_add_part s ps :
  (∀ p, p ∈ s → plain_part p) → (∀ p, p ∈ ps → lacks comma p) →
  ∀ p, p ∈ foldl add_part s ps → plain_part p.
Proof.
  revert s. induction ps as [|q ps IH]; intros s Hs Hps; simpl; [done|].
  apply IH; [|intros p ?; apply Hps; by right]. unfold add_part. case_decide as Hq; [done|].
  intros p [?|Hp]%elem_of_app; [by apply Hs|]. apply list_elem_of_singleton in Hp as ->.
  split_and!; [apply TrimSpace_trimmed|done|apply lacks_trim, Hps; left].
Qed.

Lemma foldl_add_plain s ps : (∀ p, p ∈ ps → plain_part p) → foldl add_part s ps = s ++ ps.
Proof.
  revert s. induction ps as [|p ps IH]; intros s H; simpl; [by rw app_nil_r|].
  rw add_part_id; [apply H; left|]. rw IH; [intros q ?; apply H; by right|]. by rw -app_assoc.
Qed.

Lemma list_Sets_plain vs s p :
  (∀ p, p ∈ s → plain_part p) → p ∈ foldl (flip list_Set) s vs → plain_part p.
Proof.
  revert s. induction vs as [|v vs IH]; intros s Hs; simpl; [apply Hs|]. apply IH.
  unfold flip, list_Set. apply foldl_add_part; [done|]. intros q Hq. by eapply Split_lacks.
Qed.

(** *** The map flag *)

Definition plain_pair (kv : string * string) : Prop :=
  trimmed kv.1 ∧ kv.1 ≠ "" ∧ lacks comma kv.1 ∧ lacks equals kv.1 ∧
  trimmed kv.2 ∧ lacks comma kv.2.

Lemma map_entry_plain part kv : lacks comma part → map_entry part = Some kv → plain_pair kv.
Proof.
  unfold map_entry. destruct (Cut equals part) as [[b a] f] eqn:E. intros Hc.
  case_decide as Hd; [done|]. intros [= <-]. destruct f; [|naive_solver].
  apply Cut_found in E as [-> Hb]. unfold lacks in Hc. rw list_of_string_app in Hc.
  simpl in Hc. rw not_elem_of_app not_elem_of_cons in Hc. destruct Hc as (Hc1 & _ & Hc2).
  unfold plain_pair. simpl.
  split_and!; [apply TrimSpace_trimmed|naive_solver|by apply lacks_trim..|
    apply TrimSpace_trimmed|by apply lacks_trim].
Qed.

Lemma no_space_equals e :
  (e ∈ space_runes → equals ∉ list_of_string e) ∧
  (e ∈ map srev space_runes → equals ∉ list_of_string e).
Proof.
  assert (∀ l, forallb (λ e, bool_decide (equals ∉ list_of_string e)) l = true →
               e ∈ l → equals ∉ list_of_string e) as H.
  { intros l Hl He. apply list_elem_of_In in He. eapply List.forallb_forall in He; [|exact Hl].
    by apply bool_decide_eq_true in He. }
  split; apply H; vm_compute; reflexivity.
Qed.

Lemma pair_plain kv : plain_pair kv → plain_part (pair_of kv).
Proof.
  intros ([Hk1 Hk2] & Hn & Hkc & _ & [Hv1 Hv2] & Hvc). unfold pair_of. split_and!.
  - split; [apply untrimmed_stop; [exact Hk1|intros e; apply (proj1 (no_space_equals e))]|].
    rw srev_separated. apply untrimmed_stop; [exact Hv2|intros e; apply (proj2 (no_space_equals e))].
  - by destruct (kv.1).
  - unfold lacks. rw list_of_string_app. simpl. by rw not_elem_of_app not_elem_of_cons.
Qed.

Lemma map_entry_pair kv : plain_pair kv → map_entry (pair_of kv) = Some kv.
Proof.
  intros (Ht & Hn & _ & He & Hv & _). unfold map_entry, pair_of. rw Cut_pair //.
  rw (TrimSpace_id _ Ht) (TrimSpace_id _ Hv). rw decide_False; [naive_solver|]. by destruct kv.
Qed.

Lemma pair_of_inj kv kv' : plain_pair kv → plain_pair kv' → pair_of kv = pair_of kv' → kv = kv'.
Proof. intros H1%map_entry_pair H2%map_entry_pair Heq. congruence. Qed.

Definition plain_map (m : gmap string string) : Prop := ∀ k v, m !! k = Some v → plain_pair (k, v).

Lemma set_parts_plain ps m :
  plain_map m → (∀ p, p ∈ ps → lacks comma p) → plain_map (set_parts ps m).2.
Proof.
  revert m. induction ps as [|p ps IH]; intros m Hm Hps; simpl; [done|].
  assert (∀ q, q ∈ ps → lacks comma q) as Hps' by (intros q ?; apply Hps; by right).
  case_decide; [by apply IH|]. destruct (map_entry (TrimSpace p)) as [[k v]|] eqn:E; [|done].
  apply IH; [|done]. intros k' v' [[<- <-]|[_ Hk]]%lookup_insert_Some; [|by apply Hm].
  eapply map_entry_plain; [|exact E]. apply lacks_trim, Hps. left.
Qed.

Lemma map_Sets_plain vs m : plain_map m → plain_map (map_Sets vs m).2.
Proof.
  revert m. induction vs as [|v vs IH]; intros m Hm; simpl; [done|].
  assert (plain_map (map_Set v m).2) as H
    by (apply set_parts_plain; [done|intros p; apply Split_lacks]).
  destruct (map_Set v m) as [[e|] m']; [done|by apply IH].
Qed.

(** Well-formed entries are all stored, in order. *)
Lemma set_parts_pairs kvs m :
  (∀ kv, kv ∈ kvs → plain_pair kv) →
  set_parts (map pair_of kvs) m = (None, foldl (λ m kv, <[kv.1 := kv.2]> m) m kvs).
Proof.
  revert m. induction kvs as [|kv kvs IH]; intros m H; simpl; [done|].
  assert (plain_pair kv) as Hkv by (apply H; left).
  destruct (pair_plain _ Hkv) as (Ht & Hn & _).
  rw (TrimSpace_id _ Ht) decide_False // map_entry_pair //. destruct kv as [k v]. apply IH.
  intros ??. apply H. by right.
Qed.

Lemma foldl_insert_map (l : list (string * string)) (m : gmap string string) :
  NoDup l.*1 →
  foldl (λ m kv, <[kv.1 := kv.2]> m) m l = (list_to_map l : gmap string string) ∪ m.
Proof.
  revert m. induction l as [|[k v] l IH]; intros m; simpl; [by rw (left_id_L ∅ (∪))|].
  intros [Hk Hn]%NoDup_cons. rw IH //. apply not_elem_of_list_to_map_1 in Hk.
  rw -insert_union_r // insert_union_l //.
Qed.

(** The text of a stored map, read back. *)
Lemma map_Set_String m : plain_map m → map_Set (map_String m) ∅ = (None, m).
Proof.
  intros Hm. unfold map_Set, map_String.
  assert (∀ kv, kv ∈ map_to_list m → plain_pair kv) as Hp
    by (intros [k v] Hin%elem_of_map_to_list; by apply Hm).
  destruct (decide (map_to_list m = [])) as [E|E].
  { rw E. apply map_to_list_empty_iff in E as ->. reflexivity. }
  pose proof (Sort_Permutation (map pair_of (map_to_list m))) as HS.
  apply Permutation_map_inv in HS as (kvs & HS & Hkvs).
  rw Split_Join.
  - intros He. rw HS in He. apply map_nil_iff in He as ->. by apply Permutation_nil_r in Hkvs.
  - intros x. rw elem_of_Sort elem_of_map. intros (kv & -> & Hin). by apply pair_plain, Hp.
  - rw HS set_parts_pairs; [intros kv Hin; apply Hp; by rw Hkvs|].
    rw foldl_insert_map; [rw -Hkvs; apply NoDup_fst_map_to_list|].
    rw (right_id_L ∅ (∪)) -(list_to_map_proper (map_to_list m)) //;
      [apply NoDup_fst_map_to_list|]. by rw list_to_map_to_list.
Qed.

(** C39. Printing a flag and setting a fresh one from the text gives the same
    value, for every value the command line can produce: a list keeps its entries
    and their order, a map its keys and values, although keys and values are
    trimmed, values may hold [=], and the map is printed in sorted order. Every
    stored entry is trimmed, free of commas and, for an entry or a key, not empty. *)
Theorem flags_roundtrip vs :
  (let s := foldl (flip list_Set) [] vs in
   list_Set (list_String s) [] = s ∧ ∀ p, p ∈ s → plain_part p) ∧
  (let m := (map_Sets vs ∅).2 in
   map_Set (map_String m) ∅ = (None, m) ∧ ∀ k v, m !! k = Some v → plain_pair (k, v)).
Proof.
  split; cbv zeta.
  - assert (∀ p, p ∈ foldl (flip list_Set) [] vs → plain_part p) as Hp
      by (intros p; apply list_Sets_plain; by intros ? ?%elem_of_nil).
    split; [|done]. generalize dependent (foldl (flip list_Set) [] vs). intros s Hp.
    unfold list_Set, list_String. destruct (decide (s = [])) as [->|Hs]; [reflexivity|].
    rw Split_Join //; [by intros x Hx; apply Hp|]. by rw foldl_add_plain.
  - assert (plain_map (map_Sets vs ∅).2) as Hm
      by (apply map_Sets_plain; intros k v; by rw lookup_empty).
    split; [by apply map_Set_String|exact Hm].
Qed.

(** *** Commas and repetition *)

Lemma set_parts_app ps qs m :
  set_parts (ps ++ qs) m =
  match set_parts ps m with (None, m') => set_parts qs m' | r => r end.
Proof.
  revert m. induction ps as [|p ps IH]; intros m; simpl; [done|].
  case_decide; [apply IH|]. destruct (map_entry (TrimSpace p)) as [[k v]|]; [apply IH|done].
Qed.

(** The entries of a flag value that are not blank. *)
Definition entries (v : string) : list string :=
  filter (λ p, p ≠ "") (map TrimSpace (Split comma v)).

Definition insert_entry (m : gmap string string) (part : string) : gmap string string :=
  match map_entry part with Some (k, v) => <[k := v]> m | None => m end.

Lemma set_parts_spec ps m :
  let es := filter (λ p, p ≠ "") (map TrimSpace ps) in
  match set_parts ps m with
  | (None, m') => (∀ p, p ∈ es → is_Some (map_entry p)) ∧ m' = foldl insert_entry m es
  | (Some e, m') => ∃ good bad rest, es = good ++ bad :: rest ∧ map_entry bad = None ∧
      e = malformed bad ∧ (∀ p, p ∈ good → is_Some (map_entry p)) ∧ m' = foldl insert_entry m good
  end.
Proof.
  revert m. induction ps as [|p ps IH]; intros m es; subst es; simpl.
  { split; [by intros ? ?%elem_of_nil|done]. }
  rw filter_cons. case_decide as Hp.
  { rw decide_False; [naive_solver|]. apply IH. }
  rw decide_True //. destruct (map_entry (TrimSpace p)) as [[k v]|] eqn:E.
  - specialize (IH (<[k := v]> m)). simpl in *.
    assert (insert_entry m (TrimSpace p) = <[k := v]> m) as Hi by (unfold insert_entry; by rw E).
    destruct (set_parts ps (<[k := v]> m)) as [[e|] m'].
    + destruct IH as (good & bad & rest & -> & ? & ? & Hg & ->).
      exists (TrimSpace p :: good), bad, rest. split_and!; [done..| |simpl; by rw Hi].
      intros q [->|?]%elem_of_cons; [by rw E|auto].
    + destruct IH as [Hg ->]. split; [|simpl; by rw Hi].
      intros q [->|?]%elem_of_cons; [by rw E|auto].
  - eexists [], (TrimSpace p), _. split_and!; [done..| |done]. by intros ? ?%elem_of_nil.
Qed.

(** A comma in a flag value means the same as repeating the flag, for both
    types and with errors. The map flag stores, entry after entry, the pair each
    non-blank entry stands for, a later one winning; it fails exactly when an entry
    is not key=value with a non-empty key, names the first such entry, and has then
    stored the entries before it and nothing after. *)
Theorem flags_accumulate v v' s m :
  list_Set (v +:+ String comma v') s = list_Set v' (list_Set v s) ∧
  map_Set (v +:+ String comma v') m = map_Sets [v; v'] m ∧
  match map_Set v m with
  | (None, m') =>
      (∀ p, p ∈ entries v → is_Some (map_entry p)) ∧ m' = foldl insert_entry m (entries v)
  | (Some e, m') => ∃ good bad rest, entries v = good ++ bad :: rest ∧ map_entry bad = None ∧
      e = malformed bad ∧ (∀ p, p ∈ good → is_Some (map_entry p)) ∧ m' = foldl insert_entry m good
  end.
Proof.
  split_and!.
  - unfold list_Set. by rw Split_comma_app foldl_app.
  - unfold map_Set. simpl. unfold map_Set. rw Split_comma_app set_parts_app.
    destruct (set_parts (Split comma v) m) as [[e|] m']; [done|].
    by destruct (set_parts (Split comma v') m') as [[e|] m''].
  - apply set_parts_spec.
Qed.

Example map_flag_ex :
  map_String (map_Sets ["b = x=y , a=1"; "a=2,"] ∅).2 = "a=2,b=x=y".
Proof. vm_compute. reflexivity. Qed.

Example map_flag_error : (map_Set "a=1,=2,c=3" ∅).1 = Some (malformed "=2").
Proof. vm_compute. reflexivity. Qed.
End Flags.
