(* ===== verification/Wirer.v ===== *)
(** The [spokeWirer] of cmd/main.go together with the cluster [Manager] of
    internal/cluster/manager.go, as one labelled transition system: the goroutine
    that delivers discovery events, one bootstrap goroutine per [ensure], the
    manager's [Start], and one lifecycle and one runtime goroutine per entry
    interleave, a step being what runs under one lock or between two waits. *)
From S2P Require Import Telemetry.
From S2P Require Import Prelude GoLib Api Unstructured Discovery Cluster.
Import Tracker.

#[local] Open Scope string_scope.
#[local] Open Scope list_scope.

(** ** State *)

(** [entry]: [e_launched] is [cancel != nil], [e_cancelled] its context,
    [e_exited] the closed [done], [e_running] an open [runtimeDone]. *)
Record entry := {
  e_name : string;
  e_launched : bool;
  e_cancelled : bool;
  e_exited : bool;
  e_started : bool;
  e_running : bool;
  e_tracker : backoffTracker;
}.

(** The settings of the manager. *)
Record settings := {
  healthyInterval : Z;
  baseDelay : Z;
  maxDelay : Z;
  threshold : Z;
}.

Definition defaults : settings :=
  {| healthyInterval := 30 * Second; baseDelay := 2 * Second; maxDelay := 5 * Minute;
     threshold := 3 |}.

(** [ManagerOption], [WithBackoff], and what [NewManager] makes of its options. *)
Definition ManagerOption : Type := settings → settings.

Definition WithBackoff (healthy base max unreachableAfter : Z) : ManagerOption := λ _,
  {| healthyInterval := healthy; baseDelay := base; maxDelay := max; threshold := unreachableAfter |}.

Definition NewManager (opts : list ManagerOption) : settings := foldl (λ m o, o m) defaults opts.

(** Where a bootstrap goroutine is: in the network calls of [bootstrap]; in the
    [select] of [run]; before [Register]; in the [stopEntry] of a replaced entry,
    before and after its cancellation; before the insertion; before [launch]; done. *)
Inductive run_pc :=
  | RTry | RWait | RRegister | RStop (old : nat) | RDrain (old : nat) | RInsert
  | RLaunch (e : nat) | RDone.

Record run := { r_name : string; r_pc : run_pc; r_delay : Z }.

(** Where the goroutine that delivers events is: between two events; in [drop]
    after its critical section; in [Deregister] before its critical section; in
    its [stopEntry]; before the hooks. *)
Inductive handler_pc :=
  | HIdle | HCancel (i : nat) (name : string) | HDeregister (name : string)
  | HStop (e : nat) (name : string) | HDrain (e : nat) (name : string)
  | HHooks (name : string).

(** Runs and entries are numbered in the order of their creation. [cancelled]
    holds the runs whose context is cancelled, [live] is [rootCtx != nil],
    [pending] what [Start] has still to launch, [gone] the OnClusterGone calls. *)
Record sys := {
  spokes : gmap string nat;
  cancelled : gset nat;
  runs : list run;
  handler : handler_pc;
  live : bool;
  pending : gset nat;
  table : gmap string nat;
  heap : list entry;
  gone : list string;
}.

Definition init : sys :=
  {| spokes := ∅; cancelled := ∅; runs := []; handler := HIdle; live := false; pending := ∅;
     table := ∅; heap := []; gone := [] |}.

#[export] Instance run_pc_eq : EqDecision run_pc.
Proof. solve_decision. Defined.
#[export] Instance handler_pc_eq : EqDecision handler_pc.
Proof. solve_decision. Defined.

(** *** Updates *)

Definition set_handler (h : handler_pc) (s : sys) : sys :=
  {| spokes := spokes s; cancelled := cancelled s; runs := runs s; handler := h;
     live := live s; pending := pending s; table := table s; heap := heap s; gone := gone s |}.
Definition set_spokes (m : gmap string nat) (s : sys) : sys :=
  {| spokes := m; cancelled := cancelled s; runs := runs s; handler := handler s;
     live := live s; pending := pending s; table := table s; heap := heap s; gone := gone s |}.
Definition set_runs (l : list run) (s : sys) : sys :=
  {| spokes := spokes s; cancelled := cancelled s; runs := l; handler := handler s;
     live := live s; pending := pending s; table := table s; heap := heap s; gone := gone s |}.
Definition cancel_run (i : nat) (s : sys) : sys :=
  {| spokes := spokes s; cancelled := {[i]} ∪ cancelled s; runs := runs s; handler := handler s;
     live := live s; pending := pending s; table := table s; heap := heap s; gone := gone s |}.
Definition set_live (p : gset nat) (s : sys) : sys :=
  {| spokes := spokes s; cancelled := cancelled s; runs := runs s; handler := handler s;
     live := true; pending := p; table := table s; heap := heap s; gone := gone s |}.
Definition set_table (t : gmap string nat) (s : sys) : sys :=
  {| spokes := spokes s; cancelled := cancelled s; runs := runs s; handler := handler s;
     live := live s; pending := pending s; table := t; heap := heap s; gone := gone s |}.
Definition set_heap (l : list entry) (s : sys) : sys :=
  {| spokes := spokes s; cancelled := cancelled s; runs := runs s; handler := handler s;
     live := live s; pending := pending s; table := table s; heap := l; gone := gone s |}.
Definition fire_gone (name : string) (s : sys) : sys :=
  {| spokes := spokes s; cancelled := cancelled s; runs := runs s; handler := handler s;
     live := live s; pending := pending s; table := table s; heap := heap s;
     gone := gone s ++ [name] |}.

Definition set_pc (i : nat) (pc : run_pc) (s : sys) : sys :=
  set_runs (alter (λ r, {| r_name := r_name r; r_pc := pc; r_delay := r_delay r |}) i (runs s)) s.

Definition upd_entry (e : nat) (f : entry → entry) (s : sys) : sys :=
  set_heap (alter f e (heap s)) s.

(** ** The wirer (cmd/main.go) *)

Definition run_baseDelay : Z := 5 * Second.
Definition run_maxDelay : Z := 5 * Minute.

(** [ensure] *)
Definition ensure (name : string) (s : sys) : sys :=
  match spokes s !! name with
  | Some _ => s
  | None =>
      set_spokes (<[name := length (runs s)]> (spokes s))
        (set_runs (runs s ++ [{| r_name := name; r_pc := RTry; r_delay := run_baseDelay |}]) s)
  end.

(** The critical section of [drop]. *)
Definition drop (name : string) (s : sys) : sys :=
  let s' := set_spokes (delete name (spokes s)) s in
  match spokes s !! name with
  | Some i => set_handler (HCancel i name) s'
  | None => set_handler (HDeregister name) s'
  end.

(** [Handle] *)
Definition Handle (ev : DiscoveryEvent) (s : sys) : sys :=
  let name := cl_Name (ev_Record ev) in
  match ev_Type ev with
  | EventRegister | EventUpdate => if cl_Ready (ev_Record ev) then ensure name s else drop name s
  | EventDeregister => drop name s
  end.

(** ** The manager (manager.go) *)

Section manager.
Context (cfg : settings).

Definition new_entry (name : string) : entry :=
  {| e_name := name; e_launched := false; e_cancelled := false; e_exited := false;
     e_started := false; e_running := false;
     e_tracker := newBackoffTracker (baseDelay cfg) (maxDelay cfg) (healthyInterval cfg)
                    (threshold cfg) |}.

(** [launch]: sets [cancel] and starts the lifecycle goroutine. *)
Definition launch (e : nat) : sys → sys :=
  upd_entry e (λ x, {| e_name := e_name x; e_launched := true; e_cancelled := e_cancelled x;
                       e_exited := e_exited x; e_started := e_started x;
                       e_running := e_running x; e_tracker := e_tracker x |}).

(** The first part of [stopEntry]: cancel the entry if it was launched. *)
Definition stop_cancel (e : nat) : sys → sys :=
  upd_entry e (λ x, {| e_name := e_name x; e_launched := e_launched x;
                       e_cancelled := if e_launched x then true else e_cancelled x;
                       e_exited := e_exited x; e_started := e_started x;
                       e_running := e_running x; e_tracker := e_tracker x |}).

(** The rest of [stopEntry] returns once the lifecycle of a launched entry has
    exited and the runtime has stopped. *)
Definition drained (x : entry) : bool := implb (e_launched x) (e_exited x) && negb (e_running x).

Definition entry_drained (e : nat) (s : sys) : bool :=
  match heap s !! e with Some x => drained x | None => false end.

(** The last critical section of [Register], by run [i]. *)
Definition insert_entry (i : nat) (name : string) (s : sys) : sys :=
  let e := length (heap s) in
  set_pc i (if live s then RLaunch e else RDone)
    (set_table (<[name := e]> (table s)) (set_heap (heap s ++ [new_entry name]) s)).

(** [Deregister], after [drop]'s critical section. *)
Definition handler_step (s : sys) : option sys :=
  match handler s with
  | HIdle => None
  | HCancel i name => Some (set_handler (HDeregister name) (cancel_run i s))
  | HDeregister name =>
      match table s !! name with
      | None => Some (set_handler HIdle s)
      | Some e => Some (set_handler (HStop e name) (set_table (delete name (table s)) s))
      end
  | HStop e name => Some (set_handler (HDrain e name) (stop_cancel e s))
  | HDrain e name => if entry_drained e s then Some (set_handler (HHooks name) s) else None
  | HHooks name => Some (set_handler HIdle (fire_gone name s))
  end.

(** One step of [run]. In [bootstrap], [ok] says whether the network calls
    succeed; in the [select], whether the timer fires. *)
Definition run_step (i : nat) (r : run) (ok : bool) (s : sys) : option sys :=
  let name := r_name r in
  match r_pc r with
  | RTry =>
      Some (set_pc i (if ok then RRegister
                      else if decide (i ∈ cancelled s) then RDone else RWait) s)
  | RWait =>
      if ok then
        let d := int64 (r_delay r * 2) in
        let d := if (run_maxDelay <? d)%Z then run_maxDelay else d in
        Some (set_runs (<[i := {| r_name := name; r_pc := RTry; r_delay := d |}]> (runs s)) s)
      else if decide (i ∈ cancelled s) then Some (set_pc i RDone s) else None
  | RRegister =>
      match table s !! name with
      | Some old => Some (set_pc i (RStop old) s)
      | None => Some (insert_entry i name s)
      end
  | RStop old => Some (set_pc i (RDrain old) (stop_cancel old s))
  | RDrain old => if entry_drained old s then Some (set_pc i RInsert s) else None
  | RInsert => Some (insert_entry i name s)
  | RLaunch e => Some (set_pc i RDone (launch e s))
  | RDone => None
  end.

(** [Start]: the snapshot, then one launch after the other. *)
Definition start_begin (s : sys) : option sys :=
  if live s then None else Some (set_live (list_to_set (map_to_list (table s)).*2) s).

Definition start_launch (e : nat) (s : sys) : option sys :=
  if decide (e ∈ pending s) then Some (launch e (set_live (pending s ∖ {[e]}) s)) else None.

(** One turn of [lifecycle] with [startRuntime]: the probe's answer [err] at time
    [now]; [built] says whether the factory makes a runtime. *)
Definition turn (err : option string) (now : Z) (built : bool) (x : entry) : entry :=
  let t := (Observe err now (e_tracker x)).2 in
  let starts := (if err then false else true) && negb (e_started x) && built in
  {| e_name := e_name x; e_launched := e_launched x; e_cancelled := e_cancelled x;
     e_exited := e_exited x; e_started := e_started x || starts;
     e_running := e_running x || starts; e_tracker := t |}.

Definition exit_loop (x : entry) : entry :=
  {| e_name := e_name x; e_launched := e_launched x; e_cancelled := e_cancelled x;
     e_exited := true; e_started := e_started x; e_running := e_running x;
     e_tracker := e_tracker x |}.

(** The lifecycle goroutine of an entry runs. *)
Definition looping (x : entry) : bool := e_launched x && negb (e_exited x).

Definition probe_step (e : nat) (err : option string) (now : Z) (built : bool) (s : sys)
    : option sys :=
  match heap s !! e with
  | Some x =>
      if looping x then
        Some (upd_entry e (if e_cancelled x then exit_loop else turn err now built) s)
      else None
  | None => None
  end.

(** The [select] of the lifecycle, on the cancelled context. *)
Definition exit_step (e : nat) (s : sys) : option sys :=
  match heap s !! e with
  | Some x => if looping x && e_cancelled x then Some (upd_entry e exit_loop s) else None
  | None => None
  end.

(** [rt.Start] returns, with an error or not; an error of a runtime that was not
    cancelled lets the lifecycle start a fresh one. *)
Definition stop_runtime (failed : bool) (x : entry) : entry :=
  {| e_name := e_name x; e_launched := e_launched x; e_cancelled := e_cancelled x;
     e_exited := e_exited x;
     e_started := e_started x && negb (failed && negb (e_cancelled x));
     e_running := false; e_tracker := e_tracker x |}.

Definition runtime_step (e : nat) (failed : bool) (s : sys) : option sys :=
  match heap s !! e with
  | Some x => if e_running x then Some (upd_entry e (stop_runtime failed) s) else None
  | None => None
  end.

(** [runtimeOf], which [GetClient] and [GetCache] return a part of, and [Snapshot]. *)
Definition runtimeOf (name : string) (s : sys) : option nat :=
  match table s !! name with
  | None => None
  | Some e => match heap s !! e with
              | Some x => if e_started x then Some e else None
              | None => None
              end
  end.

Definition Snapshot (s : sys) : gmap string (State * Z * string) :=
  omap (λ e, x ← heap s !! e; Some (Connectivity (e_tracker x))) (table s).

(** ** Interleavings *)

Inductive label :=
  | Event (ev : DiscoveryEvent)
  | Handler
  | Run (i : nat) (ok : bool)
  | StartManager
  | StartLaunch (e : nat)
  | Probe (e : nat) (err : option string) (now : Z) (built : bool)
  | LoopExit (e : nat)
  | RuntimeExit (e : nat) (failed : bool).

Definition step (l : label) (s : sys) : option sys :=
  match l with
  | Event ev => match handler s with HIdle => Some (Handle ev s) | _ => None end
  | Handler => handler_step s
  | Run i ok => match runs s !! i with Some r => run_step i r ok s | None => None end
  | StartManager => start_begin s
  | StartLaunch e => start_launch e s
  | Probe e err now built => probe_step e err now built s
  | LoopExit e => exit_step e s
  | RuntimeExit e failed => runtime_step e failed s
  end.

Fixpoint exec (ls : list label) (s : sys) : option sys :=
  match ls with
  | [] => Some s
  | l :: ls' => match step l s with Some s' => exec ls' s' | None => None end
  end.

(** The states after the steps [ls], the latest first. *)
Inductive reaches : list label → sys → Prop :=
  | reach_init : reaches [] init
  | reach_step ls l s s' : reaches ls s → step l s = Some s' → reaches (l :: ls) s'.

Lemma exec_reaches ls past s s' : reaches past s → exec ls s = Some s' → reaches (rev ls ++ past) s'.
Proof.
  revert past s. induction ls as [|l ls IH]; intros past s Hr; simpl; [by intros [= <-]|].
  destruct (step l s) as [s1|] eqn:E; [|done]. intros H. rewrite -app_assoc.
  apply (IH (l :: past) s1); [|done]. by econstructor.
Qed.

(** ** The spokes follow the events *)

(** What the last event about a cluster says; the latest event comes first. *)
Fixpoint wants (ls : list label) (name : string) : bool :=
  match ls with
  | [] => false
  | Event ev :: ls' =>
      if decide (cl_Name (ev_Record ev) = name) then
        match ev_Type ev with EventDeregister => false | _ => cl_Ready (ev_Record ev) end
      else wants ls' name
  | _ :: ls' => wants ls' name
  end.

Definition finished (pc : run_pc) : Prop := match pc with RLaunch _ | RDone => True | _ => False end.

(** The cluster whose runtime the event goroutine is removing. *)
Definition dropping (h : handler_pc) : option string :=
  match h with
  | HIdle => None
  | HCancel _ c | HDeregister c | HStop _ c | HDrain _ c | HHooks c => Some c
  end.

Record wirer_inv (ls : list label) (s : sys) : Prop := {
  wi_wants c : is_Some (spokes s !! c) ↔ wants ls c = true;
  wi_spoke c i : spokes s !! c = Some i →
    (∃ r, runs s !! i = Some r ∧ r_name r = c ∧ (finished (r_pc r) → is_Some (table s !! c))) ∧
    i ∉ cancelled s ∧ dropping (handler s) ≠ Some c;
  wi_run i r : runs s !! i = Some r → i ∉ cancelled s →
    spokes s !! r_name r = Some i ∨ handler s = HCancel i (r_name r);
  wi_delay i r : runs s !! i = Some r → (run_baseDelay ≤ r_delay r ≤ run_maxDelay)%Z;
  wi_cancelled i : i ∈ cancelled s → is_Some (runs s !! i);
  wi_handler i c : handler s = HCancel i c → ∃ r, runs s !! i = Some r ∧ r_name r = c;
}.

(** What a step of a bootstrap or of the manager may do to the runs. *)
Record runs_kept (s s' : sys) : Prop := {
  rk_spokes : spokes s' = spokes s;
  rk_cancelled : cancelled s' = cancelled s;
  rk_handler : handler s' = handler s;
  rk_table c : is_Some (table s !! c) → is_Some (table s' !! c);
  rk_length : length (runs s') = length (runs s);
  rk_run j r' : runs s' !! j = Some r' →
    ∃ r, runs s !! j = Some r ∧ r_name r' = r_name r ∧
         (run_baseDelay ≤ r_delay r ≤ run_maxDelay → run_baseDelay ≤ r_delay r' ≤ run_maxDelay)%Z ∧
         (finished (r_pc r') →
          finished (r_pc r) ∨ is_Some (table s' !! r_name r) ∨ j ∈ cancelled s);
}.

Lemma runs_kept_same s s' :
  spokes s' = spokes s → cancelled s' = cancelled s → handler s' = handler s →
  table s' = table s → runs s' = runs s → runs_kept s s'.
Proof.
  intros H1 H2 H3 H4 H5. split; rewrite ?H4 ?H5; eauto 10.
Qed.

Lemma lookup_alter_inv {A} (f : A → A) i j (l : list A) x :
  alter f i l !! j = Some x → (i ≠ j ∧ l !! j = Some x) ∨ (i = j ∧ ∃ y, l !! i = Some y ∧ x = f y).
Proof.
  rewrite list_lookup_alter. case_decide as Hij; [|auto].
  subst. intros (y & ? & ->)%fmap_Some. eauto.
Qed.

(** A run moves to another point. *)
Lemma runs_kept_pc i pc r s s' :
  runs s !! i = Some r →
  spokes s' = spokes s → cancelled s' = cancelled s → handler s' = handler s →
  (∀ c, is_Some (table s !! c) → is_Some (table s' !! c)) →
  (finished pc → finished (r_pc r) ∨ is_Some (table s' !! r_name r) ∨ i ∈ cancelled s) →
  runs s' = runs (set_pc i pc s) → runs_kept s s'.
Proof.
  intros Hi H1 H2 H3 H4 Hpc H5. split; rewrite ?H5; [done..| |].
  - unfold set_pc; simpl. apply length_alter.
  - intros j r' [[Hne Hj]|(<- & y & Hy & ->)]%lookup_alter_inv; [by eauto 10|].
    assert (y = r) as -> by congruence. exists r. by split_and!.
Qed.

Lemma wirer_inv_kept ls l s s' :
  wirer_inv ls s → runs_kept s s' → (∀ c, wants (l :: ls) c = wants ls c) → wirer_inv (l :: ls) s'.
Proof.
  intros [H1 H2 H3 H4 H5 H6] [K1 K2 K3 K4 K5 K6] Hw.
  assert (∀ j, is_Some (runs s !! j) → is_Some (runs s' !! j)) as Hl.
  { intros j. by rewrite !lookup_lt_is_Some K5. }
  split; rewrite ?K1 ?K2 ?K3.
  - intros c. by rewrite Hw.
  - intros c i Hc. destruct (H2 c i Hc) as ((r & Hr & Hn & Hf) & Hi & Hd). split_and!; [|done..].
    destruct (Hl i ltac:(eauto)) as [r' Hr']. destruct (K6 i r' Hr') as (q & Hq & Hn' & _ & Hf').
    assert (q = r) as -> by congruence. exists r'. split_and!; [done|congruence|].
    intros [Hx|[Hx|Hx]]%Hf'; [by apply K4, Hf|by rewrite -Hn|done].
  - intros i r' Hi Hc. destruct (K6 i r' Hi) as (r & Hr & -> & _). by apply H3.
  - intros i r' Hi. destruct (K6 i r' Hi) as (r & Hr & _ & Hd & _). by apply Hd, (H4 i).
  - intros i Hi. by apply Hl, H5.
  - intros i c Hh. destruct (H6 i c Hh) as (r & Hr & <-). destruct (Hl i ltac:(eauto)) as [r' Hr'].
    destruct (K6 i r' Hr') as (q & Hq & Hn' & _). exists r'. split; [done|]. congruence.
Qed.

Lemma insert_entry_kept i r s : runs s !! i = Some r → runs_kept s (insert_entry i (r_name r) s).
Proof.
  intros Hi. eapply (runs_kept_pc i (if live s then RLaunch (length (heap s)) else RDone));
    [done..| | |done]; simpl.
  - intros c Hc. destruct (decide (c = r_name r)) as [->|Hne];
      [rewrite lookup_insert_eq|rewrite lookup_insert_ne]; eauto.
  - intros _. right. left. rewrite lookup_insert_eq. eauto.
Qed.

Lemma next_delay_bounds d :
  (run_baseDelay ≤ d ≤ run_maxDelay)%Z →
  (run_baseDelay ≤ (if (run_maxDelay <? int64 (d * 2))%Z then run_maxDelay else int64 (d * 2))
   ≤ run_maxDelay)%Z.
Proof.
  unfold run_baseDelay, run_maxDelay, Minute, Second. intros H. rewrite int64_id; [lia|].
  destruct (Z.ltb_spec (5 * (60 * 1000000000)) (d * 2)); lia.
Qed.

Lemma run_step_kept i r ok s s' :
  runs s !! i = Some r → run_step i r ok s = Some s' → runs_kept s s'.
Proof.
  intros Hi. unfold run_step.
  destruct (r_pc r) as [| | |old|old| |e|] eqn:Epc; intros Hs.
  - simplify_eq/=. eapply (runs_kept_pc i _ r); [done..| |done]. destruct ok; [done|].
    case_decide; [by auto|done].
  - destruct ok.
    + simplify_eq/=. split; simpl; [done..|by eauto|by rewrite length_insert|].
      intros j r' [(<- & <- & Hlt)|[Hne Hj]]%list_lookup_insert_Some; [|by eauto 10].
      exists r. simpl. split_and!; [done..|apply next_delay_bounds|done].
    + case_decide; simplify_eq/=. eapply (runs_kept_pc i RDone r); try done. by auto.
  - destruct (table s !! r_name r) as [old|] eqn:E; simplify_eq/=;
      [by eapply (runs_kept_pc i (RStop old) r)|by apply insert_entry_kept].
  - simplify_eq/=. by eapply (runs_kept_pc i (RDrain old) r).
  - destruct (entry_drained old s); simplify_eq/=. by eapply (runs_kept_pc i RInsert r).
  - simplify_eq/=. by apply insert_entry_kept.
  - simplify_eq/=. eapply (runs_kept_pc i RDone r); try done. rewrite Epc. simpl. by auto.
  - done.
Qed.

Lemma manager_step_kept l s s' :
  match l with Event _ | Handler | Run _ _ => False | _ => True end →
  step l s = Some s' → runs_kept s s'.
Proof.
  destruct l; intros Hl; try done; simpl;
    unfold start_begin, start_launch, probe_step, exit_step, runtime_step; intros Hs;
    repeat case_match; simplify_eq/=; by apply runs_kept_same.
Qed.

Lemma handler_step_wirer ls s s' :
  wirer_inv ls s → handler_step s = Some s' → wirer_inv (Handler :: ls) s'.
Proof.
  intros [H1 H2 H3 H4 H5 H6]. unfold handler_step.
  destruct (handler s) as [|i c|c|e c|e c|c] eqn:Eh; intros Hs; simplify_eq/=.
  - destruct (H6 i c eq_refl) as (r & Hr & Hn). split; simpl; [done|..].
    + intros c' i' Hc. destruct (H2 c' i' Hc) as ((r' & Hr' & Hn' & Hf) & Hi & Hd).
      split_and!; [eauto| |done]. apply not_elem_of_union. split; [|done].
      intros ->%elem_of_singleton. congruence.
    + intros j q Hj [Hne Hc]%not_elem_of_union. destruct (H3 j q Hj Hc) as [?|[= -> _]]; [by left|].
      by rewrite elem_of_singleton in Hne.
    + done.
    + intros j [->%elem_of_singleton|Hj]%elem_of_union; eauto.
    + done.
  - assert (∀ t, (∀ c', c' ≠ c → t !! c' = table s !! c') → ∀ h, dropping h = None ∨ dropping h = Some c →
      (∀ i n, h ≠ HCancel i n) → wirer_inv (Handler :: ls) (set_handler h (set_table t s))) as Hgo.
    { intros t Ht h Hh Hnc. split; simpl; [done| |by intros j r Hj Hc; left; destruct (H3 j r Hj Hc)|done..|].
      - intros c' i' Hc. destruct (H2 c' i' Hc) as ((r' & Hr' & Hn' & Hf) & Hi & Hd).
        assert (c' ≠ c) by congruence. split_and!; [exists r'; by rewrite Ht|done|].
        destruct Hh as [-> | ->]; congruence.
      - intros i n Hx. by destruct (Hnc i n). }
    destruct (table s !! c) as [e|] eqn:E; simplify_eq/=.
    + apply (Hgo (delete c (table s))); [|by right|done]. intros c' ?. by rewrite lookup_delete_ne.
    + specialize (Hgo (table s) (λ _ _, eq_refl) HIdle (or_introl eq_refl)). by apply Hgo.
  - split; simpl; try done. intros j r Hj Hc. left. by destruct (H3 j r Hj Hc).
  - destruct (entry_drained e s); simplify_eq/=. split; simpl; try done.
    intros j r Hj Hc. left. by destruct (H3 j r Hj Hc).
  - split; simpl; try done; [|intros j r Hj Hc; left; by destruct (H3 j r Hj Hc)].
    intros c' i' Hc. by destruct (H2 c' i' Hc) as (? & ? & _).
Qed.

(** A cluster wanted by the latest event. *)
Definition wants_event (ev : DiscoveryEvent) : bool :=
  match ev_Type ev with EventDeregister => false | _ => cl_Ready (ev_Record ev) end.

Lemma Handle_cases ev s :
  Handle ev s = if wants_event ev then ensure (cl_Name (ev_Record ev)) s
                else drop (cl_Name (ev_Record ev)) s.
Proof. unfold Handle, wants_event. by destruct (ev_Type ev), (cl_Ready (ev_Record ev)). Qed.

Lemma ensure_wirer ls ev s :
  handler s = HIdle → wirer_inv ls s → wants_event ev = true →
  wirer_inv (Event ev :: ls) (ensure (cl_Name (ev_Record ev)) s).
Proof.
  intros Hh [H1 H2 H3 H4 H5 H6] Hev. set (c := cl_Name (ev_Record ev)).
  unfold ensure. destruct (spokes s !! c) as [i|] eqn:E.
  - split; try done. intros c'. simpl. rewrite -/(wants_event ev) Hev -/c. case_decide as Hc; [|done]. subst c'. rewrite E. split; eauto.
  - assert (length (runs s) ∉ cancelled s) as Hfresh.
    { intros Hin%H5%lookup_lt_is_Some. lia. }
    split; simpl; rewrite ?Hh.
    + intros c'. simpl. rewrite -/(wants_event ev) Hev -/c. case_decide as Hc.
      * subst c'. rewrite lookup_insert_eq. split; eauto.
      * by rewrite lookup_insert_ne.
    + intros c' i [[<- <-]|[Hne Hc]]%lookup_insert_Some.
      * split_and!; [|done..]. eexists. rewrite list_lookup_middle //.
      * destruct (H2 c' i Hc) as ((r & Hr & Hn & Hf) & Hi & _). split_and!; [|done..].
        exists r. by rewrite (lookup_app_l_Some _ _ _ _ Hr).
    + intros i r [[_ Hi]|[-> <-]]%lookup_snoc_Some Hc.
      * left. destruct (H3 i r Hi Hc) as [Hs|Hs]; [|by rewrite Hh in Hs].
        rewrite lookup_insert_ne; [congruence|done].
      * left. simpl. by rewrite lookup_insert_eq.
    + intros i r [[_ Hi]|[_ <-]]%lookup_snoc_Some; [by apply (H4 i)|done].
    + intros i [r Hi]%H5. exists r. by apply lookup_app_l_Some.
    + done.
Qed.

Lemma drop_wirer ls ev s :
  handler s = HIdle → wirer_inv ls s → wants_event ev = false →
  wirer_inv (Event ev :: ls) (drop (cl_Name (ev_Record ev)) s).
Proof.
  intros Hh [H1 H2 H3 H4 H5 H6] Hev. set (c := cl_Name (ev_Record ev)).
  assert (∀ h, dropping h = Some c → (∀ i n, h = HCancel i n → n = c ∧ spokes s !! c = Some i) →
    (∀ i, spokes s !! c = Some i → h = HCancel i c) →
    wirer_inv (Event ev :: ls) (set_handler h (set_spokes (delete c (spokes s)) s))) as Hgo.
  { intros h Hd Hi1 Hi2. split; simpl; [| | |done..|].
    - intros c'. simpl. rewrite -/(wants_event ev) Hev -/c. case_decide as Hc.
      + subst c'. rewrite lookup_delete_eq. split; [by intros []|done].
      + by rewrite lookup_delete_ne.
    - intros c' i [Hne Hc]%lookup_delete_Some. destruct (H2 c' i Hc) as (Hr & Hi & _).
      split_and!; [done..|]. rewrite Hd. congruence.
    - intros i r Hi Hc. destruct (H3 i r Hi Hc) as [Hs|Hs]; [|by rewrite Hh in Hs].
      destruct (decide (r_name r = c)) as [Hn|Hn].
      + right. rewrite Hn in Hs. rewrite Hn. by apply Hi2.
      + left. by rewrite lookup_delete_ne.
    - intros i n [-> Hs]%Hi1. destruct (H2 c i Hs) as ((r & Hr & Hn & _) & _). eauto. }
  unfold drop. destruct (spokes s !! c) as [i|] eqn:E; (apply Hgo; [done|..]);
    naive_solver.
Qed.

Lemma step_wirer ls l s s' : wirer_inv ls s → step l s = Some s' → wirer_inv (l :: ls) s'.
Proof.
  intros Hi Hs. destruct l; try (eapply wirer_inv_kept; [exact Hi| |done];
    by eapply manager_step_kept; [|exact Hs]).
  - simpl in Hs. destruct (handler s) eqn:Eh; try done. simplify_eq. rewrite Handle_cases.
    destruct (wants_event ev) eqn:Ev; [by apply ensure_wirer|by apply drop_wirer].
  - by eapply handler_step_wirer.
  - simpl in Hs. destruct (runs s !! i) as [r|] eqn:E; [|done].
    eapply wirer_inv_kept; [exact Hi|by eapply run_step_kept|done].
Qed.

Lemma reaches_wirer ls s : reaches ls s → wirer_inv ls s.
Proof.
  induction 1 as [|ls l s s' Hr IH Hs]; [|by eapply step_wirer].
  split; simpl; try done.
  intros c. rewrite lookup_empty. split; [by intros []|done].
Qed.

(** ** An entry is launched once *)

(** Run [i] is about to launch entry [e]; somebody is. *)
Definition launches (s : sys) (i e : nat) : Prop :=
  ∃ r, runs s !! i = Some r ∧ r_pc r = RLaunch e.
Definition to_launch (e : nat) (s : sys) : Prop := e ∈ pending s ∨ ∃ i, launches s i e.

(** No goroutine of the entry ever ran. *)
Definition untouched (x : entry) : Prop :=
  e_launched x = false ∧ e_cancelled x = false ∧ e_exited x = false ∧ e_started x = false ∧
  e_running x = false.

Record launch_inv (s : sys) : Prop := {
  li_table c e : table s !! c = Some e → ∃ x, heap s !! e = Some x ∧ e_name x = c;
  li_todo e : to_launch e s → live s = true ∧ ∃ x, heap s !! e = Some x ∧ e_launched x = false;
  li_pending e i : e ∈ pending s → ¬ launches s i e;
  li_unique e i j : launches s i e → launches s j e → i = j;
  li_dead e x : heap s !! e = Some x → live s = false → e_launched x = false;
  li_waits c e x : table s !! c = Some e → heap s !! e = Some x → e_launched x = false →
    live s = true → to_launch e s;
  li_fresh e x : heap s !! e = Some x → e_launched x = false → untouched x;
}.

(** What the steps that neither insert nor launch may do. *)
Record launch_kept (s s' : sys) : Prop := {
  lk_live : live s' = live s;
  lk_pending : pending s' = pending s;
  lk_table c e : table s' !! c = Some e → table s !! c = Some e;
  lk_heap e x' : heap s' !! e = Some x' → ∃ x, heap s !! e = Some x ∧ e_name x' = e_name x ∧
    e_launched x' = e_launched x ∧ (untouched x → untouched x');
  lk_length : length (heap s') = length (heap s);
  lk_runs i e : launches s' i e ↔ launches s i e;
}.

Lemma launch_inv_kept s s' : launch_inv s → launch_kept s s' → launch_inv s'.
Proof.
  intros [H1 H2 H3 H4 H5 H6 H7] [K1 K2 K3 K4 K5 K6].
  assert (∀ e, to_launch e s' ↔ to_launch e s) as Ht
    by (intros e; unfold to_launch; rewrite K2; by setoid_rewrite K6).
  assert (∀ e x, heap s !! e = Some x → ∃ x', heap s' !! e = Some x' ∧ e_name x' = e_name x ∧
            e_launched x' = e_launched x) as Hh.
  { intros e x Hx. assert (is_Some (heap s' !! e)) as [x' Hx'].
    { rewrite lookup_lt_is_Some K5 -lookup_lt_is_Some. eauto. }
    destruct (K4 e x' Hx') as (y & Hy & ? & ? & _). exists x'. split_and!; congruence. }
  split.
  - intros c e (x & Hx & Hn)%K3%H1. destruct (Hh e x Hx) as (x' & ? & ? & _). exists x'. split; congruence.
  - intros e. rewrite Ht K1. intros (Hl & x & Hx & Hu)%H2. split; [done|].
    destruct (Hh e x Hx) as (x' & ? & _ & ?). exists x'. split; congruence.
  - intros e i. rewrite K2 K6. apply H3.
  - intros e i j. rewrite !K6. apply H4.
  - intros e x' (x & Hx & _ & -> & _)%K4. rewrite K1. by apply (H5 e).
  - intros c e x' Hc (x & Hx & _ & -> & _)%K4. rewrite K1 Ht. eapply H6; [by apply K3|done].
  - intros e x' (x & Hx & _ & -> & Hu)%K4 Hl. by apply Hu, (H7 e).
Qed.

Lemma launches_set_pc i pc s j e r :
  runs s !! i = Some r →
  launches (set_pc i pc s) j e ↔ (j = i ∧ pc = RLaunch e) ∨ (j ≠ i ∧ launches s j e).
Proof.
  intros Hi. unfold launches, set_pc. simpl. split.
  - intros (q & [[Hne Hq]|(-> & y & Hy & ->)]%lookup_alter_inv & Hpc); [right|left; by split].
    split; [congruence|eauto].
  - intros [[-> ->]|(Hne & q & Hq & Hpc)].
    + eexists. split; [rewrite list_lookup_alter decide_True // Hi //|done].
    + exists q. split; [|done]. by rewrite list_lookup_alter decide_False.
Qed.

(** A run that is not at a launch moves elsewhere. *)
Lemma launches_set_pc_other i pc s j e r :
  runs s !! i = Some r → (∀ e, pc ≠ RLaunch e) → (∀ e, r_pc r ≠ RLaunch e) →
  launches (set_pc i pc s) j e ↔ launches s j e.
Proof.
  intros Hi Hpc Hr. rewrite (launches_set_pc _ _ _ _ _ r) //. split.
  - intros [[_ Hx]|[_ ?]]; [by destruct (Hpc e)|done].
  - intros Hx. right. split; [|done]. intros ->. destruct Hx as (q & Hq & He).
    assert (q = r) as -> by congruence. by destruct (Hr e).
Qed.

Lemma kept_upd e f s :
  (∀ x, heap s !! e = Some x → e_name (f x) = e_name x ∧ e_launched (f x) = e_launched x ∧
        (untouched x → untouched (f x))) →
  launch_kept s (upd_entry e f s).
Proof.
  intros Hf. split; simpl; try done; [|apply length_alter].
  intros e' x' [[_ Hx]|(<- & x & Hx & ->)]%lookup_alter_inv; [eauto 10|].
  exists x. by destruct (Hf x Hx) as (? & ? & ?).
Qed.

Lemma kept_trans s1 s2 s3 : launch_kept s1 s2 → launch_kept s2 s3 → launch_kept s1 s3.
Proof.
  intros [A1 A2 A3 A4 A5 A6] [B1 B2 B3 B4 B5 B6]. split; try congruence.
  - intros c e H. by apply A3, B3.
  - intros e x3 (x2 & (x1 & Hx1 & Hn1 & Hl1 & Hu1)%A4 & Hn & Hl & Hu)%B4.
    exists x1. split_and!; [done|congruence|congruence|auto].
  - intros i e. by rewrite B6.
Qed.

(** Only the event goroutine, the spokes and the table change. *)
Lemma kept_frame s s' :
  live s' = live s → pending s' = pending s → heap s' = heap s →
  (∀ c e, table s' !! c = Some e → table s !! c = Some e) →
  (∀ i e, launches s' i e ↔ launches s i e) → launch_kept s s'.
Proof. intros H1 H2 H3 H4 H5. split; try done; rewrite H3; eauto 10. Qed.

Lemma kept_stop_cancel e s : launch_kept s (stop_cancel e s).
Proof.
  apply kept_upd. intros x _. unfold untouched. simpl. split_and!; [done..|].
  intros (Hl & ? & ? & ? & ?). by rewrite Hl.
Qed.

Lemma ensure_kept c s : launch_kept s (ensure c s).
Proof.
  unfold ensure. destruct (spokes s !! c) as [i|]; apply kept_frame; try done.
  intros i e. unfold launches. simpl. split.
  - intros (r & [[_ Hr]|[_ <-]]%lookup_snoc_Some & Hpc); [eauto|done].
  - intros (r & Hr & Hpc). exists r. split; [|done]. by apply lookup_app_l_Some.
Qed.

Lemma handler_step_kept s s' : handler_step s = Some s' → launch_kept s s'.
Proof.
  unfold handler_step. intros Hs.
  destruct (handler s) as [|i c|c|e c|e c|c] eqn:Eh; simplify_eq/=; try by apply kept_frame.
  - destruct (table s !! c) as [e|] eqn:E; simplify_eq/=; apply kept_frame; try done.
    intros c' e'. simpl. by intros [_ ?]%lookup_delete_Some.
  - eapply kept_trans; [apply (kept_stop_cancel e)|by apply kept_frame].
  - destruct (entry_drained e s); simplify_eq/=. by apply kept_frame.
Qed.

Lemma entry_step_kept l s s' :
  launch_inv s → match l with Probe _ _ _ _ | LoopExit _ | RuntimeExit _ _ => True | _ => False end →
  step l s = Some s' → launch_kept s s'.
Proof.
  intros Hinv Hl. destruct l; try done; simpl; unfold probe_step, exit_step, runtime_step, looping;
    intros Hs; destruct (heap s !! e) as [x|] eqn:Ex; try done; case_match eqn:Eg; simplify_eq;
    apply kept_upd; intros y Hy; assert (y = x) as -> by congruence.
  - destruct (e_launched x) eqn:El; [|done].
    destruct (e_cancelled x); simpl; (split_and!; [done..|]); by intros [? _]; congruence.
  - destruct (e_launched x) eqn:El; [|done].
    simpl; (split_and!; [done..|]); by intros [? _]; congruence.
  - simpl. split_and!; [done..|]. intros (? & ? & ? & ? & ?). congruence.
Qed.

(** A table entry that did not exist, and its run's move. *)
Lemma insert_entry_launch i r s :
  launch_inv s → runs s !! i = Some r → (∀ e, r_pc r ≠ RLaunch e) →
  launch_inv (insert_entry i (r_name r) s).
Proof.
  intros [H1 H2 H3 H4 H5 H6 H7] Hi Hpc. unfold insert_entry.
  set (n := length (heap s)). set (pc := if live s then RLaunch n else RDone).
  set (s1 := set_table _ _). assert (runs s1 !! i = Some r) as Hi1 by done.
  assert (∀ e x, heap s !! e = Some x → e ≠ n) as Hn by (intros e x Hx%lookup_lt_Some; lia).
  assert (∀ e, to_launch e s → e ≠ n) as Htn by (intros e (_ & x & Hx & _)%H2; eauto).
  assert (∀ j e, launches (set_pc i pc s1) j e ↔
            launches s j e ∨ (live s = true ∧ j = i ∧ e = n)) as Hl.
  { intros j e. rewrite (launches_set_pc _ _ _ _ _ r) //. subst pc. split.
    - intros [[-> Hx]|[_ ?]]; [|by left]. destruct (live s); [|done]. right. by simplify_eq.
    - intros [Hx|(Hlv & -> & ->)]; [right|left; by rewrite Hlv]. split; [|done]. intros ->.
      destruct Hx as (q & Hq & He). simplify_eq. by destruct (Hpc e). }
  assert (∀ e, to_launch e (set_pc i pc s1) ↔ to_launch e s ∨ (live s = true ∧ e = n)) as Ht.
  { intros e. unfold to_launch. setoid_rewrite Hl. simpl. naive_solver. }
  assert (∀ e x, heap s1 !! e = Some x ↔
    (e ≠ n ∧ heap s !! e = Some x) ∨ (e = n ∧ x = new_entry (r_name r))) as Hh.
  { intros e x. simpl. rewrite lookup_snoc_Some -/n. split.
    - intros [[? ?]|[? <-]]; [left; split; [lia|done]|by right].
    - intros [[? Hx]|[-> ->]]; [left|by right]. split; [by apply lookup_lt_Some in Hx|done]. }
  split.
  - intros c e. simpl. rewrite lookup_insert_Some. intros [[<- <-]|[_ Hc]].
    + exists (new_entry (r_name r)). split; [by apply Hh; right|done].
    + destruct (H1 c e Hc) as (x & Hx & <-). exists x. split; [apply Hh; left; eauto|done].
  - intros e [(Hlv & x & Hx & Hu)%H2|[Hlv ->]]%Ht; (split; [done|]).
    + exists x. split; [apply Hh; left; eauto|done].
    + eexists. split; [by apply Hh; right|done].
  - intros e j Hp [Hx|(_ & _ & ->)]%Hl; [by eapply H3|]. by apply (Htn n); [left|].
  - intros e j k [Hj|(_ & -> & ->)]%Hl [Hk|(_ & -> & Hx)]%Hl; [by eapply H4| | |done].
    + subst. by destruct (Htn n); [right; eauto|].
    + by destruct (Htn n); [right; eauto|].
  - intros e x [[_ Hx]|[_ ->]]%Hh Hlv; [by eapply H5|done].
  - intros c e x Hc [[Hne Hx]|[-> ->]]%Hh Hu Hlv; apply Ht; [left|right; done].
    simpl in Hc. apply lookup_insert_Some in Hc as [[_ <-]|[_ Hc]]; [done|]. by eapply H6.
  - intros e x [[_ Hx]|[_ ->]]%Hh Hu; [by eapply H7|done].
Qed.

(** The entry somebody was about to launch is launched. *)
Lemma launch_step_inv e s s' :
  launch_inv s → to_launch e s → live s' = true → table s' = table s →
  heap s' = heap (launch e s) → pending s' ⊆ pending s →
  (∀ j e', launches s' j e' → launches s j e') →
  (∀ e', to_launch e' s' ↔ to_launch e' s ∧ e' ≠ e) → launch_inv s'.
Proof.
  intros [H1 H2 H3 H4 H5 H6 H7] He Hlv Htb Hhp Hp Hl Ht.
  assert (∀ e' x, heap s' !! e' = Some x →
    (e' ≠ e ∧ heap s !! e' = Some x) ∨ (e' = e ∧ e_launched x = true ∧ ∃ y, heap s !! e = Some y ∧
       e_name x = e_name y)) as Hh.
  { rewrite Hhp. intros e' x [[? ?]|(<- & y & Hy & ->)]%lookup_alter_inv; [left; by split|right].
    simpl. eauto 10. }
  assert (∀ e' x, heap s !! e' = Some x → ∃ x', heap s' !! e' = Some x' ∧ e_name x' = e_name x ∧
            (e' ≠ e → x' = x)) as Hh'.
  { intros e' x Hx. rewrite Hhp. unfold launch, upd_entry. simpl.
    rewrite list_lookup_alter. case_decide as Hd; [subst|]; rewrite Hx; simpl; eexists; by split_and!. }
  split; rewrite ?Htb ?Hlv.
  - intros c e' (x & Hx & <-)%H1. destruct (Hh' e' x Hx) as (x' & ? & ? & _). eauto.
  - intros e' [(_ & x & Hx & Hu)%H2 Hne]%Ht. split; [done|].
    destruct (Hh' e' x Hx) as (x' & Hx' & _ & Heq). rewrite (Heq Hne) in Hx'. eauto.
  - intros e' j Hin Hj%Hl. eapply H3; [by apply Hp|done].
  - intros e' j k Hj%Hl Hk%Hl. by eapply H4.
  - done.
  - intros c e' x Hc [[Hne Hx]|(-> & Hx & _)]%Hh Hu _; [|congruence].
    apply Ht. split; [|done]. eapply H6; [done..|]. by apply H2 in He as [? _].
  - intros e' x [[Hne Hx]|(-> & Hx & _)]%Hh Hu; [by eapply H7|congruence].
Qed.

Lemma run_launch_inv i r e s :
  launch_inv s → runs s !! i = Some r → r_pc r = RLaunch e →
  launch_inv (set_pc i RDone (launch e s)).
Proof.
  intros Hinv Hi Hpc. assert (launches s i e) as Hie by (exists r; by split).
  assert (∀ j e', launches (set_pc i RDone (launch e s)) j e' ↔ j ≠ i ∧ launches s j e') as Hl.
  { intros j e'. rewrite (launches_set_pc _ _ (launch e s) _ _ r) //. split; [|by right].
    by intros [[_ ?]|?]. }
  pose proof Hinv as [H1 H2 H3 H4 H5 H6 H7].
  assert (to_launch e s) as Hte by (right; eauto).
  eapply (launch_step_inv e s); try done.
  - by destruct (H2 e Hte).
  - by intros j e' [_ ?]%Hl.
  - intros e'. unfold to_launch. setoid_rewrite Hl. simpl. split.
    + intros [Hp|(j & Hne & Hj)].
      * split; [by left|]. intros ->. by eapply (H3 e i).
      * split; [right; eauto|]. intros ->. by apply Hne, (H4 e).
    + intros [[Hp|(j & Hj)] Hne]; [by left|right]. exists j. split; [|done]. intros ->.
      destruct Hj as (q & Hq & Hqe). destruct Hie as (q' & Hq' & Hq'e). congruence.
Qed.

Lemma start_launch_inv e s s' : launch_inv s → start_launch e s = Some s' → launch_inv s'.
Proof.
  intros Hinv. unfold start_launch. case_decide as Hin; [|done]. intros [= <-].
  pose proof Hinv as [H1 H2 H3 H4 H5 H6 H7].
  eapply (launch_step_inv e s); try done; simpl; [by left|set_solver|].
  intros e'. unfold to_launch. simpl. rewrite elem_of_difference elem_of_singleton. split.
  - intros [[? ?]|(j & Hj)]; [auto|]. split; [by right; exists j|]. intros ->. by apply (H3 e j).
  - intros [[?|(j & Hj)] Hne]; [by left|right; by exists j].
Qed.

Lemma start_begin_inv s s' : launch_inv s → start_begin s = Some s' → launch_inv s'.
Proof.
  intros [H1 H2 H3 H4 H5 H6 H7]. unfold start_begin. destruct (live s) eqn:Hlv; [done|]. intros [= <-].
  assert (∀ i e, ¬ launches s i e) as Hno.
  { intros i e Hi. destruct (H2 e) as [? _]; [right; eauto|congruence]. }
  assert (∀ e, e ∈ (list_to_set (map_to_list (table s)).*2 : gset nat) ↔ ∃ c, table s !! c = Some e) as Hp.
  { intros e. rewrite elem_of_list_to_set list_elem_of_fmap. split.
    - intros ([c e'] & -> & Hc%elem_of_map_to_list). eauto.
    - intros [c Hc]. exists (c, e). split; [done|]. by apply elem_of_map_to_list. }
  split; simpl; try done.
  - intros e [Hin|[i Hi]]; [|by destruct (Hno i e)]. split; [done|]. simpl in Hin.
    apply Hp in Hin as [c (x & Hx & _)%H1]. eauto.
  - intros e i _. apply Hno.
  - intros c e x Hc Hx Hu _. left. simpl. apply Hp. eauto.
Qed.

Lemma run_step_launch i r ok s s' :
  launch_inv s → runs s !! i = Some r → run_step i r ok s = Some s' → launch_inv s'.
Proof.
  intros Hinv Hi. unfold run_step.
  assert (∀ pc s1, (∀ e, r_pc r ≠ RLaunch e) → (∀ e, pc ≠ RLaunch e) → launch_kept s s1 →
    runs s1 = runs s → launch_inv (set_pc i pc s1)) as Hmove.
  { intros pc s1 Hr Hpc Hk Hs1. eapply launch_inv_kept; [exact Hinv|].
    eapply kept_trans; [exact Hk|]. apply kept_frame; try done.
    intros j e. eapply launches_set_pc_other; [by rewrite Hs1|done..]. }
  assert (launch_kept s s) as Hrefl by (by apply kept_frame).
  destruct (r_pc r) as [| | |old|old| |e|] eqn:Epc; intros Hs.
  - simplify_eq. apply Hmove; [done| |done..]. by destruct ok; [|case_decide].
  - destruct ok; [|case_decide; simplify_eq; by apply Hmove].
    simplify_eq. eapply launch_inv_kept; [exact Hinv|]. apply kept_frame; try done.
    intros j e. unfold launches. simpl. split.
    + intros (q & [(<- & <- & _)|[? ?]]%list_lookup_insert_Some & Hq); [done|eauto].
    + intros (q & Hq & Hqe). exists q. split; [|done]. rewrite list_lookup_insert_ne //.
      intros ->. congruence.
  - destruct (table s !! r_name r) as [old|]; simplify_eq; [by apply Hmove|].
    apply insert_entry_launch; [done..|]. intros e. by rewrite Epc.
  - simplify_eq. apply Hmove; [done..|apply kept_stop_cancel|done].
  - destruct (entry_drained old s); simplify_eq. by apply Hmove.
  - simplify_eq. apply insert_entry_launch; [done..|]. intros e. by rewrite Epc.
  - simplify_eq. by eapply run_launch_inv.
  - done.
Qed.

Lemma step_launch l s s' : launch_inv s → step l s = Some s' → launch_inv s'.
Proof.
  intros Hinv Hs. destruct l; simpl in Hs.
  - destruct (handler s); try done. simplify_eq. eapply launch_inv_kept; [done|].
    rewrite Handle_cases. destruct (wants_event ev); [apply ensure_kept|].
    unfold drop. destruct (spokes s !! _); by apply kept_frame.
  - eapply launch_inv_kept; [done|by apply handler_step_kept].
  - destruct (runs s !! i) as [r|] eqn:E; [|done]. by eapply run_step_launch.
  - by eapply start_begin_inv.
  - by eapply start_launch_inv.
  - eapply launch_inv_kept; [done|by eapply (entry_step_kept (Probe e err now built))].
  - eapply launch_inv_kept; [done|by eapply (entry_step_kept (LoopExit e))].
  - eapply launch_inv_kept; [done|by eapply (entry_step_kept (RuntimeExit e failed))].
Qed.

Lemma reaches_launch ls s : reaches ls s → launch_inv s.
Proof.
  induction 1 as [|ls l s s' Hr IH Hs]; [|by eapply step_launch].
  assert (∀ e, ¬ to_launch e init) as Hno.
  { intros e [?|(i & r & ? & _)]; set_solver. }
  split; simpl; try done; [by intros e He; destruct (Hno e)|].
  intros e i j He. destruct (Hno e). right. eauto.
Qed.

(** ** What is left running *)

(** Between the last network call of a bootstrap and the end of [Register]. *)
Definition registering (pc : run_pc) : Prop :=
  match pc with RTry | RWait | RDone => False | _ => True end.

(** No cancelled bootstrap is inside [Register], and [Start] has nothing left to
    launch that is not registered any more. *)
Definition quiet (s : sys) : Prop :=
  (∀ i r, runs s !! i = Some r → i ∈ cancelled s → ¬ registering (r_pc r)) ∧
  (∀ e, e ∈ pending s → ∃ c, table s !! c = Some e).

(** Every state on the way was quiet. *)
Inductive calm : list label → sys → Prop :=
  | calm_init : calm [] init
  | calm_step ls l s s' : calm ls s → step l s = Some s' → quiet s' → calm (l :: ls) s'.

(** The lifecycle or the runtime of the entry runs. *)
Definition active (x : entry) : Prop := looping x = true ∨ e_running x = true.

Definition owner (c : string) (s : sys) : Prop :=
  (∃ i r, (spokes s !! c = Some i ∨ handler s = HCancel i c) ∧ runs s !! i = Some r ∧
          finished (r_pc r)) ∨
  handler s = HDeregister c.

Definition stopping (e : nat) (c : string) (h : handler_pc) : Prop := h = HStop e c ∨ h = HDrain e c.

Record owned (s : sys) : Prop := {
  ow_table c e : table s !! c = Some e → owner c s;
  ow_active e x : heap s !! e = Some x → active x →
    table s !! e_name x = Some e ∨ stopping e (e_name x) (handler s);
  ow_launch i e r : runs s !! i = Some r → r_pc r = RLaunch e → table s !! r_name r = Some e;
  ow_direct i r : runs s !! i = Some r →
    match r_pc r with RStop _ | RDrain _ | RInsert => False | _ => True end;
  ow_stopping e c : stopping e c (handler s) → ∃ x, heap s !! e = Some x ∧ e_name x = c;
}.

Lemma calm_reaches ls s : calm ls s → reaches ls s ∧ quiet s.
Proof.
  induction 1 as [|ls l s s' _ [IH _] Hs Hq]; [|split; [by econstructor|done]].
  split; [constructor|]. split; [done|]. set_solver.
Qed.

(** A run inside [Register] is the only one of its cluster that is not cancelled. *)
Lemma registering_run ls s i r :
  wirer_inv ls s → quiet s → runs s !! i = Some r → registering (r_pc r) →
  i ∉ cancelled s ∧ (spokes s !! r_name r = Some i ∨ handler s = HCancel i (r_name r)).
Proof.
  intros Hw [Hq _] Hi Hr. assert (i ∉ cancelled s) as Hc by (intros Hc; by apply (Hq i r Hi Hc)).
  split; [done|]. by apply (wi_run _ _ Hw).
Qed.

Lemma registering_unique ls s i j r q :
  wirer_inv ls s → quiet s → runs s !! i = Some r → runs s !! j = Some q → registering (r_pc r) →
  r_name q = r_name r → spokes s !! r_name r = Some j ∨ handler s = HCancel j (r_name r) → i = j.
Proof.
  intros Hw Hq Hi Hj Hr Hn Ho. destruct (registering_run ls s i r Hw Hq Hi Hr) as [_ Hio].
  assert (∀ k, spokes s !! r_name r = Some k → ∀ k', handler s ≠ HCancel k' (r_name r)) as Hx.
  { intros k Hk k' Hh. destruct (wi_spoke _ _ Hw _ _ Hk) as (_ & _ & Hd). by rewrite Hh in Hd. }
  destruct Hio as [H1|H1], Ho as [H2|H2]; try congruence; by destruct (Hx _ ltac:(eassumption) _ H1) ||
    by destruct (Hx _ ltac:(eassumption) _ H2).
Qed.

(** A bootstrap of a calm execution finds nothing registered for its cluster. *)
Lemma register_free ls s i r :
  wirer_inv ls s → quiet s → owned s → runs s !! i = Some r → r_pc r = RRegister →
  table s !! r_name r = None.
Proof.
  intros Hw Hq Ho Hi Hpc. destruct (table s !! r_name r) as [e|] eqn:E; [|done]. exfalso.
  destruct (registering_run ls s i r Hw Hq Hi) as [_ Hio]; [by rewrite Hpc|].
  destruct (ow_table _ Ho _ _ E) as [(j & q & Hj & Hq' & Hf)|Hh].
  - assert (r_name q = r_name r) as Hn.
    { destruct Hj as [Hj|Hj].
      - destruct (wi_spoke _ _ Hw _ _ Hj) as ((q' & Hq1 & Hq2 & _) & _). congruence.
      - destruct (wi_handler _ _ Hw _ _ Hj) as (q' & Hq1 & Hq2). congruence. }
    assert (i = j) as -> by (eapply registering_unique; try done; by rewrite Hpc).
    assert (q = r) as -> by congruence. by rewrite Hpc in Hf.
  - destruct Hio as [Hs|Hs]; [|congruence].
    destruct (wi_spoke _ _ Hw _ _ Hs) as (_ & _ & Hd). by rewrite Hh in Hd.
Qed.

(** Steps that leave the spokes, the event goroutine and the table alone. *)
Record owned_kept (s s' : sys) : Prop := {
  ok_spokes : spokes s' = spokes s;
  ok_handler : handler s' = handler s;
  ok_table : table s' = table s;
  ok_runs j r : runs s !! j = Some r → ∃ r', runs s' !! j = Some r' ∧ r_name r' = r_name r ∧
    (finished (r_pc r) → finished (r_pc r'));
  ok_run j r' : runs s' !! j = Some r' → ∃ r, runs s !! j = Some r ∧ r_name r' = r_name r ∧
    (∀ e, r_pc r' = RLaunch e → r_pc r = RLaunch e) ∧
    match r_pc r' with RStop _ | RDrain _ | RInsert => False | _ => True end;
  ok_heap e x' : heap s' !! e = Some x' → ∃ x, heap s !! e = Some x ∧ e_name x' = e_name x ∧
    (active x' → active x ∨ table s !! e_name x = Some e);
  ok_entry e x : heap s !! e = Some x → ∃ x', heap s' !! e = Some x' ∧ e_name x' = e_name x;
}.

Lemma owned_inv_kept s s' : owned s → owned_kept s s' → owned s'.
Proof.
  intros [H1 H2 H3 H4 H5] [K1 K2 K3 K4 K5 K6 K7]. split; rewrite ?K2 ?K3.
  - intros c e Hc. unfold owner. rewrite K1 K2.
    destruct (H1 c e Hc) as [(i & r & Hi & Hr & Hf)|?]; [left|by right].
    destruct (K4 i r Hr) as (r' & ? & _ & Hf'). eauto 6.
  - intros e x' (x & Hx & -> & Ha)%K6 Hx'. destruct (Ha Hx'); [by apply H2|by left].
  - intros i e r' (r & Hr & -> & Hl & _)%K5 Hpc. eapply H3; eauto.
  - intros i r' (r & _ & _ & _ & Hd)%K5. done.
  - intros e c (x & Hx & <-)%H5. by apply K7.
Qed.

(** Only the entry [e] changes. *)
Lemma owned_kept_upd e f s :
  owned s →
  (∀ x, heap s !! e = Some x → e_name (f x) = e_name x ∧
        (active (f x) → active x ∨ table s !! e_name x = Some e)) →
  owned_kept s (upd_entry e f s).
Proof.
  intros Ho Hf. split; simpl; try done.
  - eauto.
  - intros j r Hr. exists r. split_and!; [done..|]. by apply (ow_direct _ Ho j).
  - intros e' x' [[_ Hx]|(<- & x & Hx & ->)]%lookup_alter_inv; [eauto 10|].
    exists x. by destruct (Hf x Hx).
  - intros e' x Hx. rewrite list_lookup_alter. case_decide as Hd; [subst; rewrite Hx; simpl|eauto].
    eexists. split; [done|]. by destruct (Hf x Hx).
Qed.

(** Only run [i] moves. *)
Lemma owned_kept_pc i r r' s :
  owned s → runs s !! i = Some r → r_name r' = r_name r → (finished (r_pc r) → finished (r_pc r')) →
  match r_pc r' with RStop _ | RDrain _ | RInsert | RLaunch _ => False | _ => True end →
  owned_kept s (set_runs (<[i := r']> (runs s)) s).
Proof.
  intros Ho Hi Hn Hf Hpc. assert (i < length (runs s))%nat as Hlt by (by eapply lookup_lt_Some).
  split; simpl; try done.
  - intros j q Hq. destruct (decide (i = j)) as [<-|Hne].
    + exists r'. rewrite list_lookup_insert_eq //. assert (q = r) as -> by congruence. done.
    + exists q. by rewrite list_lookup_insert_ne.
  - intros j q [(<- & <- & _)|[Hne Hq]]%list_lookup_insert_Some.
    + exists r. split_and!; [done..|by intros e He; rewrite He in Hpc|]. by destruct (r_pc r').
    + exists q. split_and!; [done..|]. by apply (ow_direct _ Ho j).
  - eauto.
  - eauto.
Qed.

Lemma set_pc_insert i pc r s :
  runs s !! i = Some r →
  set_pc i pc s = set_runs (<[i := {| r_name := r_name r; r_pc := pc; r_delay := r_delay r |}]> (runs s)) s.
Proof.
  intros Hi. unfold set_pc. f_equal. apply list_eq. intros j. rewrite list_lookup_alter.
  case_decide as Hd.
  - subst. rewrite Hi list_lookup_insert_eq //. by eapply lookup_lt_Some.
  - by rewrite list_lookup_insert_ne.
Qed.

Lemma insert_owned ls s i r :
  wirer_inv ls s → quiet s → owned s → runs s !! i = Some r → r_pc r = RRegister →
  owned (insert_entry i (r_name r) s).
Proof.
  intros Hw Hq Ho Hi Hpc. pose proof (register_free ls s i r Hw Hq Ho Hi Hpc) as Hfree.
  destruct (registering_run ls s i r Hw Hq Hi) as [_ Hio]; [by rewrite Hpc|].
  destruct Ho as [H1 H2 H3 H4 H5]. unfold insert_entry. rewrite (set_pc_insert i _ r) //.
  set (n := length (heap s)). set (pc := if live s then RLaunch n else RDone).
  assert (finished pc) as Hfin by (unfold pc; by destruct (live s)).
  assert (i < length (runs s))%nat as Hlt by (by eapply lookup_lt_Some).
  split; simpl.
  - intros c e. rewrite lookup_insert_Some. unfold owner; simpl. intros [[<- _]|[Hne Hc]].
    + left. exists i. rewrite list_lookup_insert_eq //. eauto.
    + destruct (H1 c e Hc) as [(j & q & Hj & Hq' & Hf)|?]; [left|by right].
      exists j, q. split_and!; [done| |done]. rewrite list_lookup_insert_ne //. intros <-.
      assert (q = r) as -> by congruence. by rewrite Hpc in Hf.
  - intros e x [[_ Hx]|[_ <-]]%lookup_snoc_Some Ha; [|by destruct Ha].
    destruct (H2 e x Hx Ha) as [Ht|?]; [left|by right]. rewrite lookup_insert_ne //. congruence.
  - intros j e q [(<- & <- & _)|[Hne Hq']]%list_lookup_insert_Some Hl.
    + simpl in *. rewrite lookup_insert_eq. unfold pc in Hl. destruct (live s); congruence.
    + pose proof (H3 j e q Hq' Hl). rewrite lookup_insert_ne //. congruence.
  - intros j q [(<- & <- & _)|[Hne Hq']]%list_lookup_insert_Some; [|by apply (H4 j)].
    simpl. unfold pc. by destruct (live s).
  - intros e c (x & Hx & Hn)%H5. exists x. split; [|done]. by apply lookup_app_l_Some.
Qed.

Lemma run_step_owned ls i r ok s s' :
  wirer_inv ls s → launch_inv s → quiet s → owned s → runs s !! i = Some r →
  run_step i r ok s = Some s' → owned s'.
Proof.
  intros Hw Hli Hq Ho Hi. unfold run_step. pose proof (ow_direct _ Ho i r Hi) as Hd.
  destruct (r_pc r) as [| | |old|old| |e|] eqn:Epc; intros Hs; try done.
  - simplify_eq. rewrite (set_pc_insert i _ r) //. eapply owned_inv_kept; [done|].
    eapply owned_kept_pc; [done..|by rewrite Epc|]. simpl. by destruct ok; [|case_decide].
  - assert (∀ d, owned (set_runs (<[i := {| r_name := r_name r; r_pc := RTry; r_delay := d |}]>
              (runs s)) s)) as Hgo.
    { intros d. eapply owned_inv_kept; [done|]. eapply owned_kept_pc; [done..|by rewrite Epc|done]. }
    destruct ok; [simplify_eq; by apply Hgo|]. case_decide; simplify_eq.
    rewrite (set_pc_insert i _ r) //. eapply owned_inv_kept; [done|].
    eapply owned_kept_pc; [done..|by rewrite Epc|done].
  - rewrite (register_free ls s i r) // in Hs. simplify_eq. by eapply insert_owned.
  - simplify_eq. rewrite (set_pc_insert i _ r) //.
    assert (owned (launch e s)) as Ho'.
    { eapply owned_inv_kept; [done|]. apply owned_kept_upd; [done|]. intros x Hx.
      split; [done|]. intros _. right. pose proof (ow_launch _ Ho i e r Hi Epc) as Ht.
      destruct (li_table _ Hli _ _ Ht) as (y & Hy & Hn). congruence. }
    eapply owned_inv_kept; [exact Ho'|]. by eapply owned_kept_pc; [done..| |].
Qed.

(** The steps of the event goroutine leave runs and entries where they are, but
    for [stopEntry]'s cancellation, which stops nothing by itself. *)
Lemma stop_cancel_owned e s : owned s → owned (stop_cancel e s).
Proof.
  intros Ho. eapply owned_inv_kept; [done|]. apply owned_kept_upd; [done|].
  intros x _. split; [done|]. by left.
Qed.

Lemma set_handler_owned h s :
  owned s → (∀ c, owner c s → is_Some (table s !! c) → owner c (set_handler h s)) →
  (∀ e x, heap s !! e = Some x → active x → stopping e (e_name x) (handler s) → stopping e (e_name x) h) →
  (∀ e c, stopping e c h → ∃ x, heap s !! e = Some x ∧ e_name x = c) → owned (set_handler h s).
Proof.
  intros [H1 H2 H3 H4 H5] Hown Hst Hh. split; simpl; try done.
  - intros c e Hc. eauto.
  - intros e x Hx Ha. destruct (H2 e x Hx Ha); [by left|right; eauto].
Qed.

(** [Deregister] takes the entry out of the table. *)
Lemma remove_owned ls c e s :
  wirer_inv ls s → launch_inv s → quiet s → owned s → handler s = HDeregister c →
  table s !! c = Some e →
  owned (set_handler (HStop e c) (set_table (delete c (table s)) s)).
Proof.
  intros Hw Hli Hq [H1 H2 H3 H4 H5] Eh Ec. destruct (li_table _ Hli _ _ Ec) as (x0 & Hx0 & Hn0).
  assert (∀ i, spokes s !! c ≠ Some i) as Hno.
  { intros i Hs. destruct (wi_spoke _ _ Hw _ _ Hs) as (_ & _ & Hd). by rewrite Eh in Hd. }
  split; simpl; try done.
  - intros c' e' [Hne Hc]%lookup_delete_Some.
    destruct (H1 c' e' Hc) as [(i & r & [Hs|Hh] & Hr & Hf)|Hh]; [|congruence..].
    left. exists i, r. split_and!; [by left|done..].
  - intros e' x Hx Ha. destruct (H2 e' x Hx Ha) as [Ht|[Ht|Ht]]; [|congruence..].
    destruct (decide (e_name x = c)) as [<-|Hne].
    + right. left. congruence.
    + left. by rewrite lookup_delete_ne.
  - intros i e' r Hi Hl. pose proof (H3 i e' r Hi Hl) as Ht. rewrite lookup_delete_ne //. intros Hn.
    destruct (registering_run ls s i r Hw Hq Hi) as [_ [Hs|Hs]]; [by rewrite Hl| |congruence].
    rewrite -Hn in Hs. by apply (Hno i).
  - intros e' c' [Hs|Hs]; simplify_eq. eauto.
Qed.

Lemma handler_step_owned ls s s' :
  wirer_inv ls s → launch_inv s → quiet s → owned s → handler_step s = Some s' → owned s'.
Proof.
  intros Hw Hli Hq Ho. unfold handler_step. intros Hs.
  destruct (handler s) as [|i c|c|e c|e c|c] eqn:Eh; simplify_eq.
  - assert (owned (cancel_run i s)) as Ho' by (by destruct Ho).
    apply (set_handler_owned _ _ Ho'); simpl.
    + intros c' [(j & r & [Hs|Hh] & Hr & Hf)|Hh] _; simpl in *; [|right; simpl; congruence..].
      left. exists j, r. split_and!; [by left|done..].
    + intros e x _ _ [Hx|Hx]; congruence.
    + by intros e c' [].
  - destruct (table s !! c) as [e|] eqn:Ec; simplify_eq; [by eapply remove_owned|].
    apply (set_handler_owned _ _ Ho).
    + intros c' [(j & r & [Hs|Hh] & Hr & Hf)|Hh] [e He]; simpl in *; [|congruence..].
      left. exists j, r. split_and!; [by left|done..].
    + intros e x _ _ [Hx|Hx]; congruence.
    + by intros e c' [].
  - apply (set_handler_owned _ _ (stop_cancel_owned e s Ho)); simpl.
    + intros c' [(j & r & [Hs|Hh] & Hr & Hf)|Hh] _; simpl in *; [|congruence..].
      left. exists j, r. split_and!; [by left|done..].
    + intros e' x _ _ [Hx|Hx]; [right|]; simpl in *; congruence.
    + intros e' c' [Hx|Hx]; simplify_eq.
      apply (ow_stopping _ (stop_cancel_owned e' s Ho)). by left.
  - unfold entry_drained in Hs. destruct (heap s !! e) as [y|] eqn:Ey; [|done].
    destruct (drained y) eqn:Edr; simplify_eq. apply (set_handler_owned _ _ Ho).
    + intros c' [(j & r & [Hs|Hh] & Hr & Hf)|Hh] _; simpl in *; [|congruence..].
      left. exists j, r. split_and!; [by left|done..].
    + intros e' x Hx Ha [Hh|Hh]; [congruence|]. assert (x = y) as -> by congruence.
      unfold drained in Edr. destruct Ha as [Ha|Ha]; rewrite ?Ha in Edr; unfold looping in *;
        by destruct (e_launched y), (e_exited y), (e_running y).
    + by intros e' c' [].
  - apply (set_handler_owned HIdle (fire_gone c s)); [by destruct Ho|..]; simpl.
    + intros c' [(j & r & [Hs|Hh] & Hr & Hf)|Hh] _; simpl in *; [|congruence..].
      left. exists j, r. split_and!; [by left|done..].
    + intros e x _ _ [Hx|Hx]; congruence.
    + by intros e c' [].
Qed.

Lemma event_owned ls ev s :
  wirer_inv ls s → owned s → handler s = HIdle → owned (Handle ev s).
Proof.
  intros Hw [H1 H2 H3 H4 H5] Eh. rewrite Handle_cases. set (c := cl_Name (ev_Record ev)).
  destruct (wants_event ev).
  - unfold ensure. destruct (spokes s !! c) as [i|] eqn:E; [done|]. split; simpl; try done.
    + intros c' e Hc. destruct (H1 c' e Hc) as [(i & r & [Hs|Hh] & Hr & Hf)|Hh]; [|congruence..].
      left. exists i, r. simpl. split_and!; [left|by apply lookup_app_l_Some|done].
      rewrite lookup_insert_ne //. congruence.
    + intros i e r [[_ Hr]|[_ <-]]%lookup_snoc_Some; [by apply (H3 i)|done].
    + intros i r [[_ Hr]|[_ <-]]%lookup_snoc_Some; [by apply (H4 i)|done].
  - assert (∀ h, (∀ i, spokes s !! c = Some i → h = HCancel i c) → (∀ e n, ¬ stopping e n h) →
              owned (set_handler h (set_spokes (delete c (spokes s)) s))) as Hgo.
    { intros h Hh Hst. split; simpl; try done.
      - intros c' e Hc. destruct (H1 c' e Hc) as [(i & r & [Hs|Hx] & Hr & Hf)|Hx]; [|congruence..].
        left. exists i, r. simpl. split_and!; [|done..]. destruct (decide (c' = c)) as [->|Hne].
        + right. by apply Hh.
        + left. by rewrite lookup_delete_ne.
      - intros e x Hx Ha. destruct (H2 e x Hx Ha) as [?|[Hs|Hs]]; [by left|congruence..].
      - intros e n Hs. by destruct (Hst e n). }
    unfold drop. destruct (spokes s !! c) as [i|] eqn:E; apply Hgo; try congruence; by intros e n [].
Qed.

Lemma entry_active s e (f : entry → entry) :
  owned s → (∀ x, heap s !! e = Some x → e_name (f x) = e_name x ∧ (active (f x) → active x)) →
  owned (upd_entry e f s).
Proof.
  intros Ho Hf. eapply owned_inv_kept; [done|]. apply owned_kept_upd; [done|].
  intros x Hx. destruct (Hf x Hx). auto.
Qed.

Lemma set_live_owned p s : owned s → owned (set_live p s).
Proof. by intros []. Qed.

Lemma step_owned ls l s s' :
  wirer_inv ls s → launch_inv s → quiet s → owned s → step l s = Some s' → owned s'.
Proof.
  intros Hw Hli Hq Ho Hs. destruct l; simpl in Hs.
  - destruct (handler s) eqn:Eh; try done. simplify_eq. by eapply event_owned.
  - by eapply handler_step_owned.
  - destruct (runs s !! i) as [r|] eqn:E; [|done]. by eapply run_step_owned.
  - unfold start_begin in Hs. destruct (live s); simplify_eq. by apply set_live_owned.
  - unfold start_launch in Hs. case_decide as Hin; simplify_eq.
    pose proof (set_live_owned (pending s ∖ {[e]}) s Ho) as Ho'.
    eapply owned_inv_kept; [exact Ho'|]. apply owned_kept_upd; [done|]. intros x Hx.
    split; [done|]. intros _. right. destruct (proj2 Hq e Hin) as [c Hc].
    destruct (li_table _ Hli _ _ Hc) as (y & Hy & Hn). simpl in *. congruence.
  - unfold probe_step in Hs. destruct (heap s !! e) as [x|] eqn:Ex; [|done].
    destruct (looping x) eqn:El; simplify_eq. apply entry_active; [done|]. intros y Hy.
    assert (y = x) as -> by congruence. split; [by destruct (e_cancelled x)|by left].
  - unfold exit_step in Hs. destruct (heap s !! e) as [x|] eqn:Ex; [|done].
    destruct (looping x && e_cancelled x) eqn:El; simplify_eq. apply entry_active; [done|].
    intros y Hy. assert (y = x) as -> by congruence. split; [done|].
    apply andb_prop in El as [El _]. by left.
  - unfold runtime_step in Hs. destruct (heap s !! e) as [x|] eqn:Ex; [|done].
    destruct (e_running x) eqn:El; simplify_eq. apply entry_active; [done|].
    intros y Hy. assert (y = x) as -> by congruence. split; [done|]. by right.
Qed.

Lemma calm_owned ls s : calm ls s → owned s.
Proof.
  induction 1 as [|ls l s s' Hc IH Hs Hq].
  { split; simpl; try done. by intros e c []. }
  destruct (calm_reaches _ _ Hc) as [Hr Hq']. eapply step_owned; [..|exact Hs]; try done.
  - by apply reaches_wirer.
  - by eapply reaches_launch.
Qed.

(** *** Checking an execution *)

Definition registeringb (pc : run_pc) : bool :=
  match pc with RTry | RWait | RDone => false | _ => true end.

Definition quietb (s : sys) : bool :=
  forallb (λ ir, negb (bool_decide (ir.1 ∈ cancelled s) && registeringb (r_pc ir.2)))
    (imap pair (runs s))
  && forallb (λ e, bool_decide (e ∈ (map_to_list (table s)).*2)) (elements (pending s)).

Lemma quietb_quiet s : quietb s = true → quiet s.
Proof.
  unfold quietb. intros [H1 H2]%andb_prop. rewrite !List.forallb_forall in H1, H2. split.
  - intros i r Hi Hc Hr. specialize (H1 (i, r)). simpl in H1. rewrite bool_decide_true // in H1.
    assert (registeringb (r_pc r) = true) as Hb by (by destruct (r_pc r)). rewrite Hb in H1.
    assert (negb (true && true) = true); [apply H1|done]. apply list_elem_of_In, elem_of_lookup_imap. eauto.
  - intros e He. specialize (H2 e). rewrite bool_decide_eq_true in H2.
    assert (e ∈ (map_to_list (table s)).*2) as Hin
      by (apply H2, list_elem_of_In; by rewrite elem_of_elements).
    apply list_elem_of_fmap in Hin as ([c e'] & -> & Hc%elem_of_map_to_list). eauto.
Qed.

Fixpoint exec_quiet (ls : list label) (s : sys) : option sys :=
  match ls with
  | [] => Some s
  | l :: ls' => match step l s with
                | Some s' => if quietb s' then exec_quiet ls' s' else None
                | None => None
                end
  end.

Lemma exec_calm ls past s s' : calm past s → exec_quiet ls s = Some s' → calm (rev ls ++ past) s'.
Proof.
  revert past s. induction ls as [|l ls IH]; intros past s Hr; simpl; [by intros [= <-]|].
  destruct (step l s) as [s1|] eqn:E; [|done]. destruct (quietb s1) eqn:Eq; [|done].
  intros H. rewrite -app_assoc. apply (IH (l :: past) s1); [|done].
  econstructor; [done..|by apply quietb_quiet].
Qed.

(** ** Properties *)

(** The events delivered so far, in order. *)
Fixpoint delivered (ls : list label) : list DiscoveryEvent :=
  match ls with
  | [] => []
  | Event ev :: ls' => delivered ls' ++ [ev]
  | _ :: ls' => delivered ls'
  end.

Lemma wants_view ls c :
  wants ls c = match view_of (delivered ls) !! c with Some r => cl_Ready r | None => false end.
Proof.
  induction ls as [|l ls IH]; [done|]. destruct l; simpl; try done.
  rewrite view_snoc. unfold apply_event. destruct (ev_Type ev); case_decide as Hc; subst;
    rewrite ?lookup_insert_eq ?lookup_delete_eq ?lookup_insert_ne ?lookup_delete_ne //.
Qed.

(** C8. Under every interleaving of event delivery, bootstraps, the manager and
    its goroutines, the wirer's spokes are exactly the Clusters that exist and whose
    control plane is ready, given the informer notifications that led to the events
    delivered so far. Each has exactly one bootstrap that is not cancelled, which
    retries within five seconds to five minutes, and once it is done the cluster is
    registered with the manager; outside the handling of an event no other bootstrap
    is left uncancelled. *)
Theorem spokes_are_the_ready_clusters `{UnstructuredAPI} `{NestedAPI} ns ls s
    (Hu : unique_names ns) (Hr : reaches ls s) (Hd : delivered ls = (notify_all ns capi_New).1) :
  (∀ c, is_Some (spokes s !! c) ↔
        ∃ k u, fleet ns !! k = Some u ∧ GetName u = c ∧ controlPlaneReady u = true) ∧
  (∀ c i, spokes s !! c = Some i → ∃ r, runs s !! i = Some r ∧ r_name r = c ∧ i ∉ cancelled s ∧
     (run_baseDelay ≤ r_delay r ≤ run_maxDelay)%Z ∧
     (r_pc r = RDone → is_Some (table s !! c))) ∧
  (∀ i r, runs s !! i = Some r → i ∉ cancelled s → handler s = HIdle →
     spokes s !! r_name r = Some i).
Proof.
  pose proof (reaches_wirer _ _ Hr) as [H1 H2 H3 H4 H5 H6]. split_and!.
  - destruct (in_sync_all ns Hu) as [HR HK HV HP]. intros c. rewrite H1 wants_view Hd.
    assert (∀ k r u, records (notify_all ns capi_New).2 !! k = Some r → fleet ns !! k = Some u →
              cl_Name r = GetName u ∧ cl_Ready r = controlPlaneReady u) as Hru.
    { intros k r u Hk Hf. specialize (HR k). rewrite Hk Hf in HR.
      by apply recordsEqual_spec in HR as (? & ? & _). }
    split.
    + destruct (view_of _ !! c) as [r|] eqn:Ev; [|done]. intros Hrdy.
      apply HV in Ev as (k & Hk & <-). pose proof (HR k) as HRk. rewrite Hk in HRk.
      destruct (fleet ns !! k) as [u|] eqn:E; [|done]. destruct (Hru k r u Hk E) as [Hn Hready].
      exists k, u. split_and!; congruence.
    + intros (k & u & Hf & <- & Hc). pose proof (HR k) as HRk. rewrite Hf in HRk.
      destruct (records _ !! k) as [r|] eqn:E; [|done]. destruct (Hru k r u E Hf) as [Hn Hready].
      rewrite (proj2 (HV (GetName u) r)); [|congruence]. exists k. by split.
  - intros c i Hc. destruct (H2 c i Hc) as ((r & Hi & Hn & Hf) & Hcc & _). exists r.
    destruct (H4 i r Hi). split_and!; try done. intros Hpc. apply Hf. by rewrite Hpc.
  - intros i r Hi Hc Hh. destruct (H3 i r Hi Hc) as [?|Hx]; [done|congruence].
Qed.

(** Under every interleaving an entry of the cluster manager is launched at
    most once, so its [done] channel is closed once: what is about to be launched, by
    [Start] or at the end of a [Register], is a single goroutine's task and no
    goroutine of that entry has run. And nothing is forgotten: when the manager is
    live, a registered entry that was not launched is about to be. *)
Theorem entries_launched_once ls s (Hr : reaches ls s) :
  (∀ e, to_launch e s → live s = true ∧ ∃ x, heap s !! e = Some x ∧ untouched x) ∧
  (∀ e i, e ∈ pending s → ¬ launches s i e) ∧
  (∀ e i j, launches s i e → launches s j e → i = j) ∧
  (∀ c e, table s !! c = Some e → ∃ x, heap s !! e = Some x ∧ e_name x = c ∧
     (live s = true → e_launched x = true ∨ to_launch e s)).
Proof.
  pose proof (reaches_launch _ _ Hr) as [H1 H2 H3 H4 H5 H6 H7]. split_and!; [|done..|].
  - intros e (Hl & x & Hx & Hu)%H2. split; [done|]. exists x. split; [done|]. by eapply H7.
  - intros c e Hc. destruct (H1 c e Hc) as (x & Hx & Hn). exists x. split_and!; [done..|].
    intros Hl. destruct (e_launched x) eqn:E; [by left|right]. by eapply H6.
Qed.

(** C17. In a calm execution (no bootstrap is past its last network call when its
    cluster is dropped, and [Start] does not race with a removal) nothing is left
    behind: outside the handling of an event, every lifecycle or runtime that runs
    belongs to the registered entry of its cluster, that cluster is one the latest
    event says is ready, and its bootstrap is done or at its launch. The branch of
    [Register] that replaces an entry is never taken. *)
Theorem calm_leaves_nothing_behind ls s (Hc : calm ls s) :
  (handler s = HIdle → ∀ e x, heap s !! e = Some x → active x → table s !! e_name x = Some e) ∧
  (handler s = HIdle → ∀ c e, table s !! c = Some e → wants ls c = true ∧
     ∃ i r, spokes s !! c = Some i ∧ runs s !! i = Some r ∧ finished (r_pc r)) ∧
  (∀ i r, runs s !! i = Some r →
     match r_pc r with RStop _ | RDrain _ | RInsert => False | _ => True end).
Proof.
  destruct (calm_reaches _ _ Hc) as [Hr _]. pose proof (reaches_wirer _ _ Hr) as Hw.
  destruct (calm_owned _ _ Hc) as [H1 H2 H3 H4 H5]. split_and!; [| |done].
  - intros Hh e x Hx Ha. destruct (H2 e x Hx Ha) as [?|[Hs|Hs]]; [done|congruence..].
  - intros Hh c e He. destruct (H1 c e He) as [(i & r & [Hs|Hs] & Hi & Hf)|Hs]; [|congruence..].
    split; [apply (wi_wants _ _ Hw); eauto|eauto].
Qed.
End manager.

(** ** Concrete executions *)

Definition ex_ref : CredentialRef := {| cr_Namespace := "fleet"; cr_Name := "eu-1-kubeconfig" |}.
Definition ex_record (ready : bool) : ClusterRecord :=
  {| cl_Name := "eu-1"; cl_Labels := ∅; cl_Ready := ready; cl_CredentialRef := ex_ref |}.
Definition ex_event (t : EventType) (ready : bool) : label :=
  Event {| ev_Type := t; ev_Record := ex_record ready |}.

(** A cluster becomes ready, fails its first bootstrap, is bootstrapped and probed,
    and is dropped. *)
Definition ex_life : list label :=
  [StartManager; ex_event EventRegister false; Handler; ex_event EventUpdate true;
   Run 0 false; Run 0 true; Run 0 true; Run 0 true; Run 0 true; Probe 0 None 1 true].

Definition ex_drop : list label :=
  [ex_event EventDeregister false; Handler; Handler; Handler; LoopExit 0; RuntimeExit 0 true;
   Handler; Handler].

Definition summary (s : sys) : list string * list string * list (string * bool * bool) * list string :=
  ((map_to_list (spokes s)).*1, (map_to_list (table s)).*1,
   map (λ x, (e_name x, looping x, e_running x)) (heap s), gone s).

Example life_ex :
  option_map summary (exec defaults ex_life init) =
  Some (["eu-1"], ["eu-1"], [("eu-1", true, true)], []) ∧
  option_map summary (exec defaults (ex_life ++ ex_drop) init) =
  Some ([], [], [("eu-1", false, false)], ["eu-1"]).
Proof. split; vm_compute; reflexivity. Qed.

(** The cluster is dropped while its bootstrap stands between the last network
    call and [Register]: the removal finds nothing, the registration follows, and
    the runtime of a cluster that is gone runs on. *)
Definition ex_race : list label :=
  [StartManager; ex_event EventRegister true; Run 0 true; ex_event EventDeregister false;
   Handler; Handler; Run 0 true; Run 0 true; Probe 0 None 1 true].

Example leaked_runtime :
  option_map summary (exec defaults ex_race init) = Some ([], ["eu-1"], [("eu-1", true, true)], []) ∧
  option_map handler (exec defaults ex_race init) = Some HIdle ∧
  wants (rev ex_race) "eu-1" = false.
Proof. split_and!; vm_compute; reflexivity. Qed.

(** The race is not calm. *)
Example race_not_calm : exec_quiet defaults ex_race init = None.
Proof. vm_compute. reflexivity. Qed.

(** The final state of an execution that is not stuck. *)
Definition final (o : option sys) : sys := match o with Some s => s | None => init end.

Lemma final_reaches cfg ls :
  match exec cfg ls init with Some _ => true | None => false end = true →
  reaches cfg (rev ls) (final (exec cfg ls init)).
Proof.
  destruct (exec cfg ls init) as [s|] eqn:E; [|done]. intros _. rewrite -(app_nil_r (rev ls)).
  eapply exec_reaches; [constructor|done].
Qed.

Lemma final_calm cfg ls :
  match exec_quiet cfg ls init with Some _ => true | None => false end = true →
  calm cfg (rev ls) (final (exec_quiet cfg ls init)).
Proof.
  destruct (exec_quiet cfg ls init) as [s|] eqn:E; [|done]. intros _. rewrite -(app_nil_r (rev ls)).
  eapply exec_calm; [constructor|done].
Qed.

#[local] Existing Instance UnstructuredModel.api.
#[local] Existing Instance NestedModel.api.

(** The events of the discovery example, delivered. *)
Definition ex_delivery : list label :=
  match (notify_all (take 3 ex_notifications) capi_New).1 with
  | [e1; e2] => [StartManager; Event e1; Handler; Event e2; Run 0 true; Run 0 true; Run 0 true]
  | _ => []
  end.

Lemma spokes_witness :
  ∃ s, reaches defaults (rev ex_delivery) s ∧ is_Some (spokes s !! "eu-1") ∧
       is_Some (table s !! "eu-1").
Proof.
  exists (final (exec defaults ex_delivery init)).
  assert (reaches defaults (rev ex_delivery) (final (exec defaults ex_delivery init))) as Hr
    by (apply final_reaches; vm_refl).
  split; [exact Hr|].
  destruct (spokes_are_the_ready_clusters defaults _ _ _ ex_unique Hr ltac:(vm_refl)) as (H1 & H2 & _).
  assert (is_Some (spokes (final (exec defaults ex_delivery init)) !! "eu-1")) as [i Hi].
  { apply H1. exists "fleet/eu-1", (ex_cluster "fleet" "eu-1" "True"). split_and!; vm_refl. }
  split; [by exists i|]. destruct (H2 _ _ Hi) as (r & Hri & _ & _ & _ & Hd). apply Hd.
  assert (i = 0) as -> by (assert (Some i = Some 0) as [= ->]; [rewrite -Hi; vm_refl|done]).
  assert (Some r = runs (final (exec defaults ex_delivery init)) !! 0) as Hr0 by (by rewrite Hri).
  assert (option_map r_pc (Some r) = Some RDone) as [= ->]; [rewrite Hr0; vm_refl|done].
Defined.

Lemma launched_witness :
  ∃ s x, reaches defaults (rev (take 8 ex_life)) s ∧ to_launch 0 s ∧ heap s !! 0 = Some x ∧ untouched x.
Proof.
  exists (final (exec defaults (take 8 ex_life) init)).
  assert (reaches defaults (rev (take 8 ex_life)) (final (exec defaults (take 8 ex_life) init))) as Hr
    by (apply final_reaches; vm_refl).
  assert (to_launch 0 (final (exec defaults (take 8 ex_life) init))) as Ht.
  { right. exists 0. unfold launches. eexists. split; [vm_compute; reflexivity|reflexivity]. }
  destruct (proj1 (entries_launched_once defaults _ _ Hr) 0 Ht) as (_ & x & Hx & Hu). by exists x.
Defined.

Lemma calm_witness :
  ∃ s, calm defaults (rev ex_life) s ∧ table s !! "eu-1" = Some 0 ∧ wants (rev ex_life) "eu-1" = true.
Proof.
  exists (final (exec_quiet defaults ex_life init)).
  assert (calm defaults (rev ex_life) (final (exec_quiet defaults ex_life init))) as Hc
    by (apply final_calm; vm_refl).
  assert (table (final (exec_quiet defaults ex_life init)) !! "eu-1" = Some 0) as Ht by vm_refl.
  split; [exact Hc|]. split; [exact Ht|].
  exact (proj1 (proj1 (proj2 (calm_leaves_nothing_behind defaults _ _ Hc)) ltac:(vm_refl) _ _ Ht)).
Defined.
