(* ===== verification/Hooks.v ===== *)
(** The hooks on cluster runtimes: [OnClusterReady] and [OnClusterGone] of
    internal/cluster/manager.go, when the manager calls them over the life of the
    wirer, and what the engine's two hooks make of its drift detector. *)
From S2P Require Import Telemetry Discovery.
From S2P Require Import Prelude GoLib Api Unstructured Drift Transport Triggers Wirer.

#[local] Open Scope string_scope.
#[local] Open Scope list_scope.

(** ** Registration *)

(** [Manager.onReady] and [Manager.onGone], as functions on what they change. A
    runtime is identified by a number, and so is its cache. *)
Record hooks (D : Type) := {
  onReady : list (string → nat → D → D);
  onGone : list (string → D → D);
}.
#[local] Arguments onReady {D} _.
#[local] Arguments onGone {D} _.

Definition no_hooks {D} : hooks D := {| onReady := []; onGone := [] |}.

Definition OnClusterReady {D} (f : string → nat → D → D) (h : hooks D) : hooks D :=
  {| onReady := onReady h ++ [f]; onGone := onGone h |}.
Definition OnClusterGone {D} (f : string → D → D) (h : hooks D) : hooks D :=
  {| onReady := onReady h; onGone := onGone h ++ [f] |}.

(** ** Firing *)

(** A call of the hooks: [startRuntime] has started runtime [n] of entry [e]; or
    [Deregister] has removed a cluster. *)
Inductive firing :=
  | ClusterReady (e : nat) (name : string) (n : nat)
  | ClusterGone (name : string).

(** [for _, h := range hooks { h(...) }] *)
Definition fire {D} (h : hooks D) (f : firing) (d : D) : D :=
  match f with
  | ClusterReady _ name n => foldl (λ d g, g name n d) d (onReady h)
  | ClusterGone name => foldl (λ d g, g name d) d (onGone h)
  end.

(** What a step of the wirer and the manager fires; [n] is fresh. The hooks of
    [startRuntime] run in the lifecycle goroutine of the entry, those of [Deregister]
    after it has waited for that goroutine. *)
Definition fires (l : label) (s : sys) (n : nat) : list firing :=
  match l with
  | Probe e None _ true =>
      match heap s !! e with
      | Some x => if looping x && negb (e_cancelled x) && negb (e_started x)
                  then [ClusterReady e (e_name x) n] else []
      | None => []
      end
  | Handler => match handler s with HHooks name => [ClusterGone name] | _ => [] end
  | _ => []
  end.

(** The hooks that [SetupWithManager] of the engine registers. *)
Definition engine_hooks `{ReplicationReader} ok : hooks DriftDetector :=
  OnClusterGone onClusterGone (OnClusterReady (onClusterReady ok) no_hooks).

Section hooks.
Context (cfg : settings).

(** An execution with everything it fired, in order. *)
Inductive logged : list label → sys → list firing → Prop :=
  | logged_init : logged [] init []
  | logged_step ls l s s' log :
      logged ls s log → step cfg l s = Some s' →
      logged (l :: ls) s' (log ++ fires l s (length log)).

Fixpoint exec_log (ls : list label) (s : sys) (log : list firing) : option (sys * list firing) :=
  match ls with
  | [] => Some (s, log)
  | l :: ls' =>
      match step cfg l s with
      | Some s' => exec_log ls' s' (log ++ fires l s (length log))
      | None => None
      end
  end.

Lemma exec_logged ls past s log s' log' :
  logged past s log → exec_log ls s log = Some (s', log') → logged (rev ls ++ past) s' log'.
Proof.
  revert past s log. induction ls as [|l ls IH]; intros past s log Hr; simpl; [by intros [= <- <-]|].
  destruct (step cfg l s) as [s1|] eqn:E; [|done]. intros H. rewrite -app_assoc.
  eapply (IH (l :: past) s1); [|exact H]. by econstructor.
Qed.

(** The caches by cluster: the last runtime that was reported ready and not gone. *)
Definition current (log : list firing) : gmap string nat :=
  foldl (λ m f, match f with
                | ClusterReady _ name n => <[name := n]> m
                | ClusterGone name => delete name m
                end) ∅ log.

(** The latest runtime of an entry. *)
Definition runtime_of (log : list firing) (e : nat) : option nat :=
  foldl (λ r f, match f with
                | ClusterReady e' _ n => if decide (e' = e) then Some n else r
                | ClusterGone _ => r
                end) None log.

(** ** Entries over time *)

Record grows (x x' : entry) : Prop := {
  gr_name : e_name x' = e_name x;
  gr_launched : e_launched x = true → e_launched x' = true;
  gr_exited : e_exited x = true → e_exited x' = true;
}.

(** What a step does to an entry: a runtime that comes up is reported, at once and
    with the right name, and nothing else is. *)
Record entry_step (l : label) (s s' : sys) (e : nat) (x x' : entry) : Prop := {
  es_grows : grows x x';
  es_starts c n m : ClusterReady e c m ∈ fires l s n ↔
    c = e_name x ∧ m = n ∧ e_started x = false ∧ e_started x' = true;
  es_running : e_running x' = true → e_running x = true ∨ e_started x = false ∧ e_started x' = true;
}.

Lemma no_fire_step l s s' e x x' :
  (∀ c n m, ClusterReady e c m ∉ fires l s n) → grows x x' →
  (e_started x' = true → e_started x = true) → (e_running x' = true → e_running x = true) →
  entry_step l s s' e x x'.
Proof.
  intros Hf Hg Hs Hr. split; [done| |auto].
  intros c n m. split; [by intros ?%Hf|]. intros (_ & _ & H1 & H2). apply Hs in H2. congruence.
Qed.

Lemma grows_refl x : grows x x.
Proof. by split. Qed.

(** A step that changes one entry, or none. *)
Lemma alter_step l s s' k f e x :
  heap s' = alter f k (heap s) → heap s !! e = Some x →
  (k = e → entry_step l s s' e x (f x)) → (k ≠ e → ∀ c n m, ClusterReady e c m ∉ fires l s n) →
  ∃ x', heap s' !! e = Some x' ∧ entry_step l s s' e x x'.
Proof.
  intros -> Hx Hk Hne. rewrite list_lookup_alter. case_decide as Hd.
  - subst. rewrite Hx. exists (f x). auto.
  - exists x. split; [done|]. apply no_fire_step; auto using grows_refl.
Qed.

Lemma same_step l s s' e x :
  (∀ c n m, ClusterReady e c m ∉ fires l s n) → heap s' = heap s → heap s !! e = Some x →
  ∃ x', heap s' !! e = Some x' ∧ entry_step l s s' e x x'.
Proof. intros Hf -> Hx. exists x. split; [done|]. apply no_fire_step; auto using grows_refl. Qed.

(** A step that fires nothing about an entry and lets its runtime be, or stop. *)
Definition silent (l : label) (s : sys) : Prop := ∀ e c n m, ClusterReady e c m ∉ fires l s n.

Lemma handler_silent s : silent Handler s.
Proof. intros e c n m. simpl. destruct (handler s); set_solver. Qed.

Lemma quiet_alter l s s' k f e x :
  silent l s → heap s' = alter f k (heap s) → heap s !! e = Some x →
  (k = e → grows x (f x) ∧ (e_started (f x) = true → e_started x = true) ∧
           (e_running (f x) = true → e_running x = true)) →
  ∃ x', heap s' !! e = Some x' ∧ entry_step l s s' e x x'.
Proof.
  intros Hf Hh Hx Hk. eapply alter_step; [exact Hh|done| |].
  - intros (Hg & H1 & H2)%Hk. apply no_fire_step; auto.
  - intros _. apply Hf.
Qed.

Lemma probe_over e err now built s s' e' x :
  step cfg (Probe e err now built) s = Some s' → heap s !! e' = Some x →
  ∃ x', heap s' !! e' = Some x' ∧ entry_step (Probe e err now built) s s' e' x x'.
Proof.
  simpl. unfold probe_step. intros Hs Hx. destruct (heap s !! e) as [y|] eqn:Ey; [|done].
  destruct (looping y) eqn:El; simplify_eq.
  eapply (alter_step _ _ _ e); [reflexivity|done| |].
  - intros ->. assert (y = x) as -> by congruence. destruct (e_cancelled x) eqn:Ec.
    + apply no_fire_step; [|by split|done..]. intros c n m. simpl.
      destruct err, built; rewrite ?Ey ?El ?Ec /=; set_solver.
    + split; [by split| |]; simpl.
      * intros c n m. destruct err, built; rewrite ?Ey ?El ?Ec /= ?andb_false_r ?andb_true_r ?orb_false_r;
          destruct (e_started x); simpl; rewrite ?elem_of_cons; naive_solver set_solver.
      * destruct (e_running x), (e_started x), err, built; simpl; auto.
  - intros Hne c n m. simpl. destruct err, built; try set_solver. rewrite Ey. case_match; set_solver.
Qed.

(** A bootstrap inserts an entry, cancels one or launches one. *)
Lemma run_over i ok r s s' e x :
  run_step cfg i r ok s = Some s' → heap s !! e = Some x →
  ∃ x', heap s' !! e = Some x' ∧ entry_step (Run i ok) s s' e x x'.
Proof.
  assert (silent (Run i ok) s) as Hf by (intros ???? []%not_elem_of_nil).
  assert (∀ s', heap s' = heap s ++ [new_entry cfg (r_name r)] → heap s !! e = Some x →
    ∃ x', heap s' !! e = Some x' ∧ entry_step (Run i ok) s s' e x x') as Hins.
  { intros s1 Hh Hx. exists x. split; [rewrite Hh; by apply lookup_app_l_Some|].
    apply no_fire_step; auto using grows_refl. }
  unfold run_step. intros Hs Hx.
  destruct (r_pc r) as [| | |old|old| |k|]; simplify_eq; try (by apply same_step; [apply Hf|..]).
  - destruct ok; simplify_eq; [by apply same_step; [apply Hf|..]|].
    case_decide; simplify_eq. by apply same_step; [apply Hf|..].
  - destruct (table s !! r_name r); simplify_eq; [by apply same_step; [apply Hf|..]|by apply Hins].
  - by eapply (quiet_alter _ _ _ old).
  - case_match; simplify_eq. by apply same_step; [apply Hf|..].
  - by apply Hins.
  - by eapply (quiet_alter _ _ _ k).
Qed.

(** The entries that are there, over a step. *)
Lemma entry_over_step l s s' e x :
  step cfg l s = Some s' → heap s !! e = Some x →
  ∃ x', heap s' !! e = Some x' ∧ entry_step l s s' e x x'.
Proof.
  intros Hs Hx. destruct l as [ev| |i ok|k0|k|k err now built|k|k failed];
    [..|simpl in Hs|by eapply probe_over|simpl in Hs|simpl in Hs]; simpl in Hs.
  - assert (heap s' = heap s) as Hh; [|by apply same_step; [intros ??? []%not_elem_of_nil|..]].
    destruct (handler s); simplify_eq. rewrite Handle_cases. unfold ensure, drop. by repeat case_match.
  - pose proof (handler_silent s) as Hf. unfold handler_step in Hs.
    destruct (handler s) as [|i c|c|k c|k c|c] eqn:Eh; simplify_eq;
      try (by apply same_step; [apply Hf|..]).
    + destruct (table s !! c); simplify_eq; by apply same_step; [apply Hf|..].
    + by eapply (quiet_alter _ _ _ k).
    + case_match; simplify_eq. by apply same_step; [apply Hf|..].
  - destruct (runs s !! i) as [r|]; [|done]. by eapply run_over.
  - unfold start_begin in Hs. destruct (live s); simplify_eq.
    by apply same_step; [intros ??? []%not_elem_of_nil|..].
  - unfold start_launch in Hs. case_decide; simplify_eq.
    by eapply (quiet_alter _ _ _ k); [intros ???? []%not_elem_of_nil|..].
  - unfold exit_step in Hs. repeat case_match; simplify_eq.
    by eapply (quiet_alter _ _ _ k); [intros ???? []%not_elem_of_nil|..].
  - unfold runtime_step in Hs. repeat case_match; simplify_eq.
    eapply (quiet_alter _ _ _ k); [intros ???? []%not_elem_of_nil|done..|].
    intros _. split; [done|]. simpl. by destruct (e_started x).
Qed.

(** Entries that were not there are new and idle. *)
Lemma fresh_over_step l s s' e x' :
  step cfg l s = Some s' → heap s !! e = None → heap s' !! e = Some x' →
  e_running x' = false ∧ e_launched x' = false.
Proof.
  intros Hs Hn Hx.
  assert (∀ k f (h : list entry), heap s' = alter f k h → h = heap s → e_running x' = false ∧ e_launched x' = false)
    as Halt.
  { intros k f h Hh ->. rewrite Hh list_lookup_alter in Hx. case_decide as Hk; [subst k|]; by rewrite Hn in Hx. }
  assert (heap s' = heap s → e_running x' = false ∧ e_launched x' = false) as Hsame by congruence.
  destruct l as [ev| |i ok|k0|k|k err now built|k|k failed]; simpl in Hs.
  - apply Hsame. destruct (handler s); simplify_eq. rewrite Handle_cases. unfold ensure, drop.
    by repeat case_match.
  - unfold handler_step in Hs. repeat case_match; simplify_eq; try (by apply Hsame). by eapply Halt.
  - destruct (runs s !! i) as [r|]; [|done].
    assert (∀ n, heap s' = heap s ++ [new_entry cfg n] → e_running x' = false ∧ e_launched x' = false)
      as Hins.
    { intros n Hh. rewrite Hh in Hx. apply lookup_snoc_Some in Hx as [[_ Hx]|[_ <-]]; [congruence|done]. }
    unfold run_step in Hs. repeat case_match; simplify_eq; try (by apply Hsame);
      try (by eapply Hins); by eapply Halt.
  - unfold start_begin in Hs. case_match; simplify_eq. by apply Hsame.
  - unfold start_launch in Hs. case_decide; simplify_eq. by eapply Halt.
  - unfold probe_step in Hs. repeat case_match; simplify_eq; by eapply Halt.
  - unfold exit_step in Hs. repeat case_match; simplify_eq; by eapply Halt.
  - unfold runtime_step in Hs. repeat case_match; simplify_eq; by eapply Halt.
Qed.

(** A step fires at most once. *)
Lemma fires_cases l s n :
  fires l s n = [] ∨
  (∃ e x, fires l s n = [ClusterReady e (e_name x) n] ∧ heap s !! e = Some x ∧ looping x = true ∧
     ∃ err now built, l = Probe e err now built) ∨
  (∃ c, fires l s n = [ClusterGone c] ∧ l = Handler ∧ handler s = HHooks c).
Proof.
  destruct l as [ev| |i ok|k0|k|e err now built|k|k failed]; simpl; eauto.
  - destruct (handler s); eauto 10.
  - destruct err, built; auto. destruct (heap s !! e) as [x|] eqn:E; [|by left].
    destruct (looping x) eqn:El; simpl; [|by left]. case_match; [|by left].
    right. left. exists e, x. eauto 10.
Qed.

(** *** Calm executions *)

(** The event goroutine has taken the cluster out of the table. *)
Lemma removed_absent ls s c :
  wirer_inv ls s → owned s → dropping (handler s) = Some c → handler s ≠ HDeregister c →
  (∀ i, handler s ≠ HCancel i c) → table s !! c = None.
Proof.
  intros Hw Ho Hd H1 H2. destruct (table s !! c) as [e|] eqn:E; [|done]. exfalso.
  destruct (ow_table _ Ho _ _ E) as [(i & r & [Hs|Hs] & _)|Hs]; [|by eapply H2|done].
  by apply (wi_spoke _ _ Hw) in Hs as (_ & _ & ?).
Qed.

(** An entry that is registered for a cluster, or being stopped. *)
Definition holds (e : nat) (c : string) (s : sys) : Prop :=
  table s !! c = Some e ∨ stopping e c (handler s).

Lemma holds_unique ls s e e' c :
  wirer_inv ls s → owned s → holds e c s → holds e' c s → e = e'.
Proof.
  intros Hw Ho. assert (∀ e, stopping e c (handler s) → table s !! c = None) as Hn.
  { intros k Hk. eapply removed_absent; [done..| | |]; by destruct Hk as [-> | ->]. }
  intros [H1|H1] [H2|H2].
  - congruence.
  - by rewrite (Hn e' H2) in H1.
  - by rewrite (Hn e H1) in H2.
  - destruct H1 as [H1|H1], H2 as [H2|H2]; congruence.
Qed.

Lemma holds_over_step ls l s s' e c :
  wirer_inv ls s → quiet s → owned s → step cfg l s = Some s' → holds e c s ∨ handler s = HHooks c →
  l = Handler ∧ handler s = HHooks c ∨ holds e c s' ∨ handler s' = HHooks c.
Proof.
  intros Hw Hq Ho Hs Hc.
  assert (handler s' = handler s → table s' = table s → holds e c s' ∨ handler s' = HHooks c) as Hkeep
    by (intros Hh Ht; unfold holds; by rewrite Hh Ht).
  destruct l as [ev| |i ok|k0|k|k err now built|k|k failed]; simpl in Hs.
  - right. destruct (handler s) eqn:Eh; simplify_eq. left.
    destruct Hc as [[Ht|[Hc|Hc]]|Hc]; [|congruence..]. left.
    rewrite Handle_cases. unfold ensure, drop. by repeat case_match.
  - unfold handler_step in Hs. unfold holds, stopping in *.
    destruct (handler s) as [|i d|d|k d|k d|d] eqn:Eh; simplify_eq; simpl.
    + right. left. destruct Hc as [[?|[?|?]]|?]; [by left|congruence..].
    + destruct Hc as [[Ht|[?|?]]|?]; [|congruence..]. right. left.
      destruct (table s !! d) as [k|] eqn:Et; simplify_eq; simpl; [|by left].
      destruct (decide (c = d)) as [->|Hne]; [right; left; congruence|left; by rewrite lookup_delete_ne].
    + right. destruct Hc as [[?|[?|?]]|?]; [by left; left|left; right; right; congruence|congruence..].
    + case_match; simplify_eq; simpl. right.
      destruct Hc as [[?|[?|?]]|?]; [by left; left|congruence|right; congruence|congruence].
    + destruct (decide (c = d)) as [->|Hne]; [by left|right]. left.
      destruct Hc as [[?|[?|?]]|?]; [by left|congruence..].
  - right. destruct (runs s !! i) as [r|] eqn:Ei; [|done]. unfold run_step in Hs.
    pose proof (ow_direct _ Ho i r Ei) as Hd.
    destruct (r_pc r) as [| | |old|old| |k|] eqn:Epc; try done; simplify_eq; try (by apply Hkeep).
    + destruct ok; simplify_eq; [by apply Hkeep|]. case_decide; simplify_eq. by apply Hkeep.
    + rewrite (register_free ls s i r) // in Hs. simplify_eq.
      destruct Hc as [[Ht|?]|?]; [|by left; right|by right]. left. left. simpl.
      rewrite lookup_insert_ne //. intros Hn. pose proof (register_free ls s i r Hw Hq Ho Ei Epc). congruence.
  - right. unfold start_begin in Hs. case_match; simplify_eq. by apply Hkeep.
  - right. unfold start_launch in Hs. case_decide; simplify_eq. by apply Hkeep.
  - right. unfold probe_step in Hs. repeat case_match; simplify_eq; by apply Hkeep.
  - right. unfold exit_step in Hs. repeat case_match; simplify_eq; by apply Hkeep.
  - right. unfold runtime_step in Hs. repeat case_match; simplify_eq; by apply Hkeep.
Qed.

(** What was fired so far, and the state. *)
Record follows (s : sys) (log : list firing) : Prop := {
  fo_ready e c n : ClusterReady e c n ∈ log →
    ∃ x, heap s !! e = Some x ∧ e_name x = c ∧ e_launched x = true;
  fo_current c n : current log !! c = Some n →
    ∃ e x, heap s !! e = Some x ∧ e_name x = c ∧ runtime_of log e = Some n ∧
           (holds e c s ∨ handler s = HHooks c);
  fo_running e x : heap s !! e = Some x → e_running x = true →
    ∃ n, runtime_of log e = Some n ∧ current log !! e_name x = Some n;
  fo_gone l1 c l2 e n : log = l1 ++ ClusterGone c :: l2 → ClusterReady e c n ∈ l1 →
    (∃ x, heap s !! e = Some x ∧ e_exited x = true) ∧ ∀ c' n', ClusterReady e c' n' ∉ l2;
}.

Lemma caches_snoc log f :
  current (log ++ [f]) = match f with
                         | ClusterReady _ name n => <[name := n]> (current log)
                         | ClusterGone name => delete name (current log)
                         end.
Proof. unfold current. by rewrite foldl_app. Qed.

Lemma runtime_of_snoc log f e :
  runtime_of (log ++ [f]) e = match f with
                              | ClusterReady e' _ n => if decide (e' = e) then Some n else runtime_of log e
                              | ClusterGone _ => runtime_of log e
                              end.
Proof. unfold runtime_of. by rewrite foldl_app. Qed.

Lemma exited_over_step l s s' e :
  step cfg l s = Some s' → (∃ x, heap s !! e = Some x ∧ e_exited x = true) →
  ∃ x, heap s' !! e = Some x ∧ e_exited x = true.
Proof.
  intros Hs (x & Hx & He). destruct (entry_over_step l s s' e x Hs Hx) as (x' & Hx' & [Hg _ _]).
  exists x'. split; [done|]. by apply (gr_exited _ _ Hg).
Qed.

Lemma follows_ready ls l s s' log :
  wirer_inv ls s → owned s → step cfg l s = Some s' → follows s log →
  ∀ e c n, ClusterReady e c n ∈ log ++ fires l s (length log) →
  ∃ x, heap s' !! e = Some x ∧ e_name x = c ∧ e_launched x = true.
Proof.
  intros Hw Ho Hs [H1 _ _ _] e c n Hin.
  assert (∃ x, heap s !! e = Some x ∧ e_name x = c ∧ e_launched x = true) as (x & Hx & Hn & Hl).
  { apply elem_of_app in Hin as [Hin|Hin]; [by eapply H1|].
    destruct (fires_cases l s (length log)) as [Hf|[(k & y & Hf & Hy & Hl & _)|(d & Hf & _)]];
      rewrite Hf in Hin; [by apply not_elem_of_nil in Hin| |];
      apply list_elem_of_singleton in Hin; simplify_eq.
    exists y. apply andb_prop in Hl as [Hl _]. done. }
  destruct (entry_over_step l s s' e x Hs Hx) as (x' & Hx' & [Hg _ _]).
  exists x'. split_and!; [done| |by apply (gr_launched _ _ Hg)]. rewrite (gr_name _ _ Hg). done.
Qed.

Lemma follows_current ls l s s' log :
  wirer_inv ls s → quiet s → owned s → step cfg l s = Some s' → follows s log →
  let log' := log ++ fires l s (length log) in
  ∀ c n, current log' !! c = Some n →
  ∃ e x, heap s' !! e = Some x ∧ e_name x = c ∧ runtime_of log' e = Some n ∧
         (holds e c s' ∨ handler s' = HHooks c).
Proof.
  intros Hw Hq Ho Hs [_ H2 _ _] log' c n.
  assert (∀ e x, heap s !! e = Some x → e_name x = c → runtime_of log' e = Some n →
            holds e c s ∨ handler s = HHooks c → ¬ (l = Handler ∧ handler s = HHooks c) →
            ∃ e x, heap s' !! e = Some x ∧ e_name x = c ∧ runtime_of log' e = Some n ∧
                   (holds e c s' ∨ handler s' = HHooks c)) as Hgo.
  { intros e x Hx Hn Hr Hc Hno. destruct (entry_over_step l s s' e x Hs Hx) as (x' & Hx' & [Hg _ _]).
    exists e, x'. split_and!; [done|by rewrite (gr_name _ _ Hg)|done|].
    by destruct (holds_over_step ls l s s' e c Hw Hq Ho Hs Hc). }
  unfold log' in *. clear log'. destruct (fires_cases l s (length log))
    as [Hf|[(k & y & Hf & Hy & Hl & err & now & built & Hlab)|(d & Hf & Hlab & Hh)]]; rewrite Hf in Hgo |- *.
  - rewrite app_nil_r in Hgo |- *. intros Hc. destruct (H2 c n Hc) as (e & x & Hx & Hn & Hr & Hcl).
    eapply Hgo; [exact Hx|done..|]. intros [-> Hh]. by rewrite /= Hh in Hf.
  - rewrite caches_snoc lookup_insert_Some. setoid_rewrite runtime_of_snoc in Hgo.
    setoid_rewrite runtime_of_snoc. intros [[<- <-]|[Hne Hc]].
    + eapply (Hgo k y); [done..|by rewrite decide_True| |intros [-> _]; discriminate Hlab].
      left. destruct (ow_active _ Ho k y Hy); [by left|by left|by right].
    + destruct (H2 c n Hc) as (e & x & Hx & Hn & Hr & Hcl).
      eapply (Hgo e x); [done..| |done|intros [-> _]; discriminate Hlab].
      rewrite decide_False //. intros ->. congruence.
  - rewrite caches_snoc. setoid_rewrite runtime_of_snoc in Hgo. setoid_rewrite runtime_of_snoc.
    intros [Hne Hc]%lookup_delete_Some. destruct (H2 c n Hc) as (e & x & Hx & Hn & Hr & Hcl).
    eapply (Hgo e x); [done..|]. intros [_ Hh']. congruence.
Qed.

Lemma follows_running ls l s s' log :
  wirer_inv ls s → owned s → step cfg l s = Some s' → follows s log →
  let log' := log ++ fires l s (length log) in
  ∀ e x, heap s' !! e = Some x → e_running x = true →
  ∃ n, runtime_of log' e = Some n ∧ current log' !! e_name x = Some n.
Proof.
  intros Hw Ho Hs [_ _ H3 _] log' e x' Hx' Hr'. destruct (heap s !! e) as [x|] eqn:Hx.
  2: { destruct (fresh_over_step l s s' e x' Hs Hx Hx'). congruence. }
  destruct (entry_over_step l s s' e x Hs Hx) as (y & Hy & [Hg Hst Hru]). assert (y = x') as -> by congruence.
  rewrite (gr_name _ _ Hg). unfold log'. destruct (Hru Hr') as [Hr|Hstart].
  - destruct (H3 e x Hx Hr) as (n & Hn & Hc).
    destruct (fires_cases l s (length log))
      as [Hf|[(k & z & Hf & Hz & Hl & _)|(d & Hf & _ & Hh)]]; rewrite Hf.
    + rewrite app_nil_r. by exists n.
    + destruct (decide (k = e)) as [->|Hne].
      * exists (length log). rewrite runtime_of_snoc decide_True // caches_snoc.
        assert (z = x) as -> by congruence. by rewrite lookup_insert_eq.
      * exists n. rewrite runtime_of_snoc decide_False // caches_snoc lookup_insert_ne //.
        intros Hname. apply Hne.
        assert (∀ k y, heap s !! k = Some y → active y → holds k (e_name y) s) as Hact
          by (intros j y; apply (ow_active _ Ho)).
        eapply (holds_unique ls s k e (e_name x)); [done..| |apply Hact; [done|by right]].
        rewrite -Hname. apply Hact; [done|by left].
    + exists n. rewrite runtime_of_snoc caches_snoc lookup_delete_ne //. intros ->.
      destruct (ow_active _ Ho e x Hx) as [Ht|[Ht|Ht]]; [by right| |congruence..].
      rewrite (removed_absent ls s (e_name x)) // in Ht; by rewrite Hh.
  - assert (ClusterReady e (e_name x) (length log) ∈ fires l s (length log)) as Hin by (by apply Hst).
    destruct (fires_cases l s (length log)) as [Hf|[(k & z & Hf & _)|(d & Hf & _)]]; rewrite Hf in Hin |- *;
      [by apply not_elem_of_nil in Hin| |by apply list_elem_of_singleton in Hin].
    apply list_elem_of_singleton in Hin. injection Hin as <- <-.
    exists (length log). by rewrite runtime_of_snoc decide_True // caches_snoc lookup_insert_eq.
Qed.

Lemma follows_gone ls l s s' log :
  wirer_inv ls s → owned s → step cfg l s = Some s' → follows s log →
  ∀ l1 c l2 e n, log ++ fires l s (length log) = l1 ++ ClusterGone c :: l2 →
  ClusterReady e c n ∈ l1 →
  (∃ x, heap s' !! e = Some x ∧ e_exited x = true) ∧ ∀ c' n', ClusterReady e c' n' ∉ l2.
Proof.
  intros Hw Ho Hs [H1 _ _ H4] l1 c l2 e n Heq Hin.
  destruct (fires_cases l s (length log)) as [Hf|Hf].
  { rewrite Hf app_nil_r in Heq. destruct (H4 l1 c l2 e n Heq Hin) as [He Hno].
    split; [|done]. by eapply exited_over_step. }
  assert (∃ f, fires l s (length log) = [f] ∧
    ((∃ k z, f = ClusterReady k (e_name z) (length log) ∧ heap s !! k = Some z ∧ looping z = true) ∨
     ∃ d, f = ClusterGone d ∧ handler s = HHooks d)) as (f & Hf' & Hcase).
  { destruct Hf as [(k & z & Hf & Hz & Hl & _)|(d & Hf & _ & Hh)]; rewrite Hf; eauto 10. }
  rewrite Hf' in Heq. destruct l2 as [|g l2 _] using rev_ind.
  - apply app_inj_tail in Heq as [-> ->]. split; [|set_solver]. eapply exited_over_step; [done|].
    destruct Hcase as [(k & z & ? & _)|(d & [= <-] & Hh)]; [done|].
    destruct (H1 e c n Hin) as (x & Hx & Hn & Hl). exists x. split; [done|].
    destruct (e_exited x) eqn:E; [done|]. exfalso.
    assert (active x) as Ha by (left; unfold looping; by rewrite Hl E).
    destruct (ow_active _ Ho e x Hx Ha) as [Ht|[Ht|Ht]]; [|congruence..].
    rewrite Hn (removed_absent ls s c) // in Ht; by rewrite Hh.
  - rewrite app_comm_cons app_assoc in Heq. apply app_inj_tail in Heq as [-> ->].
    destruct (H4 l1 c l2 e n eq_refl Hin) as [He Hno]. split; [by eapply exited_over_step|].
    intros c' n'. rewrite elem_of_app list_elem_of_singleton. intros [?|<-]; [by eapply Hno|].
    destruct Hcase as [(k & z & [= -> _ _] & Hz & Hl)|(d & ? & _)]; [|done].
    destruct He as (x & Hx & He). assert (z = x) as -> by congruence.
    unfold looping in Hl. by rewrite He andb_false_r in Hl.
Qed.

(** The labels determine the states. *)
Lemma logged_state ls s s' log : reaches cfg ls s → logged ls s' log → s = s'.
Proof.
  intros Hr Hl. revert s Hr. induction Hl as [|ls l s1 s' log Hl IH Hs]; intros s Hr.
  - by inversion Hr.
  - inversion Hr as [|ls0 l0 s0 s2 Hr0 Hs0]; subst. rewrite (IH s0 Hr0) in Hs0. congruence.
Qed.

Lemma calm_follows ls s log : calm cfg ls s → logged ls s log → follows s log.
Proof.
  intros Hc Hl. revert Hc. induction Hl as [|ls l s s' log Hl IH Hs]; intros Hc.
  - split; try done; try set_solver. by intros [] ?????.
  - inversion Hc as [|ls0 l0 s0 s1 Hc0 Hs0 Hq0]; subst.
    destruct (calm_reaches _ _ _ Hc0) as [Hr Hq]. pose proof (logged_state _ _ _ _ Hr Hl) as ->.
    specialize (IH Hc0). pose proof (reaches_wirer _ _ _ Hr) as Hw. pose proof (calm_owned _ _ _ Hc0) as Ho.
    split.
    + by eapply follows_ready.
    + by eapply follows_current.
    + by eapply follows_running.
    + by eapply follows_gone.
Qed.

(** ** The drift detector *)

Section detector.
Context `{ReplicationReader} (ok : nat → Cache → GroupVersionKind → bool).
Context (others : nat → DriftDetector → DriftDetector).

(** The engine's hooks run as they fire; [others n] is what [EnsureWatch], [Start],
    [Enqueue] and the consumer of the channel do to the detector between the firings
    [n] and [n + 1]. *)
Definition detector (log : list firing) (d : DriftDetector) : DriftDetector :=
  foldl (λ d nf, others nf.1 (fire (engine_hooks (ok nf.1)) nf.2 d)) d (imap pair log).

Lemma enqueueForCluster_clusters name d : clusters (enqueueForCluster name d) = clusters d.
Proof.
  assert (∀ items st, clusters (foldl enqueue_unseen st items).2 = clusters st.2) as Hu.
  { induction items as [|r items IH]; intros st; [done|]. simpl. rewrite IH. unfold enqueue_unseen.
    case_decide; [done|]. simpl. unfold Enqueue. by case_match. }
  unfold enqueueForCluster. simpl. unfold enqueue_listed.
  by destruct (List _), (List _); rewrite ?Hu.
Qed.

Lemma detector_clusters log d0 :
  (∀ n d, clusters (others n d) = clusters d) → clusters d0 = ∅ →
  clusters (detector log d0) = current log.
Proof.
  intros Hkeep Hd0. unfold detector. induction log as [|f log IH] using rev_ind; [done|].
  rewrite imap_app foldl_app caches_snoc. cbn [imap foldl fst snd]. rewrite Hkeep. unfold fire, engine_hooks. simpl.
  destruct f as [e name n|name]; simpl.
  - unfold onClusterReady. rewrite enqueueForCluster_clusters. unfold Drift.ClusterReady.
    case_decide; [rewrite (proj1 (installAll_clusters _ _ _ _))|]; simpl; by rewrite IH.
  - unfold onClusterGone. rewrite enqueueForCluster_clusters. simpl. by rewrite IH.
Qed.

(** The detector's other operations are such. *)
Lemma other_operations d :
  (∀ ok cluster gvk, clusters (EnsureWatch ok cluster gvk d) = clusters d) ∧
  (∀ ok, clusters (Drift.Start ok d) = clusters d) ∧ (∀ k, clusters (Enqueue k d) = clusters d).
Proof.
  split_and!.
  - intros ok' c g. unfold EnsureWatch. repeat case_match; [done| |done].
    by rewrite (proj1 (install_clusters _ _ _ _ _)).
  - intros ok'. unfold Drift.Start. generalize (map_to_list (clusters d)) as l. intros l.
    assert (∀ d', clusters d' = clusters d →
      clusters (foldl (λ d nc, installAll ok' nc.1 nc.2 d) d' l) = clusters d) as Hl; [|by apply Hl].
    induction l as [|nc l IH]; intros d' Hd'; [done|]. simpl. apply IH.
    by rewrite (proj1 (installAll_clusters _ _ _ _)).
  - intros k. unfold Enqueue. by case_match.
Qed.

(** C22. The hooks over the life of the wirer. A runtime that comes up is reported
    ready, at once, once and under its own name, and nothing else is. In a calm
    execution a runtime that was reported ready for a cluster is never reported again
    once that cluster was reported gone: its lifecycle has ended. And whatever else
    happens to the drift detector in between, outside the handling of an event it
    holds only the latest caches of entries that are registered, of clusters that the
    last event says are ready, and it holds the cache of every runtime that runs. *)
Theorem detector_follows_the_runtimes ls s log d0 (Hc : calm cfg ls s) (Hl : logged ls s log)
    (Hkeep : ∀ n d, clusters (others n d) = clusters d) (Hd0 : clusters d0 = ∅) :
  let d := detector log d0 in
  (∀ l s' e c n, step cfg l s = Some s' → ClusterReady e c n ∈ fires l s (length log) ↔
     n = length log ∧ ∃ x x', heap s !! e = Some x ∧ heap s' !! e = Some x' ∧ c = e_name x ∧
       e_started x = false ∧ e_started x' = true) ∧
  (∀ l1 c l2 e n, log = l1 ++ ClusterGone c :: l2 → ClusterReady e c n ∈ l1 →
     ∀ c' n', ClusterReady e c' n' ∉ l2) ∧
  (handler s = HIdle →
     (∀ c n, clusters d !! c = Some n →
        ∃ e, table s !! c = Some e ∧ runtime_of log e = Some n ∧ wants ls c = true) ∧
     (∀ e x, heap s !! e = Some x → e_running x = true → table s !! e_name x = Some e ∧
        ∃ n, runtime_of log e = Some n ∧ clusters d !! e_name x = Some n)).
Proof.
  intros d. destruct (calm_reaches _ _ _ Hc) as [Hr _]. pose proof (reaches_wirer _ _ _ Hr) as Hw.
  pose proof (calm_owned _ _ _ Hc) as Ho. destruct (calm_follows _ _ _ Hc Hl) as [H1 H2 H3 H4].
  unfold d. rewrite detector_clusters //. split_and!.
  - intros l s' e c n Hs. split.
    + intros Hin. destruct (fires_cases l s (length log)) as [Hf|[(k & z & Hf & Hz & _)|(? & Hf & _)]];
        rewrite Hf in Hin; [by apply not_elem_of_nil in Hin| |by apply list_elem_of_singleton in Hin].
      apply list_elem_of_singleton in Hin. injection Hin as -> -> ->.
      destruct (entry_over_step l s s' k z Hs Hz) as (x' & Hx' & [_ Hst _]).
      destruct (proj1 (Hst (e_name z) (length log) (length log))) as (_ & _ & ? & ?);
        [rewrite Hf; by left|]. split; [done|]. by exists z, x'.
    + intros (-> & x & x' & Hx & Hx' & -> & Hf & Ht).
      destruct (entry_over_step l s s' e x Hs Hx) as (y & Hy & [_ Hst _]). apply Hst.
      split_and!; [done..|congruence].
  - intros l1 c l2 e n Heq Hin. by destruct (H4 l1 c l2 e n Heq Hin).
  - intros Hh. split.
    + intros c n Hcur. destruct (H2 c n Hcur) as (e & x & Hx & Hn & Hrt & [[Ht|[Hst|Hst]]|Hst]); [|congruence..].
      exists e. split_and!; [done..|]. apply (wi_wants _ _ Hw).
      destruct (ow_table _ Ho _ _ Ht) as [(i & r & [?|?] & _)|?]; [by eexists|congruence..].
    + intros e x Hx Hrun. split; [|by apply H3].
      destruct (ow_active _ Ho e x Hx) as [?|[?|?]]; [by right|done|congruence..].
Qed.
End detector.
End hooks.

(** ** Runtimes and probes *)

Section connection.
(** [rest.Config], the client set, the runtimes, and the libraries that make them:
    [kubernetes.NewForConfig], a raw GET of a path with a timeout, and [cluster.New]. *)
Context {Config Clientset Options Runtime : Type}.
Context (NewForConfig : Config → string + Clientset).
Context (GetRaw : Clientset → string → Z → option string).
Context (New : Config → list (Options → Options) → string + Runtime).

Definition RuntimeFactory : Type := string → Config → string + Runtime.
Definition ProbeFunc : Type := Config → option string.

Definition DefaultRuntimeFactory (opts : list (Options → Options)) : RuntimeFactory := λ name cfg,
  match New cfg opts with
  | inl err => inl ("cluster: building runtime for " +:+ (quote name +:+ (": " +:+ err)))
  | inr c => inr c
  end.

Definition DefaultProbe (timeout : Z) : ProbeFunc := λ cfg,
  match NewForConfig cfg with
  | inl err => Some err
  | inr cs => GetRaw cs "/version" timeout
  end.

(** The manager with these; the rest of it is [settings]. *)
Record Manager := { factory : RuntimeFactory; probe : ProbeFunc; tuning : settings }.

Definition WithRuntimeFactory (f : RuntimeFactory) (m : Manager) : Manager :=
  {| factory := f; probe := probe m; tuning := tuning m |}.
Definition WithProbe (p : ProbeFunc) (m : Manager) : Manager :=
  {| factory := factory m; probe := p; tuning := tuning m |}.

Definition default_manager : Manager :=
  {| factory := DefaultRuntimeFactory []; probe := DefaultProbe (5 * Second); tuning := defaults |}.

(** A turn of the lifecycle of entry [e], as this manager takes it. *)
Definition lifecycle_turn (m : Manager) (e : nat) (name : string) (cfg : Config) (now : Z) : label :=
  Probe e (probe m cfg) now (match factory m name cfg with inr _ => true | inl _ => false end).

(** A cluster whose API server does not answer is never reported ready; one that
    answers is, as soon as a runtime can be built for it. *)
Lemma ready_when_reachable m (s : sys) e x cfg now n :
  heap s !! e = Some x → looping x = true → e_cancelled x = false → e_started x = false →
  fires (lifecycle_turn m e (e_name x) cfg now) s n =
  match probe m cfg, factory m (e_name x) cfg with
  | None, inr _ => [ClusterReady e (e_name x) n]
  | _, _ => []
  end.
Proof.
  intros Hx Hl Hc Hs. unfold lifecycle_turn. simpl.
  destruct (probe m cfg), (factory m (e_name x) cfg); try done. by rewrite Hx Hl Hc Hs.
Qed.
End connection.

(** ** Concrete executions *)

(** The detector that watches what it is asked to. *)
Definition ex_kind : GroupVersionKind := {| gvk_Group := ""; gvk_Version := "v1"; gvk_Kind := "Secret" |}.
Definition ex_others (n : nat) (d : DriftDetector) : DriftDetector :=
  EnsureWatch (λ _ _, true) "eu-1" ex_kind d.

Definition fired (ls : list label) : list firing :=
  match exec_log defaults ls init [] with Some (_, log) => log | None => [] end.

(** A cluster comes, and is dropped; and the race in which it stays. *)
Example fired_ex :
  fired ex_life = [ClusterReady 0 "eu-1" 0] ∧
  fired (ex_life ++ ex_drop) = [ClusterReady 0 "eu-1" 0; ClusterGone "eu-1"] ∧
  fired ex_race = [ClusterReady 0 "eu-1" 0].
Proof. split_and!; vm_refl. Qed.

(** After that race the detector keeps the cache of a cluster that no event says is
    ready. *)
Example leaked_cache :
  clusters (detector (H := cache_of [] ex_stored) (λ _ _ _, true) ex_others (fired ex_race) ex_detector)
    !! "eu-1" = Some 0 ∧ wants (rev ex_race) "eu-1" = false.
Proof. split; vm_refl. Qed.

#[local] Existing Instance UnstructuredModel.api.

Lemma detector_witness :
  let d := detector (H := cache_of [] ex_stored) (λ _ _ _, true) ex_others
             [ClusterReady 0 "eu-1" 0] ex_detector in
  clusters d !! "eu-1" = Some 0 ∧ is_watched d "eu-1" ex_kind = true.
Proof.
  intros d.
  assert (calm defaults (rev ex_life) (final (exec_quiet defaults ex_life init))) as Hc
    by (apply final_calm; vm_refl).
  assert (logged defaults (rev ex_life) (final (exec_quiet defaults ex_life init))
            [ClusterReady 0 "eu-1" 0]) as Hl.
  { rewrite -(app_nil_r (rev ex_life)). eapply exec_logged; [constructor|]. vm_compute. reflexivity. }
  pose proof (detector_follows_the_runtimes (H := cache_of [] ex_stored) defaults (λ _ _ _, true) ex_others
    _ _ _ ex_detector Hc Hl (λ n d, proj1 (other_operations d) _ _ _) eq_refl) as (_ & _ & Hidle).
  destruct (Hidle ltac:(vm_refl)) as [_ Hrun].
  assert (match heap (final (exec_quiet defaults ex_life init)) !! 0 with
          | Some x => e_running x && bool_decide (e_name x = "eu-1") | None => false end = true) as Hx by vm_refl.
  destruct (heap _ !! 0) as [x|] eqn:Ex; [|done]. apply andb_prop in Hx as [Hx Hn%bool_decide_eq_true].
  destruct (Hrun 0 x Ex Hx) as (_ & n & Hrt & Hcl). rewrite Hn in Hcl. vm_compute in Hrt.
  injection Hrt as <-. split; [exact Hcl|]. vm_refl.
Defined.
