(* ===== verification/WirerProgress.v ===== *)
(** The handling of a discovery event comes to an end: how long the event goroutine
    of the wirer still has to wait, what brings it forward, and the race in which
    it waits for ever. *)
From S2P Require Import Prelude GoLib Api Unstructured Discovery Cluster Wirer.
Import Tracker.

#[local] Open Scope string_scope.
#[local] Open Scope list_scope.

Section progress.
Context (cfg : settings).

(** ** What a step does to one entry *)

(** Somebody is about to cancel the entry. *)
Definition stops (e : nat) (s : sys) : Prop :=
  (∃ c, handler s = HStop e c) ∨ ∃ i r, runs s !! i = Some r ∧ r_pc r = RStop e.

Definition launched (x : entry) : entry :=
  {| e_name := e_name x; e_launched := true; e_cancelled := e_cancelled x; e_exited := e_exited x;
     e_started := e_started x; e_running := e_running x; e_tracker := e_tracker x |}.
Definition cancelled_entry (x : entry) : entry :=
  {| e_name := e_name x; e_launched := e_launched x;
     e_cancelled := if e_launched x then true else e_cancelled x; e_exited := e_exited x;
     e_started := e_started x; e_running := e_running x; e_tracker := e_tracker x |}.

Inductive ages (s : sys) (e : nat) : entry → entry → Prop :=
  | age_same x : ages s e x x
  | age_launch x : to_launch e s → ages s e x (launched x)
  | age_cancel x : stops e s → ages s e x (cancelled_entry x)
  | age_turn x err now built : looping x = true → e_cancelled x = false →
      ages s e x (turn err now built x)
  | age_exit x : looping x = true → e_cancelled x = true → ages s e x (exit_loop x)
  | age_stop x failed : e_running x = true → ages s e x (stop_runtime failed x).

Lemma ages_upd s e0 f s0 e x :
  heap s0 = heap s → heap s !! e = Some x → (e = e0 → ages s e x (f x)) →
  ∃ x', heap (upd_entry e0 f s0) !! e = Some x' ∧ ages s e x x'.
Proof.
  intros Eh Hx Hf. simpl. rewrite Eh. destruct (decide (e = e0)) as [<-|Hne].
  - rewrite list_lookup_alter_eq Hx. simpl. eauto.
  - rewrite list_lookup_alter_ne // Hx. eauto using age_same.
Qed.

Lemma ages_insert s i name s0 e x :
  heap s0 = heap s → heap s !! e = Some x →
  ∃ x', heap (insert_entry cfg i name s0) !! e = Some x' ∧ ages s e x x'.
Proof.
  intros Eh Hx. exists x. split; [|constructor]. simpl. rewrite Eh. by apply lookup_app_l_Some.
Qed.

Lemma run_ages i r ok s s' e x :
  runs s !! i = Some r → run_step cfg i r ok s = Some s' → heap s !! e = Some x →
  ∃ x', heap s' !! e = Some x' ∧ ages s e x x'.
Proof.
  intros Hr Hs Hx. unfold run_step in Hs.
  destruct (r_pc r) as [| | |old|old| |e0|] eqn:Epc; simplify_eq; eauto using age_same.
  - destruct ok; simplify_eq; [simpl; eauto using age_same|].
    case_decide; simplify_eq. simpl. eauto using age_same.
  - destruct (table s !! r_name r) as [old|]; simplify_eq; [simpl; eauto using age_same|].
    by apply ages_insert.
  - apply (ages_upd s old cancelled_entry s); [done..|]. intros ->. apply age_cancel. right. eauto.
  - destruct (entry_drained old s); simplify_eq. simpl. eauto using age_same.
  - by apply ages_insert.
  - apply (ages_upd s e0 launched s); [done..|]. intros ->. apply age_launch. right. exists i, r. done.
Qed.

Lemma handler_ages s s' e x :
  handler_step s = Some s' → heap s !! e = Some x → ∃ x', heap s' !! e = Some x' ∧ ages s e x x'.
Proof.
  intros Hs Hx. unfold handler_step in Hs.
  destruct (handler s) as [|i c|c|e0 c|e0 c|c] eqn:Eh; simplify_eq; simpl; eauto using age_same.
  - destruct (table s !! c); simplify_eq; simpl; eauto using age_same.
  - apply (ages_upd s e0 cancelled_entry s); [done..|]. intros ->. apply age_cancel. left. eauto.
  - destruct (entry_drained e0 s); simplify_eq. simpl. eauto using age_same.
Qed.

Lemma Handle_heap ev s : heap (Handle ev s) = heap s ∧ table (Handle ev s) = table s ∧
  runs s `prefix_of` runs (Handle ev s).
Proof.
  rewrite Handle_cases. unfold ensure, drop. destruct (wants_event ev); case_match; simpl;
    split_and!; try done. by apply prefix_app_r.
Qed.

Lemma step_ages l s s' e x :
  step cfg l s = Some s' → heap s !! e = Some x → ∃ x', heap s' !! e = Some x' ∧ ages s e x x'.
Proof.
  intros Hs Hx. destruct l; simpl in Hs.
  - destruct (handler s); simplify_eq. rewrite (proj1 (Handle_heap ev s)). eauto using age_same.
  - by eapply handler_ages.
  - destruct (runs s !! i) as [r|] eqn:E; [|done]. by eapply run_ages.
  - unfold start_begin in Hs. destruct (live s); simplify_eq. simpl. eauto using age_same.
  - unfold start_launch in Hs. case_decide as Hin; simplify_eq.
    apply (ages_upd s _ launched); [done..|]. intros ->. apply age_launch. by left.
  - unfold probe_step in Hs. destruct (heap s !! _) as [y|] eqn:Ey; [|done].
    destruct (looping y) eqn:El; simplify_eq. apply ages_upd; [done..|]. intros ->.
    assert (y = x) as -> by congruence. destruct (e_cancelled x) eqn:Ec; by constructor.
  - unfold exit_step in Hs. destruct (heap s !! _) as [y|] eqn:Ey; [|done].
    destruct (looping y && e_cancelled y) eqn:El; simplify_eq. apply andb_prop in El as [? ?].
    apply ages_upd; [done..|]. intros ->. assert (y = x) as -> by congruence. by constructor.
  - unfold runtime_step in Hs. destruct (heap s !! _) as [y|] eqn:Ey; [|done].
    destruct (e_running y) eqn:El; simplify_eq. apply ages_upd; [done..|]. intros ->.
    assert (y = x) as -> by congruence. by constructor.
Qed.

(** A registered entry was registered before, or is new. *)
Lemma step_table l s s' c e :
  step cfg l s = Some s' → table s' !! c = Some e → table s !! c = Some e ∨ e = length (heap s).
Proof.
  intros Hs Ht. destruct l; simpl in Hs.
  - destruct (handler s); simplify_eq. rewrite (proj1 (proj2 (Handle_heap ev s))) in Ht. by left.
  - left. unfold handler_step in Hs.
    destruct (handler s) as [|j n|n|e0 n|e0 n|n]; simplify_eq; try exact Ht.
    + destruct (table s !! n) eqn:E; simplify_eq; [|exact Ht]. simpl in Ht.
      by apply lookup_delete_Some in Ht as [_ ?].
    + destruct (entry_drained e0 s); simplify_eq. exact Ht.
  - destruct (runs s !! i) as [r|] eqn:E; [|done]. unfold run_step in Hs.
    assert (∀ s', Some (insert_entry cfg i (r_name r) s) = Some s' → table s' !! c = Some e →
      table s !! c = Some e ∨ e = length (heap s)) as Hins.
    { intros s1 [= <-]. simpl. intros [[<- <-]|[_ ?]]%lookup_insert_Some; auto. }
    destruct (r_pc r); simplify_eq; try (left; exact Ht); try by eapply Hins.
    + destruct ok; simplify_eq; [left; exact Ht|]. case_decide; simplify_eq. left; exact Ht.
    + destruct (table s !! r_name r) eqn:En; [simplify_eq; left; exact Ht|by eapply Hins].
    + destruct (entry_drained old s); simplify_eq. left; exact Ht.
  - unfold start_begin in Hs. destruct (live s); simplify_eq. by left.
  - unfold start_launch in Hs. case_decide; simplify_eq. by left.
  - unfold probe_step in Hs. repeat case_match; simplify_eq; by left.
  - unfold exit_step in Hs. repeat case_match; simplify_eq; by left.
  - unfold runtime_step in Hs. repeat case_match; simplify_eq; by left.
Qed.

(** Only its own steps move the event goroutine; an event does not start a wait. *)
Lemma step_handler l s s' :
  step cfg l s = Some s' → l ≠ Handler →
  handler s' = handler s ∨ (handler s = HIdle ∧ ∀ e c, ¬ stopping e c (handler s')).
Proof.
  intros Hs Hl. destruct l; simpl in Hs; try done.
  - right. destruct (handler s) eqn:Eh; simplify_eq. split; [done|]. rewrite Handle_cases.
    unfold ensure, drop. intros e c. repeat case_match; simpl; rewrite ?Eh; by intros [].
  - left. destruct (runs s !! i) as [r|]; [|done]. unfold run_step in Hs. repeat case_match; by simplify_eq.
  - left. unfold start_begin in Hs. case_match; by simplify_eq.
  - left. unfold start_launch in Hs. case_match; by simplify_eq.
  - left. unfold probe_step in Hs. repeat case_match; by simplify_eq.
  - left. unfold exit_step in Hs. repeat case_match; by simplify_eq.
  - left. unfold runtime_step in Hs. repeat case_match; by simplify_eq.
Qed.

Lemma is_handler (l : label) : l = Handler ∨ l ≠ Handler.
Proof. destruct l; auto. Qed.

(** ** What the event goroutine waits for *)

(** The entry it takes down is registered no more, and cancelled if it ever ran. *)
Record draining (s : sys) : Prop := {
  dr_table e c c' : stopping e c (handler s) → table s !! c' ≠ Some e;
  dr_cancel e c x : handler s = HDrain e c → heap s !! e = Some x → e_launched x = true →
    e_cancelled x = true;
}.

Lemma never_launched s e c :
  quiet s → owned s → draining s → stopping e c (handler s) → ¬ to_launch e s.
Proof.
  intros [_ Hq] Ho Hd Hst [Hp|(i & r & Hr & Hpc)].
  - destruct (Hq e Hp) as [c' Hc]. by eapply dr_table.
  - eapply dr_table; [done..|]. by eapply (ow_launch _ Ho).
Qed.

Lemma ages_cancelled s e x x' :
  ages s e x x' → ¬ to_launch e s → (e_launched x = true → e_cancelled x = true) →
  e_launched x' = true → e_cancelled x' = true.
Proof. intros [] Hn Hc; simpl; try done. intros ->. done. Qed.

(** The step of the event goroutine itself. *)
Lemma handler_step_cases s s' :
  handler_step s = Some s' →
  (∀ e c, handler s' = HStop e c → handler s = HDeregister c ∧ table s !! c = Some e ∧
     table s' = delete c (table s)) ∧
  (∀ e c, handler s' = HDrain e c → handler s = HStop e c ∧ s' = set_handler (HDrain e c) (stop_cancel e s)).
Proof.
  unfold handler_step. destruct (handler s) as [|i c|c|e c|e c|c] eqn:Eh; intros Hs; simplify_eq/=.
  - done.
  - destruct (table s !! c) eqn:E; simplify_eq/=; [|done]. split; [|done]. by intros e c' [= <- <-].
  - split; [done|]. by intros e' c' [= <- <-].
  - destruct (entry_drained e s); by simplify_eq/=.
  - done.
Qed.

Lemma step_draining l s s' :
  quiet s → owned s → launch_inv s → draining s → step cfg l s = Some s' → draining s'.
Proof.
  intros Hq Ho Hli Hd Hs. destruct (is_handler l) as [->|Hl].
  - destruct (handler_step_cases s s' Hs) as [Hstop Hdrain]. split.
    + intros e c c' [Hh|Hh] Ht.
      * destruct (Hstop e c Hh) as (_ & Hc & Et). rewrite Et in Ht. apply lookup_delete_Some in Ht as [Hne Ht].
        destruct (li_table _ Hli _ _ Hc) as (x & Hx & <-), (li_table _ Hli _ _ Ht) as (y & Hy & <-). congruence.
      * destruct (Hdrain e c Hh) as [Hh' ->]. simpl in Ht. eapply (dr_table _ Hd); [left|]; done.
    + intros e c x Hh Hx Hla. destruct (Hdrain e c Hh) as [_ ->]. simpl in Hx.
      apply lookup_alter_inv in Hx as [[? _]|(_ & y & _ & ->)]; [done|]. simpl in *. by rewrite Hla.
  - destruct (step_handler l s s' Hs Hl) as [Hh|[_ Hh]].
    + split; rewrite Hh.
      * intros e c c' Hst Ht. destruct (step_table l s s' c' e Hs Ht) as [Ht'|He].
        -- by eapply dr_table.
        -- destruct (ow_stopping _ Ho e c Hst) as (x & Hx & _). apply lookup_lt_Some in Hx. lia.
      * intros e c x' Hd' Hx' Hla.
        assert (stopping e c (handler s)) as Hst by by right.
        destruct (ow_stopping _ Ho e c Hst) as (x & Hx & _).
        destruct (step_ages l s s' e x Hs Hx) as (x1 & Hx1 & Hage).
        assert (x1 = x') as -> by congruence. eapply ages_cancelled; [exact Hage| | |done].
        -- by eapply never_launched.
        -- by eapply dr_cancel.
    + split; [intros e c c' Hst _; by eapply Hh|]. intros e c x Hd' _ _. exfalso. eapply Hh. by right.
Qed.

Lemma calm_draining ls s : calm cfg ls s → draining s.
Proof.
  induction 1 as [|ls l s s' Hc IH Hs Hq]; [by split; simpl; [intros e c c' []|]|].
  destruct (calm_reaches _ _ _ Hc) as [Hr Hq']. eapply step_draining; [done|..|done|done].
  - by eapply calm_owned.
  - by eapply reaches_launch.
Qed.

(** ** Termination *)

(** How many steps the event goroutine is away from its next event. *)
Definition waiting_for (x : entry) : nat :=
  ((if looping x then 1 else 0) + (if e_running x then 1 else 0))%nat.

Definition remaining (s : sys) : nat :=
  match handler s with
  | HIdle => 0
  | HHooks _ => 1
  | HDrain e _ => 2 + match heap s !! e with Some x => waiting_for x | None => 0 end
  | HStop _ _ => 5
  | HDeregister _ => 6
  | HCancel _ _ => 7
  end%nat.

(** The steps that bring it forward: its own, and the exits of the lifecycle and
    of the runtime it waits for. *)
Definition forward (l : label) (s : sys) : Prop :=
  l = Handler ∨ ∃ e c, handler s = HDrain e c ∧ (l = LoopExit e ∨ ∃ failed, l = RuntimeExit e failed).

Lemma ages_waiting s e x x' :
  ages s e x x' → ¬ to_launch e s → (e_launched x = true → e_cancelled x = true) →
  (waiting_for x' ≤ waiting_for x)%nat.
Proof.
  unfold waiting_for. intros [] Hn Hc; simpl; try done.
  - exfalso. unfold looping in *. destruct (e_launched x0); simpl in *; [|done].
    rewrite Hc in H0; done.
  - unfold looping in *. simpl. rewrite andb_false_r. destruct (e_launched x0); simpl; lia.
  - unfold looping. simpl. destruct (e_running x0); lia.
Qed.

Lemma handler_remaining s s' : handler_step s = Some s' → (remaining s' < remaining s)%nat.
Proof.
  unfold handler_step, remaining. destruct (handler s) as [|i c|c|e c|e c|c]; intros Hs; simplify_eq/=.
  - lia.
  - destruct (table s !! c); simplify_eq/=; lia.
  - case_match; [|lia]. unfold waiting_for. repeat case_match; lia.
  - destruct (entry_drained e s); simplify_eq/=. lia.
  - lia.
Qed.

Lemma exit_waiting s e l s' :
  l = LoopExit e ∨ (∃ failed, l = RuntimeExit e failed) → step cfg l s = Some s' →
  ∃ x x', heap s !! e = Some x ∧ heap s' !! e = Some x' ∧ (waiting_for x' < waiting_for x)%nat.
Proof.
  intros [->|[failed ->]]; simpl; unfold exit_step, runtime_step, waiting_for;
    (destruct (heap s !! e) as [x|] eqn:Ex; [|done]).
  - destruct (looping x && e_cancelled x) eqn:El; [|done]. intros [= <-]. apply andb_prop in El as [El _].
    exists x, (exit_loop x). simpl. rewrite list_lookup_alter_eq Ex El. split_and!; [done..|].
    unfold looping. simpl. rewrite andb_false_r. lia.
  - destruct (e_running x) eqn:El; [|done]. intros [= <-]. exists x, (stop_runtime failed x).
    simpl. rewrite list_lookup_alter_eq Ex El. split_and!; [done..|]. unfold looping. simpl. lia.
Qed.

(** A step can be taken. *)
Lemma forward_step s :
  owned s → draining s → handler s ≠ HIdle → ∃ l s', forward l s ∧ step cfg l s = Some s'.
Proof.
  intros Ho Hd Hb.
  destruct (handler_step s) as [s'|] eqn:E; [exists Handler, s'; split; [by left|done]|].
  unfold handler_step in E. destruct (handler s) as [|i c|c|e c|e c|c] eqn:Eh; try done.
  { by destruct (table s !! c). }
  assert (stopping e c (handler s)) as Hst by by right.
  destruct (ow_stopping _ Ho e c Hst) as (x & Hx & _).
  pose proof (dr_cancel _ Hd e c x Eh Hx) as Hcan.
  unfold entry_drained in E. rewrite Hx in E. unfold drained in E.
  assert (∀ l, (l = LoopExit e ∨ ∃ failed, l = RuntimeExit e failed) → forward l s) as Hf
    by (intros l Hl; right; by exists e, c).
  destruct (e_launched x && negb (e_exited x)) eqn:El.
  - eexists (LoopExit e), _. split; [apply Hf; by left|]. simpl. unfold exit_step, looping. rewrite Hx El.
    apply andb_prop in El as [El _]. by rewrite Hcan.
  - assert (e_running x = true) as Er
      by (by destruct (e_launched x), (e_exited x), (e_running x); simplify_eq/=).
    eexists (RuntimeExit e false), _. split; [apply Hf; right; eauto|]. simpl. unfold runtime_step.
    by rewrite Hx Er.
Qed.

(** C21. The handling of an event comes to an end: in every calm execution, while the
    event goroutine is busy with a removal it is at most seven steps away from its
    next event, one of those steps can be taken now (its own next step, or the exit
    of the lifecycle or of the runtime it waits for, whose context is cancelled),
    each of them brings it nearer, and no step of any goroutine throws it back. *)
Theorem event_handling_terminates ls s (Hc : calm cfg ls s) (Hb : handler s ≠ HIdle) :
  (0 < remaining s ≤ 7)%nat ∧
  (∃ l s', forward l s ∧ step cfg l s = Some s') ∧
  (∀ l s', step cfg l s = Some s' →
     (remaining s' ≤ remaining s)%nat ∧ (forward l s → (remaining s' < remaining s)%nat)).
Proof.
  destruct (calm_reaches _ _ _ Hc) as [_ Hq]. pose proof (calm_owned _ _ _ Hc) as Ho.
  pose proof (calm_draining _ _ Hc) as Hd. split_and!.
  - unfold remaining. destruct (handler s); try done; lia.
  - unfold remaining, waiting_for. repeat case_match; lia.
  - by apply forward_step.
  - intros l s' Hs. destruct (is_handler l) as [->|Hl].
    { apply handler_remaining in Hs. lia. }
    destruct (step_handler l s s' Hs Hl) as [Hh|[? _]]; [|done].
    destruct (handler s) as [|i c|c|e c|e c|c] eqn:Eh; try done;
      try (unfold remaining; rewrite Hh Eh; split; [lia|intros [?|(e' & c' & ? & _)]; congruence]).
    assert (stopping e c (handler s)) as Hst by by right.
    destruct (ow_stopping _ Ho e c Hst) as (x & Hx & _).
    destruct (step_ages l s s' e x Hs Hx) as (x' & Hx' & Hage).
    unfold remaining. rewrite Hh Eh Hx Hx'. split.
    + apply ages_waiting in Hage; [lia| |by eapply dr_cancel]. by eapply never_launched.
    + intros [?|(e' & c' & Hh' & Hl')]; [done|]. assert (e' = e) as -> by congruence.
      destruct (exit_waiting s e l s' Hl' Hs) as (y & y' & Hy & Hy' & Hlt). simplify_eq. lia.
Qed.

(** ** Outside calm executions *)

(** The event goroutine waits for an entry that runs, was not cancelled and will not
    be: nothing refers to the entry any more. *)
Record hung (e : nat) (c : string) (s : sys) : Prop := {
  hu_handler : handler s = HDrain e c;
  hu_entry : ∃ x, heap s !! e = Some x ∧ looping x = true ∧ e_cancelled x = false;
  hu_table c' : table s !! c' ≠ Some e;
  hu_runs i r : runs s !! i = Some r → r_pc r ≠ RStop e;
}.

(** Where a run can have come from to the [stopEntry] of a replaced entry. *)
Definition stop_origin (s : sys) (i : nat) (pc : run_pc) : Prop :=
  match pc with
  | RStop old => ∃ c, table s !! c = Some old
  | RDrain old => ∃ r, runs s !! i = Some r ∧ r_pc r = RStop old
  | _ => True
  end.

Lemma step_origin l s s' i r :
  step cfg l s = Some s' → runs s' !! i = Some r →
  (∃ q, runs s !! i = Some q ∧ r_pc q = r_pc r) ∨ stop_origin s i (r_pc r).
Proof.
  intros Hs Hi.
  assert (∀ j pc s0, runs s0 = runs s → runs (set_pc j pc s0) !! i = Some r →
    stop_origin s j pc → (∃ q, runs s !! i = Some q ∧ r_pc q = r_pc r) ∨ stop_origin s i (r_pc r)) as Hset.
  { intros j pc s0 E. simpl. rewrite E. intros [[_ Hx]|(-> & y & _ & ->)]%lookup_alter_inv; eauto. }
  assert (runs s' = runs s → ∃ q, runs s !! i = Some q ∧ r_pc q = r_pc r) as Hsame
    by (intros E; rewrite E in Hi; eauto).
  destruct l; simpl in Hs.
  - destruct (handler s); simplify_eq. rewrite Handle_cases in Hi, Hsame. unfold ensure, drop in Hi, Hsame.
    destruct (wants_event ev); [|left; by case_match; apply Hsame].
    case_match; [left; by apply Hsame|].
    simpl in Hi. apply lookup_snoc_Some in Hi as [[_ Hi]|[_ <-]]; [eauto|by right].
  - left. apply Hsame. unfold handler_step in Hs. repeat case_match; by simplify_eq.
  - destruct (runs s !! i0) as [q|] eqn:Eq; [|done]. unfold run_step in Hs.
    assert (∀ name, s' = insert_entry cfg i0 name s →
      (∃ q, runs s !! i = Some q ∧ r_pc q = r_pc r) ∨ stop_origin s i (r_pc r)) as Hins.
    { intros name ->. unfold insert_entry in Hi. eapply Hset; [|exact Hi|]; [done|]. by destruct (live s). }
    destruct (r_pc q) eqn:Epc; simplify_eq; try (eapply Hins; reflexivity);
      try (by (eapply Hset; [|exact Hi|])).
    + eapply Hset; [|exact Hi|]; [done|]. by repeat case_match.
    + destruct ok; simplify_eq; [|case_decide; simplify_eq; by eapply Hset; [|exact Hi|]].
      simpl in Hi. apply list_lookup_insert_Some in Hi as [(_ & <- & _)|[_ Hi]]; [by right|eauto].
    + destruct (table s !! r_name q) as [old|] eqn:Eo; simplify_eq; [|eapply Hins; reflexivity].
      eapply Hset; [|exact Hi|]; [done|]. by exists (r_name q).
    + eapply Hset; [|exact Hi|]; [done|]. by exists q.
    + destruct (entry_drained old s); simplify_eq. by eapply Hset; [|exact Hi|].
  - left. apply Hsame. unfold start_begin in Hs. case_match; by simplify_eq.
  - left. apply Hsame. unfold start_launch in Hs. case_match; by simplify_eq.
  - left. apply Hsame. unfold probe_step in Hs. repeat case_match; by simplify_eq.
  - left. apply Hsame. unfold exit_step in Hs. repeat case_match; by simplify_eq.
  - left. apply Hsame. unfold runtime_step in Hs. repeat case_match; by simplify_eq.
Qed.

Lemma step_stops e l s s' i r :
  step cfg l s = Some s' → (∀ c, table s !! c ≠ Some e) →
  (∀ i r, runs s !! i = Some r → r_pc r ≠ RStop e) →
  runs s' !! i = Some r → r_pc r ≠ RStop e.
Proof.
  intros Hs Ht Hr Hi Hpc. destruct (step_origin l s s' i r Hs Hi) as [(q & Hq & E)|Ho].
  - eapply Hr; [exact Hq|congruence].
  - rewrite Hpc in Ho. destruct Ho as [c Hc]. by eapply Ht.
Qed.

Lemma step_hung e c l s s' : hung e c s → step cfg l s = Some s' → hung e c s'.
Proof.
  intros [Hh (x & Hx & Hl & Hc) Ht Hr] Hs. destruct (is_handler l) as [->|Hlab].
  { simpl in Hs. unfold handler_step, entry_drained, drained, looping in *. rewrite Hh Hx in Hs.
    by destruct (e_launched x), (e_exited x). }
  split.
  - destruct (step_handler l s s' Hs Hlab) as [->|[? _]]; [done|congruence].
  - destruct (step_ages l s s' e x Hs Hx) as (x' & Hx' & Hage). exists x'. split; [done|].
    destruct Hage as [x|x _|x [[c' Hst]|(i & r & Hi & Hpc)]|x err now built _ _|x _ Hcc|x failed _]; simpl;
      try done; try congruence.
    + unfold looping in *. simpl. by destruct (e_launched x), (e_exited x).
    + by destruct (Hr i r Hi).
  - intros c' Hc'. destruct (step_table l s s' c' e Hs Hc') as [?|He]; [by eapply Ht|].
    apply lookup_lt_Some in Hx. lia.
  - intros i r. by eapply step_stops.
Qed.

Lemma hung_forever e c ls s s' : hung e c s → exec cfg ls s = Some s' → hung e c s'.
Proof.
  revert s. induction ls as [|l ls IH]; intros s Hh; simpl; [by intros [= <-]|].
  destruct (step cfg l s) as [s1|] eqn:E; [|done]. apply IH. by eapply step_hung.
Qed.
End progress.

(** A cluster that was registered before the manager started is dropped while
    [Start] goes through its snapshot: [stopEntry] finds no [cancel] to call, the
    launch follows, and the second look at [cancel] makes the removal wait for a
    lifecycle that nobody stops. No event is handled any more. *)
Definition ex_hang : list label :=
  [ex_event EventRegister true; Run 0 true; Run 0 true; StartManager; ex_event EventDeregister false;
   Handler; Handler; Handler; StartLaunch 0].

Lemma removal_hangs :
  ∃ ls s, reaches defaults ls s ∧ handler s = HDrain 0 "eu-1" ∧
    ∀ ls' s', exec defaults ls' s = Some s' → handler s' = HDrain 0 "eu-1".
Proof.
  exists (rev ex_hang), (final (exec defaults ex_hang init)).
  assert (hung 0 "eu-1" (final (exec defaults ex_hang init))) as Hh.
  { split; [vm_refl| | |].
    - eexists. split_and!; vm_compute; reflexivity.
    - intros c' Hc. assert (table (final (exec defaults ex_hang init)) = ∅) as E by vm_refl.
      rewrite E lookup_empty in Hc. discriminate Hc.
    - intros i r Hi Hpc. assert (Forall (λ r, r_pc r = RDone) (runs (final (exec defaults ex_hang init)))) as E
        by (repeat constructor).
      rewrite (Forall_lookup_1 _ _ _ _ E Hi) in Hpc. discriminate Hpc. }
  split; [apply final_reaches; vm_refl|]. split; [exact (hu_handler _ _ _ Hh)|].
  intros ls' s' He. exact (hu_handler _ _ _ (hung_forever defaults _ _ _ _ _ Hh He)).
Qed.

(** ** Witness *)

Definition ex_draining : list label := ex_life ++ take 4 ex_drop.

Lemma event_handling_witness :
  calm defaults (rev ex_draining) (final (exec_quiet defaults ex_draining init)) ∧
  remaining (final (exec_quiet defaults ex_draining init)) = 4%nat ∧
  ∃ l s', forward l (final (exec_quiet defaults ex_draining init)) ∧
    step defaults l (final (exec_quiet defaults ex_draining init)) = Some s'.
Proof.
  assert (calm defaults (rev ex_draining) (final (exec_quiet defaults ex_draining init))) as Hc
    by (apply final_calm; vm_refl).
  split; [exact Hc|]. split; [vm_refl|].
  refine (proj1 (proj2 (event_handling_terminates defaults _ _ Hc _))).
  intros H. apply (f_equal (λ h, match h with HIdle => true | _ => false end)) in H.
  vm_compute in H. discriminate H.
Defined.
