(* ===== verification/Shutdown.v ===== *)
(** The end of the process: the context that cmd/main.go hands to the wirer and to
    the cluster manager is done, which cancels every bootstrap and every launched
    entry at once, those that come later included. What is running then comes to an
    end, whatever the interleaving, and [Start] of the manager returns. *)
From S2P Require Import Prelude GoLib Api Unstructured Discovery Cluster Wirer WirerProgress.
Import Tracker.

#[local] Open Scope list_scope.

(** ** The context of the process *)

(** [ended] is [ctx.Err() != nil]. *)
Record process := { base : sys; ended : bool }.

(** The contexts derived from it are done with it: those of all bootstraps, and those
    of all launched entries. *)
Definition cancel_all (s : sys) : sys :=
  let s' := set_heap (map cancelled_entry (heap s)) s in
  {| spokes := spokes s'; cancelled := set_seq 0 (length (runs s')); runs := runs s';
     handler := handler s'; live := live s'; pending := pending s'; table := table s';
     heap := heap s'; gone := gone s' |}.

Inductive process_label := Step (l : label) | EndContext.

Section shutdown.
Context (cfg : settings).

(** A context derived from one that is done is done from the start. *)
Definition process_step (l : process_label) (p : process) : option process :=
  match l with
  | EndContext => if ended p then None else Some {| base := cancel_all (base p); ended := true |}
  | Step l =>
      s' ← step cfg l (base p);
      Some {| base := if ended p then cancel_all s' else s'; ended := ended p |}
  end.

Inductive process_reaches : process → Prop :=
  | process_init : process_reaches {| base := init; ended := false |}
  | process_more l p p' :
      process_reaches p → process_step l p = Some p' → process_reaches p'.

Fixpoint process_exec (ls : list process_label) (p : process) : option process :=
  match ls with
  | [] => Some p
  | l :: ls' => p' ← process_step l p; process_exec ls' p'
  end.

(** The last lines of [Start]: the context is done, everything pending is launched,
    and the wait group, which counts the lifecycles, is at zero. *)
Definition Start_returns (p : process) : bool :=
  ended p && live (base p) && bool_decide (pending (base p) = ∅)
  && forallb (λ x, negb (looping x)) (heap (base p)).

(** Nothing of the wirer or of the manager is running. *)
Definition at_rest (s : sys) : Prop :=
  handler s = HIdle ∧ (∀ i r, runs s !! i = Some r → r_pc r = RDone) ∧
  live s = true ∧ pending s = ∅ ∧
  ∀ e x, heap s !! e = Some x → looping x = false ∧ e_running x = false.

(** ** Invariants *)

(** What waits, waits for an entry that exists. *)
Record waits_valid (s : sys) : Prop := {
  wv_handler e c : stopping e c (handler s) → is_Some (heap s !! e);
  wv_run i r e : runs s !! i = Some r → r_pc r = RStop e ∨ r_pc r = RDrain e → is_Some (heap s !! e);
}.

Lemma step_waits l s s' : launch_inv s → waits_valid s → step cfg l s = Some s' → waits_valid s'.
Proof.
  intros Hli [Hh Hr] Hs.
  assert (∀ e, is_Some (heap s !! e) → is_Some (heap s' !! e)) as Hmono.
  { intros e [x Hx]. destruct (step_ages cfg l s s' e x Hs Hx) as (x' & ? & _). eauto. }
  assert (∀ c e, table s !! c = Some e → is_Some (heap s !! e)) as Ht.
  { intros c e Hc. destruct (li_table _ Hli c e Hc) as (x & ? & _). eauto. }
  split.
  - intros e c Hst. apply Hmono. destruct (is_handler l) as [->|Hl].
    + destruct (handler_step_cases s s' Hs) as [Hstop Hdrain]. destruct Hst as [Hst|Hst].
      * destruct (Hstop e c Hst) as (_ & Hc & _). eauto.
      * destruct (Hdrain e c Hst) as [Hc _]. eapply Hh. by left.
    + destruct (step_handler cfg l s s' Hs Hl) as [E|[_ Hn]]; [|by destruct (Hn e c)].
      rewrite E in Hst. by eapply Hh.
  - intros i r e Hi Hpc. apply Hmono.
    destruct (step_origin cfg l s s' i r Hs Hi) as [(q & Hq & E)|Ho].
    + eapply Hr; [exact Hq|]. by rewrite E.
    + destruct Hpc as [E|E]; rewrite E in Ho; simpl in Ho.
      * destruct Ho as [c Hc]. by eapply Ht.
      * destruct Ho as (q & Hq & Eq). eapply Hr; [exact Hq|by left].
Qed.

(** Everything that was started is cancelled. *)
Record all_cancelled (s : sys) : Prop := {
  ac_runs i r : runs s !! i = Some r → i ∈ cancelled s;
  ac_heap e x : heap s !! e = Some x → e_launched x = true → e_cancelled x = true;
}.

Lemma cancel_all_cancelled s : all_cancelled (cancel_all s).
Proof.
  split; simpl.
  - intros i r Hi%lookup_lt_Some. apply elem_of_set_seq. lia.
  - intros e x. rewrite list_lookup_fmap. intros (y & _ & ->)%fmap_Some. simpl. by intros ->.
Qed.

Lemma cancel_all_launch s : launch_inv s → launch_inv (cancel_all s).
Proof.
  intros Hi. eapply launch_inv_kept; [exact Hi|]. split; simpl; try done; [|apply length_map].
  intros e x'. rewrite list_lookup_fmap. intros (x & Hx & ->)%fmap_Some. exists x.
  split_and!; [done..|]. unfold untouched. simpl. intros (Hl & ? & ? & ? & ?). by rewrite Hl.
Qed.

Lemma cancel_all_waits s : waits_valid s → waits_valid (cancel_all s).
Proof.
  intros [Hh Hr]. split; simpl; [intros e c H|intros i r e H H'];
    rewrite list_lookup_fmap fmap_is_Some; eauto.
Qed.

Lemma process_invariant p :
  process_reaches p →
  launch_inv (base p) ∧ waits_valid (base p) ∧ (ended p = true → all_cancelled (base p)).
Proof.
  induction 1 as [|l p p' _ (Hl & Hw & Hc) Hs].
  - split_and!; [|split; simpl|done].
    + eapply (reaches_launch cfg []). constructor.
    + by intros e c [].
    + done.
  - destruct l as [l|]; simpl in Hs.
    + destruct (step cfg l (base p)) as [s'|] eqn:E; [|done]. simpl in Hs. simplify_eq. simpl.
      assert (launch_inv s') by (by apply (step_launch cfg l (base p))).
      assert (waits_valid s') by (by apply (step_waits l (base p))).
      destruct (ended p); split_and!; auto using cancel_all_launch, cancel_all_waits,
        cancel_all_cancelled. done.
    + destruct (ended p); [done|]. simplify_eq. simpl.
      auto using cancel_all_launch, cancel_all_waits, cancel_all_cancelled.
Qed.

(** ** What is left to do *)

Definition run_left (pc : run_pc) : nat :=
  match pc with
  | RWait => 8 | RTry => 7 | RRegister => 6 | RStop _ => 5 | RDrain _ => 4 | RInsert => 3
  | RLaunch _ => 2 | RDone => 0
  end.

Definition handler_left (h : handler_pc) : nat :=
  match h with
  | HCancel _ _ => 5 | HDeregister _ => 4 | HStop _ _ => 3 | HDrain _ _ => 2 | HHooks _ => 1
  | HIdle => 0
  end.

(** The steps that the goroutines of a process whose context is done can still take. *)
Definition left_to_do (s : sys) : nat :=
  sum_list_with (λ r, run_left (r_pc r)) (runs s) + handler_left (handler s)
  + sum_list_with waiting_for (heap s) + 2 * size (pending s)
  + (if live s then 0 else 1 + 2 * size (table s)).

Lemma sum_alter_S {A} (g : A → nat) f i y (l : list A) :
  sum_list_with g (alter f (S i) (y :: l)) = g y + sum_list_with g (alter f i l).
Proof. reflexivity. Qed.

Lemma sum_alter {A} (g : A → nat) f i (l : list A) x :
  l !! i = Some x → sum_list_with g (alter f i l) + g x = sum_list_with g l + g (f x).
Proof.
  revert i. induction l as [|y l IH]; intros [|i] Hi; simpl in Hi; simplify_eq; [simpl; lia|].
  rewrite sum_alter_S. specialize (IH i Hi). cbn [sum_list_with]. lia.
Qed.

Lemma sum_alter_None {A} (g : A → nat) f i (l : list A) :
  l !! i = None → sum_list_with g (alter f i l) = sum_list_with g l.
Proof.
  revert i. induction l as [|y l IH]; intros [|i] Hi; simpl in Hi; simplify_eq; [done..|].
  by rewrite sum_alter_S IH.
Qed.

Lemma sum_alter_le {A} (g : A → nat) f i (l : list A) n :
  (∀ x, l !! i = Some x → g (f x) ≤ n + g x) → sum_list_with g (alter f i l) ≤ n + sum_list_with g l.
Proof.
  intros H. destruct (l !! i) as [x|] eqn:E.
  - pose proof (sum_alter g f i l x E). specialize (H x eq_refl). lia.
  - rewrite sum_alter_None //. lia.
Qed.

Lemma waiting_cancelled x : waiting_for (cancelled_entry x) = waiting_for x.
Proof. done. Qed.

Lemma cancel_all_left s : left_to_do (cancel_all s) = left_to_do s.
Proof.
  unfold left_to_do. simpl.
  assert (sum_list_with waiting_for (map cancelled_entry (heap s)) = sum_list_with waiting_for (heap s))
    as -> by (induction (heap s) as [|x l IH]; simpl; rewrite ?IH; done). done.
Qed.

(** A run moves to another point. *)
Lemma set_pc_left i pc s r :
  runs s !! i = Some r →
  left_to_do (set_pc i pc s) + run_left (r_pc r) = left_to_do s + run_left pc.
Proof.
  intros Hi. unfold left_to_do. simpl.
  pose proof (sum_alter (λ r, run_left (r_pc r))
    (λ r, {| r_name := r_name r; r_pc := pc; r_delay := r_delay r |}) i (runs s) r Hi). simpl in *. lia.
Qed.

Lemma upd_entry_left n e f s :
  (∀ x, heap s !! e = Some x → waiting_for (f x) ≤ n + waiting_for x) →
  left_to_do (upd_entry e f s) ≤ n + left_to_do s.
Proof.
  intros H. unfold left_to_do. simpl. pose proof (sum_alter_le waiting_for f e (heap s) n H). lia.
Qed.

Lemma upd_entry_less e f s x :
  heap s !! e = Some x → waiting_for (f x) < waiting_for x →
  left_to_do (upd_entry e f s) < left_to_do s.
Proof.
  intros Hx Hf. unfold left_to_do. simpl. pose proof (sum_alter waiting_for f e (heap s) x Hx). lia.
Qed.

Lemma waiting_launched x : waiting_for (launched x) ≤ 1 + waiting_for x.
Proof. unfold waiting_for. simpl. repeat case_match; lia. Qed.

Lemma insert_entry_left i name s r :
  runs s !! i = Some r → 3 ≤ run_left (r_pc r) →
  left_to_do (insert_entry cfg i name s) < left_to_do s.
Proof.
  intros Hi Hr. unfold insert_entry.
  set (s1 := set_table _ _). assert (runs s1 !! i = Some r) as Hi1 by done.
  pose proof (set_pc_left i (if live s then RLaunch (length (heap s)) else RDone) s1 r Hi1) as Hp.
  assert (left_to_do s1 ≤ left_to_do s + if live s then 0 else 2) as H1.
  { unfold left_to_do, s1. simpl. rewrite sum_list_with_app. simpl. destruct (live s); [lia|].
    rewrite map_size_insert. destruct (table s !! name); simpl; lia. }
  destruct (live s); simpl in Hp; lia.
Qed.

Lemma run_step_left i r ok s s' :
  all_cancelled s → runs s !! i = Some r → run_step cfg i r ok s = Some s' →
  left_to_do s' < left_to_do s.
Proof.
  intros Hc Hi. pose proof (ac_runs _ Hc i r Hi) as Hcan.
  assert (∀ pc s1, runs s1 = runs s → left_to_do s1 + run_left pc < left_to_do s + run_left (r_pc r) →
    left_to_do (set_pc i pc s1) < left_to_do s) as Hmove.
  { intros pc s1 E Hlt. pose proof (set_pc_left i pc s1 r) as Hp. rewrite E in Hp. specialize (Hp Hi). lia. }
  unfold run_step. destruct (r_pc r) as [| | |old|old| |e|] eqn:Epc; intros Hs; simplify_eq.
  - rewrite decide_True //. apply Hmove; [done|]. destruct ok; simpl; lia.
  - destruct ok; [|case_decide; simplify_eq; apply Hmove; [done|simpl; lia]].
    simplify_eq. unfold left_to_do. simpl.
    pose proof (sum_alter (λ r, run_left (r_pc r)) (λ _, {| r_name := r_name r; r_pc := RTry;
      r_delay := if (run_maxDelay <? int64 (r_delay r * 2))%Z then run_maxDelay
                 else int64 (r_delay r * 2) |}) i (runs s) r Hi) as H.
    rewrite list_insert_alter. simpl in H. rewrite Epc in H. simpl in H. lia.
  - destruct (table s !! r_name r); simplify_eq; [apply Hmove; [done|simpl; lia]|].
    eapply insert_entry_left; [exact Hi|]. rewrite Epc. simpl. lia.
  - apply Hmove; [done|].
    pose proof (upd_entry_left 0 old cancelled_entry s (λ x _, Nat.le_refl _)). unfold stop_cancel.
    simpl run_left. unfold cancelled_entry in *. lia.
  - destruct (entry_drained old s); simplify_eq. apply Hmove; [done|simpl; lia].
  - eapply insert_entry_left; [exact Hi|]. rewrite Epc. simpl. lia.
  - apply Hmove; [done|].
    pose proof (upd_entry_left 1 e launched s (λ x _, waiting_launched x)). unfold launch.
    simpl run_left. unfold launched in *. lia.
Qed.

Lemma handler_step_left s s' : handler_step s = Some s' → left_to_do s' < left_to_do s.
Proof.
  unfold handler_step. destruct (handler s) as [|i c|c|e c|e c|c] eqn:Eh; intros Hs; simplify_eq.
  - unfold left_to_do. rewrite Eh. simpl. lia.
  - destruct (table s !! c) eqn:E; simplify_eq; unfold left_to_do; simpl; rewrite Eh; simpl.
    + pose proof (map_size_delete_Some c (table s) (ex_intro _ _ E)). destruct (live s); lia.
    + lia.
  - pose proof (upd_entry_left 0 e cancelled_entry s (λ x _, Nat.le_refl _)) as H.
    unfold left_to_do in *. simpl in *. rewrite Eh in H |- *. simpl in *.
    unfold cancelled_entry in H. lia.
  - destruct (entry_drained e s); simplify_eq. unfold left_to_do. rewrite Eh. simpl. lia.
  - unfold left_to_do. rewrite Eh. simpl. lia.
Qed.

Lemma size_pending (t : gmap string nat) :
  size (list_to_set (map_to_list t).*2 : gset nat) ≤ size t.
Proof.
  rewrite -length_map_to_list -(length_fmap snd).
  induction ((map_to_list t).*2) as [|e l IH]; simpl; [done|].
  rewrite size_union_alt size_singleton.
  pose proof (subseteq_size (list_to_set l ∖ {[e]}) (list_to_set l : gset nat) ltac:(set_solver)). lia.
Qed.

Lemma start_begin_left s s' : start_begin s = Some s' → left_to_do s' < left_to_do s.
Proof.
  unfold start_begin. destruct (live s) eqn:E; [done|]. intros [= <-].
  unfold left_to_do. simpl. rewrite E. pose proof (size_pending (table s)). lia.
Qed.

Lemma start_launch_left e s s' : start_launch e s = Some s' → left_to_do s' < left_to_do s.
Proof.
  unfold start_launch. case_decide as Hin; [|done]. intros [= <-].
  set (s1 := set_live (pending s ∖ {[e]}) s).
  pose proof (upd_entry_left 1 e launched s1 (λ x _, waiting_launched x)) as H.
  assert (left_to_do s1 + 2 ≤ left_to_do s) as H1.
  { unfold s1, left_to_do. simpl. rewrite size_difference; [set_solver|]. rewrite size_singleton.
    assert (1 ≤ size (pending s)); [|lia]. rewrite -(size_singleton (C := gset nat) e).
    apply subseteq_size. set_solver. }
  unfold launch. unfold launched in H. lia.
Qed.

Lemma exit_less x : looping x = true → waiting_for (exit_loop x) < waiting_for x.
Proof. unfold waiting_for. intros ->. unfold looping. simpl. rewrite andb_false_r. lia. Qed.

(** Every step is one step less to do. *)
Lemma step_left l s s' :
  all_cancelled s → (∀ ev, l ≠ Event ev) → step cfg l s = Some s' → left_to_do s' < left_to_do s.
Proof.
  intros Hc Hl Hs. destruct l; simpl in Hs.
  - by destruct (Hl ev).
  - by apply handler_step_left.
  - destruct (runs s !! i) as [r|] eqn:E; [|done]. by eapply run_step_left.
  - by apply start_begin_left.
  - by eapply start_launch_left.
  - unfold probe_step in Hs. destruct (heap s !! e) as [x|] eqn:E; [|done].
    destruct (looping x) eqn:El; simplify_eq.
    assert (e_cancelled x = true) as -> by (eapply (ac_heap _ Hc e x E); by apply andb_prop in El as [? _]).
    by eapply upd_entry_less, exit_less.
  - unfold exit_step in Hs. destruct (heap s !! e) as [x|] eqn:E; [|done].
    destruct (looping x && e_cancelled x) eqn:El; simplify_eq. apply andb_prop in El as [El _].
    by eapply upd_entry_less, exit_less.
  - unfold runtime_step in Hs. destruct (heap s !! e) as [x|] eqn:E; [|done].
    destruct (e_running x) eqn:El; simplify_eq. eapply upd_entry_less; [exact E|].
    unfold waiting_for, looping. simpl. rewrite El. lia.
Qed.

(** ** Nothing gets stuck *)

Definition stopped (x : entry) : Prop := looping x = false ∧ e_running x = false.

Lemma stopped_drained s e :
  Forall stopped (heap s) → is_Some (heap s !! e) → entry_drained e s = true.
Proof.
  intros Hf [x Hx]. unfold entry_drained. rewrite Hx.
  destruct (Forall_lookup_1 _ _ _ _ Hf Hx) as [Hl Hr].
  unfold drained, looping in *. rewrite Hr. by destruct (e_launched x), (e_exited x).
Qed.

Lemma handler_moves s :
  waits_valid s → Forall stopped (heap s) → handler s = HIdle ∨ is_Some (handler_step s).
Proof.
  intros Hw Hf. unfold handler_step. destruct (handler s) as [|i c|c|e c|e c|c] eqn:Eh; eauto.
  - right. destruct (table s !! c); eauto.
  - right. rewrite stopped_drained //. eapply wv_handler; [done|]. right. exact Eh.
Qed.

Lemma run_moves i r s :
  waits_valid s → Forall stopped (heap s) → runs s !! i = Some r →
  r_pc r = RDone ∨ is_Some (run_step cfg i r true s).
Proof.
  intros Hw Hf Hi. unfold run_step. destruct (r_pc r) as [| | |old|old| |e|] eqn:Epc; eauto.
  - right. destruct (table s !! r_name r); eauto.
  - right. rewrite stopped_drained //. eapply wv_run; [done|exact Hi|auto].
Qed.

Lemma rest_or_step s :
  waits_valid s → all_cancelled s →
  at_rest s ∨ ∃ l, (∀ ev, l ≠ Event ev) ∧ is_Some (step cfg l s).
Proof.
  intros Hw Hc.
  destruct (decide (Forall stopped (heap s))) as [Hf|Hf].
  2: { right. apply not_Forall_Exists in Hf; [|apply _].
       apply Exists_exists in Hf as (x & [e Hx]%list_elem_of_lookup & Hn).
       assert (¬ stopped x) as Hn' by exact Hn. unfold stopped in Hn'. destruct (looping x) eqn:El.
       - exists (LoopExit e). split; [done|]. simpl. unfold exit_step. rewrite Hx El.
         apply andb_prop in El as [El _]. rewrite (ac_heap _ Hc e x Hx El). simpl. eauto.
       - exists (RuntimeExit e false). split; [done|]. simpl. unfold runtime_step. rewrite Hx.
         destruct (e_running x); [eauto|]. by destruct Hn'. }
  destruct (live s) eqn:Hlv.
  2: { right. exists StartManager. split; [done|]. simpl. unfold start_begin. rewrite Hlv. eauto. }
  destruct (decide (pending s = ∅)) as [Hp|Hp].
  2: { right. apply set_choose_L in Hp as [e He]. exists (StartLaunch e). split; [done|]. simpl.
       unfold start_launch. by rewrite decide_True. }
  destruct (handler_moves s Hw Hf) as [Hh|Hh]; [|right; by exists Handler].
  destruct (decide (Forall (λ r, r_pc r = RDone) (runs s))) as [Hr|Hr].
  - left. split_and!; [done| |done..|].
    + intros i r Hi. by apply (Forall_lookup_1 _ _ _ _ Hr Hi).
    + intros e x Hx. by apply (Forall_lookup_1 _ _ _ _ Hf Hx).
  - right. apply not_Forall_Exists in Hr; [|apply _].
    apply Exists_exists in Hr as (r & [i Hi]%list_elem_of_lookup & Hn).
    exists (Run i true). split; [done|]. simpl. rewrite Hi. by destruct (run_moves i r s Hw Hf Hi).
Qed.

(** ** Termination *)

(** No discovery event is delivered any more. *)
Definition no_event (l : process_label) : Prop := ∀ ev, l ≠ Step (Event ev).

Lemma process_step_left l p p' :
  process_reaches p → ended p = true → no_event l → process_step l p = Some p' →
  ended p' = true ∧ left_to_do (base p') < left_to_do (base p).
Proof.
  intros Hr He Hl Hs. destruct (process_invariant p Hr) as (_ & _ & Hc). specialize (Hc He).
  destruct l as [l|]; simpl in Hs; rewrite He in Hs; [|done].
  destruct (step cfg l (base p)) as [s'|] eqn:E; [|done]. simpl in Hs. simplify_eq. simpl.
  split; [done|]. rewrite cancel_all_left. eapply step_left; [exact Hc| |exact E].
  intros ev ->. by destruct (Hl ev).
Qed.

Lemma process_exec_reaches ls p p' :
  process_reaches p → process_exec ls p = Some p' → process_reaches p'.
Proof.
  revert p. induction ls as [|l ls IH]; intros p Hr; simpl; [by intros [= <-]|].
  destruct (process_step l p) as [p1|] eqn:E; [|done]. simpl. apply IH. by econstructor.
Qed.

Lemma process_exec_left ls p p' :
  process_reaches p → ended p = true → Forall no_event ls → process_exec ls p = Some p' →
  ended p' = true ∧ length ls + left_to_do (base p') ≤ left_to_do (base p).
Proof.
  intros Hr He Hf. revert p Hr He. induction Hf as [|l ls Hl _ IH]; intros p Hr He; simpl.
  - by intros [= <-].
  - destruct (process_step l p) as [p1|] eqn:E; [|done]. simpl. intros Hs.
    destruct (process_step_left l p p1 Hr He Hl E) as [He1 Hlt].
    destruct (IH p1 ltac:(by econstructor) He1 Hs). split; [done|]. lia.
Qed.

Lemma rest_returns p : ended p = true → at_rest (base p) → Start_returns p = true.
Proof.
  intros He (_ & _ & Hl & Hp & Hh). unfold Start_returns. rewrite He Hl bool_decide_true //. simpl.
  apply List.forallb_forall. intros x [e Hx]%list_elem_of_In%list_elem_of_lookup.
  by destruct (Hh e x Hx) as [-> _].
Qed.

(** C19. The end of the process: once its context is done, and unless new discovery
    events come in, at most [left_to_do] steps are taken, in whatever order the
    goroutines take them; and from wherever they are, they can go on to a state in which
    no bootstrap, lifecycle or runtime runs, the event goroutine waits for nothing, and
    [Start] of the manager returns. That includes the executions in which the removal
    of a cluster would have waited for ever. *)
Theorem shutdown_terminates p ls p' :
  process_reaches p → ended p = true → Forall no_event ls → process_exec ls p = Some p' →
  length ls ≤ left_to_do (base p) ∧
  ∃ ls' p'', Forall no_event ls' ∧ process_exec ls' p' = Some p'' ∧ at_rest (base p'') ∧
             Start_returns p'' = true.
Proof.
  intros Hr He Hf Hs. destruct (process_exec_left ls p p' Hr He Hf Hs) as [He' Hle].
  split; [lia|]. apply process_exec_reaches in Hs; [|done]. clear - Hs He'.
  remember (left_to_do (base p')) as n eqn:En. revert p' Hs He' En.
  induction n as [n IH] using lt_wf_ind. intros p' Hr He ->.
  destruct (process_invariant p' Hr) as (_ & Hw & Hc).
  destruct (rest_or_step (base p') Hw (Hc He)) as [Hrest|(l & Hl & s' & Hs)].
  { exists [], p'. split_and!; auto using rest_returns. }
  destruct (process_step (Step l) p') as [p1|] eqn:E; [|by rewrite /= Hs in E].
  assert (no_event (Step l)) as Hn by (intros ev [= ->]; by destruct (Hl ev)).
  destruct (process_step_left _ _ _ Hr He Hn E) as [He1 Hlt].
  destruct (IH _ Hlt p1 ltac:(by econstructor) He1 eq_refl) as (ls' & p'' & Hf' & Hx & Hrest & Hst).
  exists (Step l :: ls'), p''. split_and!; [by constructor| |done..]. rewrite /= -/(process_step (Step l) p') E. exact Hx.
Qed.
End shutdown.

(** ** Concrete executions *)

Definition start : process := {| base := init; ended := false |}.

Definition ended_process (ls : list label) (more : list process_label) : option process :=
  process_exec defaults (map Step ls ++ EndContext :: more) start.

(** [Start] does not wait for the runtimes, although it is documented to: the wait
    group counts the lifecycles, and the goroutine that runs a runtime is not one. *)
Example Start_returns_before_the_runtime :
  option_map (λ p, (Start_returns p, map e_running (heap (base p))))
    (ended_process ex_life [Step (LoopExit 0)]) = Some (true, [true]).
Proof. vm_compute. reflexivity. Qed.

Lemma ended_reaches ls more :
  match ended_process ls more with Some _ => true | None => false end = true →
  process_reaches defaults (default start (ended_process ls more)).
Proof.
  destruct (ended_process ls more) as [p|] eqn:E; [|done]. intros _.
  eapply process_exec_reaches; [|exact E]. constructor.
Qed.

Definition ex_end : process := default start (ended_process ex_hang []).

(** The removal that hangs comes to an end with the process. *)
Lemma shutdown_witness :
  handler (base ex_end) = HDrain 0 "eu-1"%string ∧ left_to_do (base ex_end) = 3%nat ∧
  ∃ ls' p'', Forall no_event ls' ∧ process_exec defaults ls' ex_end = Some p'' ∧
    at_rest (base p'') ∧ Start_returns p'' = true.
Proof.
  assert (process_reaches defaults ex_end) as Hr by (apply ended_reaches; vm_refl).
  assert (ended ex_end = true) as He by vm_refl.
  split; [vm_refl|]. split; [vm_refl|].
  exact (proj2 (shutdown_terminates defaults ex_end [] ex_end Hr He (Forall_nil_2 _) eq_refl)).
Defined.
