(* ===== verification/Wiring.v ===== *)
(** [main] of cmd/main.go: the command-line flags with their defaults, what it makes
    of them, and the order in which it builds the parts of the operator. The calls
    into controller-runtime and client-go are the stages of [main]; which of them
    return an error is a parameter. *)
From S2P Require Import Telemetry.
From S2P Require Import Prelude GoLib Sha256 Api Unstructured Render Discovery Cluster Main.
From S2P Require Import Labels Annotations Policy Backoff Drift Transport Engine Payloads Wirer.
From S2P Require Import GoHeap DeepCopy.
Import Bootstrap Kinds.

#[local] Open Scope string_scope.
#[local] Open Scope list_scope.

(** ** Flags *)

Record Flags := {
  metricsAddr : string;
  metricsCertPath : string; metricsCertName : string; metricsCertKey : string;
  webhookCertPath : string; webhookCertName : string; webhookCertKey : string;
  enableLeaderElection : bool;
  probeAddr : string;
  secureMetrics : bool;
  enableHTTP2 : bool;
  discoveryProviderName : string;
  discoverySettings : gmap string string;
  fl_hubName : string;
  allowedKinds : string;
  stripMetadataKeys : list string;
  spokeResync : Z;
}.

Definition default_flags : Flags := {|
  metricsAddr := "0";
  metricsCertPath := ""; metricsCertName := "tls.crt"; metricsCertKey := "tls.key";
  webhookCertPath := ""; webhookCertName := "tls.crt"; webhookCertKey := "tls.key";
  enableLeaderElection := false;
  probeAddr := ":8081";
  secureMetrics := true;
  enableHTTP2 := false;
  discoveryProviderName := "cluster-api";
  discoverySettings := ∅;
  fl_hubName := "hub";
  allowedKinds := "secrets,configmaps";
  stripMetadataKeys := [];
  spokeResync := 0;
|}.

(** ** Options *)

(** The part of [tls.Config] that is set. *)
Definition TLSConfig := list string.
Definition disableHTTP2 (_ : TLSConfig) : TLSConfig := ["http/1.1"].

Definition tlsOpts (f : Flags) : list (TLSConfig → TLSConfig) :=
  if enableHTTP2 f then [] else [disableHTTP2].

Record ServerOptions := {
  BindAddress : string;
  SecureServing : bool;
  FilterProvider : bool;
  TLSOpts : list (TLSConfig → TLSConfig);
  CertDir : string; CertName : string; KeyName : string;
}.

Definition webhookServerOptions (f : Flags) : ServerOptions :=
  let given := bool_decide (webhookCertPath f ≠ "") in
  {| BindAddress := ""; SecureServing := false; FilterProvider := false; TLSOpts := tlsOpts f;
     CertDir := if given then webhookCertPath f else "";
     CertName := if given then webhookCertName f else "";
     KeyName := if given then webhookCertKey f else "" |}.

Definition metricsServerOptions (f : Flags) : ServerOptions :=
  let given := bool_decide (metricsCertPath f ≠ "") in
  {| BindAddress := metricsAddr f; SecureServing := secureMetrics f;
     FilterProvider := secureMetrics f; TLSOpts := tlsOpts f;
     CertDir := if given then metricsCertPath f else "";
     CertName := if given then metricsCertName f else "";
     KeyName := if given then metricsCertKey f else "" |}.

Record ManagerOptions := {
  Metrics : ServerOptions;
  WebhookServer : ServerOptions;
  HealthProbeBindAddress : string;
  LeaderElection : bool;
  LeaderElectionID : string;
}.

Definition managerOptions (f : Flags) : ManagerOptions :=
  {| Metrics := metricsServerOptions f; WebhookServer := webhookServerOptions f;
     HealthProbeBindAddress := probeAddr f; LeaderElection := enableLeaderElection f;
     LeaderElectionID := "8180352a.r8r.io" |}.

(** The label set of the spoke caches' default selector. *)
Definition managedSelector : gmap string string := {[ LabelManagedBy := ManagedByValue ]}.

Definition engineOptions (f : Flags) (v : views) : Options :=
  {| opt_HubName := fl_hubName f; opt_FieldManager := ""; DriftResync := spokeResync f;
     BackoffBase := 0; BackoffMax := 0; KindGVKs := Some (kindGVKs v) |}.

(** The function given to [SetClusterSnapshot], over the manager's snapshot with the
    texts of the states. *)
Definition clusterSnapshot (snap : gmap string string) : gmap string Z :=
  ConnectivityValue <$> snap.

(** The function given to [SetDiscoverySnapshot]. *)
Definition discoverySnapshot (name : string) (watching : bool) (records : list ClusterRecord)
    : DiscoveryState :=
  {| ds_Provider := name; ds_Up := watching; ds_Clusters := Z.of_nat (length records) |}.

(** [init]: the kinds of the scheme, those of client-go first. *)
Definition scheme (clientgo : list GroupVersionKind) : list GroupVersionKind := AddToScheme clientgo.

(** ** The stages *)

Inductive stage :=
  | SetStripKeys (keys : list string)
  | NewManager (o : ManagerOptions)
  | NewProvider (name : string) (settings : gmap string string)
  | NewClusterManager (selector : gmap string string)
  | SubscribeWirer (scope : RBACScope)
  | SetDiscoverySnapshot
  | SetClusterSnapshot
  | SetupRequest (allowlist : list GroupVersionKind)
  | SubscribeRequest
  | SetupEngine (fieldManager : string) (o : Options)
  | SetupWebhook
  | AddProvider
  | AddClusterManager
  | AddHealthz
  | AddInformerSync
  | AddReadyz
  | StartManager.

(** The stages whose error ends the process. *)
Definition fallible (x : stage) : bool :=
  match x with
  | SetStripKeys _ | NewClusterManager _ | SubscribeWirer _ | SetDiscoverySnapshot
  | SetClusterSnapshot | SubscribeRequest => false
  | _ => true
  end.

(** [enableWebhooks] is the environment variable ENABLE_WEBHOOKS. *)
Definition stages (enableWebhooks : string) (f : Flags) (v : views) : list stage :=
  [SetStripKeys (stripMetadataKeys f); NewManager (managerOptions f);
   NewProvider (discoveryProviderName f) (discoverySettings f);
   NewClusterManager managedSelector; SubscribeWirer (scope v);
   SetDiscoverySnapshot; SetClusterSnapshot;
   SetupRequest (allowlist v); SubscribeRequest; SetupEngine "k8s-r8r" (engineOptions f v)]
  ++ (if decide (enableWebhooks = "false") then [] else [SetupWebhook])
  ++ [AddProvider; AddClusterManager; AddHealthz; AddInformerSync; AddReadyz; StartManager].

(** Each stage is entered; an error logs and exits with status 1. *)
Fixpoint run_stages (fails : stage → bool) (l : list stage) : list stage * Z :=
  match l with
  | [] => ([], 0%Z)
  | x :: l' =>
      if fallible x && fails x then ([x], 1%Z)
      else let '(tr, code) := run_stages fails l' in (x :: tr, code)
  end.

Definition main (enableWebhooks : string) (f : Flags) (fails : stage → bool) : list stage * Z :=
  match parseAllowedKinds (allowedKinds f) with
  | inl _ => ([], 1%Z)
  | inr v => run_stages fails (stages enableWebhooks f v)
  end.

(** ** Correctness *)

Definition before {A} (x y : A) (l : list A) : Prop :=
  ∃ l1 l2 l3, l = l1 ++ x :: l2 ++ y :: l3.

Lemma run_stages_prefix fails l : (run_stages fails l).1 `prefix_of` l.
Proof.
  induction l as [|x l IH]; simpl; [done|]. case_match; [by exists l|].
  destruct (run_stages fails l) as [tr code]. destruct IH as [k ->]. by exists k.
Qed.

Lemma run_stages_last fails l x :
  x ∉ l → x ∈ (run_stages fails (l ++ [x])).1 →
  (run_stages fails (l ++ [x])).1 = l ++ [x] ∧
  (run_stages fails (l ++ [x])).2 = (if fallible x && fails x then 1 else 0)%Z.
Proof.
  induction l as [|y l IH]; simpl.
  - intros _. by destruct (fallible x && fails x).
  - intros [Hne Hl]%not_elem_of_cons. destruct (fallible y && fails y) eqn:E.
    + intros ->%list_elem_of_singleton. done.
    + destruct (run_stages fails (l ++ [x])) as [tr code]. simpl in *.
      intros [->|Hx]%elem_of_cons; [done|]. by destruct (IH Hl Hx) as [-> ->].
Qed.

Lemma run_stages_zero fails l x :
  (run_stages fails (l ++ [x])).2 = 0%Z → x ∈ (run_stages fails (l ++ [x])).1.
Proof.
  induction l as [|y l IH]; simpl.
  - destruct (fallible x && fails x); [done|]. intros _. left.
  - destruct (fallible y && fails y); [done|]. destruct (run_stages fails (l ++ [x])) as [tr code]. simpl in *.
    intros Hc. right. by apply IH.
Qed.

Lemma parsed_agree raw v : parseAllowedKinds raw = inr v → agree (Split comma raw) v.
Proof.
  unfold parseAllowedKinds. pose proof (parse_parts_agree (Split comma raw) [] no_views agree_nil) as H.
  destruct (parse_parts (Split comma raw) no_views) as [e|v']; [done|]. case_decide; [done|].
  intros [= <-]. rewrite app_nil_l in H. apply H.
Qed.

Lemma stages_start enableWebhooks f v :
  ∃ l, stages enableWebhooks f v = l ++ [StartManager] ∧ StartManager ∉ l.
Proof.
  unfold stages. eexists (_ ++ _ ++ [AddProvider; AddClusterManager; AddHealthz; AddInformerSync; AddReadyz]).
  split; [by rewrite -!app_assoc|]. intros Hin. case_decide; repeat (apply elem_of_app in Hin as [Hin|Hin]);
    rewrite ?elem_of_cons in Hin; decompose [or] Hin; try discriminate; by eapply not_elem_of_nil.
Qed.

(** The order of the stages that depend on each other: handlers are subscribed
    before the provider may run, the denylist is set before any reconciler is, and
    the readiness gate is added before it is asked. *)
Lemma stages_order enableWebhooks f v :
  let l := stages enableWebhooks f v in
  before (SubscribeWirer (scope v)) AddProvider l ∧ before SubscribeRequest AddProvider l ∧
  before (SetStripKeys (stripMetadataKeys f)) (SetupRequest (allowlist v)) l ∧
  before (SetupRequest (allowlist v)) SubscribeRequest l ∧
  before (SetStripKeys (stripMetadataKeys f)) (SetupEngine "k8s-r8r" (engineOptions f v)) l ∧
  before AddInformerSync AddReadyz l ∧
  before (SetupEngine "k8s-r8r" (engineOptions f v)) AddProvider l.
Proof.
  intros l. unfold l, stages. set (w := if decide _ then _ else _).
  set (a := [AddProvider; AddClusterManager; AddHealthz; AddInformerSync; AddReadyz; StartManager]).
  set (req := SetupRequest (allowlist v)). set (eng := SetupEngine "k8s-r8r" (engineOptions f v)).
  split_and!.
  - eexists [_; _; _; _], ([_; _; req; _; eng] ++ w), (tl a). simpl. done.
  - eexists [_; _; _; _; _; _; _; req], ([eng] ++ w), (tl a). simpl. done.
  - eexists [], [_; _; _; _; _; _], ([_; eng] ++ w ++ a). done.
  - eexists [_; _; _; _; _; _; _], [], ([eng] ++ w ++ a). done.
  - eexists [], [_; _; _; _; _; _; req; _], (w ++ a). done.
  - match goal with |- before _ _ (?p ++ w ++ a) =>
      exists (p ++ w ++ [AddProvider; AddClusterManager; AddHealthz]), [], [StartManager] end.
    by rewrite -!app_assoc.
  - eexists [_; _; _; _; _; _; _; req; _], w, (tl a). done.
Qed.

(** C27. A started operator is wired consistently, whatever the library calls answer:
    the manager is started only when --allowed-kinds was understood and every stage
    before it went through, in its order (so no discovery event precedes its
    handlers, and no cluster runtime the engine's hooks), and the process exits with 0 only then; the request controller, the
    engine and the bootstrap's RBAC scope stand for the same kinds; and every
    replica the engine renders under the configured denylist carries the labels the
    spoke caches select, so the drift watch sees it. Every object of the API group is
    of a kind that the scheme knows. *)
Theorem main_wires_consistently `{UL : UnstructuredLaws} enableWebhooks f fails :
  let '(tr, code) := main enableWebhooks f fails in
  (StartManager ∈ tr → ∃ v, parseAllowedKinds (allowedKinds f) = inr v ∧
     tr = stages enableWebhooks f v ∧
     before (SubscribeWirer (scope v)) AddProvider tr ∧ before SubscribeRequest AddProvider tr ∧
     before (SetStripKeys (stripMetadataKeys f)) (SetupEngine "k8s-r8r" (engineOptions f v)) tr ∧
     before (SetupEngine "k8s-r8r" (engineOptions f v)) AddProvider tr ∧
     (∀ gvk, gvk ∈ allowlist v ↔
        KindGVKs (withDefaults (engineOptions f v)) ≫= lookup (gvk_Kind gvk) = Some gvk) ∧
     (∀ gvk, gvk ∈ allowlist v ↔ ∃ resource, supportedKinds !! resource = Some gvk ∧
        {| sr_Group := gvk_Group gvk; sr_Resource := resource |} ∈ scope v)) ∧
  (code = 0%Z → StartManager ∈ tr) ∧
  (∀ cfg src md ns n, wf_obj src md →
     managedSelector ⊆ GetLabels (Render (SetExtraStrippedKeys (stripMetadataKeys f)) cfg src ns n).1) ∧
  (∀ (M : MetaV1) (o : Object) clientgo, {| gvk_Group := GroupVersion.1; gvk_Version := GroupVersion.2;
     gvk_Kind := type_name o |} ∈ scheme clientgo).
Proof.
  assert (∀ (M : MetaV1) (o : Object) clientgo, {| gvk_Group := GroupVersion.1;
    gvk_Version := GroupVersion.2; gvk_Kind := type_name o |} ∈ scheme clientgo) as Hscheme
    by (intros; by apply objects_registered).
  assert (∀ cfg src md ns n, wf_obj src md → managedSelector ⊆
    GetLabels (Render (SetExtraStrippedKeys (stripMetadataKeys f)) cfg src ns n).1) as Hsel.
  { intros cfg src md ns n Hwf. apply map_singleton_subseteq_l.
    rewrite (Render_labels _ _ _ _ _ _ Hwf). by apply lookup_union_Some_l. }
  unfold main. destruct (parseAllowedKinds (allowedKinds f)) as [e|v] eqn:Ev.
  { split; [by intros ?%not_elem_of_nil|]. by split_and!. }
  destruct (stages_start enableWebhooks f v) as (l & El & Hl).
  pose proof (run_stages_last fails l StartManager Hl) as Hlast. rewrite -El in Hlast.
  pose proof (run_stages_zero fails l StartManager) as Hzero. rewrite -El in Hzero.
  destruct (run_stages fails (stages enableWebhooks f v)) as [tr code]. cbn [fst snd] in *.
  split_and!; [|exact Hzero|exact Hsel|exact Hscheme].
  intros Hin. destruct (Hlast Hin) as [-> _]. exists v.
  destruct (stages_order enableWebhooks f v) as (H1 & H2 & _ & _ & H3 & _ & H4).
  destruct (parsed_agree _ _ Ev) as [A1 _ A3 A4]. split_and!; try done.
  - intros gvk. simpl. rewrite A3. naive_solver.
  - intros gvk. split.
    + intros Hg. pose proof Hg as (p & _ & Hp)%A1. exists (entry_name p). split; [done|]. apply A4. eauto.
    + intros (resource & Hr & (g & Hg & Hr' & _)%A4). congruence.
Qed.

(** ** Examples *)

#[local] Existing Instance UnstructuredModel.api.

Definition stage_count (r : list stage * Z) : nat * Z := (length r.1, r.2).

(** The defaults start; a failing second stage, an unknown kind and switched-off
    webhooks. *)
Example main_ex :
  stage_count (main "" default_flags (λ _, false)) = (17%nat, 0%Z) ∧
  stage_count (main "" default_flags (λ x, match x with NewManager _ => true | _ => false end)) = (2%nat, 1%Z) ∧
  stage_count (main "false" default_flags (λ _, false)) = (16%nat, 0%Z) ∧
  map (λ o, o ["h2"]) (tlsOpts default_flags) = [["http/1.1"]] ∧
  clusterSnapshot {[ "eu-1" := "Reachable"; "us-1" := "Degraded"; "ap-1" := "Unreachable" ]} =
    {[ "eu-1" := 2%Z; "us-1" := 1%Z; "ap-1" := 0%Z ]}.
Proof. split_and!; vm_refl. Qed.

#[local] Existing Instance UnstructuredModel.laws.

Lemma main_wires_witness :
  ∃ v, parseAllowedKinds "secrets,configmaps" = inr v ∧
    (main "" default_flags (λ _, false)).1 = stages "" default_flags v ∧
    before SubscribeRequest AddProvider (main "" default_flags (λ _, false)).1.
Proof.
  pose proof (main_wires_consistently "" default_flags (λ _, false)) as H.
  rewrite (surjective_pairing (main "" default_flags (λ _, false))) in H.
  destruct H as (H1 & H2 & _). destruct H1 as (v & Hv & Htr & _ & Hb & _).
  - apply H2. vm_refl.
  - exists v. split; [exact Hv|]. split; [exact Htr|exact Hb].
Defined.
